(** * Abstract SQL query generator: WHERE compiler, SELECT planner and
      mutation builders, embedded from the JavaScript sources

    Sources embedded here:
    - [lib/dialects/abstract/query-generator.js] (stored as
      [src/unnamed/part_000]): [quoteTable], [quoteIdentifiers], [quote],
      [escape], [getQueryOrders], [selectFromTableFragment],
      [joinIncludeQuery], [addLimitAndOffset], [handleSequelizeMethod],
      [whereQuery], [whereItemsQuery], [whereItemQuery],
      [getWhereConditions], [incrementQuery];
    - [lib/dialects/abstract/queries/select.js], [insert.js] and the
      update query stored after [addIndex.js].

    JavaScript values are modelled by [jsval].  Plain objects (the
    condition mappings, which the generator rewrites in place) live in an
    explicit store, the [heap]; every generator function is a computation
    over that store.  Arrays and expression nodes are never written to by
    the sources and are therefore immediate values.  Recursion is bounded
    by a fuel argument. *)

From Stdlib Require Import String Ascii List ZArith Bool Lia DecimalString.
From stdpp Require Import base list.
Import ListNotations.
Local Open Scope string_scope.
Local Open Scope list_scope.

Infix "+:+" := String.append (at level 60, right associativity).

(* ================================================================= *)
(** ** String primitives of the host language *)

Module Str.

(** [s.indexOf(sub)], [None] for -1. *)
Definition indexOf (sub s : string) : option nat := String.index 0 sub s.

Definition contains (sub s : string) : bool :=
  match indexOf sub s with Some _ => true | None => false end.

(** [s.indexOf(sub) === 0] *)
Definition startsWith (sub s : string) : bool := String.prefix sub s.

Fixpoint split_go (sep : string) (skip : nat) (cur : string) (s : string)
  : list string :=
  match s with
  | EmptyString => [cur]
  | String c s' =>
      match skip with
      | S k => split_go sep k cur s'
      | O =>
          if String.prefix sep s
          then cur :: split_go sep (String.length sep - 1) "" s'
          else split_go sep 0 (cur +:+ String c "") s'
      end
  end.

(** [s.split(sep)] for a non-empty separator. *)
Definition split (sep s : string) : list string := split_go sep 0 "" s.

Definition join (sep : string) (l : list string) : string :=
  String.concat sep l.

Definition upper_ascii (c : ascii) : ascii :=
  let n := nat_of_ascii c in
  if (97 <=? n)%nat && (n <=? 122)%nat then ascii_of_nat (n - 32) else c.

(** Upper case of the ASCII letters: what [toUpperCase] does to a
    string of ASCII characters.  The generator itself goes through the
    [toUpperCase] of the environment, see [Env]. *)
Fixpoint toUpperCase (s : string) : string :=
  match s with
  | EmptyString => EmptyString
  | String c s' => String (upper_ascii c) (toUpperCase s')
  end.

(** [s.substr(1, s.length - 2)] *)
Definition stripDelimiters (s : string) : string :=
  String.substring 1 (String.length s - 2) s.

Fixpoint endsWithSemicolon (s : string) : bool :=
  match s with
  | EmptyString => false
  | String c EmptyString => Ascii.eqb c ";"%char
  | String _ s' => endsWithSemicolon s'
  end.

Fixpoint dropLast (s : string) : string :=
  match s with
  | EmptyString => EmptyString
  | String c EmptyString => EmptyString
  | String c s' => String c (dropLast s')
  end.

(** [s.replace(/;$/, '')]: without the multiline flag [$] matches at
    the very end of the input only. *)
Definition stripSemicolon (s : string) : string :=
  if endsWithSemicolon s then dropLast s else s.

Definition string_of_Z (n : Z) : string :=
  NilZero.string_of_int (Z.to_int n).

Fixpoint count (c : ascii) (s : string) : nat :=
  match s with
  | EmptyString => 0
  | String d s' => (if Ascii.eqb c d then 1 else 0) + count c s'
  end.

End Str.

(* ================================================================= *)
(** ** Model metadata consumed by the generator *)

Inductive TypeKind := KJSON | KARRAY | KVIRTUAL | KOther.

(** A data type is known to the generator through [instanceof] tests and
    through the capabilities [validate], [stringify], [escape], [toSql];
    the capabilities are supplied by the environment, see [Env]. *)
Record DataType := mkDataType { dt_kind : TypeKind; dt_name : string }.

Definition isJSON (t : option DataType) : bool :=
  match t with Some {| dt_kind := KJSON |} => true | _ => false end.
Definition isARRAY (t : option DataType) : bool :=
  match t with Some {| dt_kind := KARRAY |} => true | _ => false end.
Definition isVIRTUAL (t : option DataType) : bool :=
  match t with Some {| dt_kind := KVIRTUAL |} => true | _ => false end.

(** An entry of [rawAttributes]. [a_autoIncrement] is [autoIncrement === true]. *)
Record Attribute := mkAttribute {
  a_field : option string;
  a_type : option DataType;
  a_autoIncrement : bool
}.

(** A table reference: a bare name or [{tableName, schema, delimiter}]
    with the optional [as] and [name] that [quoteTable(param, true)] reads. *)
Record TableObj := mkTableObj {
  t_tableName : string;
  t_schema : option string;
  t_delimiter : option string;
  t_as : option string;
  t_name : option string
}.

Inductive TableRef :=
| TName (name : string)
| TObj (t : TableObj).

Record ModelMeta := mkModel {
  m_name : string;
  m_tableName : string;
  m_getTableName : TableRef;
  m_primaryKeyAttributes : list string;
  m_primaryKeyAttribute : string;
  m_primaryKeyField : string;
  m_primaryKeys : list string;
  m_rawAttributes : list (string * Attribute);
  m_fieldRawAttributesMap : list (string * Attribute)
}.

(** Own-property lookup in an insertion-ordered mapping. *)
Fixpoint assoc {A} (k : string) (l : list (string * A)) : option A :=
  match l with
  | [] => None
  | (k', v) :: l' => if String.eqb k k' then Some v else assoc k l'
  end.

(* ================================================================= *)
(** ** JavaScript values and the object store *)

Abbreviation loc := nat (only parsing).

#[warnings="-register-all"]
Inductive jsval :=
| JUndefined
| JNull
| JBool (b : bool)
| JNum (n : Z)
| JStr (s : string)
| JDate (t : Z)
| JBuffer (bytes : string)
| JArr (items : list jsval)
| JRef (l : loc)                       (* a plain object, held in the heap *)
| JLiteral (val : string)              (* Utils.Literal *)
| JFn (fn : string) (args : list jsval)            (* Utils.Fn *)
| JCast (val : jsval) (type : string)              (* Utils.Cast *)
| JCol (col : jsval)                               (* Utils.Col *)
| JWhere (attribute : jsval) (comparator : string) (logic : jsval) (* Utils.Where *)
| JCustom (repr : string)              (* any other node with its own toString *)
| JModelAttr (modelName : string) (field : option string) (fieldName : string)
| JModel (m : ModelMeta).              (* a model class *)

(** A plain object: its own enumerable properties in insertion order.
    Keys that are canonical array indices, which the host enumerates
    first, are outside the model. *)
Abbreviation object := (list (string * jsval)) (only parsing).

Abbreviation heap := (list object) (only parsing).

Module Obj.

Definition get (k : string) (o : object) : jsval :=
  match assoc k o with Some v => v | None => JUndefined end.

Definition has (k : string) (o : object) : bool :=
  match assoc k o with Some _ => true | None => false end.

(** [o[k] = v]: an existing key keeps its position. *)
Fixpoint set (k : string) (v : jsval) (o : object) : object :=
  match o with
  | [] => [(k, v)]
  | (k', v') :: o' =>
      if String.eqb k k' then (k, v) :: o' else (k', v') :: set k v o'
  end.

(** [delete o[k]] *)
Fixpoint del (k : string) (o : object) : object :=
  match o with
  | [] => []
  | (k', v') :: o' =>
      if String.eqb k k' then o' else (k', v') :: del k o'
  end.

Definition keys (o : object) : list string := map fst o.
Definition values (o : object) : list jsval := map snd o.

End Obj.

(** Errors raised by the generator, and the host [TypeError]. *)
Inductive error :=
| RawWhereRemoved
| InvalidOrderDirection (given : string)
| NotValidAssociation (path : string)
| UnknownOrderStructure
| ColOutsideOrderGroup
| MissingAliasForComputedAttribute
| ValidationError (msg : string)
| TypeError (what : string).

(** Result of running a generator function on a store.  [Stuck] marks
    inputs outside the modelled domain (a dangling reference, a key that
    collides with a property inherited from [Object.prototype], a value
    whose string coercion is host-defined). *)
Inductive outcome (A : Type) :=
| Ret (a : A) (h : heap)
| Throw (e : error) (h : heap)
| OutOfFuel
| Stuck.
Arguments Ret {A} a h.
Arguments Throw {A} e h.
Arguments OutOfFuel {A}.
Arguments Stuck {A}.

Definition M (A : Type) : Type := heap -> outcome A.

Definition ret {A} (a : A) : M A := fun h => Ret a h.
Definition bind {A B} (m : M A) (k : A -> M B) : M B :=
  fun h => match m h with
           | Ret a h' => k a h'
           | Throw e h' => Throw e h'
           | OutOfFuel => OutOfFuel
           | Stuck => Stuck
           end.
Definition throw {A} (e : error) : M A := fun h => Throw e h.
Definition stuck {A} : M A := fun _ => Stuck.
Definition outOfFuel {A} : M A := fun _ => OutOfFuel.

Notation "'let*' x ':=' m 'in' k" := (bind m (fun x => k))
  (at level 10, x pattern, m at level 100, k at level 200).

Definition ofOption {A} (o : option A) : M A :=
  match o with Some a => ret a | None => stuck end.

Fixpoint mapM {A B} (f : A -> M B) (l : list A) : M (list B) :=
  match l with
  | [] => ret []
  | a :: l' => let* b := f a in let* bs := mapM f l' in ret (b :: bs)
  end.

Fixpoint foldM {A S} (f : S -> A -> M S) (s : S) (l : list A) : M S :=
  match l with
  | [] => ret s
  | a :: l' => let* s' := f s a in foldM f s' l'
  end.

Module Heap.

Definition read (l : loc) : M object := fun h =>
  match h !! l with Some o => Ret o h | None => Stuck end.

Definition write (l : loc) (o : object) : M unit := fun h =>
  match h !! l with Some _ => Ret tt (<[l := o]> h) | None => Stuck end.

(** [{...}]: a fresh object. *)
Definition alloc (o : object) : M jsval := fun h =>
  Ret (JRef (length h)) (h ++ [o]).

(** [v[k]] for a value [v] known to be neither [null] nor [undefined]
    and a key [k] that only a plain object can own. *)
Definition prop (v : jsval) (k : string) : M jsval :=
  match v with
  | JRef l => let* o := read l in ret (Obj.get k o)
  | _ => ret JUndefined
  end.

Definition setProp (l : loc) (k : string) (v : jsval) : M unit :=
  let* o := read l in write l (Obj.set k v o).

Definition delProp (l : loc) (k : string) : M unit :=
  let* o := read l in write l (Obj.del k o).

End Heap.

(* ================================================================= *)
(** ** Host-language predicates and coercions *)

Definition truthy (v : jsval) : bool :=
  match v with
  | JUndefined | JNull => false
  | JBool b => b
  | JNum n => negb (Z.eqb n 0)
  | JStr s => negb (String.eqb s "")
  | _ => true
  end.

Definition isString (v : jsval) : bool :=
  match v with JStr _ => true | _ => false end.
Definition isArray (v : jsval) : bool :=
  match v with JArr _ => true | _ => false end.
Definition isPlainObject (v : jsval) : bool :=
  match v with JRef _ => true | _ => false end.
Definition isLiteral (v : jsval) : bool :=
  match v with JLiteral _ => true | _ => false end.
Definition isFn (v : jsval) : bool :=
  match v with JFn _ _ => true | _ => false end.
Definition isUndefined (v : jsval) : bool :=
  match v with JUndefined => true | _ => false end.
Definition isNull (v : jsval) : bool :=
  match v with JNull => true | _ => false end.
Definition isModel (v : jsval) : bool :=
  match v with JModel _ => true | _ => false end.

(** [v._isSequelizeMethod], for [v] neither [null] nor [undefined]. *)
Definition isSequelizeMethod (v : jsval) : M bool :=
  match v with
  | JLiteral _ | JFn _ _ | JCast _ _ | JCol _ | JWhere _ _ _ | JCustom _ => ret true
  | JRef _ => let* p := Heap.prop v "_isSequelizeMethod" in ret (truthy p)
  | _ => ret false
  end.

(** [v === s] for a string constant [s] *)
Definition keyIs (key : jsval) (s : string) : bool :=
  match key with JStr k => String.eqb k s | _ => false end.

(** String coercion of a value ([String(v)], string concatenation).
    Inside [Array.prototype.join], [null] and [undefined] give the empty
    string. *)
Fixpoint toStr (v : jsval) : option string :=
  match v with
  | JUndefined => Some "undefined"
  | JNull => Some "null"
  | JBool true => Some "true"
  | JBool false => Some "false"
  | JNum n => Some (Str.string_of_Z n)
  | JStr s => Some s
  | JArr items =>
      (fix go (l : list jsval) : option string :=
         let element x :=
           match x with JUndefined | JNull => Some "" | _ => toStr x end in
         match l with
         | [] => Some ""
         | [x] => element x
         | x :: l' =>
             match element x, go l' with
             | Some a, Some b => Some (a +:+ "," +:+ b)
             | _, _ => None
             end
         end) items
  | JRef _ | JLiteral _ | JFn _ _ | JCast _ _ | JCol _ | JWhere _ _ _
  | JModelAttr _ _ _ => Some "[object Object]"
  | JCustom r => Some r
  | JDate _ | JBuffer _ | JModel _ => None
  end.

Definition toElement (v : jsval) : option string :=
  match v with JUndefined | JNull => Some "" | _ => toStr v end.

Definition orElse {A} (a b : option A) : option A :=
  match a with Some _ => a | None => b end.

(** [a || b] on optional strings: the empty string is falsy. *)
Definition strOr (a : option string) (b : string) : string :=
  match a with
  | Some s => if String.eqb s "" then b else s
  | None => b
  end.

(** [arr.join(sep)] *)
Definition joinVals (sep : string) (l : list jsval) : M string :=
  let* parts := mapM (fun v => ofOption (toElement v)) l in
  ret (Str.join sep parts).

(** [s + v] / [v + s]: the operand coerced to a string. *)
Definition str (v : jsval) : M string := ofOption (toStr v).

(** [item && item.length], as a condition. *)
Definition hasLength (v : jsval) : M bool :=
  match v with
  | JStr s => ret (negb (String.eqb s ""))
  | JArr l => ret (match l with [] => false | _ => true end)
  | JRef _ =>
      let* p := Heap.prop v "length" in ret (truthy p)
  | _ => ret false
  end.

Fixpoint filterM {A} (p : A -> M bool) (l : list A) : M (list A) :=
  match l with
  | [] => ret []
  | a :: l' =>
      let* keep := p a in
      let* rest := filterM p l' in
      ret (if keep then a :: rest else rest)
  end.

(** [Object.keys(v).length] for a plain object. *)
Definition keyCount (v : jsval) : M nat :=
  match v with
  | JRef l => let* o := Heap.read l in ret (length o)
  | _ => ret 0
  end.

(** [_.size(v)] for arrays and plain objects.  A plain object whose
    [length] is a number that can be the length of an array counts as
    array-like, with that size; any other has the number of its keys. *)
Definition sizeOf (v : jsval) : M nat :=
  match v with
  | JArr l => ret (length l)
  | JRef l =>
      let* o := Heap.read l in
      match Obj.get "length" o with
      | JNum n =>
          if (0 <=? n)%Z && (n <=? 9007199254740991)%Z
          then ret (Z.to_nat n) else ret (length o)
      | _ => ret (length o)
      end
  | _ => ret 0
  end.

(* ================================================================= *)
(** ** Dialect capabilities and external collaborators *)

Record ReturnValues := mkReturnValues { rv_returning : bool; rv_output : bool }.

Record AutoIncrementCaps := mkAutoIncrementCaps {
  ai_defaultValue : bool;
  ai_identityInsert : bool;
  ai_update : bool
}.

(** [this._dialect.supports] *)
Record DialectCaps := mkCaps {
  schemas : bool;
  returnValues : option ReturnValues;
  tmpTableTrigger : bool;
  autoIncrement : AutoIncrementCaps;
  DEFAULT : bool;
  DEFAULT_VALUES : bool;
  VALUES_EMPTY : bool;               (* 'VALUES ()' *)
  IGNORE : option string;
  EXCEPTION : bool;
  ON_DUPLICATE_KEY : bool;
  LIMIT_ON_UPDATE : bool;
  lock : bool;
  lockKey : bool;
  lockOf : bool;
  forShare : option string;
  UNION_ALL : bool;
  joinTableDependent : bool
}.

(** Options handed to a type validator by [escape]. *)
Record EscapeOptions := mkEscapeOptions {
  eo_isList : bool;
  eo_acceptStrings : bool;
  eo_context : option string
}.

Definition noEscapeOptions : EscapeOptions := mkEscapeOptions false false None.

(** An association as the generator reads it. *)
Record Association := mkAssociation {
  as_isBelongsTo : bool;                 (* association instanceof BelongsTo *)
  as_source : ModelMeta;
  as_target : ModelMeta;
  as_as : string;
  as_identifier : string;
  as_identifierField : string;
  as_foreignIdentifierField : string;
  as_targetIdentifier : option string;
  as_through : option ModelMeta          (* association.through.model *)
}.

(** [include.through] *)
Record Through := mkThrough {
  th_model : ModelMeta;
  th_as : string;
  th_where : jsval;
  th_attributes : list jsval
}.

(** The object at the top of every [parent] chain: the options of the
    surrounding find call, of which the joins read [model], [as] and
    [subQuery]; it carries no [association]. *)
Record RootParent := mkRoot {
  r_model : option ModelMeta;
  r_as : option string;
  r_subQuery : bool
}.

(** A node of the include tree.  [i_parent = None] says that the parent
    is the root [i_root].  The children reachable through a [parent]
    pointer are never read by the generator. *)
#[warnings="-register-all"]
Inductive Include := mkInclude {
  i_association : Association;
  i_model : ModelMeta;
  i_as : string;
  i_required : bool;
  i_subQuery : bool;
  i_subQueryFilter : bool;
  i_separate : bool;
  i_pseudo : bool;
  i_attributes : list jsval;
  i_where : jsval;
  i_on : jsval;
  i_or : bool;
  i_through : option Through;
  i_parent : option Include;
  i_root : RootParent;
  i_include : option (list Include)
}.

Record GroupedLimit := mkGroupedLimit {
  gl_on : string;
  gl_values : list jsval;
  gl_limit : jsval
}.

(** [options.lock]: a level, or [{level, of}]. *)
Inductive Lock :=
| LockNone
| LockLevel (level : string)
| LockObj (level : jsval) (of_ : option ModelMeta).

(** The options read (and, for [where], [group], [having], written) by
    [selectQuery].  [s_where] and [s_having] are [None] when the options
    have no own property of that name. *)
Record SelectOptions := mkSelectOptions {
  s_attributes : option (list jsval);
  s_where : option jsval;
  s_order : jsval;
  s_group : jsval;
  s_having : option jsval;
  s_limit : jsval;
  s_offset : jsval;
  s_hasMultiAssociation : bool;
  s_subQuery : option bool;
  s_tableAs : option string;
  s_include : option (list Include);
  s_includeIgnoreAttributesOff : bool;   (* includeIgnoreAttributes === false *)
  s_model : option ModelMeta;
  s_groupedLimit : option GroupedLimit;
  s_lock : Lock
}.


(** The configured generator instance ([this.options], [this.dialect],
    [this._dialect]) together with the collaborators that are not part
    of the sources: the dialect's [quoteIdentifier], the scalar escaper
    [SqlString.escape], the data-type capabilities, the helpers of
    [Utils], [Model.$validateIncludedElements] (applied to
    [{model, include: [{association: toTarget, required: true}]}], giving
    the [include] of the result), [uuid.v4()], the [semver] test on
    the database version, and [String.prototype.toUpperCase], whose
    Unicode case mapping belongs to the host. *)
Class Env := {
  quoteIdentifier : string -> bool -> string;
  supports : DialectCaps;
  sqlEscape : heap -> jsval -> string;
  typeValidation : bool;
  omitNull : bool;
  dtValidate : DataType -> option (heap -> jsval -> EscapeOptions -> option string);
  dtStringify : DataType -> option (heap -> jsval -> string);
  dtEscapeFalse : DataType -> bool;
  dtToSql : DataType -> string;
  utilsFormat : heap -> list jsval -> string;
  canTreatArrayAsAnd : heap -> list jsval -> bool;
  isColString : string -> bool;
  removeNullValuesFromHash : object -> bool -> list string -> object;
  getAssociation : ModelMeta -> jsval -> jsval -> option Association;
  validateIncludedElements : ModelMeta -> Association -> option (list Include);
  uuid_v4 : string;
  databaseVersionGte_9_2_0 : bool;
  TICK_CHAR : string;
  toUpperCase : string -> string
}.

(* ================================================================= *)
(** ** The operator tables of [whereItemQuery] *)

Definition comparatorMap (k : string) : option string :=
  if String.eqb k "$eq" then Some "="
  else if String.eqb k "$ne" then Some "!="
  else if String.eqb k "$gte" then Some ">="
  else if String.eqb k "$gt" then Some ">"
  else if String.eqb k "$lte" then Some "<="
  else if String.eqb k "$lt" then Some "<"
  else if String.eqb k "$not" then Some "IS NOT"
  else if String.eqb k "$is" then Some "IS"
  else if String.eqb k "$like" then Some "LIKE"
  else if String.eqb k "$notLike" then Some "NOT LIKE"
  else if String.eqb k "$iLike" then Some "ILIKE"
  else if String.eqb k "$notILike" then Some "NOT ILIKE"
  else if String.eqb k "$between" then Some "BETWEEN"
  else if String.eqb k "$notBetween" then Some "NOT BETWEEN"
  else if String.eqb k "$overlap" then Some "&&"
  else if String.eqb k "$contains" then Some "@>"
  else if String.eqb k "$contained" then Some "<@"
  else if String.eqb k "$adjacent" then Some "-|-"
  else if String.eqb k "$strictLeft" then Some "<<"
  else if String.eqb k "$strictRight" then Some ">>"
  else if String.eqb k "$noExtendRight" then Some "&<"
  else if String.eqb k "$noExtendLeft" then Some "&>"
  else None.

(** The legacy spellings ("Maintain BC"). *)
Definition aliasTable : list (string * string) :=
  [ ("ne", "$ne"); ("in", "$in"); ("not", "$not"); ("notIn", "$notIn");
    ("gte", "$gte"); ("gt", "$gt"); ("lte", "$lte"); ("lt", "$lt");
    ("like", "$like"); ("ilike", "$iLike"); ("$ilike", "$iLike");
    ("nlike", "$notLike"); ("$notlike", "$notLike");
    ("notilike", "$notILike"); ("..", "$between"); ("between", "$between");
    ("!..", "$notBetween"); ("notbetween", "$notBetween");
    ("nbetween", "$notBetween"); ("overlap", "$overlap"); ("&&", "$overlap");
    ("@>", "$contains"); ("<@", "$contained") ].

Definition aliasMap (k : string) : option string := assoc k aliasTable.

(** Both tables are object literals, so [table[k]] also finds the
    properties inherited from [Object.prototype]. *)
Definition objectPrototypeKeys : list string :=
  [ "constructor"; "__defineGetter__"; "__defineSetter__"; "hasOwnProperty";
    "__lookupGetter__"; "__lookupSetter__"; "isPrototypeOf";
    "propertyIsEnumerable"; "toString"; "valueOf"; "__proto__";
    "toLocaleString" ].

Inductive tableEntry := Own (v : string) | Inherited | Absent.

Definition lookupTable (table : string -> option string) (k : string)
  : tableEntry :=
  match table k with
  | Some v => Own v
  | None =>
      if existsb (String.eqb k) objectPrototypeKeys then Inherited else Absent
  end.

(* ================================================================= *)
(** ** Requests *)

(** [options.prefix]: a [Utils.Literal] or a table reference. *)
Inductive Prefix :=
| PNone
| PLiteral (val : string)
| PTable (t : TableRef).

Definition prefixTruthy (p : Prefix) : bool :=
  match p with
  | PNone => false
  | PLiteral _ => true
  | PTable (TName n) => negb (String.eqb n "")
  | PTable (TObj _) => true
  end.

(** The options read by the WHERE compiler. [o_jsonOff] is
    [options.json === false]. *)
Record WhereOptions := mkWhereOptions {
  o_field : option Attribute;
  o_model : option ModelMeta;
  o_type : option DataType;
  o_prefix : Prefix;
  o_jsonOff : bool
}.

Definition noOptions : WhereOptions := mkWhereOptions None None None PNone false.

(** The [tableName] argument of [getWhereConditions]. *)
Inductive TableElem :=
| TEOne (t : TableRef)
| TEPair (t : TableRef) (alias : string).

Inductive TableArg :=
| TAUndefined
| TATable (t : TableRef)
| TALiteral (val : string)
| TAList (l : list TableElem).

(* ================================================================= *)
(** ** The query generator *)

Section Generator.

Context {E : Env}.

(** The [as] argument of [quoteTable]. *)
Inductive AsArg := AsNone | AsTrue | AsName (name : string).

(** [quoteTable(param, as)] *)
Definition quoteTable (param : TableRef) (as_ : AsArg) : option string :=
  let as_ : option (option string) :=   (* None: falsy; Some None: not a string *)
    match as_ with
    | AsNone => None
    | AsName n => if String.eqb n "" then None else Some (Some n)
    | AsTrue =>
        match param with
        | TName n => if String.eqb n "" then None else Some (Some n)
        | TObj t =>
            match orElse (if String.eqb (strOr (t_as t) "") "" then None else t_as t)
                         (if String.eqb (strOr (t_name t) "") "" then None else t_name t)
            with
            | Some n => Some (Some n)
            | None => Some None
            end
        end
    end in
  let table :=
    match param with
    | TObj t =>
        if schemas supports then
          (match t_schema t with
           | Some s => if String.eqb s "" then ""
                       else quoteIdentifier s false +:+ "."
           | None => ""
           end) +:+ quoteIdentifier (t_tableName t) false
        else
          quoteIdentifier
            ((match t_schema t with
              | Some s => if String.eqb s "" then ""
                          else s +:+ strOr (t_delimiter t) "."
              | None => ""
              end) +:+ t_tableName t) false
    | TName n => quoteIdentifier n false
    end in
  match as_ with
  | None => Some table
  | Some (Some n) => Some (table +:+ " AS " +:+ quoteIdentifier n false)
  | Some None => None
  end.

(** [quoteIdentifiers(identifiers, force)]: split on the last dot only.
    [force] is not handed on: [quoteIdentifier] is called with one
    argument. *)
Definition quoteIdentifiers (identifiers : string) (force : bool) : string :=
  if Str.contains "." identifiers then
    let parts := Str.split "." identifiers in
    quoteIdentifier (Str.join "." (removelast parts)) false
      +:+ "." +:+ quoteIdentifier (List.last parts "") false
  else quoteIdentifier identifiers false.

(** [booleanValue(value)] *)
Definition booleanValue (value : jsval) : jsval := value.

(** The methods of the generator that call each other; [this] in the
    sources.  The table is tied by [generator] below. *)
Record QueryGenerator := mkGenerator {
  this_quote : jsval -> option ModelMeta -> bool -> M jsval;
  this_escape : jsval -> option Attribute -> EscapeOptions -> M jsval;
  this_handleSequelizeMethod :
    jsval -> TableArg -> option ModelMeta -> option bool -> M jsval;
  this_whereItemsQuery : jsval -> WhereOptions -> option string -> M string;
  this_whereItemQuery : jsval -> jsval -> WhereOptions -> M jsval;
  this_getWhereConditions :
    jsval -> TableArg -> option ModelMeta -> option bool -> M jsval;
  this_selectQuery :
    TableArg -> SelectOptions -> option ModelMeta -> M (string * SelectOptions)
}.

Section Methods.

Variable this : QueryGenerator.

(** The key of a column, as the string handed to [quoteIdentifier]. *)
Definition keyName (key : jsval) : M string :=
  match key with JStr s => ret s | _ => stuck end.

(** [x._isSequelizeMethod], where reading a property of [null] or
    [undefined] raises. *)
Definition isMethodOrRaise (what : string) (v : jsval) : M bool :=
  match v with
  | JUndefined | JNull => throw (TypeError what)
  | _ => isSequelizeMethod v
  end.

(** State of the path walk in [quote]. *)
Record walk := mkWalk {
  w_i : nat;
  w_tableNames : list string;
  w_parent : option ModelMeta;
  w_parentAssociation : option (string * option ModelMeta);
  w_done : bool
}.

Definition quoteStep (w : walk) (item : jsval) : M walk :=
  if w_done w then ret w else
  let* stop :=
    match item with
    | JUndefined | JNull => throw (TypeError "item._modelAttribute")
    | JModelAttr _ _ _ | JStr _ => ret true
    | JBool _ | JNum _ => throw (TypeError "'raw' in item")
    | JRef l =>
        let* m := isSequelizeMethod item in
        let* o := Heap.read l in
        ret (truthy (Obj.get "_modelAttribute" o) || m || Obj.has "raw" o)
    | JModel _ | JArr _ | JDate _ | JBuffer _ => ret false
    | _ => ret true
    end in
  if stop then ret (mkWalk (w_i w) (w_tableNames w) (w_parent w)
                           (w_parentAssociation w) true)
  else
    let* (model, as_) :=
      match item with
      | JModel m => ret (JModel m, JUndefined)
      | JRef l => let* o := Heap.read l in ret (Obj.get "model" o, Obj.get "as" o)
      | _ => ret (JUndefined, JUndefined)
      end in
    let throughHere :=
      match w_parentAssociation w, model with
      | Some (_, Some t), JModel m =>
          negb (truthy as_) && String.eqb (m_name t) (m_name m)
      | _, _ => false
      end in
    let* association :=
      if throughHere then
        match model with JModel m => ret (Some (m_name m, None)) | _ => stuck end
      else
        match w_parent w with
        | None => throw (TypeError "parent.getAssociation")
        | Some p =>
            ret (match getAssociation p model as_ with
                 | Some a => Some (as_as a, as_through a)
                 | None => None
                 end)
        end in
    match association, model with
    | Some a, JModel m =>
        ret (mkWalk (S (w_i w)) (w_tableNames w ++ [fst a]) (Some m) (Some a) false)
    | Some _, _ => stuck
    | None, JModel m =>
        throw (NotValidAssociation
                 (Str.join "." (w_tableNames w ++ [m_tableName m])))
    | None, _ => throw (TypeError "model.tableName")
    end.

(** [quote(obj, parent, force)] *)
Definition quote_ (obj : jsval) (parent : option ModelMeta) (force : bool)
  : M jsval :=
  match obj with
  | JStr s => ret (JStr (quoteIdentifiers s force))
  | JArr items =>
      let len := length items in
      let* w := foldM quoteStep (mkWalk 0 [] parent None false)
                      (firstn (len - 1) items) in
      let i := w_i w in
      let parent := w_parent w in
      let* head :=
        if (0 <? i)%nat then
          ret (quoteIdentifier (Str.join "." (w_tableNames w)) false +:+ ".")
        else
          match nth 0 items JUndefined, parent with
          | JStr _, Some p => ret (quoteIdentifier (m_name p) false +:+ ".")
          | _, _ => ret ""
          end in
      let* q := this_quote this (nth i items JUndefined) parent force in
      let* qs := str q in
      let sql := head +:+ qs in
      if (i <? len - 1)%nat then
        let next := nth (S i) items JUndefined in
        let* m := isMethodOrRaise "obj[i + 1]._isSequelizeMethod" next in
        if m then
          let* r := this_handleSequelizeMethod this next TAUndefined None None in
          let* rs := str r in
          ret (JStr (sql +:+ rs))
        else
          let* ns := str next in
          ret (JStr (sql +:+ " " +:+ ns))
      else ret (JStr sql)
  | JModelAttr modelName _ fieldName =>
      let* t := ofOption (quoteTable (TName modelName) AsNone) in
      ret (JStr (t +:+ "." +:+ fieldName))
  | JUndefined | JNull => throw (TypeError "obj._modelAttribute")
  | JRef l =>
      let* m := isSequelizeMethod obj in
      if m then this_handleSequelizeMethod this obj TAUndefined None None
      else
        let* o := Heap.read l in
        if truthy (Obj.get "_modelAttribute" o) then stuck
        else if Obj.has "raw" o then ret (Obj.get "raw" o)
        else throw UnknownOrderStructure
  | JLiteral _ | JFn _ _ | JCast _ _ | JCol _ | JWhere _ _ _ | JCustom _ =>
      this_handleSequelizeMethod this obj TAUndefined None None
  | _ => throw UnknownOrderStructure
  end.

(** [escape(value, field, options)] *)
Definition escape_ (value : jsval) (field : option Attribute)
    (options : EscapeOptions) : M jsval :=
  let scalar (v : jsval) : M jsval :=
    fun h => Ret (JStr (sqlEscape h v)) h in
  match value with
  | JNull | JUndefined => scalar value
  | _ =>
      let* m := isSequelizeMethod value in
      if m then this_handleSequelizeMethod this value TAUndefined None None
      else
        match field with
        | Some {| a_type := Some ty |} =>
            let* _ :=
              match dtValidate ty with
              | Some validate =>
                  if typeValidation && truthy value then
                    let check (v : jsval) : M unit := fun h =>
                      match validate h v options with
                      | Some msg => Throw (ValidationError msg) h
                      | None => Ret tt h
                      end in
                    match eo_isList options, value with
                    | true, JArr items =>
                        let* _ := mapM check items in ret tt
                    | _, _ => check value
                    end
                  else ret tt
              | None => ret tt
              end in
            match dtStringify ty with
            | Some stringify =>
                let* s := (fun h => Ret (stringify h value) h) in
                if dtEscapeFalse ty then ret (JStr s) else scalar (JStr s)
            | None => scalar value
            end
        | _ => scalar value
        end
  end.

(** [[a, b].join(sep)] *)
Definition join2 (a b : jsval) (sep : string) : M jsval :=
  let* s := joinVals sep [a; b] in ret (JStr s).

(** [handleSequelizeMethod(smth, tableName, factory, options, prepend)];
    [options] is only handed on and never read. *)
Definition handleSequelizeMethod_ (smth : jsval) (tableName : TableArg)
    (factory : option ModelMeta) (prepend : option bool) : M jsval :=
  match smth with
  | JWhere attribute comparator logic =>
      let* am := isMethodOrRaise "smth.attribute._isSequelizeMethod" attribute in
      let* key :=
        if am then this_getWhereConditions this attribute tableName factory prepend
        else
          match attribute with
          | JModelAttr modelName field fieldName =>
              let* t := ofOption (quoteTable (TName modelName) AsNone) in
              ret (JStr (t +:+ "."
                           +:+ quoteIdentifier (strOr field fieldName) false))
          | JRef _ => stuck
          | _ => throw (TypeError "smth.attribute.Model.name")
          end in
      let* ks := str key in
      let* vm := if truthy logic then isSequelizeMethod logic else ret false in
      if vm then
        let* value := this_getWhereConditions this logic tableName factory prepend in
        if keyIs value "NULL" then ret (JStr (ks +:+ " IS NULL"))
        else join2 key value comparator
      else if isPlainObject logic then
        this_whereItemQuery this attribute logic
          (mkWhereOptions None factory None PNone false)
      else
        let* value :=
          match logic with
          | JBool _ => ret (booleanValue logic)
          | _ => this_escape this logic None noEscapeOptions
          end in
        if keyIs value "NULL" then ret (JStr (ks +:+ " IS NULL"))
        else join2 key value (" " +:+ comparator +:+ " ")
  | JLiteral val => ret (JStr val)
  | JCast val type =>
      let* m := isMethodOrRaise "smth.val._isSequelizeMethod" val in
      let* result :=
        if m then this_handleSequelizeMethod this val tableName factory prepend
        else this_escape this val None noEscapeOptions in
      let* rs := str result in
      ret (JStr ("CAST(" +:+ rs +:+ " AS " +:+ toUpperCase type +:+ ")"))
  | JFn fn args =>
      let* parts :=
        mapM (fun arg =>
                let* m := isMethodOrRaise "arg._isSequelizeMethod" arg in
                if m then this_handleSequelizeMethod this arg tableName factory prepend
                else this_escape this arg None noEscapeOptions) args in
      let* joined := joinVals ", " parts in
      ret (JStr (fn +:+ "(" +:+ joined +:+ ")"))
  | JCol col =>
      match col with
      | JArr _ =>
          match factory with
          | None => throw ColOutsideOrderGroup
          | Some _ => this_quote this col factory false
          end
      | JStr c =>
          if Str.startsWith "*" c then ret (JStr "*")
          else this_quote this col factory false
      | _ => throw (TypeError "smth.col.indexOf")
      end
  | JCustom repr => ret (JStr repr)
  | _ => stuck
  end.

(** [whereQuery(where, options)] *)
Definition whereQuery_ (where_ : jsval) (options : WhereOptions) : M string :=
  let* query := this_whereItemsQuery this where_ options None in
  if negb (String.eqb query "") then ret ("WHERE " +:+ query) else ret "".

(** The "NO OP" test that opens [whereItemsQuery]. *)
Definition isEmptyWhere (where_ : jsval) : M bool :=
  match where_ with
  | JArr [] | JNull | JUndefined => ret true
  | JRef l => let* o := Heap.read l in
              ret (match o with [] => true | _ => false end)
  | _ => ret false
  end.

(** [_.forOwn(obj, (value, key) => ...)]: the keys are taken once, each
    value is read when its turn comes. *)
Definition forOwn {S} (l : loc) (f : S -> jsval -> string -> M S) (s : S)
  : M S :=
  let* o := Heap.read l in
  foldM (fun s k =>
           let* o' := Heap.read l in f s (Obj.get k o') k)
        s (Obj.keys o).

(** [items.filter(item => item && item.length).join(binding)] *)
Definition conjoin (binding : string) (items : list jsval) : M string :=
  let* kept := filterM (fun item => if truthy item then hasLength item
                                    else ret false) items in
  joinVals binding kept.

(** [binding = binding || 'AND'], then padded with blanks unless it
    starts with one. *)
Definition normaliseBinding (binding : option string) : string :=
  let binding := strOr binding "AND" in
  if negb (String.eqb (String.substring 0 1 binding) " ")
  then " " +:+ binding +:+ " " else binding.

(** [whereItemsQuery(where, options, binding)] *)
Definition whereItemsQuery_ (where_ : jsval) (options : WhereOptions)
    (binding : option string) : M string :=
  let* empty := isEmptyWhere where_ in
  if empty then ret "" else
  if isString where_ then throw RawWhereRemoved else
  let binding := normaliseBinding binding in
  let* items :=
    match where_ with
    | JRef l =>
        forOwn l (fun items value key =>
                    let* r := this_whereItemQuery this (JStr key) value options in
                    ret (items ++ [r])) []
    | _ =>
        let* r := this_whereItemQuery this JUndefined where_ options in
        ret [r]
    end in
  conjoin binding items.

(** [Array.prototype.map] is only there on arrays. *)
Definition asArray (what : string) (v : jsval) : M (list jsval) :=
  match v with
  | JArr l => ret l
  | _ => throw (TypeError what)
  end.

(** Field resolution at the head of [whereItemQuery]:
    [options.field || rawAttributes[key] || fieldRawAttributesMap[key]]. *)
Definition resolveField (key : string) (options : WhereOptions)
  : option Attribute :=
  orElse (o_field options)
    (match o_model options with
     | Some m => orElse (assoc key (m_rawAttributes m))
                        (assoc key (m_fieldRawAttributesMap m))
     | None => None
     end).

Definition resolveFieldType (field : option Attribute)
    (options : WhereOptions) : option DataType :=
  orElse (o_type options)
         (match field with Some a => a_type a | None => None end).

(** A dotted key whose head names a JSON attribute of the model: the
    attribute, the head and the remaining path. *)
Definition jsonPathTarget (key : jsval) (options : WhereOptions)
  : option (Attribute * string * list string) :=
  match key, o_model options with
  | JStr k, Some m =>
      if negb (String.eqb k "") && Str.contains "." k then
        let parts := Str.split "." k in
        let head := hd "" parts in
        match assoc head (m_rawAttributes m) with
        | Some a =>
            if isJSON (a_type a) then Some (a, head, tl parts) else None
        | None => None
        end
      else None
  | _, _ => None
  end.

(** Modelled from the spec: [Dottie.set(value, path, tmp)] on a fresh
    [value = {}] ("[value] becomes [{<tail>: <originalValue>}] via nested
    object construction"); the library itself is not part of the
    sources. *)
Fixpoint dottieSet (path : list string) (tmp : jsval) : M jsval :=
  match path with
  | [] => Heap.alloc []
  | [p] => Heap.alloc [(p, tmp)]
  | p :: rest => let* inner := dottieSet rest tmp in Heap.alloc [(p, inner)]
  end.

(** [key = aliasMap[key] || key] *)
Definition aliasKey (key : jsval) : M jsval :=
  let* name := str key in
  match lookupTable aliasMap name with
  | Own canonical => ret (JStr canonical)
  | Inherited => stuck
  | Absent => ret key
  end.

(** The in-place rewrite of the first-level keys of a mapping value:
    [value[aliasMap[key]] = item; delete value[key]]. *)
Definition rewriteAliases (l : loc) : M unit :=
  forOwn l (fun _ item key =>
              match lookupTable aliasMap key with
              | Own canonical =>
                  let* _ := Heap.setProp l canonical item in
                  Heap.delProp l key
              | Inherited => stuck
              | Absent => ret tt
              end) tt.

(** [$or] / [$and] / [$not] grouping. *)
Definition combinator (key : string) (value : jsval) (options : WhereOptions)
  : M jsval :=
  let binding := if String.eqb key "$or" then " OR " else " AND " in
  let outerBinding := if String.eqb key "$not" then "NOT " else "" in
  let orNot := String.eqb key "$or" || String.eqb key "$not" in
  match value with
  | JArr items =>
      let* queries :=
        mapM (fun item =>
                let* itemQuery := this_whereItemsQuery this item options (Some " AND ") in
                let* n := sizeOf item in
                if (isArray item || isPlainObject item) && (1 <? n)%nat
                then ret ("(" +:+ itemQuery +:+ ")") else ret itemQuery)
             items in
      let kept := List.filter (fun q => negb (String.eqb q "")) queries in
      match kept with
      | [] => if orNot then ret (JStr "0 = 1") else ret JUndefined
      | _ => ret (JStr (outerBinding +:+ "(" +:+ Str.join binding kept +:+ ")"))
      end
  | _ =>
      let* q := this_whereItemsQuery this value options (Some binding) in
      if String.eqb q "" then
        if orNot then ret (JStr "0 = 1") else ret JUndefined
      else ret (JStr (outerBinding +:+ "(" +:+ q +:+ ")"))
  end.

(** [value.$or] / [value.$and] under an attribute key: the key is
    distributed over the sequence. *)
Definition distribute (key : jsval) (por pand : jsval) (options : WhereOptions)
  : M jsval :=
  let binding := if truthy por then " OR " else " AND " in
  let value := if truthy por then por else pand in
  let* seq :=
    match value with
    | JRef l =>
        forOwn l (fun result _value k =>
                    let* single := Heap.alloc [(k, _value)] in
                    ret (result ++ [single])) []
    | _ => asArray "value.map" value
    end in
  let* parts := mapM (fun _value => this_whereItemQuery this key _value options) seq in
  let* kept := filterM (fun item => if truthy item then hasLength item
                                    else ret false) parts in
  match kept with
  | [] => ret JUndefined
  | _ => let* s := joinVals binding kept in ret (JStr ("(" +:+ s +:+ ")"))
  end.

(** [options.prefix]-qualified form of an emitted key. *)
Definition withPrefix (options : WhereOptions) (key : jsval) : M jsval :=
  match o_prefix options with
  | PLiteral val =>
      let* p := this_handleSequelizeMethod this (JLiteral val) TAUndefined None None in
      join2 p key "."
  | PTable t =>
      let* p := ofOption (quoteTable t AsNone) in
      join2 (JStr p) key "."
  | PNone => ret key
  end.

(** [castKey] inside [traverse]: the cast inferred from the first leaf is
    kept in [$cast] for the later leaves of the same level. *)
Definition castKey (baseKey : string) (cast : string) (item : jsval)
  : string * string :=
  let cast :=
    if String.eqb cast "" then
      match item with
      | JNum _ => "double precision"
      | JDate _ => "timestamptz"
      | JBool _ => "boolean"
      | _ => cast
      end
    else cast in
  (if String.eqb cast "" then baseKey else baseKey +:+ "::" +:+ cast, cast).

(** The local function [traverse] of the JSON branch; [items] is the
    enclosing [$items]. *)
Fixpoint traverse (depth : nat) (key : jsval) (options : WhereOptions)
    (item : jsval) (path : list string) (items : list jsval)
  : M (list jsval) :=
  match depth with
  | O => outOfFuel
  | S depth' =>
      let* where_ := Heap.alloc [] in
      let last := List.last path "" in
      let '(cast, path) :=
        if Str.contains "::" last then
          let tmp := Str.split "::" last in
          (nth 1 tmp "", removelast path ++ [nth 0 tmp ""])
        else ("", path) in
      let* kn := keyName key in
      let baseKey := quoteIdentifier kn false +:+ "#>>'{" +:+ Str.join ", " path +:+ "}'" in
      let* baseKey :=
        if prefixTruthy (o_prefix options) then
          let* k := withPrefix options (JStr baseKey) in str k
        else ret baseKey in
      let baseKey := "(" +:+ baseKey +:+ ")" in
      match item, where_ with
      | JRef li, JRef lw =>
          let* r :=
            forOwn li (fun st _item _prop =>
                         let '(cast, items) := st in
                         if Str.startsWith "$" _prop then
                           let* _ := Heap.setProp lw _prop _item in
                           let '(_key, cast) := castKey baseKey cast _item in
                           let* r := this_whereItemQuery this (JLiteral _key) where_ noOptions in
                           ret (cast, items ++ [r])
                         else
                           let* items := traverse depth' key options _item
                                                  (path ++ [_prop]) items in
                           ret (cast, items))
                   (cast, items) in
          ret (snd r)
      | _, JRef lw =>
          let* _ := Heap.setProp lw "$eq" item in
          let '(_key, _) := castKey baseKey cast item in
          let* r := this_whereItemQuery this (JLiteral _key) where_ noOptions in
          ret (items ++ [r])
      | _, _ => stuck
      end
  end.

(** The JSON branch of [whereItemQuery]. *)
Definition jsonBranch (depth : nat) (key : jsval) (l : loc)
    (options : WhereOptions) : M jsval :=
  let* items :=
    forOwn l (fun items item prop =>
                if Str.startsWith "$" prop then
                  let* where_ := Heap.alloc [(prop, item)] in
                  let* r := this_whereItemQuery this key where_
                              (mkWhereOptions (o_field options) (o_model options)
                                 (o_type options) (o_prefix options) true) in
                  ret (items ++ [r])
                else traverse depth key options item [prop] items) [] in
  let* result := joinVals " AND " items in
  ret (JStr (if (1 <? length items)%nat then "(" +:+ result +:+ ")" else result)).

(** "If multiple keys we combine the different logic conditions". *)
Definition multiKey (key : jsval) (l : loc) (options : WhereOptions)
  : M jsval :=
  let* items :=
    forOwn l (fun items item logic =>
                let* where_ := Heap.alloc [(logic, item)] in
                let* r := this_whereItemQuery this key where_ options in
                ret (items ++ [r])) [] in
  let* s := joinVals " AND " items in
  ret (JStr ("(" +:+ s +:+ ")")).

(** "Do [] to $in/$notIn normalization" and "normalize $not: non-bool|
    non-null to $ne": both rewrite the mapping in place. *)
Definition normaliseIn (value : jsval) (fieldType : option DataType)
  : M jsval :=
  let* value :=
    if truthy value && negb (isARRAY fieldType) then
      match value with
      | JArr _ => Heap.alloc [("$in", value)]
      | JRef l =>
          let* pnot := Heap.prop value "$not" in
          if isArray pnot then
            let* _ := Heap.setProp l "$notIn" pnot in
            let* _ := Heap.delProp l "$not" in
            ret value
          else ret value
      | _ => ret value
      end
    else ret value in
  match value with
  | JRef l =>
      let* o := Heap.read l in
      let pnot := Obj.get "$not" o in
      match pnot with
      | JUndefined | JNull | JBool _ => ret value
      | _ =>
          let* _ := Heap.setProp l "$ne" pnot in
          let* _ := Heap.delProp l "$not" in
          ret value
      end
  | _ => ret value
  end.

(** Outcome of "Setup keys and comparators": an early [return], or the
    comparator and the compiled value side. *)
Inductive setup :=
| Early (result : jsval)
| Compiled (comparator : string) (value : jsval).

Definition escapeAll (items : list jsval) : M (list jsval) :=
  mapM (fun item => this_escape this item None noEscapeOptions) items.

(** State of the comparator loop of the last branch. *)
Record cmpState := mkCmp {
  c_comparator : string;
  c_value : jsval;
  c_isList : bool;
  c_escapeValue : bool
}.

Definition comparatorStep (st : cmpState) (item : jsval) (key : string)
  : M cmpState :=
  match lookupTable comparatorMap key with
  | Own c =>
      let value := item in
      let* pany := Heap.prop value "$any" in
      let* pall := Heap.prop value "$all" in
      let* pcol := Heap.prop value "$col" in
      if isPlainObject value && truthy pany then
        ret (mkCmp (c +:+ " ANY") pany true (c_escapeValue st))
      else if isPlainObject value && truthy pall then
        ret (mkCmp (c +:+ " ALL") pall true (c_escapeValue st))
      else if truthy value && truthy pcol then
        let* r := this_whereItemQuery this JNull value noOptions in
        ret (mkCmp c r (c_isList st) false)
      else ret (mkCmp c value (c_isList st) (c_escapeValue st))
  | Inherited => stuck
  | Absent => ret st
  end.

Definition setupValue (value : jsval) (field : option Attribute)
    (fieldType : option DataType) : M setup :=
  let* pin := Heap.prop value "$in" in
  let* pnotIn := Heap.prop value "$notIn" in
  let* pany := Heap.prop value "$any" in
  let* pall := Heap.prop value "$all" in
  let* pbetween := Heap.prop value "$between" in
  let* pnotBetween := Heap.prop value "$notBetween" in
  let* praw := Heap.prop value "$raw" in
  let* pcol := Heap.prop value "$col" in
  if isArray value && isARRAY fieldType then
    let* v := this_escape this value field noEscapeOptions in
    ret (Compiled "=" v)
  else if truthy value && (truthy pin || truthy pnotIn) then
    let comparator := if truthy pnotIn then "NOT IN" else "IN" in
    let arg := if truthy pin then pin else pnotIn in
    match arg with
    | JLiteral val => ret (Compiled comparator (JStr val))
    | _ =>
        let* nonEmpty := hasLength arg in
        if nonEmpty then
          let* items := asArray "(value.$in || value.$notIn).map" arg in
          let* parts := escapeAll items in
          let* s := joinVals ", " parts in
          ret (Compiled comparator (JStr ("(" +:+ s +:+ ")")))
        else if truthy pin then ret (Compiled comparator (JStr "(NULL)"))
        else ret (Early (JStr ""))
    end
  else if truthy value && (truthy pany || truthy pall) then
    let comparator := if truthy pany then "= ANY" else "= ALL" in
    let* anyValues := if truthy pany then Heap.prop pany "$values" else ret pany in
    let* allValues := if truthy pall then Heap.prop pall "$values" else ret pall in
    if truthy anyValues || truthy allValues then
      let* items := asArray "$values.map"
                      (if truthy anyValues then anyValues else allValues) in
      let* parts := mapM (fun v => let* e := this_escape this v None noEscapeOptions in
                                   let* s := str e in
                                   ret (JStr ("(" +:+ s +:+ ")"))) items in
      let* s := joinVals ", " parts in
      ret (Compiled comparator (JStr ("(VALUES " +:+ s +:+ ")")))
    else
      let* e := this_escape this (if truthy pany then pany else pall) field
                  noEscapeOptions in
      let* s := str e in
      ret (Compiled comparator (JStr ("(" +:+ s +:+ ")")))
  else if truthy value && (truthy pbetween || truthy pnotBetween) then
    let comparator := if truthy pnotBetween then "NOT BETWEEN" else "BETWEEN" in
    let* items := asArray "(value.$between || value.$notBetween).map"
                    (if truthy pbetween then pbetween else pnotBetween) in
    let* parts := escapeAll items in
    let* s := joinVals " AND " parts in
    ret (Compiled comparator (JStr s))
  else if truthy value && truthy praw then
    ret (Compiled "=" praw)
  else if truthy value && truthy pcol then
    match pcol with
    | JStr c =>
        let parts := Str.split "." c in
        let parts :=
          if (2 <? length parts)%nat
          then [Str.join "." (removelast parts); List.last parts ""]
          else parts in
        ret (Compiled "="
               (JStr (Str.join "." (map (fun i => quoteIdentifier i false) parts))))
    | _ => throw (TypeError "value.$col.split")
    end
  else
    let* st :=
      match value with
      | JRef l => forOwn l comparatorStep (mkCmp "=" value false true)
      | _ => ret (mkCmp "=" value false true)
      end in
    let comparator :=
      if String.eqb (c_comparator st) "=" && isNull (c_value st) then "IS"
      else if String.eqb (c_comparator st) "!=" && isNull (c_value st) then "IS NOT"
      else c_comparator st in
    let acceptStrings := Str.contains "LIKE" comparator in
    if c_escapeValue st then
      let* v := this_escape this (c_value st) field
                  (mkEscapeOptions (c_isList st) acceptStrings None) in
      let anyAfterLike :=
        match Str.indexOf "ANY" comparator, Str.indexOf "LIKE" comparator with
        | Some a, Some b => (b <? a)%nat
        | Some _, None => true
        | None, _ => false
        end in
      if acceptStrings && anyAfterLike then
        let* s := str v in ret (Compiled comparator (JStr ("(" +:+ s +:+ ")")))
      else ret (Compiled comparator v)
    else ret (Compiled comparator (c_value st)).

(** The closing part of [whereItemQuery]: the key is quoted, prefixed
    and joined with the value side. *)
Definition emitKey (key : jsval) (options : WhereOptions) : M jsval :=
  let* m := isSequelizeMethod key in
  let* (key, prefix) :=
    if m then
      let* k := this_handleSequelizeMethod this key TAUndefined None None in
      ret (k, true)
    else
      let* name := keyName key in
      if isColString name then
        let parts := Str.split "." (Str.stripDelimiters name) in
        let parts :=
          if (2 <? length parts)%nat
          then [Str.join "." (removelast parts); List.last parts ""]
          else parts in
        ret (JStr (Str.join "." (map (fun i => quoteIdentifier i false) parts)), false)
      else ret (JStr (quoteIdentifier name false), true) in
  if prefixTruthy (o_prefix options) && prefix then withPrefix options key
  else ret key.

(** [whereItemQuery], from "Do [] to $in/$notIn normalization" to the
    end. *)
Definition compileLeaf (key value : jsval) (field : option Attribute)
    (fieldType : option DataType) (options : WhereOptions) : M jsval :=
  let* value := normaliseIn value fieldType in
  let* s := setupValue value field fieldType in
  match s with
  | Early r => ret r
  | Compiled comparator value =>
      if truthy key then
        let* k := emitKey key options in
        join2 k value (" " +:+ comparator +:+ " ")
      else ret value
  end.

Definition refOf (v : jsval) : option loc :=
  match v with JRef l => Some l | _ => None end.

(** [whereItemQuery], from "OR/AND/NOT grouping logic" to the end. *)
Definition compileValue (depth : nat) (key value : jsval)
    (field : option Attribute) (fieldType : option DataType)
    (options : WhereOptions) : M jsval :=
  if keyIs key "$or" || keyIs key "$and" || keyIs key "$not" then
    let* k := keyName key in combinator k value options
  else
  let* por := if truthy value then Heap.prop value "$or" else ret JUndefined in
  let* pand := if truthy value then Heap.prop value "$and" else ret JUndefined in
  if truthy por || truthy pand then distribute key por pand options else
  let* n := keyCount value in
  match refOf value with
  | Some l =>
      if isJSON fieldType && negb (o_jsonOff options)
      then jsonBranch depth key l options
      else if (1 <? n)%nat then multiKey key l options
      else compileLeaf key value field fieldType options
  | None => compileLeaf key value field fieldType options
  end.

(** [whereItemQuery], from [if (key === undefined)] to the end. *)
Definition dispatch (depth : nat) (key value : jsval)
    (field : option Attribute) (fieldType : option DataType)
    (options : WhereOptions) : M jsval :=
  if isUndefined key && isString value then ret value else
  let* (key, value) :=
    match refOf value with
    | Some l =>
        if isUndefined key then
          let* n := sizeOf value in
          if Nat.eqb n 1 then
            let* o := Heap.read l in
            match o with
            | (k, v) :: _ => ret (JStr k, v)
            | [] => ret (JUndefined, JUndefined)
            end
          else ret (key, value)
        else ret (key, value)
    | None => ret (key, value)
    end in
  let* m := if truthy value then isSequelizeMethod value else ret false in
  if m && negb (negb (isUndefined key) && isFn value) then
    this_handleSequelizeMethod this value TAUndefined None None
  else
  match (if isUndefined key then value else JUndefined) with
  | JArr items =>
      let* treatAsAnd := (fun h => Ret (canTreatArrayAsAnd h items) h) in
      if treatAsAnd
      then compileValue depth (JStr "$and") value field fieldType options
      else fun h => Ret (JStr (utilsFormat h items)) h
  | _ => compileValue depth key value field fieldType options
  end.

(** [whereItemQuery(key, value, options)]; [depth] bounds the recursion
    of the local [traverse]. *)
Definition whereItemQuery_ (depth : nat) (key value : jsval)
    (options : WhereOptions) : M jsval :=
  let* name := str key in
  let field := resolveField name options in
  let fieldType := resolveFieldType field options in
  let* (key, value, field, fieldType) :=
    match jsonPathTarget key options with
    | Some (a, head, path) =>
        let* v := dottieSet path value in
        ret (JStr (strOr (a_field a) head), v, Some a, a_type a)
    | None => ret (key, value, field, fieldType)
    end in
  let* key := aliasKey key in
  let* _ := match refOf value with
            | Some l => rewriteAliases l
            | None => ret tt
            end in
  dispatch depth key value field fieldType options.

(** [getWhereConditions(smth, tableName, factory, options, prepend)] *)
Definition getWhereConditions_ (smth : jsval) (tableName : TableArg)
    (factory : option ModelMeta) (prepend : option bool) : M jsval :=
  let tableName :=
    match tableName with
    | TAList [] => TAUndefined
    | TAList (TEOne t :: _) => TATable t
    | TAList (TEPair _ alias :: _) => TATable (TName alias)
    | _ => tableName
    end in
  let prepend := match prepend with Some b => b | None => true end in
  let prefix :=
    if prepend then
      match tableName with
      | TATable t => PTable t
      | TALiteral v => PLiteral v
      | _ => PNone
      end
    else PNone in
  let options := mkWhereOptions None factory None prefix false in
  let orDefault (result : jsval) : jsval :=
    if truthy result then result else JStr "1=1" in
  let* m := if truthy smth then isSequelizeMethod smth else ret false in
  if m then
    let* r := this_handleSequelizeMethod this smth tableName factory (Some prepend) in
    ret (orDefault r)
  else
    match smth with
    | JRef _ | JStr _ | JNull =>
        let* s := this_whereItemsQuery this smth options None in ret (JStr s)
    | JNum _ =>
        let primaryKeys :=
          match factory with
          | Some f => match m_primaryKeys f with k :: _ => k | [] => "id" end
          | None => "id"
          end in
        let* where_ := Heap.alloc [(primaryKeys, smth)] in
        let* s := this_whereItemsQuery this where_ options None in ret (JStr s)
    | JBuffer _ =>
        let* r := this_escape this smth None noEscapeOptions in ret (orDefault r)
    | JArr [] => ret (JStr "1=1")
    | JArr items =>
        let* treatAsAnd := (fun h => Ret (canTreatArrayAsAnd h items) h) in
        if treatAsAnd then
          let* _smth := Heap.alloc [("$and", smth)] in
          let* r := this_getWhereConditions this _smth tableName factory (Some prepend) in
          ret (orDefault r)
        else fun h => Ret (orDefault (JStr (utilsFormat h items))) h
    | _ => ret (JStr "1=1")
    end.

(* ----------------------------------------------------------------- *)
(** *** ORDER BY, LIMIT and the FROM fragment *)

Definition orderDirections : list string :=
  [ "ASC"; "DESC"; "ASC NULLS LAST"; "DESC NULLS LAST"; "ASC NULLS FIRST";
    "DESC NULLS FIRST"; "NULLS FIRST"; "NULLS LAST" ].

(** The local [validateOrder] of [getQueryOrders]. *)
Definition validateOrder (order : jsval) : M unit :=
  match order with
  | JLiteral _ => ret tt
  | JStr s =>
      if existsb (String.eqb (toUpperCase s)) orderDirections
      then ret tt
      else throw (InvalidOrderDirection s)
  | _ => throw (TypeError "order.toUpperCase")
  end.

(** [typeof v.model === 'function' && v.model.prototype instanceof Model] *)
Definition hasModelProp (v : jsval) : M bool :=
  match v with
  | JUndefined | JNull => throw (TypeError "t[0].model")
  | JRef _ => let* m := Heap.prop v "model" in ret (isModel m)
  | _ => ret false
  end.

(** The direction check that opens a round of the loop over
    [options.order]. *)
Definition checkDirection (t : jsval) : M unit :=
  let items := match t with JArr items => items | _ => [] end in
  let t0 := nth 0 items JUndefined in
  if isArray t && (1 <? length items)%nat then
    let* modelFirst := if isModel t0 then ret true else hasModelProp t0 in
    if modelFirst then
      if isString (nth (length items - 2) items JUndefined)
      then validateOrder (List.last items JUndefined)
      else ret tt
    else validateOrder (List.last items JUndefined)
  else ret tt.

(** One round of the [for (const t of options.order)] loop; the state is
    [(mainQueryOrder, subQueryOrder)]. *)
Definition orderStep (model : option ModelMeta) (subQuery : bool)
    (acc : list jsval * list jsval) (t : jsval)
  : M (list jsval * list jsval) :=
  let items := match t with JArr items => items | _ => [] end in
  let t0 := nth 0 items JUndefined in
  let* _ := checkDirection t in
  let* toSub :=
    if subQuery && isArray t && negb (isModel t0) then
      if truthy t0 then let* m := hasModelProp t0 in ret (negb m) else ret true
    else ret false in
  let* sub :=
    if toSub then
      let* q := this_quote this t model false in ret (snd acc ++ [q])
    else ret (snd acc) in
  let* q := this_quote this t model false in
  ret (fst acc ++ [q], sub).

(** [getQueryOrders(options, model, subQuery)], returning
    [(mainQueryOrder, subQueryOrder)]. *)
Definition getQueryOrders_ (order : jsval) (model : option ModelMeta)
    (subQuery : bool) : M (list jsval * list jsval) :=
  match order with
  | JArr ts => foldM (orderStep model subQuery) ([], []) ts
  | JStr s =>
      let* q := this_quote this (JLiteral s) model false in ret ([q], [])
  | _ =>
      let* q := this_quote this order model false in ret ([q], [])
  end.

Definition notNullish (v : jsval) : bool :=
  match v with JUndefined | JNull => false | _ => true end.

(** [addLimitAndOffset(options, model)] *)
Definition addLimitAndOffset_ (limit offset : jsval) : M string :=
  if notNullish offset && negb (notNullish limit) then
    let* o := this_escape this offset None noEscapeOptions in
    let* os := str o in
    ret (" LIMIT " +:+ os +:+ ", " +:+ "10000000000000")
  else if notNullish limit then
    if notNullish offset then
      let* o := this_escape this offset None noEscapeOptions in
      let* os := str o in
      let* l := this_escape this limit None noEscapeOptions in
      let* ls := str l in
      ret (" LIMIT " +:+ os +:+ ", " +:+ ls)
    else
      let* l := this_escape this limit None noEscapeOptions in
      let* ls := str l in
      ret (" LIMIT " +:+ ls)
  else ret "".

(** [x + ...] for a string that may be [null]. *)
Definition nullStr (o : option string) : string :=
  match o with Some s => s | None => "null" end.

(** Truthiness of an optional string. *)
Definition nonEmpty (o : option string) : option string :=
  match o with
  | Some s => if String.eqb s "" then None else Some s
  | None => None
  end.

(** [selectFromTableFragment(options, model, attributes, tables,
    mainTableAs, whereClause)] *)
Definition selectFromTableFragment (attributes : list jsval) (tables : string)
    (mainTableAs : option string) : M string :=
  let* attrs := joinVals ", " attributes in
  let fragment := "SELECT " +:+ attrs +:+ " FROM " +:+ tables in
  match nonEmpty mainTableAs with
  | Some a => ret (fragment +:+ " AS " +:+ a)
  | None => ret fragment
  end.

(* ----------------------------------------------------------------- *)
(** *** Joins induced by the include tree *)

Definition parentAssociation (i : Include) : option Association :=
  match i_parent i with Some p => Some (i_association p) | None => None end.
Definition parentModel (i : Include) : option ModelMeta :=
  match i_parent i with Some p => Some (i_model p) | None => r_model (i_root i) end.
Definition parentAs (i : Include) : option string :=
  match i_parent i with Some p => Some (i_as p) | None => r_as (i_root i) end.
Definition parentSubQuery (i : Include) : bool :=
  match i_parent i with Some p => i_subQuery p | None => r_subQuery (i_root i) end.

(** [!include.parent.association &&
     include.parent.model.name === options.model.name] *)
Definition parentIsTop (include : Include) (model : option ModelMeta)
  : M bool :=
  match parentAssociation include with
  | Some _ => ret false
  | None =>
      match parentModel include, model with
      | Some pm, Some m => ret (String.eqb (m_name pm) (m_name m))
      | _, _ => throw (TypeError "model.name")
      end
  end.

(** The [while] loop of [joinIncludeQuery]: the aliases of the ancestors
    that are includes, outermost first, joined by dots. *)
Fixpoint ancestorAliases (i : Include) : list string :=
  match i_parent i with
  | Some p => ancestorAliases p ++ [i_as p]
  | None => []
  end.

(** [model.rawAttributes[name].field] *)
Definition fieldOf (m : ModelMeta) (name : string) : M string :=
  match assoc name (m_rawAttributes m) with
  | Some a => ofOption (a_field a)
  | None => throw (TypeError "rawAttributes[...].field")
  end.

(** [parent.as || parent.model.name] *)
Definition parentName (include : Include) : M string :=
  match nonEmpty (parentAs include), parentModel include with
  | Some a, _ => ret a
  | None, Some m => ret (m_name m)
  | None, None => throw (TypeError "parent.model.name")
  end.

(** [joinIncludeQuery({model, subQuery, include, groupedLimit})] *)
Definition joinIncludeQuery_ (model : option ModelMeta) (subQuery : bool)
    (include : Include) (groupedLimit : bool) : M string :=
  let association := i_association include in
  let* top := parentIsTop include model in
  let joinType := if i_required include then "INNER JOIN " else "LEFT OUTER JOIN " in
  let left := as_source association in
  let attrLeft := if as_isBelongsTo association then as_identifier association
                  else m_primaryKeyAttribute left in
  let* fieldLeft :=
    if as_isBelongsTo association then ret (as_identifierField association)
    else fieldOf left (m_primaryKeyAttribute left) in
  let right := i_model include in
  let tableRight := m_getTableName right in
  let* fieldRight :=
    if as_isBelongsTo association
    then fieldOf right (strOr (as_targetIdentifier association)
                              (m_primaryKeyAttribute right))
    else ret (as_identifierField association) in
  let walked := Str.join "." (ancestorAliases include) in
  let* asLeft := if String.eqb walked "" then parentName include else ret walked in
  let asRight := if String.eqb walked "" then i_as include
                 else Str.join "." [asLeft; i_as include] in
  let* qLeft := ofOption (quoteTable (TName asLeft) AsNone) in
  let joinOn := Str.join "." [qLeft; quoteIdentifier fieldLeft false] in
  let* joinOn :=
    if (groupedLimit && top)
       || (subQuery && parentSubQuery include && negb (i_subQuery include)) then
      if top then
        let* pn := parentName include in
        let* qp := ofOption (quoteTable (TName pn) AsNone) in
        ret (Str.join "." [qp; quoteIdentifier attrLeft false])
      else ret (quoteIdentifier (asLeft +:+ "." +:+ attrLeft) false)
    else ret joinOn in
  let joinOn := joinOn +:+ " = " +:+ quoteIdentifier asRight false +:+ "."
                       +:+ quoteIdentifier fieldRight false in
  let options := mkWhereOptions None (Some (i_model include)) None
                   (PLiteral (quoteIdentifier asRight false)) false in
  let* joinOn :=
    if truthy (i_on include)
    then this_whereItemsQuery this (i_on include) options None
    else ret joinOn in
  let* joinOn :=
    if truthy (i_where include) then
      let* joinWhere := this_whereItemsQuery this (i_where include) options None in
      if String.eqb joinWhere "" then ret joinOn
      else ret (joinOn +:+ (if i_or include then " OR " else " AND ") +:+ joinWhere)
    else ret joinOn in
  let* qRight := ofOption (quoteTable tableRight (AsName asRight)) in
  ret (joinType +:+ qRight +:+ " ON " +:+ joinOn).

Definition setInclude (i : Include) (children : option (list Include))
  : Include :=
  mkInclude (i_association i) (i_model i) (i_as i) (i_required i)
            (i_subQuery i) (i_subQueryFilter i) (i_separate i) (i_pseudo i)
            (i_attributes i) (i_where i) (i_on i) (i_or i) (i_through i)
            (i_parent i) (i_root i) children.

(** The loop [while (parent = parent.parent)] that rebuilds the chain
    from the top-level ancestor down to [child] as copies whose [include]
    holds the next link only; the result is [nestedIncludes[0]]. *)
Fixpoint topIncludeOf (child : Include) (nestedIncludes : list Include)
  : Include :=
  let copy := setInclude child (Some nestedIncludes) in
  match i_parent child with
  | Some p => topIncludeOf p [copy]
  | None => copy
  end.

(** The variables of [selectQuery] that the join generation writes to. *)
Record joinState := mkJoinState {
  js_mainAttributes : list jsval;
  js_subQueryAttributes : list jsval;
  js_where : option jsval               (* options.where *)
}.

Record joinQueries := mkJoinQueries {
  jq_mainQuery : list string;
  jq_subQuery : list string
}.

(** An attribute of an include, rewritten for the SELECT list. *)
Definition includeAttribute (as_ : string) (attr : jsval) : M jsval :=
  let qualify (verbatim : bool) (attr attrAs : jsval) : M jsval :=
    let* prefix :=
      if verbatim then str attr
      else let* a := keyName attr in
           ret (quoteIdentifier as_ false +:+ "." +:+ quoteIdentifier a false) in
    let* aliasName := str attrAs in
    ret (JStr (prefix +:+ " AS "
                 +:+ quoteIdentifier (as_ +:+ "." +:+ aliasName) true)) in
  match attr with
  | JArr [a0; a1] =>
      let* m0 := isMethodOrRaise "attr[0]._isSequelizeMethod" a0 in
      let verbatim :=
        m0 && match a0 with
              | JLiteral _ | JCast _ _ | JFn _ _ => true
              | _ => false
              end in
      let* a0' := if m0 then this_handleSequelizeMethod this a0 TAUndefined None None
                  else ret a0 in
      let* m1 := isMethodOrRaise "$attr._isSequelizeMethod" a1 in
      let* a1' := if m1 then this_handleSequelizeMethod this a1 TAUndefined None None
                  else ret a1 in
      qualify verbatim a0' a1'
  | JLiteral val => ret (JStr val)
  | JCast _ _ | JFn _ _ => throw MissingAliasForComputedAttribute
  | _ => qualify false attr attr
  end.

(** [if (!options.where) options.where = {}] *)
Definition ensureWhere (where_ : option jsval) : M jsval :=
  match where_ with
  | Some w => if truthy w then ret w else Heap.alloc []
  | None => Heap.alloc []
  end.

Definition emptySelect : SelectOptions :=
  mkSelectOptions None None JUndefined JUndefined None JUndefined JUndefined
                  false None None None false None None LockNone.

(** The correlated sub-select attached to [options.where] for a required
    through include under a subquery. *)
Definition throughSubQuery (include : Include) : M string :=
  let topInclude := topIncludeOf include [] in
  let topParent := i_root topInclude in
  let* topParentModel :=
    match r_model topParent with
    | Some m => ret m
    | None => throw (TypeError "topParent.model.name")
    end in
  let* qTop := ofOption (quoteTable (TName (m_name topParentModel)) AsNone) in
  let* (query, _) :=
    match i_through topInclude with
    | Some th =>
        let tm := th_model th in
        let joinCond :=
          Str.join " = "
            [ qTop +:+ "." +:+ quoteIdentifier (m_primaryKeyField topParentModel) false;
              quoteIdentifier (m_name tm) false +:+ "."
                +:+ quoteIdentifier (as_identifierField (i_association topInclude)) false ] in
        let* w := Heap.alloc [("$and", JArr [JLiteral joinCond; th_where th])] in
        this_selectQuery this (TATable (m_getTableName tm))
          (mkSelectOptions (Some [JStr (m_primaryKeyField tm)]) (Some w)
             JUndefined JUndefined None (JNum 1) JUndefined false None None
             (validateIncludedElements tm (i_association topInclude))
             true (Some tm) None LockNone)
          (Some tm)
    | None =>
        let m := i_model topInclude in
        let* pk := match m_primaryKeyAttributes m with
                   | k :: _ => ret k
                   | [] => stuck
                   end in
        let* pkTop := match m_primaryKeyAttributes topParentModel with
                      | k :: _ => ret k
                      | [] => stuck
                      end in
        let joinCond :=
          Str.join " = "
            [ qTop +:+ "." +:+ quoteIdentifier pkTop false;
              quoteIdentifier (m_name m) false +:+ "."
                +:+ quoteIdentifier (as_identifierField (i_association topInclude)) false ] in
        let* w := Heap.alloc [("$join", JLiteral joinCond)] in
        this_selectQuery this (TATable (TName (m_tableName m)))
          (mkSelectOptions (Some [JStr pk]) (Some w)
             JUndefined JUndefined None (JNum 1) JUndefined false None None
             (i_include topInclude) true None None LockNone)
          (Some m)
    end in
  ret (Str.join " " ["("; Str.stripSemicolon query; ")"; "IS NOT NULL"]).

(** The local [generateJoinQueries(include, parentTable)] of
    [selectQuery]; [tableName], [mainTableAs], [subQuery], [mainModel] and
    [options] are the variables of the enclosing call. *)
Fixpoint generateJoinQueries (depth : nat) (tableName : TableArg)
    (mainTableAs : option string) (subQuery : bool)
    (mainModel : option ModelMeta) (options : SelectOptions)
    (include : Include) (parentTable : option string) (st : joinState)
  : M (joinQueries * joinState) :=
  match depth with
  | O => outOfFuel
  | S depth' =>
  let association := i_association include in
  let joinType := if i_required include then " INNER JOIN " else " LEFT OUTER JOIN " in
  let* top := parentIsTop include (s_model options) in
  let table := m_getTableName (i_model include) in
  let tableNameDiffers :=
    match tableName, parentTable with
    | TATable (TName n), Some p => negb (String.eqb n p)
    | _, _ => true
    end in
  let mainTableAsDiffers :=
    match mainTableAs, parentTable with
    | Some a, Some p => negb (String.eqb a p)
    | None, None => false
    | _, _ => true
    end in
  let as_ := if tableNameDiffers && mainTableAsDiffers
             then nullStr parentTable +:+ "." +:+ i_as include
             else i_as include in
  let* st :=
    if negb (s_includeIgnoreAttributesOff options) then
      let* attributes := mapM (includeAttribute as_) (i_attributes include) in
      if i_subQuery include && subQuery
      then ret (mkJoinState (js_mainAttributes st)
                            (js_subQueryAttributes st ++ attributes) (js_where st))
      else ret (mkJoinState (js_mainAttributes st ++ attributes)
                            (js_subQueryAttributes st) (js_where st))
    else ret st in
  let* (joinQueryItem, st) :=
    match i_through include with
    | Some through =>
        let throughTable := m_getTableName (th_model through) in
        let throughAs := as_ +:+ "." +:+ th_as through in
        let* throughAttributes :=
          mapM (fun attr =>
                  let* (a0, a1) :=
                    match attr with
                    | JArr items => ret (nth 0 items JUndefined, nth 1 items JUndefined)
                    | _ => ret (attr, attr)
                    end in
                  let* n0 := keyName a0 in
                  let* n1 := str a1 in
                  ret (JStr (quoteIdentifier throughAs false +:+ "."
                               +:+ quoteIdentifier n0 false +:+ " AS "
                               +:+ quoteIdentifier (throughAs +:+ "." +:+ n1) false)))
               (th_attributes through) in
        let source := as_source association in
        let target := as_target association in
        let identSource := as_identifierField association in
        let identTarget := as_foreignIdentifierField association in
        let* pkTarget := match m_primaryKeyAttributes target with
                         | k :: _ => ret k
                         | [] => throw (TypeError "rawAttributes[primaryKeysTarget[0]].field")
                         end in
        let* attrTarget :=
          match assoc pkTarget (m_rawAttributes target) with
          | Some a => ret (strOr (a_field a) pkTarget)
          | None => throw (TypeError "rawAttributes[primaryKeysTarget[0]].field")
          end in
        let* pkSource := match m_primaryKeyAttributes source with
                         | k :: _ => ret k
                         | [] => stuck
                         end in
        let st :=
          if negb (s_includeIgnoreAttributesOff options)
          then mkJoinState (js_mainAttributes st ++ throughAttributes)
                           (js_subQueryAttributes st) (js_where st)
          else st in
        let parentIsMain :=
          match parentModel include, mainModel with
          | Some pm, Some m => String.eqb (m_name pm) (m_name m)
          | None, None => true
          | _, _ => false
          end in
        let* attrSource :=
          if negb subQuery
             || (subQuery && negb (i_subQuery include)
                 && negb (parentSubQuery include) && negb parentIsMain)
          then fieldOf source pkSource
          else ret pkSource in
        let* tableSource := ofOption parentTable in
        let* sourceJoinOn :=
          if subQuery && negb (i_subQuery include) && parentSubQuery include
             && negb top
          then ret (quoteIdentifier (tableSource +:+ "." +:+ attrSource) false +:+ " = ")
          else
            let* q := ofOption (quoteTable (TName tableSource) AsNone) in
            ret (q +:+ "." +:+ quoteIdentifier attrSource false +:+ " = ") in
        let sourceJoinOn := sourceJoinOn +:+ quoteIdentifier throughAs false +:+ "."
                              +:+ quoteIdentifier identSource false in
        let targetJoinOn :=
          quoteIdentifier as_ false +:+ "." +:+ quoteIdentifier attrTarget false
            +:+ " = " +:+ quoteIdentifier throughAs false +:+ "."
            +:+ quoteIdentifier identTarget false in
        let* throughWhere :=
          if truthy (th_where through) then
            this_getWhereConditions this (th_where through)
              (TALiteral (quoteIdentifier throughAs false))
              (Some (th_model through)) None
          else ret JUndefined in
        let* andThroughWhere :=
          if truthy throughWhere
          then let* ws := str throughWhere in ret (" AND " +:+ ws)
          else ret "" in
        let* qThrough := ofOption (quoteTable throughTable (AsName throughAs)) in
        let* qTable := ofOption (quoteTable table (AsName as_)) in
        let joinQueryItem :=
          if joinTableDependent supports then
            joinType +:+ "(" +:+ qThrough +:+ " INNER JOIN " +:+ qTable +:+ " ON "
              +:+ targetJoinOn +:+ andThroughWhere +:+ ") ON " +:+ sourceJoinOn
          else
            joinType +:+ qThrough +:+ " ON " +:+ sourceJoinOn
              +:+ joinType +:+ qTable +:+ " ON " +:+ targetJoinOn +:+ andThroughWhere in
        if truthy (i_where include) || truthy (th_where through) then
          let* joinQueryItem :=
            if truthy (i_where include) then
              let* targetWhere :=
                this_getWhereConditions this (i_where include)
                  (TALiteral (quoteIdentifier as_ false))
                  (Some (i_model include)) None in
              if truthy targetWhere
              then let* ws := str targetWhere in
                   ret (joinQueryItem +:+ " AND " +:+ ws)
              else ret joinQueryItem
            else ret joinQueryItem in
          if subQuery && i_required include then
            let* w := ensureWhere (js_where st) in
            let* q := throughSubQuery include in
            let* _ :=
              match w with
              | JRef l => Heap.setProp l ("__" +:+ throughAs) (JLiteral q)
              | _ => stuck
              end in
            ret (joinQueryItem,
                 mkJoinState (js_mainAttributes st) (js_subQueryAttributes st)
                             (Some w))
          else ret (joinQueryItem, st)
        else ret (joinQueryItem, st)
    | None =>
        let* st :=
          if subQuery && i_subQueryFilter include then
            let* tableSource := ofOption parentTable in
            let* qParent := ofOption (quoteTable (TName tableSource) AsNone) in
            let* raw := Heap.alloc
                          [("$raw", JStr (qParent +:+ "." +:+ quoteIdentifier
                               (m_primaryKeyField (as_source association)) false))] in
            let* associationWhere :=
              Heap.alloc [(as_identifierField association, raw)] in
            let* where0 := ensureWhere (js_where st) in
            let* includeWhere :=
              if truthy (i_where include) then ret (i_where include)
              else Heap.alloc [] in
            let* w := Heap.alloc [("$and", JArr [associationWhere; includeWhere])] in
            let* (query, _) :=
              this_selectQuery this (TATable table)
                (mkSelectOptions (Some [JStr (as_identifierField association)])
                   (Some w) JUndefined JUndefined None (JNum 1) JUndefined
                   false None None None false None None LockNone)
                (Some (i_model include)) in
            let subQueryWhere :=
              JLiteral (Str.join " " ["("; Str.stripSemicolon query; ")"; "IS NOT NULL"]) in
            let* where1 :=
              match where0 with
              | JRef l =>
                  let* _ := Heap.setProp l ("__" +:+ as_) subQueryWhere in
                  ret where0
              | _ => Heap.alloc [("$and", JArr [where0; subQueryWhere])]
              end in
            ret (mkJoinState (js_mainAttributes st) (js_subQueryAttributes st)
                             (Some where1))
          else ret st in
        let* j := joinIncludeQuery_ mainModel
                    (match s_subQuery options with Some b => b | None => false end)
                    include
                    (match s_groupedLimit options with Some _ => true | None => false end) in
        ret (" " +:+ j, st)
    end in
  let own :=
    if i_subQuery include && subQuery
    then mkJoinQueries [] [joinQueryItem]
    else mkJoinQueries [joinQueryItem] [] in
  match i_include include with
  | Some children =>
      foldM (fun (acc : joinQueries * joinState) childInclude =>
               if i_separate childInclude || i_pseudo childInclude then ret acc
               else
                 let* (child, st) :=
                   generateJoinQueries depth' tableName mainTableAs subQuery
                     mainModel options childInclude (Some as_) (snd acc) in
                 ret (mkJoinQueries
                        (jq_mainQuery (fst acc) ++ jq_mainQuery child)
                        (if i_subQuery childInclude && subQuery
                         then jq_subQuery (fst acc) ++ jq_subQuery child
                         else jq_subQuery (fst acc)),
                      st))
            (own, st) children
  | None => ret (own, st)
  end
  end.

(* ----------------------------------------------------------------- *)
(** *** [selectQuery] *)

(** [attr[i]]: an element of an array, a character of a string. *)
Definition index (attr : jsval) (i : nat) : M jsval :=
  match attr with
  | JArr items => ret (nth i items JUndefined)
  | JStr s =>
      ret (match String.get i s with
           | Some c => JStr (String c EmptyString)
           | None => JUndefined
           end)
  | JUndefined | JNull => throw (TypeError "attr[0]")
  | JRef _ => stuck
  | _ => ret JUndefined
  end.

(** The test of "Check if mainAttributes contain the primary key of the
    model either as a field or an aliased field":
    [keyAtt === attr || keyAtt === attr[0] || keyAtt === attr[1]]. *)
Definition mentionsKey (keyAtt : string) (attr : jsval) : M bool :=
  if keyIs attr keyAtt then ret true else
  let* a0 := index attr 0 in
  if keyIs a0 keyAtt then ret true else
  let* a1 := index attr 1 in
  ret (keyIs a1 keyAtt).

(** [_.find(list, predicate)] *)
Fixpoint findM {A} (p : A -> M bool) (l : list A) : M (option A) :=
  match l with
  | [] => ret None
  | a :: l' => let* b := p a in if b then ret (Some a) else findM p l'
  end.

(** One round of [for (const keyAtt of model.primaryKeyAttributes)]. *)
Definition addPrimaryKey (model : ModelMeta) (mainAttributes : list jsval)
    (keyAtt : string) : M (list jsval) :=
  let* found := findM (mentionsKey keyAtt) mainAttributes in
  if match found with Some a => truthy a | None => false end
  then ret mainAttributes
  else
    match assoc keyAtt (m_rawAttributes model) with
    | Some a =>
        match nonEmpty (a_field a) with
        | Some field => ret (mainAttributes ++ [JArr [JStr keyAtt; JStr field]])
        | None => ret (mainAttributes ++ [JStr keyAtt])
        end
    | None => throw (TypeError "model.rawAttributes[keyAtt].field")
    end.

Definition addPrimaryKeys (model : ModelMeta) (mainAttributes : list jsval)
  : M (list jsval) :=
  foldM (addPrimaryKey model) mainAttributes (m_primaryKeyAttributes model).

Definition dquote : string := String (ascii_of_nat 34) EmptyString.

(** "Escape attributes": the callback of [mainAttributes.map]. *)
Definition escapeAttribute (hasInclude : bool) (mainTableAs : option string)
    (attr : jsval) : M jsval :=
  let* m := isMethodOrRaise "attr._isSequelizeMethod" attr in
  if m then this_handleSequelizeMethod this attr TAUndefined None None else
  let* (attr, addTable) :=
    match attr with
    | JArr [a0; a1] =>
        let* m0 := isMethodOrRaise "attr[0]._isSequelizeMethod" a0 in
        let* (a0, addTable) :=
          if m0 then
            let* r := this_handleSequelizeMethod this a0 TAUndefined None None in
            ret (r, false)
          else
            match a0 with
            | JStr s0 =>
                if negb (Str.contains "(" s0) && negb (Str.contains ")" s0)
                then ret (JStr (quoteIdentifier s0 false), true)
                else ret (a0, true)
            | JArr _ => stuck
            | _ => throw (TypeError "attr[0].indexOf")
            end in
        let* n1 := keyName a1 in
        let* s := joinVals " AS " [a0; JStr (quoteIdentifier n1 false)] in
        ret (s, addTable)
    | JStr s =>
        if negb (Str.contains TICK_CHAR s) && negb (Str.contains dquote s)
        then ret (quoteIdentifiers s false, true)
        else ret (s, true)
    | JArr _ => stuck
    | _ => throw (TypeError "attr.indexOf")
    end in
  if hasInclude && negb (Str.contains "." attr) && addTable
  then ret (JStr (nullStr mainTableAs +:+ "." +:+ attr))
  else ret (JStr attr).

(** [_.assign({}, options.where)] followed by [where[on] = value]. *)
Definition groupedWhere (where_ : option jsval) (on : string) (value : jsval)
  : M jsval :=
  let* copy :=
    match where_ with
    | Some (JRef l) => Heap.read l
    | Some JUndefined | Some JNull | None => ret []
    | Some _ => stuck
    end in
  Heap.alloc (Obj.set on value copy).

(** The options of the recursive call for one value of a grouped limit:
    [{attributes, limit: groupedLimit.limit, order, where}]. *)
Definition branchOptions (options : SelectOptions) (gl : GroupedLimit)
    (where_ : jsval) : SelectOptions :=
  mkSelectOptions (s_attributes options) (Some where_) (s_order options)
    JUndefined None (gl_limit gl) JUndefined false None None None false None
    None LockNone.

(** The callback of [options.groupedLimit.values.map]: one parenthesised
    branch of the union. *)
Definition groupedBranch (options : SelectOptions) (gl : GroupedLimit)
    (model : option ModelMeta) (table : string) (where_ : option jsval)
    (value : jsval) : M string :=
  let* where_ := groupedWhere where_ (gl_on gl) value in
  let* (q, _) :=
    this_selectQuery this (TATable (TName table))
      (branchOptions options gl where_) model in
  ret ("(" +:+ Str.stripSemicolon q +:+ ")").

Definition isSome {A} (o : option A) : bool :=
  match o with Some _ => true | None => false end.

(** [options.subQuery === undefined ? limit && options.hasMultiAssociation
    : options.subQuery], as a condition. *)
Definition subQueryActive (options : SelectOptions) : bool :=
  match s_subQuery options with
  | None => truthy (s_limit options) && s_hasMultiAssociation options
  | Some b => b
  end.

(** Lines 29 to 404 of [selectQuery]: the alias and the text of the
    table, and the joins of the includes; the state holds the escaped
    attributes of the main query and of the subquery, and
    [options.where] as the includes leave it. *)
Definition selectPrelude (depth : nat) (tableName : TableArg)
    (options : SelectOptions) (model : option ModelMeta)
  : M (option string * string * joinQueries * joinState) :=
  let mainModel := model in
  let subQuery := subQueryActive options in
  let grouped := isSome (s_groupedLimit options) in
  let* mainTableAs :=
    match nonEmpty (s_tableAs options) with
    | Some a => let* q := ofOption (quoteTable (TName a) AsNone) in ret (Some q)
    | None =>
        match tableName, model with
        | TATable t, Some _ =>
            let* q := ofOption (quoteTable t AsNone) in ret (Some q)
        | _, _ => ret None
        end
    end in
  let* table :=
    match tableName with
    | TATable t => ofOption (quoteTable t AsNone)
    | TAList l =>
        let* parts :=
          mapM (fun t => match t with
                         | TEPair t0 t1 => ofOption (quoteTable t0 (AsName t1))
                         | TEOne t0 => ofOption (quoteTable t0 AsTrue)
                         end) l in
        ret (Str.join ", " parts)
    | _ => stuck
    end in
  let* mainAttributes :=
    match s_attributes options with
    | Some attrs =>
        let* attrs :=
          if subQuery then
            match model with
            | Some m => addPrimaryKeys m attrs
            | None => throw (TypeError "model.primaryKeyAttributes")
            end
          else ret attrs in
        mapM (escapeAttribute (isSome (s_include options)) mainTableAs) attrs
    | None =>
        ret (if isSome (s_include options)
             then [JStr (nullStr mainTableAs +:+ ".*")] else [JStr "*"])
    end in
  let st :=
    if subQuery || grouped
    then mkJoinState [JStr (strOr mainTableAs table +:+ ".*")] mainAttributes
                     (s_where options)
    else mkJoinState mainAttributes [] (s_where options) in
  let* (joins, st) :=
    match s_include options with
    | Some includes =>
        foldM (fun (acc : joinQueries * joinState) include =>
                 if i_separate include then ret acc
                 else
                   let* (jq, st) :=
                     generateJoinQueries depth tableName mainTableAs subQuery
                       mainModel options include mainTableAs (snd acc) in
                   ret (mkJoinQueries
                          (jq_mainQuery (fst acc) ++ jq_mainQuery jq)
                          (jq_subQuery (fst acc) ++ jq_subQuery jq), st))
              (mkJoinQueries [] [], st) includes
    | None => ret (mkJoinQueries [] [], st)
    end in
  ret (mainTableAs, table, joins, st).

(** [selectQuery(tableName, options, model)], returning the statement
    and the options as the call leaves them. *)
Definition selectQuery_ (depth : nat) (tableName : TableArg)
    (options : SelectOptions) (model : option ModelMeta)
  : M (string * SelectOptions) :=
  let subQuery := subQueryActive options in
  let grouped := isSome (s_groupedLimit options) in
  let* (mainTableAs, table, joins, st) :=
    selectPrelude depth tableName options model in
  let mainJoinQueries := jq_mainQuery joins in
  let subJoinQueries := jq_subQuery joins in
  let mainAttributes := js_mainAttributes st in
  let subQueryAttributes := js_subQueryAttributes st in
  let* (subQueryItems, mainQueryItems, mainTableAs) :=
    if subQuery then
      let* f := selectFromTableFragment subQueryAttributes table mainTableAs in
      ret ([f; Str.join "" subJoinQueries], [], mainTableAs)
    else
      match s_groupedLimit options with
      | Some gl =>
          let mainTableAs :=
            match nonEmpty mainTableAs with
            | Some a => Some a
            | None => Some table
            end in
          let* branches :=
            mapM (groupedBranch options gl model table (js_where st))
                 (gl_values gl) in
          let* f :=
            selectFromTableFragment mainAttributes
              ("(" +:+ Str.join (if UNION_ALL supports then " UNION ALL "
                                 else " UNION ") branches +:+ ")")
              mainTableAs in
          ret ([], [f; Str.join "" mainJoinQueries], mainTableAs)
      | None =>
          let* f := selectFromTableFragment mainAttributes table mainTableAs in
          ret ([], [f; Str.join "" mainJoinQueries], mainTableAs)
      end in
  (* Add WHERE to sub or main query *)
  let* (subQueryItems, mainQueryItems, where_) :=
    match js_where st with
    | Some w =>
        if grouped then ret (subQueryItems, mainQueryItems, js_where st)
        else
          let* c := this_getWhereConditions this w
                      (match nonEmpty mainTableAs with
                       | Some a => TATable (TName a)
                       | None => tableName
                       end) model None in
          if truthy c then
            let* cs := str c in
            if subQuery
            then ret (subQueryItems ++ [" WHERE " +:+ cs], mainQueryItems, Some c)
            else
              let* items :=
                mapM (fun value =>
                        if Str.startsWith "SELECT" value
                        then selectFromTableFragment mainAttributes table mainTableAs
                        else ret value)
                     (mainQueryItems ++ [" WHERE " +:+ cs]) in
              ret (subQueryItems, items, Some c)
          else ret (subQueryItems, mainQueryItems, Some c)
    | None => ret (subQueryItems, mainQueryItems, None)
    end in
  (* Add GROUP BY to sub or main query *)
  let* (subQueryItems, mainQueryItems, group) :=
    if truthy (s_group options) then
      let* g :=
        match s_group options with
        | JArr ts =>
            let* qs := mapM (fun t => this_quote this t model false) ts in
            let* s := joinVals ", " qs in ret (JStr s)
        | g => ret g
        end in
      let* gs := str g in
      if subQuery
      then ret (subQueryItems ++ [" GROUP BY " +:+ gs], mainQueryItems, g)
      else ret (subQueryItems, mainQueryItems ++ [" GROUP BY " +:+ gs], g)
    else ret (subQueryItems, mainQueryItems, s_group options) in
  (* Add HAVING to sub or main query *)
  let* (subQueryItems, mainQueryItems, having) :=
    match s_having options with
    | Some hv =>
        let* c := this_getWhereConditions this hv tableName model (Some false) in
        let* cs := str c in
        if subQuery
        then ret (subQueryItems ++ [" HAVING " +:+ cs], mainQueryItems, Some c)
        else ret (subQueryItems, mainQueryItems ++ [" HAVING " +:+ cs], Some c)
    | None => ret (subQueryItems, mainQueryItems, None)
    end in
  (* Add ORDER to sub or main query *)
  let* (subQueryItems, mainQueryItems) :=
    if truthy (s_order options) && negb grouped then
      let* (mainQueryOrder, subQueryOrder) :=
        getQueryOrders_ (s_order options) model subQuery in
      let* mainQueryItems :=
        match mainQueryOrder with
        | [] => ret mainQueryItems
        | _ => let* s := joinVals ", " mainQueryOrder in
               ret (mainQueryItems ++ [" ORDER BY " +:+ s])
        end in
      let* subQueryItems :=
        match subQueryOrder with
        | [] => ret subQueryItems
        | _ => let* s := joinVals ", " subQueryOrder in
               ret (subQueryItems ++ [" ORDER BY " +:+ s])
        end in
      ret (subQueryItems, mainQueryItems)
    else ret (subQueryItems, mainQueryItems) in
  (* Add LIMIT, OFFSET to sub or main query *)
  let* limitOrder := addLimitAndOffset_ (s_limit options) (s_offset options) in
  let (subQueryItems, mainQueryItems) :=
    if negb (String.eqb limitOrder "") && negb grouped then
      if subQuery then (subQueryItems ++ [limitOrder], mainQueryItems)
      else (subQueryItems, mainQueryItems ++ [limitOrder])
    else (subQueryItems, mainQueryItems) in
  let* query :=
    if subQuery then
      let* attrs := joinVals ", " mainAttributes in
      ret ("SELECT " +:+ attrs +:+ " FROM (" +:+ Str.join "" subQueryItems
             +:+ ") AS " +:+ nullStr mainTableAs
             +:+ Str.join "" mainJoinQueries +:+ Str.join "" mainQueryItems)
    else ret (Str.join "" mainQueryItems) in
  let* query :=
    let lockTruthy :=
      match s_lock options with
      | LockNone => false
      | LockLevel l => negb (String.eqb l "")
      | LockObj _ _ => true
      end in
    if lockTruthy && lock supports then
      let level :=
        match s_lock options with
        | LockLevel l => JStr l
        | LockObj l _ => l
        | LockNone => JUndefined
        end in
      let* query :=
        if lockKey supports && (keyIs level "KEY SHARE" || keyIs level "NO KEY UPDATE")
        then let* ls := str level in ret (query +:+ " FOR " +:+ ls)
        else if keyIs level "SHARE"
        then ret (query +:+ " " +:+ match forShare supports with
                                    | Some s => s
                                    | None => "undefined"
                                    end)
        else ret (query +:+ " FOR UPDATE") in
      match s_lock options with
      | LockObj _ (Some m) =>
          if lockOf supports then
            let* q := ofOption (quoteTable (TName (m_name m)) AsNone) in
            ret (query +:+ " OF " +:+ q)
          else ret query
      | _ => ret query
      end
    else ret query in
  ret (query +:+ ";",
       mkSelectOptions (s_attributes options) where_ (s_order options) group
         having (s_limit options) (s_offset options)
         (s_hasMultiAssociation options) (s_subQuery options)
         (s_tableAs options) (s_include options)
         (s_includeIgnoreAttributesOff options) (s_model options)
         (s_groupedLimit options) (s_lock options)).

End Methods.

(** The method table with [fuel] levels of calls left. *)
Fixpoint generator (fuel : nat) : QueryGenerator :=
  match fuel with
  | O =>
      mkGenerator (fun _ _ _ => outOfFuel) (fun _ _ _ => outOfFuel)
                  (fun _ _ _ _ => outOfFuel) (fun _ _ _ => outOfFuel)
                  (fun _ _ _ => outOfFuel) (fun _ _ _ _ => outOfFuel)
                  (fun _ _ _ => outOfFuel)
  | S fuel' =>
      let this := generator fuel' in
      mkGenerator (quote_ this) (escape_ this) (handleSequelizeMethod_ this)
                  (whereItemsQuery_ this) (whereItemQuery_ this fuel')
                  (getWhereConditions_ this) (selectQuery_ this fuel')
  end.

Definition quote (fuel : nat) := this_quote (generator fuel).
Definition escape (fuel : nat) := this_escape (generator fuel).
Definition handleSequelizeMethod (fuel : nat) :=
  this_handleSequelizeMethod (generator fuel).
Definition whereItemsQuery (fuel : nat) := this_whereItemsQuery (generator fuel).
Definition whereItemQuery (fuel : nat) := this_whereItemQuery (generator fuel).
Definition getWhereConditions (fuel : nat) :=
  this_getWhereConditions (generator fuel).
Definition selectQuery (fuel : nat) := this_selectQuery (generator fuel).
Definition whereQuery (fuel : nat) := whereQuery_ (generator fuel).
Definition getQueryOrders (fuel : nat) := getQueryOrders_ (generator fuel).
Definition addLimitAndOffset (fuel : nat) := addLimitAndOffset_ (generator fuel).
Definition joinIncludeQuery (fuel : nat) := joinIncludeQuery_ (generator fuel).

End Generator.

(* ================================================================= *)
(** ** Mutation builders *)

(** A query template of [_.template]: literal text and [<%= name %>]
    holes. *)
Inductive segment :=
| Lit (text : string)
| Hole (name : string).

(** [_.template(query)(replacements)] for a query whose literal text
    holds no template syntax: an undefined replacement prints as the
    empty string. *)
Definition render (query : list segment)
    (replacements : list (string * option string)) : string :=
  String.concat ""
    (map (fun seg =>
            match seg with
            | Lit text => text
            | Hole name =>
                match assoc name replacements with
                | Some (Some v) => v
                | _ => ""
                end
            end) query).

(** Text that [_.template] would not take as it is: it opens a
    delimiter of the template language. *)
Definition hasTemplateSyntax (text : string) : bool :=
  Str.contains "<%" text || Str.contains "${" text.

(** [_.template(query)(replacements)].  The text that the caller has
    put into the query (a quoted table, an escaped limit, an ON
    DUPLICATE KEY clause) goes through the template language as well;
    a query in which such text opens a template delimiter is outside
    the model. *)
Definition template (query : list segment)
    (replacements : list (string * option string)) : M string :=
  if existsb (fun seg => match seg with
                         | Lit text => hasTemplateSyntax text
                         | Hole _ => false
                         end) query
  then stuck
  else ret (render query replacements).

Module Trim.

Definition isSpace (c : ascii) : bool :=
  let n := nat_of_ascii c in
  (n =? 32)%nat || ((9 <=? n)%nat && (n <=? 13)%nat).

Fixpoint trimStart (s : string) : string :=
  match s with
  | String c s' => if isSpace c then trimStart s' else s
  | EmptyString => EmptyString
  end.

Fixpoint trimEnd (s : string) : string :=
  match s with
  | EmptyString => EmptyString
  | String c s' =>
      match trimEnd s' with
      | EmptyString => if isSpace c then EmptyString else String c EmptyString
      | rest => String c rest
      end
  end.

(** [s.trim()] *)
Definition trim (s : string) : string := trimEnd (trimStart s).

End Trim.

(** [map[k] = v] on an attribute map. *)
Fixpoint assocSet {A} (k : string) (v : A) (l : list (string * A))
  : list (string * A) :=
  match l with
  | [] => [(k, v)]
  | (k', v') :: l' =>
      if String.eqb k k' then (k, v) :: l' else (k', v') :: assocSet k v l'
  end.

(** [modelAttributeMap]: every attribute under its name and, when it has
    one, under its field. *)
Definition modelAttributeMap (modelAttributes : list (string * Attribute))
  : list (string * Attribute) :=
  fold_left (fun map_ entry =>
               let map_ := assocSet (fst entry) (snd entry) map_ in
               match nonEmpty (a_field (snd entry)) with
               | Some f => assocSet f (snd entry) map_
               | None => map_
               end) modelAttributes [].

Record InsertOptions := mkInsertOptions {
  io_returning : bool;
  io_hasTrigger : bool;
  io_exception : option string;
  io_onDuplicate : option string;
  io_ignore : bool
}.

Record UpdateOptions := mkUpdateOptions {
  uo_limit : jsval;
  uo_returning : bool;
  uo_hasTrigger : bool;
  uo_omitNull : option bool;
  uo_allowNull : list string;
  uo_mapToModel : bool
}.

Section Mutations.

Context {E : Env}.

(** The columns of the [@tmp] table that captures OUTPUT rows under a
    trigger: [(tmpColumns, outputColumns)]. *)
Definition tmpTableColumns (attributes : list (string * Attribute))
  : M (string * string) :=
  foldM (fun (acc : string * string) (entry : string * Attribute) =>
           let attribute := snd entry in
           if isVIRTUAL (a_type attribute) then ret acc
           else
             let sep := if String.eqb (fst acc) "" then "" else "," in
             let* ty := match a_type attribute with
                        | Some ty => ret ty
                        | None => throw (TypeError "attribute.type.toSql")
                        end in
             let* field := ofOption (a_field attribute) in
             ret (fst acc +:+ sep +:+ quoteIdentifier field false +:+ " "
                      +:+ dtToSql ty,
                  snd acc +:+ sep +:+ "INSERTED." +:+ quoteIdentifier field false))
        ("", "") attributes.

(** State of the [for (const key in valueHash)] loop of [insertQuery]. *)
Record insertRow := mkInsertRow {
  ir_fields : list string;
  ir_values : list jsval;
  ir_identityWrapperRequired : bool
}.

(** [modelAttributeMap[key].autoIncrement === true] *)
Definition isAutoIncrement (map_ : list (string * Attribute)) (key : string)
  : bool :=
  match assoc key map_ with
  | Some a => a_autoIncrement a
  | None => false
  end.

Definition insertStep (fuel : nat) (map_ : list (string * Attribute))
    (row : insertRow) (entry : string * jsval) : M insertRow :=
  let key := fst entry in
  let value := snd entry in
  let fields := ir_fields row ++ [quoteIdentifier key false] in
  if isAutoIncrement map_ key && negb (truthy value) then
    (* SERIALS' can't be NULL in postgresql, use DEFAULT where supported *)
    if negb (ai_defaultValue (autoIncrement supports)) then
      ret (mkInsertRow (removelast fields) (ir_values row)
                       (ir_identityWrapperRequired row))
    else if DEFAULT supports then
      ret (mkInsertRow fields (ir_values row ++ [JStr "DEFAULT"])
                       (ir_identityWrapperRequired row))
    else
      let* v := escape fuel JNull None noEscapeOptions in
      ret (mkInsertRow fields (ir_values row ++ [v])
                       (ir_identityWrapperRequired row))
  else
    let* v := escape fuel value (assoc key map_)
                (mkEscapeOptions false false (Some "INSERT")) in
    ret (mkInsertRow fields (ir_values row ++ [v])
                     (ir_identityWrapperRequired row || isAutoIncrement map_ key)).

Definition removeDashes (s : string) : string :=
  string_of_list_ascii
    (List.filter (fun c => negb (Ascii.eqb c "-"%char)) (list_ascii_of_string s)).

(** Lines 18 to 100 of [insertQuery]: the template for a statement with
    columns and the one for a statement without, the OUTPUT fragment,
    the declaration of the [@tmp] table, and [options.exception] as the
    call leaves it. *)
Definition insertTemplates
    (modelAttributes : option (list (string * Attribute)))
    (options : InsertOptions)
  : M (list segment * list segment * option string * string * option string) :=
  let valueQuery :=
    [Hole "tmpTable"; Lit "INSERT"; Hole "ignore"; Lit " INTO "; Hole "table";
     Lit " ("; Hole "attributes"; Lit ")"; Hole "output"; Lit " VALUES (";
     Hole "values"; Lit ")"] in
  let emptyQuery :=
    [Hole "tmpTable"; Lit "INSERT"; Hole "ignore"; Lit " INTO "; Hole "table";
     Hole "output"] in
  let emptyQuery :=
    if DEFAULT_VALUES supports then emptyQuery ++ [Lit " DEFAULT VALUES"]
    else if VALUES_EMPTY supports then emptyQuery ++ [Lit " VALUES ()"]
    else emptyQuery in
  let* (valueQuery, emptyQuery, outputFragment, tmpTable) :=
    match returnValues supports, io_returning options with
    | Some rv, true =>
        if rv_returning rv then
          ret (valueQuery ++ [Lit " RETURNING *"],
               emptyQuery ++ [Lit " RETURNING *"], None, "")
        else if rv_output rv then
          match modelAttributes, io_hasTrigger options && tmpTableTrigger supports with
          | Some attrs, true =>
              let* (tmpColumns, outputColumns) := tmpTableColumns attrs in
              let tmpTable :=
                Trim.trim (render [Lit "declare @tmp table ("; Hole "columns"; Lit "); "]
                                  [("columns", Some tmpColumns)]) in
              let selectFromTmp := ";select * from @tmp" in
              ret (valueQuery ++ [Lit selectFromTmp],
                   emptyQuery ++ [Lit selectFromTmp],
                   Some (" OUTPUT " +:+ outputColumns +:+ " into @tmp"), tmpTable)
          | _, _ => ret (valueQuery, emptyQuery, Some " OUTPUT INSERTED.*", "")
          end
        else ret (valueQuery, emptyQuery, None, "")
    | _, _ => ret (valueQuery, emptyQuery, None, "")
    end in
  let (valueQuery, exception) :=
    if EXCEPTION supports && isSome (nonEmpty (io_exception options)) then
      if databaseVersionGte_9_2_0 then
        let delimiter := "$func_" +:+ removeDashes uuid_v4 +:+ "$" in
        let exception :=
          "WHEN unique_violation THEN GET STACKED DIAGNOSTICS sequelize_caught_exception = PG_EXCEPTION_DETAIL;" in
        ([Lit "CREATE OR REPLACE FUNCTION pg_temp.testfunc(OUT response ";
          Hole "table";
          Lit (", OUT sequelize_caught_exception text) RETURNS RECORD AS "
                 +:+ delimiter +:+ " BEGIN ")]
           ++ valueQuery
           ++ [Lit (" INTO response; EXCEPTION " +:+ exception +:+ " END "
                      +:+ delimiter
                      +:+ " LANGUAGE plpgsql; SELECT (testfunc.response).*, testfunc.sequelize_caught_exception FROM pg_temp.testfunc(); DROP FUNCTION IF EXISTS pg_temp.testfunc()")],
         Some exception)
      else
        let exception := "WHEN unique_violation THEN NULL;" in
        ([Lit "CREATE OR REPLACE FUNCTION pg_temp.testfunc() RETURNS SETOF ";
          Hole "table"; Lit " AS $body$ BEGIN RETURN QUERY "]
           ++ valueQuery
           ++ [Lit ("; EXCEPTION " +:+ exception
                      +:+ " END; $body$ LANGUAGE plpgsql; SELECT * FROM pg_temp.testfunc(); DROP FUNCTION IF EXISTS pg_temp.testfunc();")],
         Some exception)
    else (valueQuery, io_exception options) in
  let (valueQuery, emptyQuery) :=
    match ON_DUPLICATE_KEY supports, nonEmpty (io_onDuplicate options) with
    | true, Some clause =>
        (valueQuery ++ [Lit (" ON DUPLICATE KEY " +:+ clause)],
         emptyQuery ++ [Lit (" ON DUPLICATE KEY " +:+ clause)])
    | _, _ => (valueQuery, emptyQuery)
    end in
  ret (valueQuery, emptyQuery, outputFragment, tmpTable, exception).

(** [insertQuery(table, valueHash, modelAttributes, options)], returning
    the statement and the options as the call leaves them. *)
Definition insertQuery (fuel : nat) (table : TableRef) (valueHash : object)
    (modelAttributes : option (list (string * Attribute)))
    (options : InsertOptions) : M (string * InsertOptions) :=
  let map_ := match modelAttributes with
              | Some attrs => modelAttributeMap attrs
              | None => []
              end in
  let* (valueQuery, emptyQuery, outputFragment, tmpTable, exception) :=
    insertTemplates modelAttributes options in
  let valueHash := removeNullValuesFromHash valueHash omitNull [] in
  let* row := foldM (insertStep fuel map_) (mkInsertRow [] [] false) valueHash in
  let* values := joinVals "," (ir_values row) in
  let* qTable := ofOption (quoteTable table AsNone) in
  let attributes := Str.join "," (ir_fields row) in
  let replacements :=
    [ ("ignore", if io_ignore options then IGNORE supports else Some "");
      ("table", Some qTable);
      ("attributes", Some attributes);
      ("output", outputFragment);
      ("values", Some values);
      ("tmpTable", Some tmpTable) ] in
  let query :=
    (if String.eqb attributes "" then emptyQuery else valueQuery) ++ [Lit ";"] in
  let query :=
    if ir_identityWrapperRequired row && ai_identityInsert (autoIncrement supports)
    then [Lit "SET IDENTITY_INSERT"; Lit " "; Lit qTable; Lit " "; Lit "ON;"; Lit " "]
           ++ query
           ++ [Lit " "; Lit "SET IDENTITY_INSERT"; Lit " "; Lit qTable; Lit " ";
               Lit "OFF;"]
    else query in
  let* statement := template query replacements in
  ret (statement,
       mkInsertOptions (io_returning options) (io_hasTrigger options) exception
                       (io_onDuplicate options) (io_ignore options)).

(** *** The insert loop as its description tells it

    The definitions below do not come from the code: they tell in
    their own terms which attribute stands for a key, and what the
    column list and the value list of an insert are, to be compared
    with what [insertQuery] computes. *)

(** A key of the value hash names an attribute of the model by the
    attribute's name or by its field. *)
Definition namesAttribute (key : string) (entry : string * Attribute) : bool :=
  String.eqb key (fst entry)
  || match nonEmpty (a_field (snd entry)) with
     | Some f => String.eqb key f
     | None => false
     end.

(** The attribute that stands for a key: the last one, in the order of
    the model's keys, that the key names. *)
Definition attributeFor (modelAttributes : list (string * Attribute))
    (key : string) : option Attribute :=
  match find (namesAttribute key) (rev modelAttributes) with
  | Some entry => Some (snd entry)
  | None => None
  end.

(** The key stands for an attribute marked [autoIncrement]. *)
Definition markedAutoIncrement (modelAttributes : list (string * Attribute))
    (key : string) : bool :=
  match attributeFor modelAttributes key with
  | Some a => a_autoIncrement a
  | None => false
  end.

(** [insertedRow fuel attrs entries columns values h h']: [columns] and
    [values] are the column list and the value list for the entries of
    a value hash.  An auto-increment key with a falsy value gives no
    column where the dialect has no default value for such a column,
    [DEFAULT] where the dialect has that word, and the escaped [null]
    otherwise; any other entry gives its quoted key and its escaped
    value.  The store goes from [h] to [h']. *)
Fixpoint insertedRow (fuel : nat) (modelAttributes : list (string * Attribute))
    (entries : object) (columns : list string) (values : list jsval)
    (h h' : heap) : Prop :=
  match entries with
  | [] => columns = [] /\ values = [] /\ h' = h
  | (key, value) :: entries =>
      if markedAutoIncrement modelAttributes key && negb (truthy value) then
        if negb (ai_defaultValue (autoIncrement supports)) then
          insertedRow fuel modelAttributes entries columns values h h'
        else if DEFAULT supports then
          exists columns' values',
            columns = quoteIdentifier key false :: columns'
            /\ values = JStr "DEFAULT" :: values'
            /\ insertedRow fuel modelAttributes entries columns' values' h h'
        else
          exists null h1 columns' values',
            escape fuel JNull None noEscapeOptions h = Ret null h1
            /\ columns = quoteIdentifier key false :: columns'
            /\ values = null :: values'
            /\ insertedRow fuel modelAttributes entries columns' values' h1 h'
      else
        exists v h1 columns' values',
          escape fuel value (attributeFor modelAttributes key)
            (mkEscapeOptions false false (Some "INSERT")) h = Ret v h1
          /\ columns = quoteIdentifier key false :: columns'
          /\ values = v :: values'
          /\ insertedRow fuel modelAttributes entries columns' values' h1 h'
  end.

(** Two entries of a value hash with the same key, and either the same
    value or two falsy values of an auto-increment key. *)
Definition sameButFalsy (modelAttributes : list (string * Attribute))
    (entry entry' : string * jsval) : Prop :=
  fst entry = fst entry'
  /\ (snd entry = snd entry'
      \/ (markedAutoIncrement modelAttributes (fst entry) = true
          /\ truthy (snd entry) = false /\ truthy (snd entry') = false)).

(** [updateQuery(tableName, attrValueHash, where, options, attributes)],
    returning the statement and the options as the call leaves them
    ([_.defaults(options, this.options)] supplies [omitNull]). *)
Definition updateQuery (fuel : nat) (tableName : TableRef)
    (attrValueHash : object) (where_ : jsval) (options : UpdateOptions)
    (attributes : option (list (string * Attribute)))
  : M (string * UpdateOptions) :=
  let omit := match uo_omitNull options with Some b => b | None => omitNull end in
  let attrValueHash :=
    removeNullValuesFromHash attrValueHash omit (uo_allowNull options) in
  let query :=
    [Hole "tmpTable"; Lit "UPDATE "; Hole "table"; Lit " SET "; Hole "values";
     Hole "output"; Lit " "; Hole "where"] in
  let* query :=
    if LIMIT_ON_UPDATE supports && truthy (uo_limit options) then
      let* l := escape fuel (uo_limit options) None noEscapeOptions in
      let* ls := str l in
      ret (query ++ [Lit (" LIMIT " +:+ ls +:+ " ")])
    else ret query in
  let* (query, outputFragment, tmpTable, mapToModel) :=
    match returnValues supports with
    | Some rv =>
        if rv_output rv then
          (* we always need this for mssql *)
          match attributes, uo_hasTrigger options && tmpTableTrigger supports with
          | Some attrs, true =>
              let* (tmpColumns, outputColumns) := tmpTableColumns attrs in
              let tmpTable :=
                Trim.trim (render [Lit "declare @tmp table ("; Hole "columns"; Lit "); "]
                                  [("columns", Some tmpColumns)]) in
              ret (query ++ [Lit ";select * from @tmp"],
                   Some (" OUTPUT " +:+ outputColumns +:+ " into @tmp"),
                   tmpTable, uo_mapToModel options)
          | _, _ => ret (query, Some " OUTPUT INSERTED.*", "", uo_mapToModel options)
          end
        else if uo_returning options then
          ret (query ++ [Lit " RETURNING *"], None, "", true)
        else ret (query, None, "", uo_mapToModel options)
    | None => ret (query, None, "", uo_mapToModel options)
    end in
  let map_ := match attributes with
              | Some attrs => modelAttributeMap attrs
              | None => []
              end in
  let* values :=
    foldM (fun values (entry : string * jsval) =>
             if isAutoIncrement map_ (fst entry)
                && negb (ai_update (autoIncrement supports))
             then ret values   (* not allowed to update identity column *)
             else
               let* v := escape fuel (snd entry) (assoc (fst entry) map_)
                           (mkEscapeOptions false false (Some "UPDATE")) in
               let* vs := str v in
               ret (values ++ [quoteIdentifier (fst entry) false +:+ "=" +:+ vs]))
          [] attrValueHash in
  let* qTable := ofOption (quoteTable tableName AsNone) in
  let* w := whereQuery fuel where_ noOptions in
  let replacements :=
    [ ("table", Some qTable); ("values", Some (Str.join "," values));
      ("output", outputFragment); ("where", Some w);
      ("tmpTable", Some tmpTable) ] in
  let options :=
    mkUpdateOptions (uo_limit options) (uo_returning options)
                    (uo_hasTrigger options) (Some omit) (uo_allowNull options)
                    mapToModel in
  match values with
  | [] => ret ("", options)
  | _ => let* statement := template query replacements in
         ret (Trim.trim statement, options)
  end.

(** [incrementQuery(tableName, attrValueHash, where, options)]; [options]
    is a hash of further columns to assign. *)
Definition incrementQuery (fuel : nat) (tableName : TableRef)
    (attrValueHash : object) (where_ : jsval) (options : option object)
  : M string :=
  let attrValueHash := removeNullValuesFromHash attrValueHash omitNull [] in
  let query :=
    [Lit "UPDATE "; Hole "table"; Lit " SET "; Hole "values"; Hole "output";
     Lit " "; Hole "where"] in
  let (query, outputFragment) :=
    match returnValues supports with
    | Some rv =>
        if rv_returning rv then (query ++ [Lit " RETURNING *"], None)
        else if rv_output rv then (query, Some " OUTPUT INSERTED.*")
        else (query, None)
    | None => (query, None)
    end in
  let* values :=
    foldM (fun values (entry : string * jsval) =>
             let* v := escape fuel (snd entry) None noEscapeOptions in
             let* vs := str v in
             ret (values ++ [quoteIdentifier (fst entry) false +:+ "="
                               +:+ quoteIdentifier (fst entry) false +:+ " + "
                               +:+ vs]))
          [] attrValueHash in
  let options := match options with Some o => o | None => [] end in
  let* values :=
    foldM (fun values (entry : string * jsval) =>
             let* v := escape fuel (snd entry) None noEscapeOptions in
             let* vs := str v in
             ret (values ++ [quoteIdentifier (fst entry) false +:+ "=" +:+ vs]))
          values options in
  let* qTable := ofOption (quoteTable tableName AsNone) in
  let* w := whereQuery fuel where_ noOptions in
  template query
    [ ("table", Some qTable); ("values", Some (Str.join "," values));
      ("output", outputFragment); ("where", Some w) ].

End Mutations.

(* ================================================================= *)
(** ** A concrete dialect for evaluating the generator *)

Module TestDialect.

(** Bracket quoting, as in the documentation's expected shapes. *)
Fixpoint unbracket (s : string) : string :=
  match s with
  | EmptyString => EmptyString
  | String c s' =>
      if Ascii.eqb c "["%char || Ascii.eqb c "]"%char then unbracket s'
      else String c (unbracket s')
  end.

Definition quote_id (s : string) (force : bool) : string :=
  "[" +:+ unbracket s +:+ "]".

Fixpoint escape_val (v : jsval) : string :=
  match v with
  | JNull | JUndefined => "NULL"
  | JBool true => "true"
  | JBool false => "false"
  | JNum n => Str.string_of_Z n
  | JStr s => "'" +:+ s +:+ "'"
  | JArr items =>
      (fix go (l : list jsval) : string :=
         match l with
         | [] => ""
         | [x] => escape_val x
         | x :: l' => escape_val x +:+ ", " +:+ go l'
         end) items
  | _ => "?"
  end.

Definition caps : DialectCaps :=
  mkCaps false (Some (mkReturnValues true false)) false
         (mkAutoIncrementCaps true false true)
         true true false None false false false
         true false false (Some "FOR SHARE") true false.

Definition isCol (s : string) : bool :=
  match s with
  | String "$"%char rest =>
      match List.last (list_ascii_of_string rest) "x"%char with
      | "$"%char => true
      | _ => false
      end
  | _ => false
  end.

(** The test dialect over a given association lookup. *)
Definition envWith
    (associations : ModelMeta -> jsval -> jsval -> option Association)
  : Env := {|
  quoteIdentifier := quote_id;
  supports := caps;
  sqlEscape := fun _ v => escape_val v;
  typeValidation := false;
  omitNull := false;
  dtValidate := fun _ => None;
  dtStringify := fun _ => None;
  dtEscapeFalse := fun _ => false;
  dtToSql := dt_name;
  utilsFormat := fun _ _ => "";
  canTreatArrayAsAnd := fun _ l => forallb isPlainObject l;
  isColString := isCol;
  removeNullValuesFromHash := fun o _ _ => o;
  getAssociation := associations;
  validateIncludedElements := fun _ _ => None;
  uuid_v4 := "00000000-0000-4000-8000-000000000000";
  databaseVersionGte_9_2_0 := true;
  TICK_CHAR := "`";
  toUpperCase := Str.toUpperCase
|}.

(** No model has an association. *)
Definition env : Env := envWith (fun _ _ _ => None).

End TestDialect.

(* ================================================================= *)
(** ** A dialect with identity columns *)

Module IdentityDialect.

(** Capabilities in the manner of MSSQL: rows come back through OUTPUT,
    an identity column takes no DEFAULT, is written only under
    IDENTITY_INSERT and is never updated. *)
Definition caps : DialectCaps :=
  mkCaps true (Some (mkReturnValues false true)) true
         (mkAutoIncrementCaps false true false)
         true true false None false false false
         true false false None false false.

Definition env : Env := {|
  quoteIdentifier := TestDialect.quote_id;
  supports := caps;
  sqlEscape := fun _ v => TestDialect.escape_val v;
  typeValidation := false;
  omitNull := false;
  dtValidate := fun _ => None;
  dtStringify := fun _ => None;
  dtEscapeFalse := fun _ => false;
  dtToSql := dt_name;
  utilsFormat := fun _ _ => "";
  canTreatArrayAsAnd := fun _ l => forallb isPlainObject l;
  isColString := TestDialect.isCol;
  removeNullValuesFromHash := fun o _ _ => o;
  getAssociation := fun _ _ _ => None;
  validateIncludedElements := fun _ _ => None;
  uuid_v4 := "00000000-0000-4000-8000-000000000000";
  databaseVersionGte_9_2_0 := true;
  TICK_CHAR := "`";
  toUpperCase := Str.toUpperCase
|}.

End IdentityDialect.

(* ================================================================= *)
(** ** Concrete requests *)

Module Examples.

Definition users : ModelMeta :=
  mkModel "User" "users" (TName "users") ["id"] "id" "id" ["id"]
          [("id", mkAttribute (Some "id") None true);
           ("name", mkAttribute (Some "name") None false)] [].

Definition posts : ModelMeta :=
  mkModel "Post" "posts" (TName "posts") ["id"] "id" "id" ["id"]
          [("id", mkAttribute (Some "id") None true);
           ("userId", mkAttribute (Some "user_id") None false)] [].

(** [User.hasMany(Post, {as: 'posts'})] *)
Definition userPosts : Association :=
  mkAssociation false users posts "posts" "userId" "user_id" "user_id"
                None None.

(** A dialect instance in which every model reaches [posts]. *)
Definition envWithPosts : Env :=
  TestDialect.envWith (fun _ _ _ => Some userPosts).

(** The empty combinators, and a condition next to an empty [$and]. *)
Definition combinatorHeap : heap :=
  [ [("$or", JArr [])]; [("$not", JArr [])]; [("$and", JArr [])];
    [("$and", JArr []); ("a", JNum 1)]; [("a", JNum 1)] ].

(** Empty and Literal arguments of [$in] and [$notIn]. *)
Definition inHeap : heap :=
  [ [("$in", JArr [])]; [("$notIn", JArr [])];
    [("$in", JLiteral "(SELECT 1)")]; [("$notIn", JLiteral "(SELECT 1)")];
    [("tags", JRef 1)] ].

(** The attribute map of a model with a serial [id]. *)
Definition serialId : list (string * Attribute) :=
  [("id", mkAttribute (Some "id") None true)].

(** A one-column increment on the test dialect, whose conditions are
    the object at location 0. *)
Definition counterHeap : heap := [[("id", JNum 1)]].
Definition plainUpdate : UpdateOptions :=
  mkUpdateOptions JUndefined false false None [] false.

(** A model whose primary key has a one-letter name. *)
Definition points : ModelMeta :=
  mkModel "Point" "points" (TName "points") ["x"] "x" "x" ["x"]
          [("x", mkAttribute (Some "x") None false);
           ("xlabel", mkAttribute (Some "xlabel") None false)] [].

(** A find call for the given attributes under an active subquery. *)
Definition selectAttributes (attributes : list jsval) : SelectOptions :=
  mkSelectOptions (Some attributes) None JUndefined JUndefined None JUndefined
    JUndefined false (Some true) None None false None None LockNone.

(** The three newest posts of the users 1 and 2. *)
Definition postsOfUsers : GroupedLimit :=
  mkGroupedLimit "userId" [JNum 1; JNum 2] (JNum 3).

Definition selectGrouped (subQuery : bool) : SelectOptions :=
  mkSelectOptions (Some [JStr "name"]) (Some (JRef 0)) JUndefined JUndefined
    None JUndefined JUndefined false (Some subQuery) None None false None
    (Some postsOfUsers) LockNone.

Definition activeOnly : heap := [[("active", JBool true)]].

(** The posts of a user, required, and filtered through the subquery
    of the find call. *)
Definition requiredPosts : Include :=
  mkInclude userPosts posts "posts" true false true false false []
            JUndefined JUndefined false None None
            (mkRoot (Some users) None false) None.

(** Five users that are active and have posts; the conditions are the
    object at location 0. *)
Definition selectWithPosts : SelectOptions :=
  mkSelectOptions None (Some (JRef 0)) JUndefined JUndefined None (JNum 5)
    JUndefined true None None (Some [requiredPosts]) false (Some users) None
    LockNone.

End Examples.

(* ================================================================= *)
(** ** Notions used to state the properties *)

(** On a mapping without legacy spellings the alias rewrite is a no-op. *)
Definition aliasFree (o : object) : Prop :=
  Forall (fun k => lookupTable aliasMap k = Absent) (Obj.keys o).

Section KeyNotions.

Context {E : Env}.

(** A key that names a plain column: not empty, no legacy spelling, no
    combinator, no delimited column reference. *)
Record plainKey (k : string) : Prop := {
  pk_nonEmpty : k <> "";
  pk_noAlias : lookupTable aliasMap k = Absent;
  pk_noOr : k <> "$or";
  pk_noAnd : k <> "$and";
  pk_noNot : k <> "$not";
  pk_noCol : isColString k = false
}.

End KeyNotions.

Definition jsonOff (o : WhereOptions) : WhereOptions :=
  mkWhereOptions (o_field o) (o_model o) (o_type o) (o_prefix o) true.

(** The mapping that the alias rewrite at the head of [whereItemQuery]
    leaves behind: every legacy key, in turn, is set under its canonical
    spelling and deleted. *)
Definition canonicaliseKey (o : object) (k : string) : object :=
  match aliasMap k with
  | Some canonical => Obj.del k (Obj.set canonical (Obj.get k o) o)
  | None => o
  end.

Definition canonicalise (o : object) : object :=
  fold_left canonicaliseKey (Obj.keys o) o.

(** No key of the mapping collides with a property that the operator
    tables inherit from [Object.prototype]. *)
Definition noInheritedKeys (o : object) : Prop :=
  Forall (fun k => existsb (String.eqb k) objectPrototypeKeys = false)
         (Obj.keys o).

(** The RETURNING suffix and the OUTPUT fragment that [incrementQuery]
    chooses; both depend on the dialect only. *)
Definition incrementReturning (caps : DialectCaps) : string :=
  match returnValues caps with
  | Some rv => if rv_returning rv then " RETURNING *" else ""
  | None => ""
  end.

Definition incrementOutput (caps : DialectCaps) : string :=
  match returnValues caps with
  | Some rv =>
      if rv_returning rv then ""
      else if rv_output rv then " OUTPUT INSERTED.*" else ""
  | None => ""
  end.

(** The RETURNING suffix that [updateQuery] chooses: OUTPUT has
    precedence, and the caller must ask for [returning]. *)
Definition updateReturning (caps : DialectCaps) (options : UpdateOptions)
  : string :=
  match returnValues caps with
  | Some rv =>
      if rv_output rv then ""
      else if uo_returning options then " RETURNING *" else ""
  | None => ""
  end.

(** A mapping that the WHERE compiler has no reason to rewrite: no key
    is a legacy spelling or the name of a property that the alias table
    inherits from [Object.prototype], and [$not], when there, holds a
    boolean or [null]. *)
Definition settled (o : object) : bool :=
  forallb (fun k => match lookupTable aliasMap k with
                    | Absent => true
                    | Own _ | Inherited => false
                    end) (Obj.keys o)
  && match Obj.get "$not" o with
     | JUndefined | JNull | JBool _ => true
     | _ => false
     end.

Definition orderError (e : error) : bool :=
  match e with InvalidOrderDirection _ => true | _ => false end.

(** Every settled mapping of the store [h0] before a call is still
    there, unchanged, and no location was lost. *)
Definition kept (h0 h : heap) : Prop :=
  length h0 <= length h
  /\ forall l o, h0 !! l = Some o -> settled o = true -> h !! l = Some o.

(** A location that holds no settled mapping of the first store. *)
Definition free (h0 : heap) (l : loc) : Prop :=
  forall o, h0 !! l = Some o -> settled o = false.

(** [m] keeps the settled mappings and never complains about an order
    direction. *)
Definition pres {A} (h0 : heap) (m : M A) : Prop :=
  forall h, kept h0 h ->
    match m h with
    | Ret _ h' => kept h0 h'
    | Throw e h' => kept h0 h' /\ orderError e = false
    | OutOfFuel | Stuck => True
    end.

(** The methods of a generator that all keep the settled mappings. *)
Record presGen (h0 : heap) (this : QueryGenerator) : Prop := {
  pg_quote : forall obj parent force,
      pres h0 (this_quote this obj parent force);
  pg_escape : forall value field options,
      pres h0 (this_escape this value field options);
  pg_handleSequelizeMethod : forall smth tableName factory prepend,
      pres h0 (this_handleSequelizeMethod this smth tableName factory prepend);
  pg_whereItemsQuery : forall where_ options binding,
      pres h0 (this_whereItemsQuery this where_ options binding);
  pg_whereItemQuery : forall key value options,
      pres h0 (this_whereItemQuery this key value options);
  pg_getWhereConditions : forall smth tableName factory prepend,
      pres h0 (this_getWhereConditions this smth tableName factory prepend)
}.

(** [order.toUpperCase()] is one of the accepted directions. *)
Definition inDirections `{E : Env} (d : string) : bool :=
  existsb (String.eqb (toUpperCase d)) orderDirections.

(** Whether an order element starts with a model class or with an
    object whose [model] is one; [None] where the test itself fails. *)
Definition modelLed (t0 : jsval) (h : heap) : option bool :=
  match t0 with
  | JModel _ => Some true
  | JUndefined | JNull => None
  | JRef l =>
      match h !! l with
      | Some o => Some (isModel (Obj.get "model" o))
      | None => None
      end
  | _ => Some false
  end.

(** The direction string that [getQueryOrders] compares with the closed
    set, for the order elements that have one: sequences of more than
    one item that either do not start with a model or have a string
    just before the last item. *)
Definition directionChecked (t : jsval) (h : heap) : option string :=
  match t with
  | JArr items =>
      if (1 <? length items)%nat then
        match modelLed (nth 0 items JUndefined) h with
        | Some led =>
            if negb led || isString (nth (length items - 2) items JUndefined)
            then match List.last items JUndefined with
                 | JStr d => Some d
                 | _ => None
                 end
            else None
        | None => None
        end
      else None
  | _ => None
  end.

(** The mapping at [l] is [o] in the store that a call leaves behind,
    whether it returns or raises. *)
Definition unchangedAt {A} (l : loc) (o : object) (r : outcome A) : Prop :=
  match r with
  | Ret _ h' | Throw _ h' => h' !! l = Some o
  | OutOfFuel | Stuck => True
  end.

(** [m] keeps the settled mappings of [h0], whether it returns or
    raises, and what it returns meets [P]. *)
Definition frames {A} (h0 : heap) (P : A -> Prop) (m : M A) : Prop :=
  forall h, kept h0 h ->
    match m h with
    | Ret a h' => kept h0 h' /\ P a
    | Throw _ h' => kept h0 h'
    | OutOfFuel | Stuck => True
    end.

(** The condition mapping of a find call is none of the settled
    mappings of [h0]. *)
Definition whereFree (h0 : heap) (where_ : option jsval) : Prop :=
  match where_ with
  | Some (JRef l) => free h0 l
  | _ => True
  end.

(** A [selectQuery] call that has no reason to write to a settled
    mapping of [h0]: it runs no subquery, or has no include, or its
    condition mapping is none of them. *)
Definition selectSafe (h0 : heap) (options : SelectOptions) : Prop :=
  subQueryActive options = false
  \/ s_include options = None
  \/ whereFree h0 (s_where options).

(** The options of [selectQuery] with [where], [group] and [having]
    replaced. *)
Definition withCompiled (options : SelectOptions) (where_ : option jsval)
    (group : jsval) (having : option jsval) : SelectOptions :=
  mkSelectOptions (s_attributes options) where_ (s_order options) group
    having (s_limit options) (s_offset options)
    (s_hasMultiAssociation options) (s_subQuery options)
    (s_tableAs options) (s_include options)
    (s_includeIgnoreAttributesOff options) (s_model options)
    (s_groupedLimit options) (s_lock options).

(** A find call with a condition mapping only. *)
Definition selectWhere (where_ : jsval) : SelectOptions :=
  mkSelectOptions None (Some where_) JUndefined JUndefined None JUndefined
    JUndefined false None None None false None None LockNone.

(** [' UNION ALL '] where the dialect has it, [' UNION '] otherwise. *)
Definition unionSeparator (caps : DialectCaps) : string :=
  if UNION_ALL caps then " UNION ALL " else " UNION ".

(** [table] is the text that [selectQuery] writes for its table
    argument. *)
Definition quotedAs `{E : Env} (tableName : TableArg) (table : string)
  : Prop :=
  match tableName with
  | TATable t => quoteTable t AsNone = Some table
  | TAList l =>
      exists parts,
        Forall2 (fun t part =>
                   match t with
                   | TEPair t0 t1 => quoteTable t0 (AsName t1)
                   | TEOne t0 => quoteTable t0 AsTrue
                   end = Some part) l parts
        /\ table = Str.join ", " parts
  | _ => False
  end.

(** What comes before the FROM clause in the call
    [selectQuery (S fuel) tableName options model]. *)
Definition selectStart `{E : Env} (fuel : nat) :=
  selectPrelude (generator fuel) fuel.

(** The entries of the conditions of a find call in the store [h]:
    none when the call has no conditions. *)
Definition conditionsAt (where_ : option jsval) (h : heap) : option object :=
  match where_ with
  | Some (JRef l) => h !! l
  | Some JUndefined | Some JNull | None => Some []
  | Some _ => None
  end.

(** [unionBranches fuel options gl model table where_ values branches h h']:
    [branches] are the branches of the union for [values], in order.
    The branch of a value is the statement of a [selectQuery] call on
    the quoted table, without its terminator and in parentheses.  The
    conditions of that call are a new mapping, put at the end of the
    store: the entries of the conditions [where_] with [on] set to the
    value; its limit is the limit of the grouped limit.  The first
    branch starts from the store [h], each later one from the store
    that the one before leaves, and the last one leaves [h']. *)
Fixpoint unionBranches `{E : Env} (fuel : nat) (options : SelectOptions)
    (gl : GroupedLimit) (model : option ModelMeta) (table : string)
    (where_ : option jsval) (values : list jsval) (branches : list string)
    (h h' : heap) : Prop :=
  match values, branches with
  | [], [] => h' = h
  | value :: values, branch :: branches =>
      exists conditions body o h1,
        conditionsAt where_ h = Some conditions
        /\ selectQuery fuel (TATable (TName table))
             (branchOptions options gl (JRef (length h))) model
             (h ++ [Obj.set (gl_on gl) value conditions])
           = Ret (body +:+ ";", o) h1
        /\ branch = "(" +:+ body +:+ ")"
        /\ unionBranches fuel options gl model table where_ values branches
             h1 h'
  | _, _ => False
  end.

(* ================================================================= *)
(** ** Inputs without a statement terminator *)

(** No character of the string is a semicolon. *)
Fixpoint cleanS (s : string) : bool :=
  match s with
  | EmptyString => true
  | String c s' => negb (Ascii.eqb c ";"%char) && cleanS s'
  end.

(** Types whose values carry strings: [cleanb] says that none of them
    has a semicolon. *)
Class Clean (A : Type) := cleanb : A -> bool.
Arguments cleanb {A _} _.

#[export] Instance Clean_string : Clean string := cleanS.
#[export] Instance Clean_bool : Clean bool := fun _ => true.
#[export] Instance Clean_nat : Clean nat := fun _ => true.
#[export] Instance Clean_unit : Clean unit := fun _ => true.
#[export] Instance Clean_list {A} `{Clean A} : Clean (list A) := forallb cleanb.
#[export] Instance Clean_option {A} `{Clean A} : Clean (option A) :=
  fun o => match o with Some a => cleanb a | None => true end.
#[export] Instance Clean_prod {A B} `{Clean A} `{Clean B} : Clean (A * B) :=
  fun p => cleanb (fst p) && cleanb (snd p).

#[export] Instance Clean_TableObj : Clean TableObj := fun t =>
  cleanb (t_tableName t) && cleanb (t_schema t) && cleanb (t_delimiter t)
  && cleanb (t_as t) && cleanb (t_name t).

#[export] Instance Clean_TableRef : Clean TableRef := fun t =>
  match t with TName n => cleanb n | TObj o => cleanb o end.

#[export] Instance Clean_DataType : Clean DataType := fun _ => true.

#[export] Instance Clean_Attribute : Clean Attribute := fun a =>
  cleanb (a_field a).

#[export] Instance Clean_ModelMeta : Clean ModelMeta := fun m =>
  cleanb (m_name m) && cleanb (m_tableName m) && cleanb (m_getTableName m)
  && cleanb (m_primaryKeyAttributes m) && cleanb (m_primaryKeyAttribute m)
  && cleanb (m_primaryKeyField m) && cleanb (m_primaryKeys m)
  && cleanb (m_rawAttributes m) && cleanb (m_fieldRawAttributesMap m).

Fixpoint cleanV (v : jsval) : bool :=
  match v with
  | JUndefined | JNull | JBool _ | JNum _ | JDate _ | JRef _ => true
  | JStr s => cleanb s
  | JBuffer bytes => cleanb bytes
  | JArr items => forallb cleanV items
  | JLiteral val => cleanb val
  | JFn fn args => cleanb fn && forallb cleanV args
  | JCast val type => cleanV val && cleanb type
  | JCol col => cleanV col
  | JWhere attribute comparator logic =>
      cleanV attribute && cleanb comparator && cleanV logic
  | JCustom repr => cleanb repr
  | JModelAttr modelName field fieldName =>
      cleanb modelName && cleanb field && cleanb fieldName
  | JModel m => cleanb m
  end.

#[export] Instance Clean_jsval : Clean jsval := cleanV.

#[export] Instance Clean_error : Clean error := fun _ => true.
#[export] Instance Clean_EscapeOptions : Clean EscapeOptions := fun _ => true.

#[export] Instance Clean_Association : Clean Association := fun a =>
  cleanb (as_source a) && cleanb (as_target a) && cleanb (as_as a)
  && cleanb (as_identifier a) && cleanb (as_identifierField a)
  && cleanb (as_foreignIdentifierField a) && cleanb (as_targetIdentifier a)
  && cleanb (as_through a).

#[export] Instance Clean_Through : Clean Through := fun t =>
  cleanb (th_model t) && cleanb (th_as t) && cleanb (th_where t)
  && cleanb (th_attributes t).

#[export] Instance Clean_RootParent : Clean RootParent := fun r =>
  cleanb (r_model r) && cleanb (r_as r).

Fixpoint cleanInclude (i : Include) : bool :=
  cleanb (i_association i) && cleanb (i_model i) && cleanb (i_as i)
  && cleanb (i_attributes i) && cleanb (i_where i) && cleanb (i_on i)
  && cleanb (i_through i)
  && match i_parent i with Some p => cleanInclude p | None => true end
  && cleanb (i_root i)
  && match i_include i with
     | Some children => forallb cleanInclude children
     | None => true
     end.

#[export] Instance Clean_Include : Clean Include := cleanInclude.

#[export] Instance Clean_GroupedLimit : Clean GroupedLimit := fun g =>
  cleanb (gl_on g) && cleanb (gl_values g) && cleanb (gl_limit g).

#[export] Instance Clean_Lock : Clean Lock := fun l =>
  match l with
  | LockNone => true
  | LockLevel level => cleanb level
  | LockObj level of_ => cleanb level && cleanb of_
  end.

#[export] Instance Clean_SelectOptions : Clean SelectOptions := fun o =>
  cleanb (s_attributes o) && cleanb (s_where o) && cleanb (s_order o)
  && cleanb (s_group o) && cleanb (s_having o) && cleanb (s_limit o)
  && cleanb (s_offset o) && cleanb (s_tableAs o) && cleanb (s_include o)
  && cleanb (s_model o) && cleanb (s_groupedLimit o) && cleanb (s_lock o).

#[export] Instance Clean_Prefix : Clean Prefix := fun p =>
  match p with
  | PNone => true
  | PLiteral val => cleanb val
  | PTable t => cleanb t
  end.

#[export] Instance Clean_WhereOptions : Clean WhereOptions := fun o =>
  cleanb (o_field o) && cleanb (o_model o) && cleanb (o_prefix o).

#[export] Instance Clean_TableElem : Clean TableElem := fun t =>
  match t with
  | TEOne t => cleanb t
  | TEPair t alias => cleanb t && cleanb alias
  end.

#[export] Instance Clean_TableArg : Clean TableArg := fun t =>
  match t with
  | TAUndefined => true
  | TATable t => cleanb t
  | TALiteral val => cleanb val
  | TAList l => cleanb l
  end.

#[export] Instance Clean_AsArg : Clean AsArg := fun a =>
  match a with
  | AsNone | AsTrue => true
  | AsName n => cleanb n
  end.

#[export] Instance Clean_tableEntry : Clean tableEntry := fun e =>
  match e with Own v => cleanb v | Inherited | Absent => true end.

#[export] Instance Clean_walk : Clean walk := fun w =>
  cleanb (w_tableNames w) && cleanb (w_parent w)
  && cleanb (w_parentAssociation w).

#[export] Instance Clean_setup : Clean setup := fun s =>
  match s with
  | Early r => cleanb r
  | Compiled comparator value => cleanb comparator && cleanb value
  end.

#[export] Instance Clean_cmpState : Clean cmpState := fun c =>
  cleanb (c_comparator c) && cleanb (c_value c).

#[export] Instance Clean_joinState : Clean joinState := fun s =>
  cleanb (js_mainAttributes s) && cleanb (js_subQueryAttributes s)
  && cleanb (js_where s).

#[export] Instance Clean_joinQueries : Clean joinQueries := fun q =>
  cleanb (jq_mainQuery q) && cleanb (jq_subQuery q).

(** The collaborators give no semicolon when they are given none. *)
Record CleanEnv (E : Env) : Prop := {
  ce_quoteIdentifier : forall s force,
      cleanb s = true -> cleanb (quoteIdentifier s force) = true;
  ce_sqlEscape : forall (h : heap) v,
      cleanb h = true -> cleanb v = true -> cleanb (sqlEscape h v) = true;
  ce_dtStringify : forall ty stringify (h : heap) v,
      dtStringify ty = Some stringify ->
      cleanb h = true -> cleanb v = true -> cleanb (stringify h v) = true;
  ce_utilsFormat : forall (h : heap) items,
      cleanb h = true -> cleanb items = true ->
      cleanb (utilsFormat h items) = true;
  ce_getAssociation : forall parent model as_,
      cleanb parent = true -> cleanb model = true -> cleanb as_ = true ->
      cleanb (getAssociation parent model as_) = true;
  ce_validateIncludedElements : forall model association,
      cleanb model = true -> cleanb association = true ->
      cleanb (validateIncludedElements model association) = true;
  ce_forShare : cleanb (forShare supports) = true;
  ce_toUpperCase : forall s, cleanb s = true -> cleanb (toUpperCase s) = true
}.

(** A computation that, on a store without semicolons, returns a value
    without semicolons and leaves such a store. *)
Definition cl {A} `{Clean A} (m : M A) : Prop :=
  forall h : heap, cleanb h = true ->
    match m h with
    | Ret a h' => cleanb h' = true /\ cleanb a = true
    | Throw _ _ | OutOfFuel | Stuck => True
    end.

(** A [selectQuery] that, on a store without semicolons, returns a
    statement whose only semicolon is the one that ends it. *)
Definition clSelect (m : M (string * SelectOptions)) : Prop :=
  forall h : heap, cleanb h = true ->
    match m h with
    | Ret (q, _) h' =>
        cleanb h' = true /\ exists body, q = body +:+ ";" /\ cleanb body = true
    | Throw _ _ | OutOfFuel | Stuck => True
    end.

(** The methods of a generator that give no semicolon when they are
    given none. *)
Record clGen (this : QueryGenerator) : Prop := {
  cg_quote : forall obj parent force,
      cleanb obj = true -> cleanb parent = true ->
      cl (this_quote this obj parent force);
  cg_escape : forall value field options,
      cleanb value = true ->
      cl (this_escape this value field options);
  cg_handleSequelizeMethod : forall smth tableName factory prepend,
      cleanb smth = true -> cleanb tableName = true -> cleanb factory = true ->
      cl (this_handleSequelizeMethod this smth tableName factory prepend);
  cg_whereItemsQuery : forall where_ options binding,
      cleanb where_ = true -> cleanb options = true -> cleanb binding = true ->
      cl (this_whereItemsQuery this where_ options binding);
  cg_whereItemQuery : forall key value options,
      cleanb key = true -> cleanb value = true -> cleanb options = true ->
      cl (this_whereItemQuery this key value options);
  cg_getWhereConditions : forall smth tableName factory prepend,
      cleanb smth = true -> cleanb tableName = true -> cleanb factory = true ->
      cl (this_getWhereConditions this smth tableName factory prepend);
  cg_selectQuery : forall tableName options model,
      cleanb tableName = true -> cleanb options = true -> cleanb model = true ->
      clSelect (this_selectQuery this tableName options model)
}.

(* ================================================================= *)
(** ** Further notions *)

(** [v == null]: the value is [null] or [undefined]. *)
Definition absent (v : jsval) : Prop := v = JUndefined \/ v = JNull.

(* ================================================================= *)
(** ** Transactions *)

(** A transaction as the generator reads it: its [parent], when it is
    nested, and its [name]. *)
#[warnings="-register-all"] Inductive Transaction :=
| mkTransaction (parent : option Transaction) (name : string).

Definition tx_parent (t : Transaction) : option Transaction :=
  match t with mkTransaction parent _ => parent end.
Definition tx_name (t : Transaction) : string :=
  match t with mkTransaction _ name => name end.

Section Transactions.

Context {E : Env}.

(** [setAutocommitQuery(value, options)], with [options.parent]; [None]
    is the [undefined] of a call that gives no statement. *)
Definition setAutocommitQuery (value : jsval) (parent : option Transaction)
  : option string :=
  match parent with
  | Some _ => None
  | None =>
      (* no query when value is not explicitly set *)
      match value with
      | JUndefined | JNull => None
      | _ => Some ("SET autocommit = "
                     +:+ (if truthy value then "1" else "0") +:+ ";")
      end
  end.

(** [setIsolationLevelQuery(value, options)] *)
Definition setIsolationLevelQuery (value : string)
    (parent : option Transaction) : option string :=
  match parent with
  | Some _ => None
  | None => Some ("SET SESSION TRANSACTION ISOLATION LEVEL " +:+ value +:+ ";")
  end.

(** [startTransactionQuery(transaction)] *)
Definition startTransactionQuery (transaction : Transaction) : string :=
  match tx_parent transaction with
  | Some _ =>
      (* force quoting of savepoint identifiers for postgres *)
      "SAVEPOINT " +:+ quoteIdentifier (tx_name transaction) true +:+ ";"
  | None => "START TRANSACTION;"
  end.

(** [commitTransactionQuery(transaction)] *)
Definition commitTransactionQuery (transaction : Transaction) : option string :=
  match tx_parent transaction with
  | Some _ => None
  | None => Some "COMMIT;"
  end.

(** [rollbackTransactionQuery(transaction)] *)
Definition rollbackTransactionQuery (transaction : Transaction) : string :=
  match tx_parent transaction with
  | Some _ =>
      "ROLLBACK TO SAVEPOINT "
        +:+ quoteIdentifier (tx_name transaction) true +:+ ";"
  | None => "ROLLBACK;"
  end.

End Transactions.

(* ================================================================= *)
(** ** Tables and schemas *)

(** The result of [extractTableDetails]. *)
Record TableDetails := mkTableDetails {
  td_schema : string;
  td_tableName : option string;
  td_delimiter : string
}.

(** [extractTableDetails(tableName, options)]; [options] is read for
    its [schema] and its [delimiter].  A falsy [tableName] counts as the
    empty object. *)
Definition extractTableDetails (tableName : option TableRef)
    (schema delimiter : option string) : TableDetails :=
  match tableName with
  | Some (TObj t) =>
      mkTableDetails (strOr (t_schema t) (strOr schema "public"))
                     (Some (t_tableName t))
                     (strOr (t_delimiter t) (strOr delimiter "."))
  | Some (TName n) =>
      mkTableDetails (strOr schema "public")
                     (if String.eqb n "" then None else Some n)
                     (strOr delimiter ".")
  | None =>
      mkTableDetails (strOr schema "public") None (strOr delimiter ".")
  end.

(** The argument of [addSchema]: a model, or an object with the same
    entries. *)
Record SchemaParam := mkSchemaParam {
  sp_tableName : string;
  sp_name : option string;
  sp_schema : option string;            (* $schema *)
  sp_schemaDelimiter : option string    (* $schemaDelimiter *)
}.

(** [addSchema(param)], as [quoteTable] reads its result.  Without a
    schema the result is the table name or, when that is empty, the
    parameter itself, which has neither [schema] nor [delimiter].  With a
    schema and an empty table name the result has the parameter in the
    place of the name, which is outside the model. *)
Definition addSchema (param : SchemaParam) : option TableRef :=
  match nonEmpty (sp_schema param) with
  | None =>
      if String.eqb (sp_tableName param) ""
      then Some (TObj (mkTableObj "" None None None (sp_name param)))
      else Some (TName (sp_tableName param))
  | Some schema =>
      if String.eqb (sp_tableName param) "" then None
      else Some (TObj (mkTableObj (sp_tableName param) (Some schema)
                         (Some (strOr (sp_schemaDelimiter param) "."))
                         None (sp_name param)))
  end.

Section Tables.

Context {E : Env}.

(** [describeTableQuery(tableName, schema, schemaDelimiter)] *)
Definition describeTableQuery (tableName : string)
    (schema schemaDelimiter : option string) : option string :=
  match addSchema (mkSchemaParam tableName None schema schemaDelimiter) with
  | Some param =>
      match quoteTable param AsNone with
      | Some table => Some ("DESCRIBE " +:+ table +:+ ";")
      | None => None
      end
  | None => None
  end.

(** [dropTableQuery(tableName, options)] *)
Definition dropTableQuery (tableName : TableRef) : option string :=
  match quoteTable tableName AsNone with
  | Some table => Some ("DROP TABLE IF EXISTS " +:+ table +:+ ";")
  | None => None
  end.

(** [dropSchema(tableName, options)] *)
Definition dropSchema (tableName : TableRef) : option string :=
  dropTableQuery tableName.

(** [renameTableQuery(before, after)] *)
Definition renameTableQuery (before after : TableRef) : option string :=
  match quoteTable before AsNone, quoteTable after AsNone with
  | Some b, Some a => Some ("ALTER TABLE " +:+ b +:+ " RENAME TO " +:+ a +:+ ";")
  | _, _ => None
  end.

End Tables.

(* ================================================================= *)
(** ** Inserting many rows *)

(** Further entries of [this._dialect.supports]. *)
Record BulkCaps := mkBulkCaps {
  bulkDefault : bool;
  updateOnDuplicate : bool;
  ignoreDuplicates : string    (* the dialect's words for INSERT IGNORE *)
}.

Record BulkInsertOptions := mkBulkInsertOptions {
  bo_ignoreDuplicates : bool;
  bo_updateOnDuplicate : option (list string);
  bo_returning : bool
}.

Section BulkInsert.

Context {E : Env}.
Variable bulkCaps : BulkCaps.

(** One round of the first loop of [bulkInsertQuery], for one key of
    one row; the state is [(allAttributes, serials)]. *)
Definition collectKey (rawAttributes : list (string * Attribute))
    (acc : list string * list string) (key : string)
  : list string * list string :=
  (if existsb (String.eqb key) (fst acc) then fst acc else fst acc ++ [key],
   if isAutoIncrement rawAttributes key then snd acc ++ [key] else snd acc).

(** The first loop: the columns of the statement and the keys that are
    auto-increment columns. *)
Definition collectAttributes (rawAttributes : list (string * Attribute))
    (attrValueHashes : list object) : list string * list string :=
  fold_left (fun acc attrValueHash =>
               fold_left (collectKey rawAttributes) (Obj.keys attrValueHash) acc)
            attrValueHashes ([], []).

(** The callback of [allAttributes.map] in the second loop. *)
Definition bulkValue (fuel : nat) (rawAttributes : list (string * Attribute))
    (serials : list string) (attrValueHash : object) (key : string)
  : M jsval :=
  if bulkDefault bulkCaps && existsb (String.eqb key) serials then
    let value := Obj.get key attrValueHash in
    ret (if truthy value then value else JStr "DEFAULT")
  else
    escape fuel (Obj.get key attrValueHash) (assoc key rawAttributes)
           (mkEscapeOptions false false (Some "INSERT")).

(** The values of one row, one for each column. *)
Definition bulkValues (fuel : nat) (rawAttributes : list (string * Attribute))
    (allAttributes serials : list string) (attrValueHash : object)
  : M (list jsval) :=
  mapM (bulkValue fuel rawAttributes serials attrValueHash) allAttributes.

(** One round of the second loop. *)
Definition bulkTuple (fuel : nat) (rawAttributes : list (string * Attribute))
    (allAttributes serials : list string) (attrValueHash : object)
  : M string :=
  let* values := bulkValues fuel rawAttributes allAttributes serials
                   attrValueHash in
  let* s := joinVals "," values in
  ret ("(" +:+ s +:+ ")").

(** The assignment of one attribute in [ON DUPLICATE KEY UPDATE]. *)
Definition duplicateUpdate (rawAttributes : list (string * Attribute))
    (attr : string) : string :=
  let field :=
    match assoc attr rawAttributes with
    | Some a => strOr (a_field a) attr
    | None => attr
    end in
  let key := quoteIdentifier field false in
  key +:+ "=VALUES(" +:+ key +:+ ")".

(** [bulkInsertQuery(tableName, attrValueHashes, options, rawAttributes)] *)
Definition bulkInsertQuery (fuel : nat) (tableName : TableRef)
    (attrValueHashes : list object) (options : BulkInsertOptions)
    (rawAttributes : list (string * Attribute)) : M string :=
  let (allAttributes, serials) :=
    collectAttributes rawAttributes attrValueHashes in
  let* tuples :=
    mapM (bulkTuple fuel rawAttributes allAttributes serials) attrValueHashes in
  let onDuplicateKeyUpdate :=
    match updateOnDuplicate bulkCaps, bo_updateOnDuplicate options with
    | true, Some attrs =>
        " ON DUPLICATE KEY UPDATE "
          +:+ Str.join "," (map (duplicateUpdate rawAttributes) attrs)
    | _, _ => ""
    end in
  let ignore :=
    if bo_ignoreDuplicates options then ignoreDuplicates bulkCaps else "" in
  let* table := ofOption (quoteTable tableName AsNone) in
  let attributes :=
    Str.join "," (map (fun attr => quoteIdentifier attr false) allAttributes) in
  let returning :=
    if isSome (returnValues supports) && bo_returning options
    then " RETURNING *" else "" in
  ret ("INSERT" +:+ ignore +:+ " INTO " +:+ table +:+ " (" +:+ attributes
         +:+ ") VALUES " +:+ Str.join "," tuples +:+ onDuplicateKeyUpdate
         +:+ returning +:+ ";").

(** What the tuples of a statement are, read off the rows: the tuple of
    a row is the parenthesised list of the values [bulkValues] gives for
    it, one for each column, each written as [join] writes an element;
    the store is handed from one row to the next. *)
Fixpoint tuplesOf (fuel : nat) (rawAttributes : list (string * Attribute))
    (allAttributes serials : list string) (rows : list object)
    (tuples : list string) (h h' : heap) : Prop :=
  match rows, tuples with
  | [], [] => h' = h
  | row :: rows, tuple :: tuples =>
      exists values parts h1,
        bulkValues fuel rawAttributes allAttributes serials row h
        = Ret values h1
        /\ length values = length allAttributes
        /\ Forall2 (fun v part => toElement v = Some part) values parts
        /\ tuple = "(" +:+ Str.join "," parts +:+ ")"
        /\ tuplesOf fuel rawAttributes allAttributes serials rows tuples h1 h'
  | _, _ => False
  end.

End BulkInsert.

(* ================================================================= *)
(** ** Indexes *)

(** An index field given as an object. *)
Record IndexFieldObj := mkIndexFieldObj {
  f_attribute : option string;
  f_name : option string;
  f_collate : option string;
  f_length : option Z;
  f_order : option string
}.

(** An element of [options.fields]: a column name, a value with
    [_isSequelizeMethod], or an object. *)
Inductive IndexField :=
| FName (name : string)
| FMethod (smth : jsval)
| FObj (f : IndexFieldObj).

(** The options of an index.  [x_name] is [None] when the object has no
    own property [name]; [x_where] is a condition. *)
Record IndexOptions := mkIndexOptions {
  x_fields : option (list IndexField);
  x_name : option string;
  x_indexName : option string;
  x_type : option string;
  x_indicesType : option string;
  x_using : option string;
  x_indexType : option string;
  x_method : option string;
  x_prefix : option string;
  x_unique : bool;
  x_concurrently : bool;
  x_operator : option string;
  x_parser : option string;
  x_where : jsval
}.

(** [{}] *)
Definition noIndexOptions : IndexOptions :=
  mkIndexOptions None None None None None None None None None false false
                 None None JUndefined.

(** [this._dialect.supports.index] *)
Record IndexCaps := mkIndexCaps {
  ix_collate : bool;
  ix_length : bool;
  ix_parser : bool;
  ix_concurrently : bool;
  ix_type : bool;
  ix_using : nat;                 (* 1, 2, or 0 for a dialect without USING *)
  ix_where : bool
}.

(** What [addIndexQuery] and [nameIndexes] take from outside the
    sources: two more entries of [supports], [Utils.underscore] and
    [Model.$conformIndex]. *)
Record IndexEnv := mkIndexEnv {
  supportsIndex : IndexCaps;
  indexViaAlter : bool;
  underscore : string -> string;
  conformIndex : IndexOptions -> IndexOptions
}.

(** The outcome of [addIndexQuery]: the statement, or the error raised
    for a field object without a name. *)
Inductive indexResult :=
| IndexSql (sql : string)
| FieldWithoutName (field : IndexFieldObj).

Definition setName (options : IndexOptions) (name : option string)
  : IndexOptions :=
  mkIndexOptions (x_fields options) name (x_indexName options)
    (x_type options) (x_indicesType options) (x_using options)
    (x_indexType options) (x_method options) (x_prefix options)
    (x_unique options) (x_concurrently options) (x_operator options)
    (x_parser options) (x_where options).

Definition setType (options : IndexOptions) (type : option string)
  : IndexOptions :=
  mkIndexOptions (x_fields options) (x_name options) (x_indexName options)
    type (x_indicesType options) (x_using options)
    (x_indexType options) (x_method options) (x_prefix options)
    (x_unique options) (x_concurrently options) (x_operator options)
    (x_parser options) (x_where options).

Definition setUsing (options : IndexOptions) (method : option string)
  : IndexOptions :=
  mkIndexOptions (x_fields options) (x_name options) (x_indexName options)
    (x_type options) (x_indicesType options) method
    (x_indexType options) (x_method options) (x_prefix options)
    (x_unique options) (x_concurrently options) (x_operator options)
    (x_parser options) (x_where options).

Definition setFields (options : IndexOptions) (fields : option (list IndexField))
  : IndexOptions :=
  mkIndexOptions fields (x_name options) (x_indexName options)
    (x_type options) (x_indicesType options) (x_using options)
    (x_indexType options) (x_method options) (x_prefix options)
    (x_unique options) (x_concurrently options) (x_operator options)
    (x_parser options) (x_where options).

Definition setPrefix (options : IndexOptions) (prefix : option string)
  : IndexOptions :=
  mkIndexOptions (x_fields options) (x_name options) (x_indexName options)
    (x_type options) (x_indicesType options) (x_using options)
    (x_indexType options) (x_method options) prefix
    (x_unique options) (x_concurrently options) (x_operator options)
    (x_parser options) (x_where options).

Definition setWhere (options : IndexOptions) (where_ : jsval) : IndexOptions :=
  mkIndexOptions (x_fields options) (x_name options) (x_indexName options)
    (x_type options) (x_indicesType options) (x_using options)
    (x_indexType options) (x_method options) (x_prefix options)
    (x_unique options) (x_concurrently options) (x_operator options)
    (x_parser options) where_.

(** The two [replace] calls on the prefix: every dot becomes an
    underscore, then every single and double quote is dropped. *)
Definition normalisePrefix (prefix : string) : string :=
  string_of_list_ascii
    (List.filter
       (fun c => negb (Ascii.eqb c (ascii_of_nat 34) || Ascii.eqb c "'"%char))
       (map (fun c => if Ascii.eqb c "."%char then "_"%char else c)
            (list_ascii_of_string prefix))).

(** [_.compact(ind)]: the entries that are neither [undefined] nor
    empty. *)
Definition compact (ind : list (option string)) : list string :=
  flat_map (fun entry =>
              match nonEmpty entry with
              | Some s => [s]
              | None => []
              end) ind.

Section Indexes.

Context {E : Env}.
Variable indexEnv : IndexEnv.

(** The callback of [index.fields.map] in [nameIndexes]:
    [typeof field === 'string' ? field : (field.name || field.attribute)],
    as [join] prints it.  A literal, a function call, a cast and a
    column have neither entry; other methods are outside the model. *)
Definition onlyAttributeName (field : IndexField) : M string :=
  match field with
  | FName name => ret name
  | FMethod (JLiteral _ | JFn _ _ | JCast _ _ | JCol _) => ret ""
  | FMethod _ => stuck
  | FObj f => ret (strOr (f_name f) (strOr (f_attribute f) ""))
  end.

(** The callback of [Utils._.map] in [nameIndexes]. *)
Definition nameIndex (rawTablename : string) (index_ : IndexOptions)
  : M IndexOptions :=
  match x_name index_ with
  | Some _ => ret index_
  | None =>
      let* fields :=
        match x_fields index_ with
        | Some fields => ret fields
        | None => throw (TypeError "index.fields.map")
        end in
      let* onlyAttributeNames := mapM onlyAttributeName fields in
      ret (setName index_
             (Some (underscore indexEnv
                      (rawTablename +:+ "_"
                         +:+ Str.join "_" onlyAttributeNames))))
  end.

(** [nameIndexes(indexes, rawTablename)] *)
Definition nameIndexes (indexes : list IndexOptions) (rawTablename : string)
  : M (list IndexOptions) :=
  mapM (nameIndex rawTablename) indexes.

(** The callback of [options.fields.map] in [addIndexQuery]: the text
    of the field and the field as the call leaves it, or the field that
    has no name. *)
Definition fieldSql (fuel : nat) (field : IndexField)
  : M (jsval * IndexField + IndexFieldObj) :=
  match field with
  | FName name => ret (inl (JStr (quoteIdentifier name false), field))
  | FMethod smth =>
      let* r := handleSequelizeMethod fuel smth TAUndefined None None in
      ret (inl (r, field))
  | FObj f =>
      let f :=
        match nonEmpty (f_attribute f) with
        | Some a => mkIndexFieldObj (f_attribute f) (Some a) (f_collate f)
                                    (f_length f) (f_order f)
        | None => f
        end in
      match nonEmpty (f_name f) with
      | None => ret (inr f)
      | Some name =>
          let result := quoteIdentifier name false in
          let result :=
            match ix_collate (supportsIndex indexEnv), nonEmpty (f_collate f) with
            | true, Some c => result +:+ " COLLATE " +:+ quoteIdentifier c false
            | _, _ => result
            end in
          let result :=
            match ix_length (supportsIndex indexEnv), f_length f with
            | true, Some n =>
                if Z.eqb n 0 then result
                else result +:+ "(" +:+ Str.string_of_Z n +:+ ")"
            | _, _ => result
            end in
          let result :=
            match nonEmpty (f_order f) with
            | Some o => result +:+ " " +:+ o
            | None => result
            end in
          ret (inl (JStr result, FObj f))
      end
  end.

(** [options.fields.map(...)], up to the first field without a name. *)
Fixpoint fieldsSql (fuel : nat) (fields : list IndexField)
  : M (list jsval * list IndexField + IndexFieldObj) :=
  match fields with
  | [] => ret (inl ([], []))
  | field :: rest =>
      let* r := fieldSql fuel field in
      match r with
      | inr f => ret (inr f)
      | inl (sql, field') =>
          let* rs := fieldsSql fuel rest in
          match rs with
          | inr f => ret (inr f)
          | inl (sqls, fields') => ret (inl (sql :: sqls, field' :: fields'))
          end
      end
  end.

(** [addIndexQuery(tableName, attributes, options, rawTablename)]; the
    second argument is the array of fields or, in its place, the
    options.  The updates of the caller's options are not returned. *)
Definition addIndexQuery (fuel : nat) (tableName : TableRef)
    (attributes : list IndexField + IndexOptions)
    (options : option IndexOptions) (rawTablename : option string)
  : M indexResult :=
  let options :=
    match attributes with
    | inl fields =>
        setFields (match options with Some o => o | None => noIndexOptions end)
                  (Some fields)
    | inr o => o
    end in
  (* Backwards compatability *)
  let options :=
    match nonEmpty (x_indexName options) with
    | Some n => setName options (Some n)
    | None => options
    end in
  let options :=
    match nonEmpty (x_indicesType options) with
    | Some t => setType options (Some t)
    | None => options
    end in
  let options :=
    match orElse (nonEmpty (x_indexType options)) (nonEmpty (x_method options)) with
    | Some u => setUsing options (Some u)
    | None => options
    end in
  (* [None]: the prefix is the table object *)
  let prefix : option string :=
    match nonEmpty (x_prefix options), nonEmpty rawTablename, tableName with
    | Some p, _, _ => Some (normalisePrefix p)
    | None, Some r, _ => Some (normalisePrefix r)
    | None, None, TName n => Some (normalisePrefix n)
    | None, None, TObj _ => None
    end in
  let* fields :=
    match x_fields options with
    | Some fields => ret fields
    | None => throw (TypeError "options.fields.map")
    end in
  let* compiled := fieldsSql fuel fields in
  match compiled with
  | inr f => ret (FieldWithoutName f)
  | inl (sqls, fields) =>
      let options := setFields options (Some fields) in
      let* options :=
        match nonEmpty (x_name options) with
        | Some _ => ret (setPrefix options prefix)
        | None =>
            (* Mostly for cases where addIndex is called directly by the
               user without an options object *)
            match prefix with
            | Some p => nameIndex p (setPrefix options prefix)
            | None => stuck
            end
        end in
      let options := conformIndex indexEnv options in
      let options :=
        if ix_type (supportsIndex indexEnv) then options else setType options None in
      let* options :=
        if truthy (x_where options) then
          let* w := whereQuery fuel (x_where options) noOptions in
          ret (setWhere options (JStr w))
        else ret options in
      let* table :=
        match tableName with
        | TName n => ret (quoteIdentifiers n false)
        | TObj _ => ofOption (quoteTable tableName AsNone)
        end in
      let concurrently :=
        if ix_concurrently (supportsIndex indexEnv) && x_concurrently options
        then Some "CONCURRENTLY" else None in
      let viaAlter := indexViaAlter indexEnv in
      let ind :=
        if viaAlter
        then [Some "ALTER TABLE"; Some table; concurrently; Some "ADD"]
        else [Some "CREATE"] in
      let* name :=
        match x_name options with
        | Some n => ret (quoteIdentifiers n false)
        | None => throw (TypeError "identifiers.indexOf")
        end in
      let* joined := joinVals ", " sqls in
      let* where_ :=
        if ix_where (supportsIndex indexEnv) && truthy (x_where options)
        then let* w := str (x_where options) in ret (Some w)
        else ret None in
      let usingAt (position : nat) : option string :=
        match nonEmpty (x_using options) with
        | Some u =>
            if Nat.eqb (ix_using (supportsIndex indexEnv)) position
            then Some ("USING " +:+ u) else Some ""
        | None => Some ""
        end in
      let ind :=
        ind ++
        [ Some (if x_unique options then "UNIQUE" else "");
          x_type options;
          Some "INDEX";
          (if viaAlter then None else concurrently);
          Some name;
          usingAt 1%nat;
          (if viaAlter then None else Some ("ON " +:+ table));
          usingAt 2%nat;
          Some ("(" +:+ joined
                  +:+ match nonEmpty (x_operator options) with
                      | Some o => " " +:+ o
                      | None => ""
                      end
                  +:+ ")");
          match ix_parser (supportsIndex indexEnv), nonEmpty (x_parser options) with
          | true, Some p => Some ("WITH PARSER " +:+ p)
          | _, _ => None
          end;
          where_ ] in
      ret (IndexSql (Str.join " " (compact ind)))
  end.

End Indexes.

(* ================================================================= *)
(** ** Further concrete requests *)

Module MoreExamples.

(** Bulk capabilities in the manner of PostgreSQL and of MySQL. *)
Definition defaultingBulk : BulkCaps := mkBulkCaps true false "".
Definition ignoringBulk : BulkCaps := mkBulkCaps false true " IGNORE".

(** Two rows with different keys; [id] is the serial column of
    [Examples.serialId]. *)
Definition twoRows : list object :=
  [ [("id", JNull); ("name", JStr "a")];
    [("name", JStr "b"); ("age", JNum 3); ("id", JStr "7")] ].

Definition plainBulk : BulkInsertOptions := mkBulkInsertOptions false None false.

(** An index environment in the manner of PostgreSQL: partial and
    concurrent indexes, USING after the table; names are left as they
    are and [unique] given as a type becomes the flag. *)
Definition indexCaps : IndexCaps := mkIndexCaps false false false true false 2 true.

Definition uniqueAsFlag (options : IndexOptions) : IndexOptions :=
  if String.eqb (Str.toUpperCase (strOr (x_type options) "")) "UNIQUE"
  then mkIndexOptions (x_fields options) (x_name options) (x_indexName options)
         None (x_indicesType options) (x_using options)
         (x_indexType options) (x_method options) (x_prefix options)
         true (x_concurrently options) (x_operator options)
         (x_parser options) (x_where options)
  else options.

Definition indexEnv : IndexEnv :=
  mkIndexEnv indexCaps false (fun s => s) uniqueAsFlag.

(** The same with indexes added through ALTER TABLE. *)
Definition alteringEnv : IndexEnv :=
  mkIndexEnv indexCaps true (fun s => s) uniqueAsFlag.

Definition byEmail : IndexFieldObj :=
  mkIndexFieldObj (Some "email") None None None (Some "DESC").

Definition nameless : IndexFieldObj :=
  mkIndexFieldObj None None (Some "en_US") None (Some "DESC").

End MoreExamples.

(* ================================================================= *)
(** * Properties *)

(** ** Running the store monad *)

Lemma bind_Ret {A B} (m : M A) (k : A -> M B) h a h' :
  m h = Ret a h' -> bind m k h = k a h'.
Proof. intros Hm. unfold bind. now rewrite Hm. Qed.

Lemma bind_Throw {A B} (m : M A) (k : A -> M B) h e h' :
  m h = Throw e h' -> bind m k h = Throw e h'.
Proof. intros Hm. unfold bind. now rewrite Hm. Qed.

Lemma read_eq (h : heap) l o : h !! l = Some o -> Heap.read l h = Ret o h.
Proof. intros Hl. unfold Heap.read. now rewrite Hl. Qed.

Lemma prop_ref (h : heap) l o k :
  h !! l = Some o -> Heap.prop (JRef l) k h = Ret (Obj.get k o) h.
Proof.
  intros Hl. unfold Heap.prop.
  now rewrite (bind_Ret _ _ _ _ _ (read_eq _ _ _ Hl)).
Qed.

Lemma get_head k v (o : object) : Obj.get k ((k, v) :: o) = v.
Proof. unfold Obj.get. cbn. now rewrite String.eqb_refl. Qed.

Lemma get_tail k k' v (o : object) :
  k <> k' -> Obj.get k ((k', v) :: o) = Obj.get k o.
Proof.
  intros Hk. apply String.eqb_neq in Hk. unfold Obj.get. cbn. now rewrite Hk.
Qed.

(** Reduction of the monadic plumbing and of the host predicates on
    values whose head constructor is known. *)
Ltac mred :=
  repeat first
    [ progress cbv beta iota delta [bind ret throw stuck ofOption]
    | progress cbn [bind ret throw stuck ofOption
                    foldM mapM filterM Obj.keys Obj.values Obj.get Obj.has
                    assoc map fst snd
                    isString isArray isPlainObject isUndefined isNull isFn
                    isLiteral isModel truthy keyIs refOf str toStr toElement
                    sizeOf keyCount hasLength isSequelizeMethod Heap.prop
                    length negb andb orb String.eqb Ascii.eqb Bool.eqb
                    app List.filter Nat.ltb Nat.leb] ].

Section WhereProperties.

Context {E : Env}.

Lemma whereItemQuery_this fuel :
  this_whereItemQuery (generator (S fuel))
  = whereItemQuery_ (generator fuel) fuel.
Proof. reflexivity. Qed.

Lemma whereItemsQuery_this fuel :
  this_whereItemsQuery (generator (S fuel)) = whereItemsQuery_ (generator fuel).
Proof. reflexivity. Qed.

Lemma jsonPathTarget_nodot k o :
  Str.contains "." k = false -> jsonPathTarget (JStr k) o = None.
Proof.
  intros Hk. unfold jsonPathTarget. destruct (o_model o); [|reflexivity].
  now rewrite Hk, andb_false_r.
Qed.

(** A key that is no alias, on a value that is no mapping, goes to
    [dispatch] as it is. *)
Lemma whereItemQuery_plain this d k v o h :
  jsonPathTarget (JStr k) o = None ->
  lookupTable aliasMap k = Absent ->
  refOf v = None ->
  whereItemQuery_ this d (JStr k) v o h
  = dispatch this d (JStr k) v (resolveField k o)
      (resolveFieldType (resolveField k o) o) o h.
Proof.
  intros Hj Ha Hv. unfold whereItemQuery_, aliasKey.
  rewrite Hj. mred. rewrite Ha, Hv. reflexivity.
Qed.

Lemma rewriteAliases_aliasFree (h : heap) l o :
  h !! l = Some o -> aliasFree o -> rewriteAliases l h = Ret tt h.
Proof.
  intros Hl Hfree. unfold rewriteAliases, forOwn.
  rewrite (bind_Ret _ _ _ _ _ (read_eq _ _ _ Hl)).
  unfold aliasFree in Hfree. induction Hfree as [|k ks Hk _ IH]; [reflexivity|].
  cbn [foldM]. unfold bind at 1. unfold bind at 1.
  rewrite (read_eq _ _ _ Hl). rewrite Hk. exact IH.
Qed.

Lemma whereItemQuery_mapping this d k l obj o h :
  jsonPathTarget (JStr k) o = None ->
  lookupTable aliasMap k = Absent ->
  h !! l = Some obj -> aliasFree obj ->
  whereItemQuery_ this d (JStr k) (JRef l) o h
  = dispatch this d (JStr k) (JRef l) (resolveField k o)
      (resolveFieldType (resolveField k o) o) o h.
Proof.
  intros Hj Ha Hl Hfree. unfold whereItemQuery_, aliasKey.
  rewrite Hj. mred. rewrite Ha.
  now rewrite (rewriteAliases_aliasFree _ _ _ Hl Hfree).
Qed.

Lemma dispatch_keyed_array this d k items f ft o h :
  dispatch this d (JStr k) (JArr items) f ft o h
  = compileValue this d (JStr k) (JArr items) f ft o h.
Proof. unfold dispatch. mred. reflexivity. Qed.

Lemma compileValue_combinator this d k v f ft o h :
  k = "$or" \/ k = "$and" \/ k = "$not" ->
  compileValue this d (JStr k) v f ft o h = combinator this k v o h.
Proof.
  intros [-> | [-> | ->]]; unfold compileValue; mred; reflexivity.
Qed.

Lemma combinator_empty this k o h :
  combinator this k (JArr []) o h
  = Ret (if String.eqb k "$or" || String.eqb k "$not"
         then JStr "0 = 1" else JUndefined) h.
Proof.
  unfold combinator. mred.
  destruct (String.eqb k "$or" || String.eqb k "$not"); reflexivity.
Qed.

(** An empty combinator list under any options. *)
Lemma whereItemQuery_empty_combinator fuel k o h :
  k = "$or" \/ k = "$and" \/ k = "$not" ->
  whereItemQuery (S fuel) (JStr k) (JArr []) o h
  = Ret (if String.eqb k "$or" || String.eqb k "$not"
         then JStr "0 = 1" else JUndefined) h.
Proof.
  intros Hk. unfold whereItemQuery. rewrite whereItemQuery_this.
  rewrite whereItemQuery_plain.
  - rewrite dispatch_keyed_array, compileValue_combinator by exact Hk.
    apply combinator_empty.
  - apply jsonPathTarget_nodot. destruct Hk as [-> | [-> | ->]]; reflexivity.
  - destruct Hk as [-> | [-> | ->]]; reflexivity.
  - reflexivity.
Qed.

Lemma whereItemsQuery_singleton this (h : heap) l k v o b :
  h !! l = Some [(k, v)] ->
  whereItemsQuery_ this (JRef l) o b h
  = (let* r := this_whereItemQuery this (JStr k) v o in
     conjoin (normaliseBinding b) [r]) h.
Proof.
  intros Hl. pose proof (read_eq _ _ _ Hl) as Hr.
  unfold whereItemsQuery_, isEmptyWhere, forOwn.
  mred. rewrite !Hr. mred. rewrite !Hr. mred.
  rewrite get_head.
  destruct (this_whereItemQuery this (JStr k) v o h); reflexivity.
Qed.

Lemma whereItemsQuery_pair this (h : heap) l k1 v1 k2 v2 o b :
  h !! l = Some [(k1, v1); (k2, v2)] ->
  whereItemsQuery_ this (JRef l) o b h
  = (let* r1 := this_whereItemQuery this (JStr k1) v1 o in
     let* o' := Heap.read l in
     let* r2 := this_whereItemQuery this (JStr k2) (Obj.get k2 o') o in
     conjoin (normaliseBinding b) [r1; r2]) h.
Proof.
  intros Hl. pose proof (read_eq _ _ _ Hl) as Hr.
  unfold whereItemsQuery_, isEmptyWhere, forOwn.
  mred. rewrite !Hr. mred. rewrite !Hr. mred.
  rewrite get_head.
  destruct (this_whereItemQuery this (JStr k1) v1 o h) as [r1 h1| | |]; try reflexivity.
  destruct (Heap.read l h1) as [o' h2| | |]; try reflexivity.
  destruct (this_whereItemQuery this (JStr k2) (Obj.get k2 o') o h2); reflexivity.
Qed.

(** [undefined] conjuncts are dropped before joining. *)
Lemma conjoin_undefined b items h :
  conjoin b (JUndefined :: items) h = conjoin b items h.
Proof.
  unfold conjoin. mred.
  destruct (filterM _ items h); reflexivity.
Qed.

Lemma conjoin_one b s h :
  s <> "" -> conjoin b [JStr s] h = Ret s h.
Proof.
  intros Hs. apply String.eqb_neq in Hs. unfold conjoin, joinVals. mred.
  rewrite Hs. mred. unfold Str.join. cbn. reflexivity.
Qed.

(** C4. Empty combinator lists: [{$or: []}] and [{$not: []}] compile to
    ["0 = 1"] under every options object and binding; the conjunct of
    [{$and: []}] is omitted, so that the mapping alone compiles to the
    empty string and, next to another entry, compiles like that entry
    alone. *)
Theorem whereItemsQuery_empty_combinators
    fuel (h : heap) l_or l_not l_and l_both l_rest k v opts binding :
  h !! l_or = Some [("$or", JArr [])] ->
  h !! l_not = Some [("$not", JArr [])] ->
  h !! l_and = Some [("$and", JArr [])] ->
  h !! l_both = Some [("$and", JArr []); (k, v)] ->
  h !! l_rest = Some [(k, v)] ->
  k <> "$and" ->
  whereItemsQuery (S (S fuel)) (JRef l_or) opts binding h = Ret "0 = 1" h
  /\ whereItemsQuery (S (S fuel)) (JRef l_not) opts binding h = Ret "0 = 1" h
  /\ whereItemsQuery (S (S fuel)) (JRef l_and) opts binding h = Ret "" h
  /\ whereItemsQuery (S (S fuel)) (JRef l_both) opts binding h
     = whereItemsQuery (S (S fuel)) (JRef l_rest) opts binding h.
Proof.
  intros Hor Hnot Hand Hboth Hrest Hk.
  unfold whereItemsQuery. rewrite whereItemsQuery_this.
  assert (Hitem : forall c, c = "$or" \/ c = "$and" \/ c = "$not" ->
            this_whereItemQuery (generator (S fuel)) (JStr c) (JArr []) opts h
            = Ret (if String.eqb c "$or" || String.eqb c "$not"
                   then JStr "0 = 1" else JUndefined) h)
    by (intros c Hc; exact (whereItemQuery_empty_combinator fuel c opts h Hc)).
  repeat split.
  - rewrite (whereItemsQuery_singleton _ _ _ _ _ _ _ Hor).
    rewrite (bind_Ret _ _ _ _ _ (Hitem "$or" (or_introl eq_refl))).
    now apply conjoin_one.
  - rewrite (whereItemsQuery_singleton _ _ _ _ _ _ _ Hnot).
    rewrite (bind_Ret _ _ _ _ _ (Hitem "$not" (or_intror (or_intror eq_refl)))).
    now apply conjoin_one.
  - rewrite (whereItemsQuery_singleton _ _ _ _ _ _ _ Hand).
    rewrite (bind_Ret _ _ _ _ _ (Hitem "$and" (or_intror (or_introl eq_refl)))).
    reflexivity.
  - rewrite (whereItemsQuery_pair _ _ _ _ _ _ _ _ _ Hboth).
    rewrite (whereItemsQuery_singleton _ _ _ _ _ _ _ Hrest).
    rewrite (bind_Ret _ _ _ _ _ (Hitem "$and" (or_intror (or_introl eq_refl)))).
    rewrite (bind_Ret _ _ _ _ _ (read_eq _ _ _ Hboth)).
    rewrite get_tail, get_head by exact Hk.
    cbn [bind]. unfold bind.
    destruct (this_whereItemQuery _ _ _ _ h) as [r h1| | |]; try reflexivity.
    apply conjoin_undefined.
Qed.

End WhereProperties.

Lemma whereItemsQuery_empty_combinators_witness :
  whereItemsQuery (E := TestDialect.env) 2 (JRef 0) noOptions None Examples.combinatorHeap
  = Ret "0 = 1" Examples.combinatorHeap
  /\ whereItemsQuery (E := TestDialect.env) 2 (JRef 1) noOptions None Examples.combinatorHeap
     = Ret "0 = 1" Examples.combinatorHeap
  /\ whereItemsQuery (E := TestDialect.env) 2 (JRef 2) noOptions None Examples.combinatorHeap
     = Ret "" Examples.combinatorHeap
  /\ whereItemsQuery (E := TestDialect.env) 2 (JRef 3) noOptions None Examples.combinatorHeap
     = whereItemsQuery (E := TestDialect.env) 2 (JRef 4) noOptions None Examples.combinatorHeap.
Proof.
  apply (whereItemsQuery_empty_combinators (E := TestDialect.env)
           0 Examples.combinatorHeap 0 1 2 3 4 "a" (JNum 1) noOptions None);
    try reflexivity.
  discriminate.
Defined.

Section InProperties.

Context {E : Env}.

Lemma dispatch_keyed_mapping this d k l obj f ft o (h : heap) :
  h !! l = Some obj ->
  Obj.get "_isSequelizeMethod" obj = JUndefined ->
  dispatch this d (JStr k) (JRef l) f ft o h
  = compileValue this d (JStr k) (JRef l) f ft o h.
Proof.
  intros Hl Hm. unfold dispatch. mred.
  rewrite (read_eq _ _ _ Hl). mred. rewrite Hm. mred. reflexivity.
Qed.

Lemma compileValue_single this d k l kv vv f ft o (h : heap) :
  plainKey k ->
  h !! l = Some [(kv, vv)] ->
  kv <> "$or" -> kv <> "$and" ->
  isJSON ft && negb (o_jsonOff o) = false ->
  compileValue this d (JStr k) (JRef l) f ft o h
  = compileLeaf this (JStr k) (JRef l) f ft o h.
Proof.
  intros Hk Hl Hor Hand Hjson. unfold compileValue. mred.
  destruct Hk as [_ _ H1 H2 H3 _].
  rewrite (proj2 (String.eqb_neq _ _) H1), (proj2 (String.eqb_neq _ _) H2),
    (proj2 (String.eqb_neq _ _) H3). mred.
  rewrite (read_eq _ _ _ Hl). mred.
  repeat first [ progress mred
               | rewrite (read_eq _ _ _ Hl)
               | rewrite get_tail by (intros Heq; symmetry in Heq; contradiction)
               | rewrite Hjson ].
  reflexivity.
Qed.

Lemma normaliseIn_unchanged (h : heap) l obj ft :
  h !! l = Some obj -> Obj.get "$not" obj = JUndefined ->
  normaliseIn (JRef l) ft h = Ret (JRef l) h.
Proof.
  intros Hl Hn. unfold normaliseIn. mred.
  destruct (isARRAY ft); mred; rewrite ?(read_eq _ _ _ Hl); mred;
    rewrite ?Hn; mred; rewrite ?(read_eq _ _ _ Hl); mred; rewrite ?Hn; reflexivity.
Qed.

Lemma emitKey_plain this k o h :
  plainKey k -> o_prefix o = PNone ->
  emitKey this (JStr k) o h = Ret (JStr (quoteIdentifier k false)) h.
Proof.
  intros [_ _ _ _ _ Hc] Hp. unfold emitKey, keyName. mred.
  rewrite Hc, Hp. reflexivity.
Qed.

Lemma join2_strings a b sep h :
  join2 (JStr a) (JStr b) sep h = Ret (JStr (a +:+ sep +:+ b)) h.
Proof. reflexivity. Qed.

(** The value side of [$in] / [$notIn]. *)
Lemma setupValue_in this (h : heap) l op arg f ft :
  op = "$in" \/ op = "$notIn" ->
  h !! l = Some [(op, arg)] ->
  setupValue this (JRef l) f ft h
  = match arg with
    | JLiteral val =>
        Ret (Compiled (if String.eqb op "$in" then "IN" else "NOT IN") (JStr val)) h
    | JArr [] =>
        Ret (if String.eqb op "$in" then Compiled "IN" (JStr "(NULL)")
             else Early (JStr "")) h
    | _ => setupValue this (JRef l) f ft h
    end.
Proof.
  intros Hop Hl. destruct arg as [| | | | | | |[|x items]| | | | | | | | |];
    try reflexivity;
    destruct Hop as [-> | ->]; unfold setupValue; mred;
    rewrite !(read_eq _ _ _ Hl); mred; reflexivity.
Qed.

Lemma jsonPathTarget_model k o o' :
  o_model o = o_model o' -> jsonPathTarget k o = jsonPathTarget k o'.
Proof. intros Hm. unfold jsonPathTarget. now rewrite Hm. Qed.

(** [whereItemQuery] on a single [$in] / [$notIn] entry, outside the JSON
    branch. *)
Lemma whereItemQuery_in_leaf this d (h : heap) k l op arg opts :
  plainKey k ->
  jsonPathTarget (JStr k) opts = None ->
  o_prefix opts = PNone ->
  isJSON (resolveFieldType (resolveField k opts) opts) && negb (o_jsonOff opts) = false ->
  op = "$in" \/ op = "$notIn" ->
  h !! l = Some [(op, arg)] ->
  whereItemQuery_ this d (JStr k) (JRef l) opts h
  = match arg with
    | JLiteral val =>
        Ret (JStr (quoteIdentifier k false
                     +:+ (if String.eqb op "$in" then " IN " else " NOT IN ")
                     +:+ val)) h
    | JArr [] =>
        Ret (JStr (if String.eqb op "$in"
                   then quoteIdentifier k false +:+ " IN (NULL)" else "")) h
    | _ => whereItemQuery_ this d (JStr k) (JRef l) opts h
    end.
Proof.
  intros Hk Hj Hp Hjson Hop Hl.
  assert (Hfree : aliasFree [(op, arg)])
    by (destruct Hop as [-> | ->]; repeat constructor).
  assert (Hor : op <> "$or") by (destruct Hop as [-> | ->]; discriminate).
  assert (Hand : op <> "$and") by (destruct Hop as [-> | ->]; discriminate).
  assert (Hm : Obj.get "_isSequelizeMethod" [(op, arg)] = JUndefined)
    by (destruct Hop as [-> | ->]; reflexivity).
  assert (Hn : Obj.get "$not" [(op, arg)] = JUndefined)
    by (destruct Hop as [-> | ->]; reflexivity).
  assert (Hkey : truthy (JStr k) = true)
    by (cbn; now rewrite (proj2 (String.eqb_neq _ _) (pk_nonEmpty _ Hk))).
  destruct arg as [| | | | | | |[|x items]| | | | | | | | |]; try reflexivity.
  - rewrite (whereItemQuery_mapping _ _ _ _ _ _ _ Hj (pk_noAlias _ Hk) Hl Hfree).
    rewrite (dispatch_keyed_mapping _ _ _ _ _ _ _ _ _ Hl Hm).
    rewrite (compileValue_single _ _ _ _ _ _ _ _ _ _ Hk Hl Hor Hand Hjson).
    unfold compileLeaf.
    rewrite (bind_Ret _ _ _ _ _ (normaliseIn_unchanged _ _ _ _ Hl Hn)).
    unfold bind at 1. rewrite (setupValue_in _ _ _ _ _ _ _ Hop Hl).
    destruct Hop as [-> | ->]; cbn [String.eqb Ascii.eqb Bool.eqb]; [|reflexivity].
    rewrite Hkey.
    rewrite (bind_Ret _ _ _ _ _ (emitKey_plain _ _ _ _ Hk Hp)).
    reflexivity.
  - rewrite (whereItemQuery_mapping _ _ _ _ _ _ _ Hj (pk_noAlias _ Hk) Hl Hfree).
    rewrite (dispatch_keyed_mapping _ _ _ _ _ _ _ _ _ Hl Hm).
    rewrite (compileValue_single _ _ _ _ _ _ _ _ _ _ Hk Hl Hor Hand Hjson).
    unfold compileLeaf.
    rewrite (bind_Ret _ _ _ _ _ (normaliseIn_unchanged _ _ _ _ Hl Hn)).
    unfold bind at 1. rewrite (setupValue_in _ _ _ _ _ _ _ Hop Hl).
    rewrite Hkey.
    rewrite (bind_Ret _ _ _ _ _ (emitKey_plain _ _ _ _ Hk Hp)).
    destruct Hop as [-> | ->]; reflexivity.
Qed.

Lemma jsonBranch_operator this d key l op arg opts (h : heap) :
  h !! l = Some [(op, arg)] ->
  Str.startsWith "$" op = true ->
  jsonBranch this d key l opts h
  = (let* r := this_whereItemQuery this key (JRef (length h)) (jsonOff opts) in
     let* result := joinVals " AND " [r] in
     ret (JStr result)) (h ++ [[(op, arg)]]).
Proof.
  intros Hl Hop. unfold jsonBranch, forOwn, jsonOff.
  repeat first [ progress mred
               | rewrite (read_eq _ _ _ Hl)
               | rewrite get_head
               | rewrite Hop ].
  unfold Heap.alloc. mred.
  destruct (this_whereItemQuery _ _ _ _ _) as [r h1| | |]; reflexivity.
Qed.

Lemma lookup_fresh (h : heap) (o : object) : (h ++ [o]) !! length h = Some o.
Proof. now rewrite lookup_app_r, Nat.sub_diag by lia. Qed.

Lemma whereItemQuery_in_any fuel (h : heap) k l op arg opts :
  plainKey k ->
  jsonPathTarget (JStr k) opts = None ->
  o_prefix opts = PNone ->
  op = "$in" \/ op = "$notIn" ->
  h !! l = Some [(op, arg)] ->
  (exists val, arg = JLiteral val) \/ arg = JArr [] ->
  exists h',
    whereItemQuery (S (S fuel)) (JStr k) (JRef l) opts h
    = Ret (JStr match arg with
                | JLiteral val =>
                    quoteIdentifier k false
                      +:+ (if String.eqb op "$in" then " IN " else " NOT IN ")
                      +:+ val
                | _ => if String.eqb op "$in"
                       then quoteIdentifier k false +:+ " IN (NULL)" else ""
                end) h'.
Proof.
  intros Hk Hj Hp Hop Hl Harg.
  unfold whereItemQuery. rewrite whereItemQuery_this.
  destruct (isJSON (resolveFieldType (resolveField k opts) opts)
            && negb (o_jsonOff opts)) eqn:Hjson.
  - assert (Hfree : aliasFree [(op, arg)])
      by (destruct Hop as [-> | ->]; repeat constructor).
    assert (Hor : op <> "$or") by (destruct Hop as [-> | ->]; discriminate).
    assert (Hand : op <> "$and") by (destruct Hop as [-> | ->]; discriminate).
    assert (Hm : Obj.get "_isSequelizeMethod" [(op, arg)] = JUndefined)
      by (destruct Hop as [-> | ->]; reflexivity).
    assert (Hd : Str.startsWith "$" op = true)
      by (destruct Hop as [-> | ->]; reflexivity).
    rewrite (whereItemQuery_mapping _ _ _ _ _ _ _ Hj (pk_noAlias _ Hk) Hl Hfree).
    rewrite (dispatch_keyed_mapping _ _ _ _ _ _ _ _ _ Hl Hm).
    assert (Hcv : forall this d f ft,
               isJSON ft && negb (o_jsonOff opts) = true ->
               compileValue this d (JStr k) (JRef l) f ft opts h
               = jsonBranch this d (JStr k) l opts h).
    { intros this d f ft Hjs. unfold compileValue. mred.
      destruct Hk as [_ _ H1 H2 H3 _].
      rewrite (proj2 (String.eqb_neq _ _) H1), (proj2 (String.eqb_neq _ _) H2),
        (proj2 (String.eqb_neq _ _) H3).
      repeat first [ progress mred
                   | rewrite (read_eq _ _ _ Hl)
                   | rewrite get_tail by (intros Heq; symmetry in Heq; contradiction)
                   | rewrite Hjs ].
      reflexivity. }
    rewrite (Hcv _ _ _ _ Hjson).
    rewrite (jsonBranch_operator _ _ _ _ _ _ _ _ Hl Hd).
    rewrite whereItemQuery_this.
    assert (Hj' : jsonPathTarget (JStr k) (jsonOff opts) = None)
      by (rewrite <- Hj; now apply jsonPathTarget_model).
    assert (Hjson' : isJSON (resolveFieldType (resolveField k (jsonOff opts))
                               (jsonOff opts))
                     && negb (o_jsonOff (jsonOff opts)) = false)
      by (cbn [o_jsonOff jsonOff negb]; apply andb_false_r).
    pose proof (whereItemQuery_in_leaf (generator fuel) fuel
                  (h ++ [[(op, arg)]]) k (length h) op arg (jsonOff opts)
                  Hk Hj' Hp Hjson' Hop (lookup_fresh h _)) as Hleaf.
    eexists.
    destruct Harg as [[val ->] | ->];
      rewrite (bind_Ret _ _ _ _ _ Hleaf); reflexivity.
  - pose proof (whereItemQuery_in_leaf (generator (S fuel)) (S fuel)
                  h k l op arg opts Hk Hj Hp Hjson Hop Hl) as Hleaf.
    exists h. destruct Harg as [[val ->] | ->]; exact Hleaf.
Qed.

(** C5. For a plain attribute key [k]: an empty [$in] compiles its value
    side to ["(NULL)"], giving [quoted(k) IN (NULL)]; an empty [$notIn]
    gives the empty string, so that [whereItemsQuery] omits the whole
    conjunct; a Literal argument of [$in] / [$notIn] is emitted verbatim
    as its [val]. *)
Theorem whereItemQuery_in_notIn
    fuel (h : heap) k l_in l_notIn l_lit l_notLit l_outer val opts binding :
  plainKey k ->
  jsonPathTarget (JStr k) opts = None ->
  o_prefix opts = PNone ->
  h !! l_in = Some [("$in", JArr [])] ->
  h !! l_notIn = Some [("$notIn", JArr [])] ->
  h !! l_lit = Some [("$in", JLiteral val)] ->
  h !! l_notLit = Some [("$notIn", JLiteral val)] ->
  h !! l_outer = Some [(k, JRef l_notIn)] ->
  (exists h', whereItemQuery (S (S fuel)) (JStr k) (JRef l_in) opts h
              = Ret (JStr (quoteIdentifier k false +:+ " IN (NULL)")) h')
  /\ (exists h', whereItemQuery (S (S fuel)) (JStr k) (JRef l_notIn) opts h
                 = Ret (JStr "") h')
  /\ (exists h', whereItemsQuery (S (S (S fuel))) (JRef l_outer) opts binding h
                 = Ret "" h')
  /\ (exists h', whereItemQuery (S (S fuel)) (JStr k) (JRef l_lit) opts h
                 = Ret (JStr (quoteIdentifier k false +:+ " IN " +:+ val)) h')
  /\ (exists h', whereItemQuery (S (S fuel)) (JStr k) (JRef l_notLit) opts h
                 = Ret (JStr (quoteIdentifier k false +:+ " NOT IN " +:+ val)) h').
Proof.
  intros Hk Hj Hp Hin HnotIn Hlit HnotLit Houter.
  pose proof (whereItemQuery_in_any fuel h k l_notIn "$notIn" (JArr []) opts
                Hk Hj Hp (or_intror eq_refl) HnotIn (or_intror eq_refl))
    as [h1 H1].
  repeat split.
  - exact (whereItemQuery_in_any fuel h k l_in "$in" (JArr []) opts
             Hk Hj Hp (or_introl eq_refl) Hin (or_intror eq_refl)).
  - exists h1. exact H1.
  - exists h1. unfold whereItemsQuery. rewrite whereItemsQuery_this.
    rewrite (whereItemsQuery_singleton _ _ _ _ _ _ _ Houter).
    change (this_whereItemQuery (generator (S (S fuel))))
      with (whereItemQuery (S (S fuel))).
    rewrite (bind_Ret _ _ _ _ _ H1). reflexivity.
  - exact (whereItemQuery_in_any fuel h k l_lit "$in" (JLiteral val) opts
             Hk Hj Hp (or_introl eq_refl) Hlit
             (or_introl (ex_intro _ val eq_refl))).
  - exact (whereItemQuery_in_any fuel h k l_notLit "$notIn" (JLiteral val) opts
             Hk Hj Hp (or_intror eq_refl) HnotLit
             (or_introl (ex_intro _ val eq_refl))).
Qed.

End InProperties.

Lemma whereItemQuery_in_notIn_witness :
  (exists h', whereItemQuery (E := TestDialect.env) 2 (JStr "tags") (JRef 0)
                noOptions Examples.inHeap
              = Ret (JStr ("[tags]" +:+ " IN (NULL)")) h')
  /\ (exists h', whereItemQuery (E := TestDialect.env) 2 (JStr "tags") (JRef 1)
                   noOptions Examples.inHeap
                 = Ret (JStr "") h')
  /\ (exists h', whereItemsQuery (E := TestDialect.env) 3 (JRef 4) noOptions None
                   Examples.inHeap
                 = Ret "" h')
  /\ (exists h', whereItemQuery (E := TestDialect.env) 2 (JStr "tags") (JRef 2)
                   noOptions Examples.inHeap
                 = Ret (JStr ("[tags]" +:+ " IN " +:+ "(SELECT 1)")) h')
  /\ (exists h', whereItemQuery (E := TestDialect.env) 2 (JStr "tags") (JRef 3)
                   noOptions Examples.inHeap
                 = Ret (JStr ("[tags]" +:+ " NOT IN " +:+ "(SELECT 1)")) h').
Proof.
  apply (whereItemQuery_in_notIn (E := TestDialect.env) 0 Examples.inHeap "tags"
           0 1 2 3 4 "(SELECT 1)" noOptions None);
    try reflexivity.
  split; try reflexivity; discriminate.
Defined.

Section AliasProperties.

Context {E : Env}.

Lemma assoc_In {A} k (v : A) l : assoc k l = Some v -> In (k, v) l.
Proof.
  induction l as [|[k' v'] l IH]; cbn; [discriminate|].
  destruct (String.eqb_spec k k') as [->|Hne].
  - intros [= ->]. now left.
  - intros H. right. auto.
Qed.

Lemma aliasTable_targets :
  Forall (fun e => lookupTable aliasMap (snd e) = Absent
                   /\ Str.contains "." (snd e) = false
                   /\ String.eqb (snd e) (fst e) = false
                   /\ existsb (String.eqb (fst e)) objectPrototypeKeys = false)
         aliasTable.
Proof. repeat constructor. Qed.

Lemma aliasMap_target a c :
  aliasMap a = Some c ->
  lookupTable aliasMap c = Absent /\ Str.contains "." c = false /\ c <> a.
Proof.
  intros Ha. apply assoc_In, list_elem_of_In in Ha.
  pose proof (proj1 (Forall_forall _ _) aliasTable_targets _ Ha) as (H1 & H2 & H3 & _).
  cbn [fst snd] in *. repeat split; auto. now apply String.eqb_neq.
Qed.

Lemma lookupTable_alias a c : aliasMap a = Some c -> lookupTable aliasMap a = Own c.
Proof. intros Ha. unfold lookupTable. now rewrite Ha. Qed.

Lemma lookupTable_none a :
  aliasMap a = None -> existsb (String.eqb a) objectPrototypeKeys = false ->
  lookupTable aliasMap a = Absent.
Proof. intros Ha Hi. unfold lookupTable. now rewrite Ha, Hi. Qed.

Lemma insert_same (h : heap) l (o : object) : h !! l = Some o -> <[l := o]> h = h.
Proof. apply list_insert_id. Qed.

Lemma write_eq (h : heap) l o o' :
  h !! l = Some o -> Heap.write l o' h = Ret tt (<[l := o']> h).
Proof. intros Hl. unfold Heap.write. now rewrite Hl. Qed.

Lemma lookup_written (h : heap) l (o o' : object) :
  h !! l = Some o -> <[l := o']> h !! l = Some o'.
Proof.
  intros Hl. apply list_lookup_insert_eq. now apply lookup_lt_Some in Hl.
Qed.

Lemma setProp_eq (h : heap) l o k v :
  h !! l = Some o -> Heap.setProp l k v h = Ret tt (<[l := Obj.set k v o]> h).
Proof.
  intros Hl. unfold Heap.setProp.
  rewrite (bind_Ret _ _ _ _ _ (read_eq _ _ _ Hl)). exact (write_eq _ _ _ _ Hl).
Qed.

Lemma delProp_eq (h : heap) l o k :
  h !! l = Some o -> Heap.delProp l k h = Ret tt (<[l := Obj.del k o]> h).
Proof.
  intros Hl. unfold Heap.delProp.
  rewrite (bind_Ret _ _ _ _ _ (read_eq _ _ _ Hl)). exact (write_eq _ _ _ _ Hl).
Qed.

(** The alias rewrite, as a function on the mapping. *)
Lemma rewriteAliases_fold ks : forall (h : heap) l o,
  h !! l = Some o ->
  Forall (fun k => existsb (String.eqb k) objectPrototypeKeys = false) ks ->
  foldM (fun (_ : unit) k =>
           let* o' := Heap.read l in
           (fun item key =>
              match lookupTable aliasMap key with
              | Own canonical =>
                  let* _ := Heap.setProp l canonical item in
                  Heap.delProp l key
              | Inherited => stuck
              | Absent => ret tt
              end) (Obj.get k o') k) tt ks h
  = Ret tt (<[l := fold_left canonicaliseKey ks o]> h).
Proof.
  induction ks as [|k ks IH]; intros h l o Hl Hks.
  - cbn. now rewrite insert_same.
  - inversion Hks as [|? ? Hk Hks']; subst. cbn [foldM fold_left].
    match goal with
    | |- bind ?m _ _ = _ =>
        assert (Hstep : m h = Ret tt (<[l := canonicaliseKey o k]> h))
    end.
    { rewrite (bind_Ret _ _ _ _ _ (read_eq _ _ _ Hl)).
      unfold canonicaliseKey, lookupTable.
      destruct (aliasMap k) as [c|].
      * rewrite (bind_Ret _ _ _ _ _ (setProp_eq _ _ _ _ _ Hl)).
        rewrite (delProp_eq _ _ _ _ (lookup_written _ _ _ _ Hl)).
        now rewrite list_insert_insert_eq.
      * rewrite Hk. now rewrite insert_same. }
    rewrite (bind_Ret _ _ _ _ _ Hstep).
    rewrite (IH _ _ _ (lookup_written _ _ _ _ Hl) Hks').
    now rewrite list_insert_insert_eq.
Qed.

Lemma rewriteAliases_canonicalise (h : heap) l o :
  h !! l = Some o -> noInheritedKeys o ->
  rewriteAliases l h = Ret tt (<[l := canonicalise o]> h).
Proof.
  intros Hl Hi. unfold rewriteAliases, forOwn.
  rewrite (bind_Ret _ _ _ _ _ (read_eq _ _ _ Hl)).
  exact (rewriteAliases_fold _ _ _ _ Hl Hi).
Qed.

Lemma keys_set k v (o : object) k' :
  In k' (Obj.keys (Obj.set k v o)) <-> k' = k \/ In k' (Obj.keys o).
Proof.
  induction o as [|[k0 v0] o IH]; cbn.
  - intuition.
  - destruct (String.eqb_spec k k0) as [->|Hne]; cbn; [intuition|].
    rewrite IH. intuition.
Qed.

Lemma NoDup_set k v (o : object) :
  List.NoDup (Obj.keys o) -> List.NoDup (Obj.keys (Obj.set k v o)).
Proof.
  induction o as [|[k0 v0] o IH]; cbn; intros Hnd.
  - constructor; [intros []| constructor].
  - inversion Hnd as [|? ? Hnin Hnd']; subst.
    destruct (String.eqb_spec k k0) as [->|Hne]; cbn.
    + now constructor.
    + constructor; [|auto]. rewrite keys_set. intros [Heq|Hin]; [congruence | contradiction].
Qed.

Lemma keys_del k (o : object) k' :
  List.NoDup (Obj.keys o) ->
  In k' (Obj.keys (Obj.del k o)) <-> k' <> k /\ In k' (Obj.keys o).
Proof.
  induction o as [|[k0 v0] o IH]; cbn; intros Hnd.
  - intuition.
  - inversion Hnd as [|? ? Hnin Hnd']; subst.
    destruct (String.eqb_spec k k0) as [->|Hne]; cbn.
    + split.
      * intros Hin. split; [intros ->; contradiction | now right].
      * intros [Hne [->|Hin]]; [congruence | assumption].
    + rewrite (IH Hnd'). split.
      * intros [->|[? ?]]; [split; [congruence | now left] | split; [assumption | now right]].
      * intros [? [->|?]]; [now left | right; now split].
Qed.

Lemma NoDup_del k (o : object) :
  List.NoDup (Obj.keys o) -> List.NoDup (Obj.keys (Obj.del k o)).
Proof.
  induction o as [|[k0 v0] o IH]; cbn; intros Hnd; [constructor|].
  inversion Hnd as [|? ? Hnin Hnd']; subst.
  destruct (String.eqb_spec k k0) as [->|Hne]; cbn; [assumption|].
  constructor; [|auto]. rewrite (keys_del _ _ _ Hnd'). intros [_ Hin]. contradiction.
Qed.

Lemma canonicalise_fold_aliasFree ks : forall o,
  List.NoDup (Obj.keys o) ->
  List.Forall (fun k => existsb (String.eqb k) objectPrototypeKeys = false) ks ->
  (forall k, In k (Obj.keys o) -> lookupTable aliasMap k = Absent \/ In k ks) ->
  forall k, In k (Obj.keys (fold_left canonicaliseKey ks o)) ->
            lookupTable aliasMap k = Absent.
Proof.
  induction ks as [|k0 ks IH]; intros o Hnd Hks Hinv k Hin; cbn in Hin.
  - destruct (Hinv _ Hin) as [?|[]]. assumption.
  - inversion Hks as [|? ? Hk0 Hks']; subst.
    apply (IH (canonicaliseKey o k0)); [| assumption | | assumption].
    + unfold canonicaliseKey. destruct (aliasMap k0); [|assumption].
      now apply NoDup_del, NoDup_set.
    + intros k' Hk'. unfold canonicaliseKey in Hk'.
      destruct (aliasMap k0) as [c|] eqn:Ha.
      * apply keys_del in Hk'; [|now apply NoDup_set].
        destruct Hk' as [Hne Hk']. apply keys_set in Hk'.
        destruct Hk' as [->|Hk'].
        -- left. now apply (aliasMap_target k0).
        -- destruct (Hinv _ Hk') as [?|[->|?]]; [now left | congruence | now right].
      * destruct (Hinv _ Hk') as [?|[->|?]]; [now left | | now right].
        left. now apply lookupTable_none.
Qed.

Lemma canonicalise_aliasFree o :
  List.NoDup (Obj.keys o) -> noInheritedKeys o -> aliasFree (canonicalise o).
Proof.
  intros Hnd Hi. unfold aliasFree. apply Forall_forall. intros k Hk.
  apply list_elem_of_In in Hk.
  apply (canonicalise_fold_aliasFree (Obj.keys o) o Hnd); auto.
Qed.

(** The head of [whereItemQuery] on a mapping value, given what the
    alias rewrite does to the store. *)
Lemma whereItemQuery_prelude this d key l opts (h h' : heap) :
  jsonPathTarget key opts = None ->
  rewriteAliases l h = Ret tt h' ->
  whereItemQuery_ this d key (JRef l) opts h
  = match toStr key with
    | None => Stuck
    | Some name =>
        let field := resolveField name opts in
        let fieldType := resolveFieldType field opts in
        match lookupTable aliasMap name with
        | Own c => dispatch this d (JStr c) (JRef l) field fieldType opts h'
        | Inherited => Stuck
        | Absent => dispatch this d key (JRef l) field fieldType opts h'
        end
    end.
Proof.
  intros Hj Hr. unfold whereItemQuery_, aliasKey, str, ofOption. rewrite Hj.
  destruct (toStr key) as [name|] eqn:Hname; [|reflexivity].
  mred. rewrite ?Hname.
  destruct (lookupTable aliasMap name); mred; rewrite ?Hr; reflexivity.
Qed.

(** [whereItemQuery] compiles a mapping as it compiles its canonical
    form, and leaves the canonical form in the store. *)
Lemma whereItemQuery_canonicalise fuel key l o opts (h : heap) :
  h !! l = Some o ->
  List.NoDup (Obj.keys o) -> noInheritedKeys o ->
  jsonPathTarget key opts = None ->
  whereItemQuery fuel key (JRef l) opts h
  = whereItemQuery fuel key (JRef l) opts (<[l := canonicalise o]> h).
Proof.
  intros Hl Hnd Hi Hj. destruct fuel as [|fuel]; [reflexivity|].
  unfold whereItemQuery. rewrite whereItemQuery_this.
  rewrite (whereItemQuery_prelude _ _ _ _ _ _ _ Hj
             (rewriteAliases_canonicalise _ _ _ Hl Hi)).
  rewrite (whereItemQuery_prelude _ _ _ _ _ _ _ Hj
             (rewriteAliases_aliasFree _ _ _ (lookup_written _ _ _ _ Hl)
                (canonicalise_aliasFree _ Hnd Hi))).
  reflexivity.
Qed.

Lemma canonicalise_single a c v :
  aliasMap a = Some c -> canonicalise [(a, v)] = [(c, v)].
Proof.
  intros Ha. destruct (aliasMap_target _ _ Ha) as (_ & _ & Hne).
  unfold canonicalise, canonicaliseKey. cbn [Obj.keys map fst fold_left].
  rewrite Ha, get_head. cbn [Obj.set Obj.del].
  rewrite (proj2 (String.eqb_neq _ _) Hne). cbn [Obj.del].
  now rewrite String.eqb_refl.
Qed.

Lemma noInherited_alias a c v : aliasMap a = Some c -> noInheritedKeys [(a, v)].
Proof.
  intros Ha. apply assoc_In, list_elem_of_In in Ha.
  pose proof (proj1 (Forall_forall _ _) aliasTable_targets _ Ha) as (_ & _ & _ & H4).
  repeat constructor. exact H4.
Qed.

(** A legacy spelling used as the outer key. *)
Lemma whereItemQuery_outer_alias fuel a c v opts (h : heap) :
  aliasMap a = Some c ->
  resolveField a opts = resolveField c opts ->
  jsonPathTarget (JStr a) opts = None ->
  whereItemQuery fuel (JStr a) v opts h = whereItemQuery fuel (JStr c) v opts h.
Proof.
  intros Ha Hf Hj. destruct fuel as [|fuel]; [reflexivity|].
  destruct (aliasMap_target _ _ Ha) as (Hc & Hdot & _).
  unfold whereItemQuery. rewrite whereItemQuery_this.
  unfold whereItemQuery_, aliasKey.
  rewrite Hj, (jsonPathTarget_nodot _ opts Hdot). mred.
  rewrite (lookupTable_alias _ _ Ha), Hc, Hf. reflexivity.
Qed.


End AliasProperties.



(* ================================================================= *)
(** ** Statements built from a template *)

Lemma bind_inv {A B} (m : M A) (k : A -> M B) (h h' : heap) b :
  bind m k h = Ret b h' ->
  exists a h1, m h = Ret a h1 /\ k a h1 = Ret b h'.
Proof.
  unfold bind. destruct (m h) as [a h1| | |]; try discriminate. eauto.
Qed.

Lemma bind_congr {A B} (m : M A) (k k' : A -> M B) (h : heap) :
  (forall a h1, k a h1 = k' a h1) -> bind m k h = bind m k' h.
Proof. intros Hk. unfold bind. destruct (m h); auto. Qed.

Lemma append_empty s : s +:+ "" = s.
Proof. induction s as [|c s IH]; cbn; [reflexivity | now rewrite IH]. Qed.

Lemma template_inv query replacements (h h' : heap) statement :
  template query replacements h = Ret statement h' ->
  statement = render query replacements /\ h' = h.
Proof.
  unfold template. destruct (existsb _ query); [discriminate|].
  unfold ret. intros [= <- <-]. now split.
Qed.

Lemma concat_cons x xs : String.concat "" (x :: xs) = x +:+ String.concat "" xs.
Proof. destruct xs; cbn; [now rewrite append_empty | reflexivity]. Qed.

Lemma append_assoc (a b c : string) : (a +:+ b) +:+ c = a +:+ b +:+ c.
Proof. induction a as [|x a IH]; cbn; [reflexivity | now rewrite IH]. Qed.

Lemma render_cons seg query r :
  render (seg :: query) r = render [seg] r +:+ render query r.
Proof. unfold render. cbn [map]. now rewrite !concat_cons, append_assoc. Qed.

Lemma render_app a b r : render (a ++ b) r = render a r +:+ render b r.
Proof.
  induction a as [|seg a IH]; [reflexivity|].
  cbn [app]. rewrite render_cons, (render_cons seg a), IH. apply eq_sym, append_assoc.
Qed.

Lemma render_Lit text r : render [Lit text] r = text.
Proof. reflexivity. Qed.

Lemma render_wrapper table query r :
  render ([Lit "SET IDENTITY_INSERT"; Lit " "; Lit table; Lit " "; Lit "ON;";
           Lit " "]
            ++ query
            ++ [Lit " "; Lit "SET IDENTITY_INSERT"; Lit " "; Lit table;
                Lit " "; Lit "OFF;"]) r
  = "SET IDENTITY_INSERT " +:+ table +:+ " ON; " +:+ render query r
      +:+ " SET IDENTITY_INSERT " +:+ table +:+ " OFF;".
Proof.
  rewrite !render_app.
  assert (Hlits : forall l, render (map Lit l) r = String.concat "" l).
  { intros l. unfold render. f_equal.
    induction l as [|x l IH]; cbn [map]; [reflexivity | now rewrite IH]. }
  change [Lit "SET IDENTITY_INSERT"; Lit " "; Lit table; Lit " "; Lit "ON;";
          Lit " "]
    with (map Lit ["SET IDENTITY_INSERT"; " "; table; " "; "ON;"; " "]).
  change [Lit " "; Lit "SET IDENTITY_INSERT"; Lit " "; Lit table; Lit " ";
          Lit "OFF;"]
    with (map Lit [" "; "SET IDENTITY_INSERT"; " "; table; " "; "OFF;"]).
  rewrite !Hlits, !concat_cons. cbn [String.concat].
  rewrite !append_empty. cbn [append].
  rewrite !append_assoc. reflexivity.
Qed.

(* ================================================================= *)
(** ** The auto-increment columns of an insert *)

Lemma assoc_assocSet {A} key k (v : A) (map_ : list (string * A)) :
  assoc key (assocSet k v map_)
  = if String.eqb key k then Some v else assoc key map_.
Proof.
  induction map_ as [|[k' v'] map_ IH]; cbn [assocSet assoc].
  - reflexivity.
  - destruct (String.eqb k k') eqn:Hk; cbn [assoc].
    + apply String.eqb_eq in Hk as <-.
      now destruct (String.eqb key k).
    + destruct (String.eqb key k') eqn:Hkey'.
      * apply String.eqb_eq in Hkey' as ->.
        rewrite String.eqb_sym, Hk. reflexivity.
      * exact IH.
Qed.

Lemma find_snoc {A} (p : A -> bool) (l : list A) (a : A) :
  find p (l ++ [a])
  = match find p l with
    | Some b => Some b
    | None => if p a then Some a else None
    end.
Proof.
  induction l as [|b l IH]; cbn [app find]; [reflexivity|].
  now destruct (p b).
Qed.

(** The attribute map holds, for a key, the last attribute that the key
    names. *)
Lemma modelAttributeMap_lookup (modelAttributes : list (string * Attribute))
    (key : string) :
  assoc key (modelAttributeMap modelAttributes)
  = attributeFor modelAttributes key.
Proof.
  unfold modelAttributeMap, attributeFor.
  enough (Hgen : forall map_,
             assoc key
               (fold_left
                  (fun map_ entry =>
                     let map_ := assocSet (fst entry) (snd entry) map_ in
                     match nonEmpty (a_field (snd entry)) with
                     | Some f => assocSet f (snd entry) map_
                     | None => map_
                     end) modelAttributes map_)
             = match find (namesAttribute key) (rev modelAttributes) with
               | Some entry => Some (snd entry)
               | None => assoc key map_
               end).
  { rewrite Hgen. now destruct (find _ _). }
  induction modelAttributes as [|entry rest IH]; intros map_;
    cbn [fold_left rev]; [reflexivity|].
  rewrite IH, find_snoc.
  destruct (find (namesAttribute key) (rev rest)); [reflexivity|].
  unfold namesAttribute.
  destruct (nonEmpty (a_field (snd entry))) as [f|];
    rewrite ?assoc_assocSet.
  - destruct (String.eqb key f); [now rewrite orb_true_r|].
    rewrite orb_false_r. now destruct (String.eqb key (fst entry)).
  - rewrite orb_false_r. now destruct (String.eqb key (fst entry)).
Qed.

Section InsertProperties.

Context {E : Env}.

Lemma isAutoIncrement_marked (modelAttributes : list (string * Attribute))
    (key : string) :
  isAutoIncrement (modelAttributeMap modelAttributes) key
  = markedAutoIncrement modelAttributes key.
Proof.
  unfold isAutoIncrement, markedAutoIncrement.
  now rewrite modelAttributeMap_lookup.
Qed.

Lemma attributeFor_nil key : attributeFor [] key = None.
Proof. reflexivity. Qed.

(** The loop of [insertQuery], from any row: what it adds to the row is
    an [insertedRow]. *)
Lemma insertLoop_spec fuel (modelAttributes : list (string * Attribute))
    (entries : object) :
  forall row (h h' : heap) row',
  foldM (insertStep fuel (modelAttributeMap modelAttributes)) row entries h
  = Ret row' h' ->
  exists columns values,
    ir_fields row' = ir_fields row ++ columns
    /\ ir_values row' = ir_values row ++ values
    /\ ir_identityWrapperRequired row'
       = ir_identityWrapperRequired row
         || existsb (fun entry =>
                       markedAutoIncrement modelAttributes (fst entry)
                       && truthy (snd entry)) entries
    /\ insertedRow fuel modelAttributes entries columns values h h'.
Proof.
  induction entries as [|[key value] entries IH]; intros row h h' row';
    cbn [foldM].
  - unfold ret. intros [= <- <-]. exists [], [].
    rewrite !app_nil_r, orb_false_r. cbn. repeat split.
  - intros Hrun. apply bind_inv in Hrun as (row1 & h1 & Hstep & Hrun).
    apply IH in Hrun as (columns & values & Hf & Hv & Hw & Hrow).
    unfold insertStep in Hstep. cbn [fst snd] in Hstep.
    rewrite isAutoIncrement_marked, modelAttributeMap_lookup in Hstep.
    cbn [insertedRow existsb fst snd].
    assert (Hflag : forall b c d : bool, (b || c) || d = b || (c || d))
      by (intros [] [] []; reflexivity).
    destruct (markedAutoIncrement modelAttributes key) eqn:Hmarked;
      [destruct (truthy value) eqn:Htruthy;
       [|destruct (negb (ai_defaultValue (autoIncrement supports)));
         [|destruct (DEFAULT supports)]]|];
      cbn [andb negb] in Hstep |- *;
      try (apply bind_inv in Hstep as (v & h2 & Hv1 & Hstep));
      unfold ret in Hstep; injection Hstep as <- <-;
      cbn [ir_fields ir_values ir_identityWrapperRequired] in Hf, Hv, Hw;
      rewrite ?removelast_last, <- ?app_assoc in Hf;
      rewrite <- ?app_assoc in Hv;
      cbn [app] in Hf, Hv;
      assert (Hw' : ir_identityWrapperRequired row'
                    = ir_identityWrapperRequired row
                      || (markedAutoIncrement modelAttributes key
                          && truthy value
                          || existsb
                               (fun entry =>
                                  markedAutoIncrement modelAttributes (fst entry)
                                  && truthy (snd entry)) entries))
        by (rewrite Hw, Hmarked, ?Htruthy;
            now destruct (ir_identityWrapperRequired row));
      rewrite Hmarked, ?Htruthy in Hw'; clear Hw Hflag.
    + exists (quoteIdentifier key false :: columns), (v :: values).
      split; [exact Hf|]. split; [exact Hv|]. split; [exact Hw'|].
      exists v, h2, columns, values. repeat split; assumption.
    + exists columns, values.
      split; [exact Hf|]. split; [exact Hv|]. split; [exact Hw'|]. exact Hrow.
    + exists (quoteIdentifier key false :: columns), (JStr "DEFAULT" :: values).
      split; [exact Hf|]. split; [exact Hv|]. split; [exact Hw'|].
      exists columns, values. repeat split; assumption.
    + exists (quoteIdentifier key false :: columns), (v :: values).
      split; [exact Hf|]. split; [exact Hv|]. split; [exact Hw'|].
      exists v, h2, columns, values. repeat split; assumption.
    + exists (quoteIdentifier key false :: columns), (v :: values).
      split; [exact Hf|]. split; [exact Hv|]. split; [exact Hw'|].
      exists v, h2, columns, values. repeat split; assumption.
Qed.

(** Falsy values of an auto-increment key are not told apart. *)
Lemma insertStep_sameButFalsy fuel (modelAttributes : list (string * Attribute))
    row entry entry' :
  sameButFalsy modelAttributes entry entry' ->
  insertStep fuel (modelAttributeMap modelAttributes) row entry
  = insertStep fuel (modelAttributeMap modelAttributes) row entry'.
Proof.
  destruct entry as [key value], entry' as [key' value'].
  intros [Hkey Hvalue]. cbn [fst snd] in Hkey, Hvalue. subst key'.
  destruct Hvalue as [->|(Hmarked & Hf & Hf')]; [reflexivity|].
  unfold insertStep. cbn [fst snd].
  rewrite isAutoIncrement_marked, Hmarked, Hf, Hf'. reflexivity.
Qed.

Lemma insertLoop_sameButFalsy fuel (modelAttributes : list (string * Attribute))
    (entries entries' : object) :
  Forall2 (sameButFalsy modelAttributes) entries entries' ->
  forall row (h : heap),
  foldM (insertStep fuel (modelAttributeMap modelAttributes)) row entries h
  = foldM (insertStep fuel (modelAttributeMap modelAttributes)) row entries' h.
Proof.
  induction 1 as [|entry entry' entries entries' Hsame _ IH]; intros row h;
    cbn [foldM]; [reflexivity|].
  unfold bind. rewrite (insertStep_sameButFalsy _ _ _ _ _ Hsame).
  destruct (insertStep _ _ row entry' h); auto.
Qed.

Lemma joinVals_inv sep (l : list jsval) (h h' : heap) s :
  joinVals sep l h = Ret s h' ->
  h' = h
  /\ exists parts,
       Forall2 (fun v part => toElement v = Some part) l parts
       /\ s = Str.join sep parts.
Proof.
  unfold joinVals. intros Hrun.
  apply bind_inv in Hrun as (parts & h1 & Hparts & Hrun).
  unfold ret in Hrun. injection Hrun as <- <-.
  enough (Hgen : forall l (h h1 : heap) parts,
             mapM (fun v => ofOption (toElement v)) l h = Ret parts h1 ->
             h1 = h /\ Forall2 (fun v part => toElement v = Some part) l parts).
  { destruct (Hgen _ _ _ _ Hparts) as [-> Hall]. split; [reflexivity|].
    now exists parts. }
  clear. induction l as [|v l IH]; intros h h1 parts; cbn [mapM].
  - unfold ret. intros [= <- <-]. split; [reflexivity|constructor].
  - intros Hrun. apply bind_inv in Hrun as (part & h2 & Hpart & Hrun).
    apply bind_inv in Hrun as (rest & h3 & Hrest & Hrun).
    unfold ret in Hrun. injection Hrun as <- <-.
    unfold ofOption in Hpart.
    destruct (toElement v) as [p|] eqn:Hv; [|discriminate].
    unfold ret in Hpart. injection Hpart as <- <-.
    destruct (IH _ _ _ Hrest) as [-> Hall].
    split; [reflexivity|]. now constructor.
Qed.

Lemma attributeMap_of (modelAttributes : option (list (string * Attribute))) :
  match modelAttributes with
  | Some attrs => modelAttributeMap attrs
  | None => []
  end
  = modelAttributeMap match modelAttributes with
                      | Some attrs => attrs
                      | None => []
                      end.
Proof. now destruct modelAttributes. Qed.


End InsertProperties.


(** The same rows on the test dialect, which has [DEFAULT] and no
    identity inserts: a falsy key is written as [DEFAULT]. *)
Example insertQuery_falsy_default :
  insertQuery (E := TestDialect.env) 2 (TName "users")
    [("user_id", JBool false); ("name", JStr "x")]
    (Some [("userId", mkAttribute (Some "user_id") None true)])
    (mkInsertOptions false false None None false) []
  = Ret ("INSERT INTO [users] ([user_id],[name]) VALUES (DEFAULT,'x');",
         mkInsertOptions false false None None false) [].
Proof. reflexivity. Qed.

Section ReturningProperties.

Context {E : Env}.

Lemma incrementQuery_shape fuel tableName attrValueHash where_ options
    (h h' : heap) q :
  incrementQuery fuel tableName attrValueHash where_ options h = Ret q h' ->
  exists qTable values w,
    q = "UPDATE " +:+ qTable +:+ " SET " +:+ values
          +:+ incrementOutput supports +:+ " " +:+ w
          +:+ incrementReturning supports.
Proof.
  unfold incrementQuery, incrementOutput, incrementReturning. intros Hq.
  destruct (returnValues supports) as [rv|];
    [destruct (rv_returning rv); [|destruct (rv_output rv)]|];
    apply bind_inv in Hq as (v1 & h1 & _ & Hq);
    apply bind_inv in Hq as (v2 & h2 & _ & Hq);
    apply bind_inv in Hq as (qT & h3 & _ & Hq);
    apply bind_inv in Hq as (w & h4 & _ & Hq);
    injection Hq as <- _; exists qT, (Str.join "," v2), w;
    unfold render; cbn; rewrite ?append_empty; reflexivity.
Qed.

Lemma updateQuery_shape fuel tableName attrValueHash where_ options attributes
    (h h' : heap) q options' :
  updateQuery fuel tableName attrValueHash where_ options attributes h
  = Ret (q, options') h' ->
  q = ""
  \/ exists tmpTable qTable values output w limit tmpSelect,
       q = Trim.trim (tmpTable +:+ "UPDATE " +:+ qTable +:+ " SET " +:+ values
                        +:+ output +:+ " " +:+ w +:+ limit +:+ tmpSelect
                        +:+ updateReturning supports options)
       /\ (tmpSelect = "" \/ tmpSelect = ";select * from @tmp")
       /\ (limit = "" \/ exists ls, limit = " LIMIT " +:+ ls +:+ " ").
Proof.
  unfold updateQuery, updateReturning. intros Hq.
  apply bind_inv in Hq as (query & h1 & Hquery & Hq).
  apply bind_inv in Hq as ([[[query' outputFragment] tmpTable] mapToModel] & h2 & Hrv & Hq).
  apply bind_inv in Hq as (values & h3 & _ & Hq).
  apply bind_inv in Hq as (qTable & h4 & _ & Hq).
  apply bind_inv in Hq as (w & h5 & _ & Hq).
  destruct values as [|v0 values]; [left; unfold ret in Hq; congruence|right].
  set (base := [Hole "tmpTable"; Lit "UPDATE "; Hole "table"; Lit " SET ";
                Hole "values"; Hole "output"; Lit " "; Hole "where"]) in *.
  set (r := [("table", Some qTable);
             ("values", Some (Str.join "," (v0 :: values)));
             ("output", outputFragment); ("where", Some w);
             ("tmpTable", Some tmpTable)]) in *.
  assert (Hresult : q = Trim.trim (render query' r)).
  { apply bind_inv in Hq as (statement & h6 & Hst & Hq).
    apply template_inv in Hst as [-> _]. unfold ret in Hq. congruence. }
  rewrite Hresult. clear Hq Hresult.
  assert (Hbase : render base r
                  = tmpTable +:+ "UPDATE " +:+ qTable +:+ " SET "
                      +:+ Str.join "," (v0 :: values)
                      +:+ match outputFragment with Some s => s | None => "" end
                      +:+ " " +:+ w).
  { unfold render, base, r.
    cbn [map assoc String.eqb Ascii.eqb Bool.eqb].
    rewrite !concat_cons. cbn [String.concat]. now rewrite append_empty. }
  assert (Hlimit : exists limit,
             render query r = render base r +:+ limit
             /\ (limit = "" \/ exists ls, limit = " LIMIT " +:+ ls +:+ " ")).
  { destruct (LIMIT_ON_UPDATE supports && truthy (uo_limit options)).
    - apply bind_inv in Hquery as (l & h6 & _ & Hquery).
      apply bind_inv in Hquery as (ls & h7 & _ & Hquery).
      assert (Hshape : query = base ++ [Lit (" LIMIT " +:+ ls +:+ " ")])
        by (unfold ret in Hquery; congruence).
      exists (" LIMIT " +:+ ls +:+ " ").
      split; [now rewrite Hshape, render_app, render_Lit | right; now exists ls].
    - assert (Hshape : query = base) by (unfold ret in Hquery; congruence).
      exists "". split; [now rewrite Hshape, append_empty | now left]. }
  destruct Hlimit as (limit & Hrender & Hlimit).
  exists tmpTable, qTable, (Str.join "," (v0 :: values)),
    (match outputFragment with Some s => s | None => "" end), w, limit.
  assert (Hfinish : forall tail,
            render (query ++ [Lit tail]) r
            = tmpTable +:+ "UPDATE " +:+ qTable +:+ " SET "
                +:+ Str.join "," (v0 :: values)
                +:+ match outputFragment with Some s => s | None => "" end
                +:+ " " +:+ w +:+ limit +:+ tail).
  { intros tail. rewrite render_app, render_Lit, Hrender, Hbase.
    now rewrite !append_assoc. }
  assert (Hplain : render query r
            = tmpTable +:+ "UPDATE " +:+ qTable +:+ " SET "
                +:+ Str.join "," (v0 :: values)
                +:+ match outputFragment with Some s => s | None => "" end
                +:+ " " +:+ w +:+ limit +:+ "").
  { rewrite Hrender, Hbase. now rewrite append_empty, !append_assoc. }
  destruct (returnValues supports) as [rv|].
  - destruct (rv_output rv).
    + destruct attributes as [attrs|];
        [destruct (uo_hasTrigger options && tmpTableTrigger supports)|].
      * apply bind_inv in Hrv as ([tmpColumns outputColumns] & h6 & _ & Hrv).
        assert (Hshape : query' = query ++ [Lit ";select * from @tmp"])
          by (unfold ret in Hrv; congruence).
        exists ";select * from @tmp". rewrite Hshape, Hfinish, append_empty. auto.
      * assert (Hshape : query' = query) by (unfold ret in Hrv; congruence).
        exists "". rewrite Hshape, Hplain. cbn [String.append]. auto.
      * assert (Hshape : query' = query) by (unfold ret in Hrv; congruence).
        exists "". rewrite Hshape, Hplain. cbn [String.append]. auto.
    + destruct (uo_returning options).
      * assert (Hshape : query' = query ++ [Lit " RETURNING *"])
          by (unfold ret in Hrv; congruence).
        exists "". rewrite Hshape, Hfinish. cbn [String.append]. auto.
      * assert (Hshape : query' = query) by (unfold ret in Hrv; congruence).
        exists "". rewrite Hshape, Hplain. cbn [String.append]. auto.
  - assert (Hshape : query' = query) by (unfold ret in Hrv; congruence).
    exists "". rewrite Hshape, Hplain. cbn [String.append]. auto.
Qed.


End ReturningProperties.



(* ================================================================= *)
(** ** What the WHERE compiler leaves alone *)

(** Case analysis on the innermost scrutinee. *)
Ltac destruct_scrutinee x :=
  lazymatch x with
  | match ?y with _ => _ end => destruct_scrutinee y
  | _ => destruct x
  end.

Section Frame.

Context {E : Env}.

(** The store before the call. *)
Variable h0 : heap.

Lemma kept_refl : kept h0 h0.
Proof. split; auto. Qed.

Lemma kept_alloc h o : kept h0 h -> kept h0 (h ++ [o]).
Proof.
  intros [Hlen Hkept]. split.
  - rewrite length_app. lia.
  - intros l o' Hl Hs. apply lookup_app_l_Some. auto.
Qed.

Lemma kept_insert h l o : kept h0 h -> free h0 l -> kept h0 (<[l := o]> h).
Proof.
  intros [Hlen Hkept] Hfree. split.
  - now rewrite length_insert.
  - intros l' o' Hl Hs. destruct (decide (l = l')) as [->|Hne].
    + rewrite (Hfree _ Hl) in Hs. discriminate.
    + rewrite list_lookup_insert_ne by assumption. auto.
Qed.

Lemma kept_free h l o : kept h0 h -> h !! l = Some o -> settled o = false -> free h0 l.
Proof.
  intros [_ Hkept] Hl Hs o' Hl'. destruct (settled o') eqn:Hs'; [|reflexivity].
  rewrite (Hkept _ _ Hl' Hs') in Hl. injection Hl as ->. congruence.
Qed.

Lemma kept_fresh h : kept h0 h -> free h0 (length h).
Proof.
  intros [Hlen _] o Hl. apply lookup_lt_Some in Hl. lia.
Qed.

Lemma pres_ret {A} (a : A) : pres h0 (ret a).
Proof. intros h Hk. exact Hk. Qed.

Lemma pres_throw {A} e : orderError e = false -> pres h0 (@throw A e).
Proof. intros He h Hk. split; assumption. Qed.

Lemma pres_stuck {A} : pres h0 (@stuck A).
Proof. intros h Hk. exact I. Qed.

Lemma pres_outOfFuel {A} : pres h0 (@outOfFuel A).
Proof. intros h Hk. exact I. Qed.

Lemma pres_bind {A B} (m : M A) (k : A -> M B) :
  pres h0 m -> (forall a, pres h0 (k a)) -> pres h0 (bind m k).
Proof.
  intros Hm Hk h Hh. unfold bind. specialize (Hm h Hh).
  destruct (m h) as [a h1|e h1| |]; auto. now apply Hk.
Qed.

Lemma pres_ofOption {A} (o : option A) : pres h0 (ofOption o).
Proof. destruct o; [apply pres_ret | apply pres_stuck]. Qed.

Lemma pres_observe {A} (f : heap -> A) : pres h0 (fun h => Ret (f h) h).
Proof. intros h Hk. exact Hk. Qed.

Lemma pres_mapM {A B} (f : A -> M B) l :
  (forall a, pres h0 (f a)) -> pres h0 (mapM f l).
Proof.
  intros Hf. induction l as [|a l IH]; cbn [mapM]; [apply pres_ret|].
  apply pres_bind; [apply Hf|]. intros b.
  apply pres_bind; [apply IH|]. intros bs. apply pres_ret.
Qed.

Lemma pres_foldM {A S} (f : S -> A -> M S) s l :
  (forall s a, pres h0 (f s a)) -> pres h0 (foldM f s l).
Proof.
  intros Hf. revert s. induction l as [|a l IH]; intros s; cbn [foldM];
    [apply pres_ret|].
  apply pres_bind; [apply Hf | intros s'; apply IH].
Qed.

Lemma pres_filterM {A} (p : A -> M bool) l :
  (forall a, pres h0 (p a)) -> pres h0 (filterM p l).
Proof.
  intros Hp. induction l as [|a l IH]; cbn [filterM]; [apply pres_ret|].
  apply pres_bind; [apply Hp|]. intros b.
  apply pres_bind; [apply IH|]. intros bs. apply pres_ret.
Qed.

Lemma pres_read l : pres h0 (Heap.read l).
Proof. intros h Hk. unfold Heap.read. now destruct (h !! l). Qed.

(** Reading tells whether the location is free h0. *)
Lemma pres_read_bind {B} l (k : object -> M B) :
  (forall o, (settled o = false -> free h0 l) -> pres h0 (k o)) ->
  pres h0 (bind (Heap.read l) k).
Proof.
  intros Hk h Hh. unfold bind, Heap.read.
  destruct (h !! l) as [o|] eqn:Hl; [|exact I].
  apply Hk; [|assumption]. intros Hs. exact (kept_free h l o Hh Hl Hs).
Qed.

Lemma pres_alloc_bind {B} o (k : jsval -> M B) :
  (forall l, free h0 l -> pres h0 (k (JRef l))) ->
  pres h0 (bind (Heap.alloc o) k).
Proof.
  intros Hk h Hh. unfold bind, Heap.alloc.
  apply Hk; [now apply kept_fresh | now apply kept_alloc].
Qed.

Lemma pres_alloc o : pres h0 (Heap.alloc o).
Proof. intros h Hh. now apply kept_alloc. Qed.

Lemma pres_write l o : free h0 l -> pres h0 (Heap.write l o).
Proof.
  intros Hfree h Hh. unfold Heap.write. destruct (h !! l); [|exact I].
  now apply kept_insert.
Qed.

Lemma pres_setProp l k v : free h0 l -> pres h0 (Heap.setProp l k v).
Proof.
  intros Hfree. unfold Heap.setProp. apply pres_bind; [apply pres_read|].
  intros o. now apply pres_write.
Qed.

Lemma pres_delProp l k : free h0 l -> pres h0 (Heap.delProp l k).
Proof.
  intros Hfree. unfold Heap.delProp. apply pres_bind; [apply pres_read|].
  intros o. now apply pres_write.
Qed.

Lemma pres_prop v k : pres h0 (Heap.prop v k).
Proof.
  destruct v; cbn [Heap.prop]; try apply pres_ret.
  apply pres_bind; [apply pres_read | intros o; apply pres_ret].
Qed.

Lemma pres_forOwn {S} l (f : S -> jsval -> string -> M S) s :
  (forall s v k, pres h0 (f s v k)) -> pres h0 (forOwn l f s).
Proof.
  intros Hf. unfold forOwn. apply pres_bind; [apply pres_read|]. intros o.
  apply pres_foldM. intros s' k.
  apply pres_bind; [apply pres_read | intros o'; apply Hf].
Qed.

Lemma pres_str v : pres h0 (str v).
Proof. apply pres_ofOption. Qed.

Lemma pres_joinVals sep l : pres h0 (joinVals sep l).
Proof.
  unfold joinVals. apply pres_bind.
  - apply pres_mapM. intros v. apply pres_ofOption.
  - intros parts. apply pres_ret.
Qed.

Lemma pres_isSequelizeMethod v : pres h0 (isSequelizeMethod v).
Proof.
  destruct v; cbn [isSequelizeMethod]; try apply pres_ret.
  apply pres_bind; [apply pres_prop | intros p; apply pres_ret].
Qed.

Lemma pres_hasLength v : pres h0 (hasLength v).
Proof.
  destruct v; cbn [hasLength]; try apply pres_ret.
  apply pres_bind; [apply pres_prop | intros p; apply pres_ret].
Qed.

Lemma pres_sizeOf v : pres h0 (sizeOf v).
Proof.
  destruct v; cbn [sizeOf]; try apply pres_ret.
  apply pres_bind; [apply pres_read|]. intros p.
  destruct (Obj.get "length" p); try apply pres_ret.
  destruct (_ && _); apply pres_ret.
Qed.

Lemma pres_keyCount v : pres h0 (keyCount v).
Proof.
  destruct v; cbn [keyCount]; try apply pres_ret.
  apply pres_bind; [apply pres_read | intros p; apply pres_ret].
Qed.

Create HintDb pres discriminated.

#[local] Hint Resolve pres_ret pres_stuck pres_outOfFuel pres_ofOption
  pres_read pres_alloc pres_prop pres_str pres_joinVals pres_isSequelizeMethod
  pres_hasLength pres_sizeOf pres_keyCount pres_setProp pres_delProp pres_write
  : pres.

(** One step of a syntax-directed proof of [pres h0]. *)
Ltac pres_step :=
  cbv beta iota zeta;
  lazymatch goal with
  | |- pres h0 (bind (Heap.alloc _) _) => apply pres_alloc_bind; intros ? ?
  | |- pres h0 (bind (Heap.read _) _) => apply pres_read_bind; intros ? ?
  | |- pres h0 (bind _ _) => apply pres_bind; [ | intro ]
  | |- pres h0 (mapM _ _) => apply pres_mapM; intro
  | |- pres h0 (foldM _ _ _) => apply pres_foldM; intros ? ?
  | |- pres h0 (filterM _ _) => apply pres_filterM; intro
  | |- pres h0 (forOwn _ _ _) => apply pres_forOwn; intros ? ? ?
  | |- pres h0 (throw _) => apply pres_throw; reflexivity
  | |- pres h0 (match ?x with _ => _ end) => destruct_scrutinee x
  | |- pres h0 (fun h => Ret _ h) => apply pres_observe
  | |- _ => solve [auto with pres]
  end.

Ltac pres_auto := repeat pres_step.

Section FrameMethods.

Variable this : QueryGenerator.
Hypothesis Hthis : presGen h0 this.

Lemma this_quote_pres obj parent force : pres h0 (this_quote this obj parent force).
Proof. apply pg_quote, Hthis. Qed.

Lemma this_escape_pres value field options :
  pres h0 (this_escape this value field options).
Proof. apply pg_escape, Hthis. Qed.

Lemma this_handleSequelizeMethod_pres smth tableName factory prepend :
  pres h0 (this_handleSequelizeMethod this smth tableName factory prepend).
Proof. apply pg_handleSequelizeMethod, Hthis. Qed.

Lemma this_whereItemsQuery_pres where_ options binding :
  pres h0 (this_whereItemsQuery this where_ options binding).
Proof. apply pg_whereItemsQuery, Hthis. Qed.

Lemma this_whereItemQuery_pres key value options :
  pres h0 (this_whereItemQuery this key value options).
Proof. apply pg_whereItemQuery, Hthis. Qed.

Lemma this_getWhereConditions_pres smth tableName factory prepend :
  pres h0 (this_getWhereConditions this smth tableName factory prepend).
Proof. apply pg_getWhereConditions, Hthis. Qed.

#[local] Hint Resolve this_quote_pres this_escape_pres
  this_handleSequelizeMethod_pres this_whereItemsQuery_pres
  this_whereItemQuery_pres this_getWhereConditions_pres : pres.

Lemma pres_keyName key : pres h0 (keyName key).
Proof. unfold keyName. pres_auto. Qed.

Lemma pres_isMethodOrRaise what v : pres h0 (isMethodOrRaise what v).
Proof. unfold isMethodOrRaise. pres_auto. Qed.

#[local] Hint Resolve pres_keyName pres_isMethodOrRaise : pres.

Lemma pres_quoteStep w item : pres h0 (quoteStep w item).
Proof. unfold quoteStep. pres_auto. Qed.

#[local] Hint Resolve pres_quoteStep : pres.

Lemma pres_quote obj parent force : pres h0 (quote_ this obj parent force).
Proof. unfold quote_. pres_auto. Qed.

Lemma pres_check (validate : heap -> jsval -> EscapeOptions -> option string)
    v options :
  pres h0 (fun h => match validate h v options with
                 | Some msg => Throw (ValidationError msg) h
                 | None => Ret tt h
                 end).
Proof. intros h Hh. destruct (validate h v options); [split|]; auto. Qed.

#[local] Hint Resolve pres_check : pres.

Lemma pres_escape value field options : pres h0 (escape_ this value field options).
Proof. unfold escape_. pres_auto. Qed.

Lemma pres_join2 a b sep : pres h0 (join2 a b sep).
Proof. unfold join2. pres_auto. Qed.

#[local] Hint Resolve pres_join2 : pres.

Lemma pres_handleSequelizeMethod smth tableName factory prepend :
  pres h0 (handleSequelizeMethod_ this smth tableName factory prepend).
Proof. unfold handleSequelizeMethod_. pres_auto. Qed.

Lemma pres_whereQuery where_ options : pres h0 (whereQuery_ this where_ options).
Proof. unfold whereQuery_. pres_auto. Qed.

Lemma pres_isEmptyWhere where_ : pres h0 (isEmptyWhere where_).
Proof. unfold isEmptyWhere. pres_auto. Qed.

Lemma pres_conjoin binding items : pres h0 (conjoin binding items).
Proof. unfold conjoin. pres_auto. Qed.

#[local] Hint Resolve pres_isEmptyWhere pres_conjoin : pres.

Lemma pres_whereItemsQuery where_ options binding :
  pres h0 (whereItemsQuery_ this where_ options binding).
Proof. unfold whereItemsQuery_. pres_auto. Qed.

Lemma pres_asArray what v : pres h0 (asArray what v).
Proof. unfold asArray. pres_auto. Qed.

Lemma pres_dottieSet path tmp : pres h0 (dottieSet path tmp).
Proof.
  induction path as [|p path IH]; cbn [dottieSet]; [auto with pres|].
  destruct path; [auto with pres|]. apply pres_bind; [exact IH|].
  intros inner. auto with pres.
Qed.

Lemma pres_aliasKey key : pres h0 (aliasKey key).
Proof. unfold aliasKey. pres_auto. Qed.

#[local] Hint Resolve pres_asArray pres_dottieSet pres_aliasKey : pres.

Lemma pres_foldM_In {A S} (f : S -> A -> M S) s l :
  (forall s a, In a l -> pres h0 (f s a)) -> pres h0 (foldM f s l).
Proof.
  revert s. induction l as [|a l IH]; intros s Hf; cbn [foldM];
    [apply pres_ret|].
  apply pres_bind; [apply Hf; now left|]. intros s'. apply IH.
  intros s'' a' Hin. apply Hf. now right.
Qed.

Lemma settled_alias o k c :
  In k (Obj.keys o) -> aliasMap k = Some c -> settled o = false.
Proof.
  intros Hin Hk. unfold settled. apply andb_false_iff. left.
  apply not_true_is_false. intros Hall.
  rewrite forallb_forall in Hall. specialize (Hall k Hin).
  unfold lookupTable in Hall. rewrite Hk in Hall. discriminate.
Qed.

Lemma settled_not o :
  match Obj.get "$not" o with
  | JUndefined | JNull | JBool _ => False
  | _ => True
  end ->
  settled o = false.
Proof.
  intros Hnot. unfold settled. apply andb_false_iff. right.
  destruct (Obj.get "$not" o); solve [reflexivity | destruct Hnot].
Qed.

(** The alias rewrite writes only to a mapping that has a legacy key. *)
Lemma pres_rewriteAliases l : pres h0 (rewriteAliases l).
Proof.
  unfold rewriteAliases, forOwn. apply pres_read_bind. intros o Hfree.
  apply pres_foldM_In. intros [] k Hin.
  apply pres_bind; [apply pres_read|]. intros o'.
  unfold lookupTable. destruct (aliasMap k) as [c|] eqn:Hk.
  - assert (free h0 l) by (apply Hfree; exact (settled_alias o k c Hin Hk)).
    pres_auto.
  - pres_auto.
Qed.

Lemma pres_prop_not_bind {B} l (k : jsval -> M B) :
  (forall v, (match v with
              | JUndefined | JNull | JBool _ => False
              | _ => True
              end -> free h0 l) -> pres h0 (k v)) ->
  pres h0 (bind (Heap.prop (JRef l) "$not") k).
Proof.
  intros Hk h Hh. cbv [bind Heap.prop Heap.read ret].
  destruct (h !! l) as [o|] eqn:Hl; [|exact I].
  apply Hk; [|assumption]. intros Hv.
  exact (kept_free h l o Hh Hl (settled_not o Hv)).
Qed.

(** The [$not] normalisation writes only to a mapping whose [$not] is
    neither a boolean nor [null]. *)
Lemma pres_normaliseIn value fieldType : pres h0 (normaliseIn value fieldType).
Proof.
  unfold normaliseIn. apply pres_bind.
  - destruct (truthy value && negb (isARRAY fieldType)); [|apply pres_ret].
    destruct value; try apply pres_ret; [apply pres_alloc|].
    apply pres_prop_not_bind. intros pnot Hfree.
    destruct pnot; cbn [isArray]; try apply pres_ret.
    assert (free h0 l) by now apply Hfree. pres_auto.
  - intros value'. destruct value'; try apply pres_ret.
    apply pres_read_bind. intros o Hfree. cbv zeta.
    destruct (Obj.get "$not" o) eqn:Hnot; try apply pres_ret;
      (assert (free h0 l)
        by (apply Hfree, settled_not; rewrite Hnot; exact I));
      pres_auto.
Qed.

#[local] Hint Resolve pres_rewriteAliases pres_normaliseIn : pres.

Lemma pres_combinator key value options : pres h0 (combinator this key value options).
Proof. unfold combinator. pres_auto. Qed.

Lemma pres_distribute key por pand options :
  pres h0 (distribute this key por pand options).
Proof. unfold distribute. pres_auto. Qed.

Lemma pres_withPrefix options key : pres h0 (withPrefix this options key).
Proof. unfold withPrefix. pres_auto. Qed.

#[local] Hint Resolve pres_combinator pres_distribute pres_withPrefix : pres.

Lemma pres_traverse depth key options item path items :
  pres h0 (traverse this depth key options item path items).
Proof.
  revert key options item path items.
  induction depth as [|depth IH]; intros key options item path items;
    cbn [traverse]; [apply pres_outOfFuel|].
  pres_auto.
Qed.

#[local] Hint Resolve pres_traverse : pres.

Lemma pres_jsonBranch depth key l options :
  pres h0 (jsonBranch this depth key l options).
Proof. unfold jsonBranch. pres_auto. Qed.

Lemma pres_multiKey key l options : pres h0 (multiKey this key l options).
Proof. unfold multiKey. pres_auto. Qed.

Lemma pres_escapeAll items : pres h0 (escapeAll this items).
Proof. unfold escapeAll. pres_auto. Qed.

Lemma pres_comparatorStep st item key : pres h0 (comparatorStep this st item key).
Proof. unfold comparatorStep. pres_auto. Qed.

#[local] Hint Resolve pres_jsonBranch pres_multiKey pres_escapeAll
  pres_comparatorStep : pres.

Lemma pres_setupValue value field fieldType :
  pres h0 (setupValue this value field fieldType).
Proof. unfold setupValue. pres_auto. Qed.

Lemma pres_emitKey key options : pres h0 (emitKey this key options).
Proof. unfold emitKey. pres_auto. Qed.

#[local] Hint Resolve pres_setupValue pres_emitKey : pres.

Lemma pres_compileLeaf key value field fieldType options :
  pres h0 (compileLeaf this key value field fieldType options).
Proof. unfold compileLeaf. pres_auto. Qed.

#[local] Hint Resolve pres_compileLeaf : pres.

Lemma pres_compileValue depth key value field fieldType options :
  pres h0 (compileValue this depth key value field fieldType options).
Proof. unfold compileValue. pres_auto. Qed.

#[local] Hint Resolve pres_compileValue : pres.

Lemma pres_dispatch depth key value field fieldType options :
  pres h0 (dispatch this depth key value field fieldType options).
Proof. unfold dispatch. pres_auto. Qed.

#[local] Hint Resolve pres_dispatch : pres.

Lemma pres_whereItemQuery depth key value options :
  pres h0 (whereItemQuery_ this depth key value options).
Proof. unfold whereItemQuery_. pres_auto. Qed.

Lemma pres_getWhereConditions smth tableName factory prepend :
  pres h0 (getWhereConditions_ this smth tableName factory prepend).
Proof. unfold getWhereConditions_. pres_auto. Qed.

(** The helpers of [selectQuery] that write to no mapping. *)

Lemma pres_hasModelProp v : pres h0 (hasModelProp v).
Proof. unfold hasModelProp. pres_auto. Qed.

Lemma pres_selectFromTableFragment attributes tables mainTableAs :
  pres h0 (selectFromTableFragment attributes tables mainTableAs).
Proof. unfold selectFromTableFragment. pres_auto. Qed.

Lemma pres_parentIsTop include model : pres h0 (parentIsTop include model).
Proof. unfold parentIsTop. pres_auto. Qed.

Lemma pres_fieldOf m name : pres h0 (fieldOf m name).
Proof. unfold fieldOf. pres_auto. Qed.

Lemma pres_parentName include : pres h0 (parentName include).
Proof. unfold parentName. pres_auto. Qed.

#[local] Hint Resolve pres_hasModelProp pres_selectFromTableFragment
  pres_parentIsTop pres_fieldOf pres_parentName : pres.

Lemma pres_joinIncludeQuery model subQuery include groupedLimit :
  pres h0 (joinIncludeQuery_ this model subQuery include groupedLimit).
Proof. unfold joinIncludeQuery_. pres_auto. Qed.

Lemma pres_includeAttribute as_ attr :
  pres h0 (includeAttribute this as_ attr).
Proof. unfold includeAttribute. pres_auto. Qed.

Lemma pres_index attr i : pres h0 (index attr i).
Proof. unfold index. pres_auto. Qed.

#[local] Hint Resolve pres_index : pres.

Lemma pres_mentionsKey keyAtt attr : pres h0 (mentionsKey keyAtt attr).
Proof. unfold mentionsKey. pres_auto. Qed.

Lemma pres_findM {A} (p : A -> M bool) l :
  (forall a, pres h0 (p a)) -> pres h0 (findM p l).
Proof.
  intros Hp. induction l as [|a l IH]; cbn [findM]; [apply pres_ret|].
  apply pres_bind; [apply Hp|]. intros [|]; [apply pres_ret|exact IH].
Qed.

Lemma pres_addPrimaryKeys model mainAttributes :
  pres h0 (addPrimaryKeys model mainAttributes).
Proof.
  unfold addPrimaryKeys. apply pres_foldM. intros attrs keyAtt.
  unfold addPrimaryKey. apply pres_bind.
  - apply pres_findM. intros a. apply pres_mentionsKey.
  - intros found. pres_auto.
Qed.

Lemma pres_escapeAttribute hasInclude mainTableAs attr :
  pres h0 (escapeAttribute this hasInclude mainTableAs attr).
Proof. unfold escapeAttribute. pres_auto. Qed.

Lemma pres_addLimitAndOffset limit offset :
  pres h0 (addLimitAndOffset_ this limit offset).
Proof. unfold addLimitAndOffset_. pres_auto. Qed.

Lemma pres_groupedWhere where_ on value :
  pres h0 (groupedWhere where_ on value).
Proof. unfold groupedWhere. pres_auto. Qed.

End FrameMethods.

(** Every method of the tied generator keeps the settled mappings. *)
Lemma generator_pres fuel : presGen h0 (generator fuel).
Proof.
  induction fuel as [|fuel IH]; cbn [generator].
  - split; intros; apply pres_outOfFuel.
  - split; cbn; intros.
    + now apply pres_quote.
    + now apply pres_escape.
    + now apply pres_handleSequelizeMethod.
    + now apply pres_whereItemsQuery.
    + now apply pres_whereItemQuery.
    + now apply pres_getWhereConditions.
Qed.

End Frame.

(* ================================================================= *)
(** ** Order directions *)

Lemma bind_Throw_inv {A B} (m : M A) (k : A -> M B) (h h' : heap) e :
  bind m k h = Throw e h' ->
  m h = Throw e h' \/ exists a h1, m h = Ret a h1 /\ k a h1 = Throw e h'.
Proof.
  unfold bind. destruct (m h) as [a h1|e1 h1| |]; try discriminate.
  - intros Hk. right. exists a, h1. split; [reflexivity | exact Hk].
  - intros [= -> ->]. now left.
Qed.

Lemma foldM_app {A S} (f : S -> A -> M S) s l1 l2 (h : heap) :
  foldM f s (l1 ++ l2) h = bind (foldM f s l1) (fun s' => foldM f s' l2) h.
Proof.
  revert s h. induction l1 as [|a l1 IH]; intros s h; [reflexivity|].
  cbn [app foldM]. unfold bind in *.
  destruct (f s a h) as [s1 h1|e h1| |]; auto.
Qed.

Section OrderProperties.

Context {E : Env}.

Lemma kept_nil (h : heap) : kept [] h.
Proof. split; [cbn; lia | intros l o Hl; destruct l; discriminate]. Qed.

(** Nothing but the direction check raises [InvalidOrderDirection]. *)
Lemma pres_no_order_error {A} (m : M A) (h h' : heap) given :
  pres [] m -> m h <> Throw (InvalidOrderDirection given) h'.
Proof.
  intros Hm Heq. specialize (Hm h (kept_nil h)). rewrite Heq in Hm.
  destruct Hm as [_ Hm]. discriminate.
Qed.

Lemma validateOrder_throws order (h h' : heap) given :
  validateOrder order h = Throw (InvalidOrderDirection given) h' <->
  order = JStr given /\ inDirections given = false /\ h' = h.
Proof.
  unfold validateOrder, inDirections, ret, throw.
  destruct order; try (split; [discriminate | intros [? _]; discriminate]).
  destruct (existsb (String.eqb (toUpperCase s)) orderDirections) eqn:Hd; split.
  - discriminate.
  - intros ([= ->] & ? & _). congruence.
  - intros [= -> ->]. auto.
  - intros ([= ->] & _ & ->). reflexivity.
Qed.

Lemma modelFirst_spec t0 (h : heap) :
  let m := if isModel t0 then ret true else hasModelProp t0 in
  match modelLed t0 h with
  | Some led => m h = Ret led h
  | None => (forall given h', m h <> Throw (InvalidOrderDirection given) h')
            /\ (forall a h1, m h <> Ret a h1)
  end.
Proof.
  destruct t0; cbn; try reflexivity; try (split; intros; discriminate).
  cbv [bind Heap.read ret]. destruct (h !! l); [reflexivity|].
  split; intros; discriminate.
Qed.

(** The direction check raises exactly for the direction that
    [directionChecked] names, when it is outside the closed set. *)
Lemma checkDirection_throws t (h h' : heap) given :
  checkDirection t h = Throw (InvalidOrderDirection given) h' <->
  directionChecked t h = Some given /\ inDirections given = false /\ h' = h.
Proof.
  unfold checkDirection, directionChecked.
  destruct t; cbn [isArray andb];
    try (split; [discriminate | intros [? _]; discriminate]).
  destruct (1 <? length items)%nat;
    [|split; [discriminate | intros [? _]; discriminate]].
  pose proof (modelFirst_spec (nth 0 items JUndefined) h) as Hm. cbv zeta in Hm.
  unfold bind at 1.
  destruct (modelLed (nth 0 items JUndefined) h) as [led|].
  - rewrite Hm. destruct led; cbn [negb orb].
    + destruct (isString (nth (length items - 2) items JUndefined)).
      * rewrite validateOrder_throws. split.
        -- intros (-> & ? & ?). auto.
        -- destruct (List.last items JUndefined); intros ([= ->] & ? & ?); auto.
      * split; [discriminate | intros [? _]; discriminate].
    + rewrite validateOrder_throws. split.
      * intros (-> & ? & ?). auto.
      * destruct (List.last items JUndefined); intros ([= ->] & ? & ?); auto.
  - destruct Hm as [Hthrow Hret]. split; [|intros [? _]; discriminate].
    destruct ((if isModel (nth 0 items JUndefined) then ret true
               else hasModelProp (nth 0 items JUndefined)) h)
      as [a h1|e h1| |] eqn:Hrun; try discriminate.
    + now destruct (Hret a h1).
    + intros [= -> ->]. now destruct (Hthrow given h').
Qed.

Lemma checkDirection_heap t (h h1 : heap) a :
  checkDirection t h = Ret a h1 -> h1 = h.
Proof.
  unfold checkDirection. destruct t; cbn [isArray andb]; try now intros [= _ <-].
  destruct (1 <? length items)%nat; [|now intros [= _ <-]].
  pose proof (modelFirst_spec (nth 0 items JUndefined) h) as Hm. cbv zeta in Hm.
  unfold bind at 1.
  destruct (modelLed (nth 0 items JUndefined) h) as [led|].
  - rewrite Hm.
    assert (Hv : forall order, validateOrder order h = Ret a h1 -> h1 = h).
    { intros order. unfold validateOrder, ret, throw.
      destruct order; try discriminate; try now intros [= _ <-].
      destruct (existsb _ orderDirections); [now intros [= _ <-] | discriminate]. }
    destruct led; [destruct (isString _)|]; eauto. now intros [= _ <-].
  - destruct Hm as [_ Hret].
    destruct ((if isModel (nth 0 items JUndefined) then ret true
               else hasModelProp (nth 0 items JUndefined)) h)
      as [b h2|e h2| |] eqn:Hrun; try discriminate.
    now destruct (Hret b h2).
Qed.

Section OrderMethods.

Variable this : QueryGenerator.
Hypothesis Hthis : presGen [] this.

(** A round of the loop raises [InvalidOrderDirection] only from its
    direction check. *)
Lemma orderStep_throws model subQuery acc t (h h' : heap) given :
  orderStep this model subQuery acc t h = Throw (InvalidOrderDirection given) h' <->
  directionChecked t h = Some given /\ inDirections given = false /\ h' = h.
Proof.
  rewrite <- checkDirection_throws. unfold orderStep. cbv zeta. split.
  - intros Hstep. apply bind_Throw_inv in Hstep as [Hcheck|(a & h1 & _ & Hrest)];
      [exact Hcheck|].
    exfalso. revert Hrest. apply pres_no_order_error.
    apply pres_bind.
    { destruct (subQuery && isArray t && negb (isModel _)); [|apply pres_ret].
      destruct (truthy _); [|apply pres_ret].
      apply pres_bind; [apply pres_hasModelProp | intros m; apply pres_ret]. }
    intros toSub. apply pres_bind.
    { destruct toSub; [|apply pres_ret].
      apply pres_bind; [apply pg_quote, Hthis | intros q; apply pres_ret]. }
    intros sub. apply pres_bind; [apply pg_quote, Hthis | intros q; apply pres_ret].
  - intros Hcheck. unfold bind at 1. now rewrite Hcheck.
Qed.

End OrderMethods.

(** C9 (amended): once the earlier order elements have gone through,
    [getQueryOrders] raises the invalid-direction error on the next
    element exactly when that element is a sequence of more than one item
    that either does not start with a model (or an object whose [model] is
    one) or has a string just before its last item, whose last item is a
    string that the upper-casing of the host ([toUpperCase] of the
    environment) takes outside the closed set.  A Literal in
    last position, and the last item of a model-led sequence whose item
    before it is not a string, are never compared with the set. *)
Theorem getQueryOrders_direction fuel ts t model subQuery (h h1 h' : heap)
    acc given :
  getQueryOrders fuel (JArr ts) model subQuery h = Ret acc h1 ->
  getQueryOrders fuel (JArr (ts ++ [t])) model subQuery h
  = Throw (InvalidOrderDirection given) h'
  <-> directionChecked t h1 = Some given /\ inDirections given = false /\ h' = h1.
Proof.
  unfold getQueryOrders, getQueryOrders_. intros Hts.
  rewrite foldM_app. unfold bind at 1. rewrite Hts. cbn [foldM].
  rewrite <- (orderStep_throws (generator fuel) (generator_pres [] fuel)
                model subQuery acc t h1 h' given).
  unfold bind, ret. now destruct (orderStep _ _ _ _ _ h1).
Qed.

End OrderProperties.

Lemma getQueryOrders_direction_witness :
  getQueryOrders (E := TestDialect.env) 3
    (JArr ([] ++ [JArr [JStr "title"; JStr "BAD"]])) (Some Examples.users) false []
  = Throw (InvalidOrderDirection "BAD") []
  <-> directionChecked (JArr [JStr "title"; JStr "BAD"]) [] = Some "BAD"
      /\ inDirections (E := TestDialect.env) "BAD" = false
      /\ [] = ([] : heap).
Proof.
  apply (getQueryOrders_direction (E := TestDialect.env) 3 []
           (JArr [JStr "title"; JStr "BAD"]) (Some Examples.users) false [] [] []
           ([], []) "BAD").
  vm_compute. reflexivity.
Defined.

(** C9, counterexample: a sequence led by a model, with a function call
    before the direction, goes through with a direction outside the
    closed set. *)
Lemma getQueryOrders_direction_unchecked :
  getQueryOrders (E := Examples.envWithPosts) 8
    (JArr [JArr [JModel Examples.posts; JFn "max" [JCol (JStr "n")]; JStr "BAD"]])
    (Some Examples.users) false []
  = Ret ([JStr "[posts].max([n]) BAD"], []) []
  /\ inDirections (E := Examples.envWithPosts) "BAD" = false.
Proof. split; vm_compute; reflexivity. Qed.

(* ================================================================= *)
(** ** The shape of what [selectQuery] returns *)

Section SelectShape.

Context {E : Env}.

Lemma selectQuery_result this depth tableName options model (h h' : heap)
    q options' :
  selectQuery_ this depth tableName options model h = Ret (q, options') h' ->
  exists query where_ group having,
    q = query +:+ ";" /\ options' = withCompiled options where_ group having.
Proof.
  unfold selectQuery_. cbv zeta. intros Hq.
  repeat match type of Hq with
         | bind _ _ _ = Ret _ _ =>
             let a := fresh "a" in
             let h1 := fresh "h" in
             apply bind_inv in Hq as (a & h1 & _ & Hq)
         | (let '(_, _) := ?x in _) _ = Ret _ _ => destruct x
         | (match ?x with _ => _ end) _ = Ret _ _ => destruct x
         end.
  unfold ret in Hq. injection Hq as <- <- _. eauto 6.
Qed.

End SelectShape.

(* ================================================================= *)
(** ** What [selectQuery] leaves alone *)

Create HintDb frame discriminated.

Section SelectFrame.

Context {E : Env}.

(** The store before the call. *)
Variable h0 : heap.

Lemma frames_pres {A} (m : M A) : pres h0 m -> frames h0 (fun _ => True) m.
Proof.
  intros Hm h Hh. specialize (Hm h Hh).
  destruct (m h) as [a h'|e h'| |]; tauto.
Qed.

Lemma frames_weaken {A} (P Q : A -> Prop) (m : M A) :
  frames h0 P m -> (forall a, P a -> Q a) -> frames h0 Q m.
Proof.
  intros Hm HPQ h Hh. specialize (Hm h Hh).
  destruct (m h) as [a h'|e h'| |]; auto. destruct Hm. auto.
Qed.

Lemma frames_ret {A} (P : A -> Prop) (a : A) : P a -> frames h0 P (ret a).
Proof. intros Ha h Hh. now split. Qed.

Lemma frames_throw {A} (P : A -> Prop) e : frames h0 P (@throw A e).
Proof. intros h Hh. exact Hh. Qed.

Lemma frames_stuck {A} (P : A -> Prop) : frames h0 P (@stuck A).
Proof. intros h Hh. exact I. Qed.

Lemma frames_outOfFuel {A} (P : A -> Prop) : frames h0 P (@outOfFuel A).
Proof. intros h Hh. exact I. Qed.

Lemma frames_bind {A B} (Q : A -> Prop) (P : B -> Prop) (m : M A)
    (k : A -> M B) :
  frames h0 Q m -> (forall a, Q a -> frames h0 P (k a)) ->
  frames h0 P (bind m k).
Proof.
  intros Hm Hk h Hh. unfold bind. specialize (Hm h Hh).
  destruct (m h) as [a h1|e h1| |]; auto.
  destruct Hm as [Hh1 Ha]. now apply Hk.
Qed.

Lemma frames_bind_ret {A B} (P : B -> Prop) (a : A) (k : A -> M B) :
  frames h0 P (k a) -> frames h0 P (bind (ret a) k).
Proof. intros Hk h Hh. exact (Hk h Hh). Qed.

Lemma frames_alloc_bind {B} (P : B -> Prop) o (k : jsval -> M B) :
  (forall l, free h0 l -> frames h0 P (k (JRef l))) ->
  frames h0 P (bind (Heap.alloc o) k).
Proof.
  intros Hk h Hh. unfold bind, Heap.alloc.
  apply Hk; [now apply kept_fresh | now apply kept_alloc].
Qed.

Lemma frames_mapM {A B} (f : A -> M B) l :
  (forall a, frames h0 (fun _ => True) (f a)) ->
  frames h0 (fun _ => True) (mapM f l).
Proof.
  intros Hf. induction l as [|a l IH]; cbn [mapM];
    [now apply frames_ret|].
  apply (frames_bind (fun _ => True)); [apply Hf|]. intros b _.
  apply (frames_bind (fun _ => True)); [apply IH|]. intros bs _.
  now apply frames_ret.
Qed.

Lemma frames_foldM {A S} (I : S -> Prop) (f : S -> A -> M S) s l :
  I s -> (forall s a, I s -> frames h0 I (f s a)) ->
  frames h0 I (foldM f s l).
Proof.
  intros Hs Hf. revert s Hs.
  induction l as [|a l IH]; intros s Hs; cbn [foldM];
    [now apply frames_ret|].
  apply (frames_bind I); [now apply Hf | intros s' Hs'; now apply IH].
Qed.

Section SelectMethods.

Variable this : QueryGenerator.
Hypothesis Hthis : presGen h0 this.
Hypothesis Hselect : forall tableName options model,
    selectSafe h0 options ->
    frames h0 (fun _ => True) (this_selectQuery this tableName options model).

#[local] Hint Resolve pres_ret pres_stuck pres_outOfFuel pres_ofOption
  pres_read pres_alloc pres_prop pres_str pres_joinVals pres_isSequelizeMethod
  pres_hasLength pres_sizeOf pres_keyCount pres_setProp pres_keyName
  pres_isMethodOrRaise pres_hasModelProp pres_selectFromTableFragment
  pres_parentIsTop pres_fieldOf pres_parentName pres_joinIncludeQuery
  pres_includeAttribute pres_addPrimaryKeys pres_escapeAttribute
  pres_addLimitAndOffset pres_groupedWhere this_quote_pres this_escape_pres
  this_handleSequelizeMethod_pres this_whereItemsQuery_pres
  this_whereItemQuery_pres this_getWhereConditions_pres : frame.

(** One step of a syntax-directed proof of [frames h0]; a result that
    has to meet more than [True] is left to the caller. *)
Ltac fr_step :=
  cbv beta iota zeta; cbn [andb orb negb];
  lazymatch goal with
  | |- frames h0 _ (bind (Heap.alloc _) _) =>
      apply frames_alloc_bind; intros ? ?
  | |- frames h0 _ (bind (ensureWhere _) _) => fail
  | |- frames h0 _ (bind (ret _) _) => apply frames_bind_ret
  | |- frames h0 _ (bind _ _) =>
      apply (frames_bind (fun _ => True)); [ | intros ? _ ]
  | |- frames h0 _ (mapM _ _) => apply frames_mapM; intro
  | |- frames h0 (fun _ => True) (foldM _ _ _) =>
      apply (frames_foldM (fun _ => True)); [exact I | intros ? ? _]
  | |- frames h0 _ (throw _) => apply frames_throw
  | |- frames h0 _ stuck => apply frames_stuck
  | |- frames h0 _ outOfFuel => apply frames_outOfFuel
  | |- frames h0 (fun _ => True) (ret _) => apply frames_ret; exact I
  | |- frames h0 _ (this_selectQuery this _ _ _) =>
      apply Hselect;
      first [ left; reflexivity | right; left; reflexivity
            | right; right; assumption ]
  | |- frames h0 _ (match ?x with _ => _ end) => destruct_scrutinee x
  | |- frames h0 (fun _ => True) _ => solve [apply frames_pres; auto with frame]
  end.

Ltac fr_auto := repeat fr_step.

Lemma frames_throughSubQuery include :
  frames h0 (fun _ => True) (throughSubQuery this include).
Proof. unfold throughSubQuery. fr_auto. Qed.

Lemma frames_ensureWhere where_ :
  whereFree h0 where_ ->
  frames h0 (fun w => whereFree h0 (Some w)) (ensureWhere where_).
Proof.
  intros Hfree. unfold ensureWhere.
  assert (Halloc : frames h0 (fun w => whereFree h0 (Some w)) (Heap.alloc [])).
  { intros h Hh. unfold Heap.alloc. split; [now apply kept_alloc|].
    cbn. now apply kept_fresh. }
  destruct where_ as [w|]; [|exact Halloc].
  destruct (truthy w); [|exact Halloc]. now apply frames_ret.
Qed.

Lemma js_where_if (c : bool) a b st :
  js_where (if c then mkJoinState a b (js_where st) else st) = js_where st.
Proof. now destruct c. Qed.

(** Without a subquery the join generation leaves the conditions of
    the call as they are. *)
Lemma frames_generateJoinQueries_main tableName mainTableAs mainModel
    options depth :
  forall include parentTable st,
  frames h0 (fun r => js_where (snd r) = js_where st)
    (generateJoinQueries this depth tableName mainTableAs false mainModel
       options include parentTable st).
Proof.
  induction depth as [|depth IH]; intros include parentTable st;
    cbn [generateJoinQueries]; [apply frames_outOfFuel|].
  fr_step; [fr_auto|].
  cbv zeta.
  (* the attributes of the include *)
  apply (frames_bind (fun st1 => js_where st1 = js_where st)).
  { destruct (negb _); [|now apply frames_ret].
    fr_step; [fr_auto|]. destruct (_ && _); now apply frames_ret. }
  intros st1 Hst1.
  (* the join itself *)
  apply (frames_bind
           (fun r : string * joinState => js_where (snd r) = js_where st)).
  { fr_auto;
      try (apply frames_ret; cbn [snd]; rewrite ?js_where_if; exact Hst1).
    }
  intros [joinQueryItem st2] Hst2. cbn [snd] in Hst2.
  destruct (i_include include) as [children|];
    [|apply frames_ret; exact Hst2].
  apply (frames_foldM
           (fun acc : joinQueries * joinState =>
              js_where (snd acc) = js_where st)); [exact Hst2|].
  intros acc child Hacc.
  destruct (i_separate child || i_pseudo child); [now apply frames_ret|].
  apply (frames_bind
           (fun r : joinQueries * joinState =>
              js_where (snd r) = js_where (snd acc))); [apply IH|].
  intros [jq st3] Hst3. apply frames_ret. cbn [snd] in *. congruence.
Qed.

(** Under a subquery the join generation writes to the conditions of
    the call, or to new ones, and to no other mapping. *)
Lemma frames_generateJoinQueries_sub tableName mainTableAs mainModel
    options depth :
  forall include parentTable st,
  whereFree h0 (js_where st) ->
  frames h0 (fun r => whereFree h0 (js_where (snd r)))
    (generateJoinQueries this depth tableName mainTableAs true mainModel
       options include parentTable st).
Proof.
  induction depth as [|depth IH]; intros include parentTable st Hst;
    cbn [generateJoinQueries]; [apply frames_outOfFuel|].
  fr_step; [fr_auto|].
  cbv zeta.
  (* the attributes of the include *)
  apply (frames_bind (fun st1 => js_where st1 = js_where st)).
  { destruct (negb _); [|now apply frames_ret].
    fr_step; [fr_auto|]. destruct (_ && _); now apply frames_ret. }
  intros st1 Hst1.
  assert (Halloc : forall o,
             frames h0 (fun w => whereFree h0 (Some w)) (Heap.alloc o)).
  { intros o h Hh. unfold Heap.alloc. split; [now apply kept_alloc|].
    cbn. now apply kept_fresh. }
  (* the join itself *)
  apply (frames_bind
           (fun r : string * joinState => whereFree h0 (js_where (snd r)))).
  { destruct (i_through include) as [through|].
    - fr_auto;
        try (apply frames_ret; cbn [snd]; rewrite ?js_where_if, Hst1;
             exact Hst).
      all: apply (frames_bind (fun w => whereFree h0 (Some w)));
        [apply frames_ensureWhere; rewrite ?js_where_if, Hst1; exact Hst|];
        intros w Hw;
        fr_step; [apply frames_throughSubQuery|];
        fr_step;
        [destruct w; try apply frames_stuck;
         apply frames_pres, pres_setProp; exact Hw|];
        apply frames_ret; exact Hw.
    - apply (frames_bind (fun st2 => whereFree h0 (js_where st2))).
      { cbn [andb].
        destruct (i_subQueryFilter include);
          [|apply frames_ret; rewrite Hst1; exact Hst].
        fr_step; [fr_auto|]. fr_step; [fr_auto|]. fr_step. fr_step.
        apply (frames_bind (fun w => whereFree h0 (Some w)));
          [apply frames_ensureWhere; rewrite Hst1; exact Hst|].
        intros where0 Hwhere0.
        fr_step; [fr_auto|]. fr_step. fr_step; [fr_auto|]. fr_step.
        apply (frames_bind (fun w => whereFree h0 (Some w))).
        { destruct where0; try apply Halloc.
          fr_step; [apply frames_pres, pres_setProp; exact Hwhere0|].
          now apply frames_ret. }
        intros where1 Hwhere1. now apply frames_ret. }
      intros st2 Hst2. fr_step; [fr_auto|]. now apply frames_ret. }
  intros [joinQueryItem st2] Hst2. cbn [snd] in Hst2.
  destruct (i_include include) as [children|];
    [|apply frames_ret; exact Hst2].
  apply (frames_foldM
           (fun acc : joinQueries * joinState =>
              whereFree h0 (js_where (snd acc)))); [exact Hst2|].
  intros acc child Hacc.
  destruct (i_separate child || i_pseudo child); [now apply frames_ret|].
  apply (frames_bind
           (fun r : joinQueries * joinState =>
              whereFree h0 (js_where (snd r)))); [now apply IH|].
  intros [jq st3] Hst3. apply frames_ret. exact Hst3.
Qed.

Lemma frames_getQueryOrders order model subQuery :
  frames h0 (fun _ => True) (getQueryOrders_ this order model subQuery).
Proof.
  unfold getQueryOrders_, orderStep, checkDirection, validateOrder. fr_auto.
Qed.

Lemma frames_groupedBranch options gl model table where_ value :
  frames h0 (fun _ => True)
    (groupedBranch this options gl model table where_ value).
Proof. unfold groupedBranch. fr_auto. Qed.

(** What comes before the FROM clause keeps the settled mappings, and
    without a subquery it leaves the conditions of the call as they
    are. *)
Lemma frames_selectPrelude depth tableName options model :
  selectSafe h0 options ->
  frames h0
    (fun r : option string * string * joinQueries * joinState =>
       subQueryActive options = false -> js_where (snd r) = s_where options)
    (selectPrelude this depth tableName options model).
Proof.
  intros Hsafe. unfold selectSafe in Hsafe. unfold selectPrelude. cbv zeta.
  fr_step; [fr_auto|]. fr_step; [fr_auto|]. fr_step; [fr_auto|].
  set (st0 := if subQueryActive options || isSome (s_groupedLimit options)
              then _ else _).
  assert (Hst0 : js_where st0 = s_where options)
    by (unfold st0; now destruct (_ || _)).
  clearbody st0.
  destruct (s_include options) as [includes|] eqn:Hinclude;
    [|apply frames_bind_ret, frames_ret; intros _; exact Hst0].
  destruct (subQueryActive options) eqn:Hsub.
  - (* under a subquery *)
    apply (frames_bind
             (fun r : joinQueries * joinState =>
                whereFree h0 (js_where (snd r)))).
    + assert (Hfree : whereFree h0 (js_where st0)).
      { rewrite Hst0.
        destruct Hsafe as [Hs|[Hs|Hs]]; [discriminate..|exact Hs]. }
      apply (frames_foldM
               (fun acc : joinQueries * joinState =>
                  whereFree h0 (js_where (snd acc)))); [exact Hfree|].
      intros acc include Hacc.
      destruct (i_separate include); [now apply frames_ret|].
      apply (frames_bind
               (fun r : joinQueries * joinState =>
                  whereFree h0 (js_where (snd r))));
        [now apply frames_generateJoinQueries_sub|].
      intros [jq st] Hst. now apply frames_ret.
    + intros [joins st] _. apply frames_ret. discriminate.
  - (* without *)
    apply (frames_bind
             (fun r : joinQueries * joinState =>
                js_where (snd r) = s_where options)).
    + apply (frames_foldM
               (fun acc : joinQueries * joinState =>
                  js_where (snd acc) = s_where options)); [exact Hst0|].
      intros acc include Hacc.
      destruct (i_separate include); [now apply frames_ret|].
      apply (frames_bind
               (fun r : joinQueries * joinState =>
                  js_where (snd r) = js_where (snd acc)));
        [apply frames_generateJoinQueries_main|].
      intros [jq st] Hst. apply frames_ret. cbn [snd] in *. congruence.
    + intros [joins st] Hst. apply frames_ret. intros _. exact Hst.
Qed.

Lemma frames_selectQuery depth tableName options model :
  selectSafe h0 options ->
  frames h0 (fun _ => True) (selectQuery_ this depth tableName options model).
Proof.
  intros Hsafe. unfold selectQuery_. cbv zeta.
  apply (frames_bind
           (fun r : option string * string * joinQueries * joinState =>
              subQueryActive options = false ->
              js_where (snd r) = s_where options));
    [now apply frames_selectPrelude|].
  intros [[[mainTableAs table] joins] st] _.
  repeat first
    [ apply frames_getQueryOrders
    | apply frames_groupedBranch
    | fr_step ].
Qed.

End SelectMethods.

(** Every [selectQuery] of the tied generator keeps the settled
    mappings that it has no reason to write to. *)
Lemma generator_frames fuel tableName options model :
  selectSafe h0 options ->
  frames h0 (fun _ => True) (selectQuery fuel tableName options model).
Proof.
  unfold selectQuery. revert tableName options model.
  induction fuel as [|fuel IH]; intros tableName options model Hsafe;
    cbn [generator this_selectQuery]; [apply frames_outOfFuel|].
  apply frames_selectQuery; [apply generator_pres|exact IH|exact Hsafe].
Qed.

End SelectFrame.

(* ================================================================= *)
(** ** What the entry points leave unchanged *)

Section FrameProperties.

Context {E : Env}.

Lemma pres_unchangedAt {A} (m : M A) (h : heap) l o :
  pres h m -> h !! l = Some o -> settled o = true -> unchangedAt l o (m h).
Proof.
  intros Hm Hl Hs. specialize (Hm h (kept_refl h)). unfold unchangedAt.
  destruct (m h) as [a h'|e h'| |]; try exact I.
  - destruct Hm as [_ Hkept]. now apply Hkept.
  - destruct Hm as [[_ Hkept] _]. now apply Hkept.
Qed.

Lemma frames_unchangedAt {A} (P : A -> Prop) (m : M A) (h0 h : heap) l o :
  frames h0 P m -> kept h0 h -> h0 !! l = Some o -> settled o = true ->
  unchangedAt l o (m h).
Proof.
  intros Hm Hh Hl Hs. specialize (Hm h Hh). unfold unchangedAt.
  destruct (m h) as [a h'|e h'| |]; try exact I.
  - destruct Hm as [[_ Hkept] _]. now apply Hkept.
  - destruct Hm as [_ Hkept]. now apply Hkept.
Qed.

(** A store in which the mapping at [lw] is not settled keeps every
    other mapping of the store it comes from. *)
Lemma kept_masked (h : heap) lw :
  kept (<[lw := [("$not", JNum 0)]]> h) h
  /\ free (<[lw := [("$not", JNum 0)]]> h) lw
  /\ forall l o, l <> lw -> h !! l = Some o ->
       <[lw := [("$not", JNum 0)]]> h !! l = Some o.
Proof.
  split; [|split].
  - split; [now rewrite length_insert|].
    intros l o Hl Hs. destruct (decide (lw = l)) as [->|Hne].
    + apply list_lookup_insert_Some in Hl as [(_ & <- & _)|[Hne _]];
        [discriminate|congruence].
    + now rewrite list_lookup_insert_ne in Hl.
  - intros o Hl.
    apply list_lookup_insert_Some in Hl as [(_ & <- & _)|[Hne _]];
      [reflexivity|congruence].
  - intros l o Hne Hl. now rewrite list_lookup_insert_ne.
Qed.


End FrameProperties.



(* ================================================================= *)
(** ** Grouped limits *)

Lemma mapM_inv {A B} (f : A -> M B) l (h h' : heap) bs :
  mapM f l h = Ret bs h' ->
  Forall2 (fun a b => exists h1 h2, f a h1 = Ret b h2) l bs.
Proof.
  revert h h' bs. induction l as [|a l IH]; intros h h' bs; cbn [mapM].
  - intros [= <- _]. constructor.
  - intros Hm. apply bind_inv in Hm as (b & h1 & Hb & Hm).
    apply bind_inv in Hm as (bs' & h2 & Hbs & Hm).
    injection Hm as <- _. constructor.
    + now exists h, h1.
    + exact (IH _ _ _ Hbs).
Qed.

Lemma join_cons x xs : Str.join "" (x :: xs) = x +:+ Str.join "" xs.
Proof. apply concat_cons. Qed.

Lemma join_snoc xs x : Str.join "" (xs ++ [x]) = Str.join "" xs +:+ x.
Proof.
  induction xs as [|a xs IH]; cbn [app].
  - reflexivity.
  - now rewrite !join_cons, IH, append_assoc.
Qed.

Section GroupedProperties.

Context {E : Env}.

Lemma selectFromTableFragment_result attributes tables mainTableAs
    (h h' : heap) f :
  selectFromTableFragment attributes tables mainTableAs h = Ret f h' ->
  exists attrs alias,
    f = "SELECT " +:+ attrs +:+ " FROM " +:+ tables +:+ alias.
Proof.
  unfold selectFromTableFragment. intros Hf.
  apply bind_inv in Hf as (attrs & h1 & _ & Hf). exists attrs.
  destruct (nonEmpty mainTableAs) as [a|].
  - exists (" AS " +:+ a).
    assert (Hshape : f = ("SELECT " +:+ attrs +:+ " FROM " +:+ tables)
                           +:+ " AS " +:+ a)
      by (unfold ret in Hf; congruence).
    now rewrite Hshape, !append_assoc.
  - exists "".
    assert (Hshape : f = "SELECT " +:+ attrs +:+ " FROM " +:+ tables)
      by (unfold ret in Hf; congruence).
    now rewrite Hshape, append_empty.
Qed.

Lemma joinVals_any_heap sep l (h h' : heap) s :
  joinVals sep l h = Ret s h' -> forall h2 : heap, joinVals sep l h2 = Ret s h2.
Proof.
  intros Hrun h2. apply joinVals_inv in Hrun as (_ & parts & Hparts & ->).
  unfold joinVals, bind.
  assert (Hm : mapM (fun v => ofOption (toElement v)) l h2 = Ret parts h2).
  { clear sep h h'.
    induction Hparts as [|v part l parts Hv _ IH]; [reflexivity|].
    cbn [mapM]. unfold bind at 1. unfold ofOption at 1. rewrite Hv.
    unfold ret at 1. cbv beta iota. unfold bind. now rewrite IH. }
  now rewrite Hm.
Qed.

Lemma selectFromTableFragment_heap attributes tables mainTableAs
    (h h' : heap) f :
  selectFromTableFragment attributes tables mainTableAs h = Ret f h' ->
  h' = h.
Proof.
  unfold selectFromTableFragment. intros Hf.
  apply bind_inv in Hf as (attrs & h1 & Hattrs & Hf).
  apply joinVals_inv in Hattrs as [-> _].
  destruct (nonEmpty mainTableAs); unfold ret in Hf; congruence.
Qed.

(** The statement of a call with a grouped limit, part by part. *)
Lemma selectQuery_grouped this depth tableName options model gl
    (h h' : heap) q options' :
  s_groupedLimit options = Some gl ->
  selectQuery_ this depth tableName options model h = Ret (q, options') h' ->
  exists mainTableAs table joins st h0,
    selectPrelude this depth tableName options model h
    = Ret (mainTableAs, table, joins, st) h0
    /\ exists group having lock,
         (group = "" \/ exists g, group = " GROUP BY " +:+ g)
         /\ (having = "" \/ exists c, having = " HAVING " +:+ c)
         /\ if subQueryActive options then
              exists attrs from,
                joinVals ", " (js_mainAttributes st) h0 = Ret attrs h0
                /\ selectFromTableFragment (js_subQueryAttributes st) table
                     mainTableAs h0 = Ret from h0
                /\ q = "SELECT " +:+ attrs +:+ " FROM (" +:+ from
                        +:+ Str.join "" (jq_subQuery joins) +:+ group
                        +:+ having +:+ ") AS " +:+ nullStr mainTableAs
                        +:+ Str.join "" (jq_mainQuery joins) +:+ lock +:+ ";"
            else
              exists branches h1 from,
                mapM (groupedBranch this options gl model table (js_where st))
                     (gl_values gl) h0 = Ret branches h1
                /\ selectFromTableFragment (js_mainAttributes st)
                     ("(" +:+ Str.join (unionSeparator supports) branches
                          +:+ ")")
                     (Some (strOr mainTableAs table)) h1 = Ret from h1
                /\ q = from +:+ Str.join "" (jq_mainQuery joins) +:+ group
                        +:+ having +:+ lock +:+ ";".
Proof.
  intros Hgl. unfold selectQuery_. cbv zeta. rewrite Hgl.
  cbn [isSome orb andb negb]. intros Hq.
  apply bind_inv in Hq
    as ([[[mainTableAs table] joins] st] & h0 & Hprelude & Hq).
  exists mainTableAs, table, joins, st, h0. split; [exact Hprelude|].
  apply bind_inv in Hq
    as ([[subQueryItems mainQueryItems] mainTableAs'] & h5 & Hfrom & Hq).
  (* WHERE is left to the branches *)
  apply bind_inv in Hq as ([[sub1 main1] w1] & h8 & Hwhere & Hq).
  assert (Hitems1 : sub1 = subQueryItems /\ main1 = mainQueryItems)
    by (destruct (js_where st); unfold ret in Hwhere; split; congruence).
  clear Hwhere. destruct Hitems1 as [-> ->].
  (* GROUP BY *)
  apply bind_inv in Hq as ([[sub2 main2] group] & h9 & Hgroup & Hq).
  assert (Hitems2 :
            exists text,
              (text = "" \/ exists g, text = " GROUP BY " +:+ g)
              /\ if subQueryActive options
                 then Str.join "" sub2 = Str.join "" subQueryItems +:+ text
                      /\ main2 = mainQueryItems
                 else sub2 = subQueryItems
                      /\ Str.join "" main2
                         = Str.join "" mainQueryItems +:+ text).
  { destruct (truthy (s_group options)).
    - apply bind_inv in Hgroup as (g & h10 & _ & Hgroup).
      apply bind_inv in Hgroup as (gs & h11 & _ & Hgroup).
      exists (" GROUP BY " +:+ gs). split; [right; now exists gs|].
      destruct (subQueryActive options); unfold ret in Hgroup;
        injection Hgroup as <- <- _ _; split;
        rewrite ?join_snoc; reflexivity.
    - exists "". split; [now left|].
      destruct (subQueryActive options); unfold ret in Hgroup;
        injection Hgroup as <- <- _ _; split;
        rewrite ?append_empty; reflexivity. }
  clear Hgroup. destruct Hitems2 as (groupText & HgroupText & Hitems2).
  (* HAVING *)
  apply bind_inv in Hq as ([[sub3 main3] having] & h10 & Hhaving & Hq).
  assert (Hitems3 :
            exists text,
              (text = "" \/ exists c, text = " HAVING " +:+ c)
              /\ if subQueryActive options
                 then Str.join "" sub3 = Str.join "" sub2 +:+ text
                      /\ main3 = main2
                 else sub3 = sub2
                      /\ Str.join "" main3 = Str.join "" main2 +:+ text).
  { destruct (s_having options) as [hv|].
    - apply bind_inv in Hhaving as (c & h11 & _ & Hhaving).
      apply bind_inv in Hhaving as (cs & h12 & _ & Hhaving).
      exists (" HAVING " +:+ cs). split; [right; now exists cs|].
      destruct (subQueryActive options); unfold ret in Hhaving;
        injection Hhaving as <- <- _ _; split;
        rewrite ?join_snoc; reflexivity.
    - exists "". split; [now left|].
      destruct (subQueryActive options); unfold ret in Hhaving;
        injection Hhaving as <- <- _ _; split;
        rewrite ?append_empty; reflexivity. }
  clear Hhaving. destruct Hitems3 as (havingText & HhavingText & Hitems3).
  (* ORDER BY and LIMIT are left to the branches *)
  rewrite andb_false_r in Hq.
  apply bind_inv in Hq as ([sub4 main4] & h11 & Horder & Hq).
  assert (Hitems4 : sub4 = sub3 /\ main4 = main3)
    by (unfold ret in Horder; split; congruence).
  clear Horder. destruct Hitems4 as [-> ->].
  apply bind_inv in Hq as (limitOrder & h12 & _ & Hq).
  rewrite andb_false_r in Hq. cbv iota in Hq.
  apply bind_inv in Hq as (query & h13 & Hquery & Hq).
  (* the lock clause *)
  apply bind_inv in Hq as (locked & h14 & Hlock & Hq).
  assert (Hlocked : exists suffix, locked = query +:+ suffix).
  { destruct (_ && lock supports).
    - apply bind_inv in Hlock as (query1 & h15 & Hlevel & Hlock).
      assert (Hquery1 : exists suffix, query1 = query +:+ suffix).
      { destruct (lockKey supports && _).
        - apply bind_inv in Hlevel as (ls & h16 & _ & Hlevel).
          exists (" FOR " +:+ ls). unfold ret in Hlevel. congruence.
        - destruct (keyIs _ "SHARE").
          + eexists. unfold ret in Hlevel. injection Hlevel as <- _. reflexivity.
          + exists " FOR UPDATE". unfold ret in Hlevel. congruence. }
      destruct Hquery1 as (suffix1 & ->).
      destruct (s_lock options) as [|level|level [m|]];
        try (exists suffix1; unfold ret in Hlock; congruence).
      destruct (lockOf supports);
        [|exists suffix1; unfold ret in Hlock; congruence].
      apply bind_inv in Hlock as (qOf & h16 & _ & Hlock).
      exists (suffix1 +:+ " OF " +:+ qOf). rewrite <- append_assoc.
      unfold ret in Hlock. congruence.
    - exists "". rewrite append_empty. unfold ret in Hlock. congruence. }
  destruct Hlocked as (suffix & Hlocked).
  assert (Hresult : q = locked +:+ ";") by (unfold ret in Hq; congruence).
  clear Hq.
  exists groupText, havingText, suffix.
  split; [exact HgroupText|]. split; [exact HhavingText|].
  destruct (subQueryActive options).
  - (* the plain subquery *)
    apply bind_inv in Hfrom as (f & h6 & Hf & Hfrom).
    pose proof (selectFromTableFragment_heap _ _ _ _ _ _ Hf) as ->.
    assert (Hitems : subQueryItems = [f; Str.join "" (jq_subQuery joins)]
                     /\ mainQueryItems = [] /\ mainTableAs' = mainTableAs)
      by (unfold ret in Hfrom; repeat split; congruence).
    clear Hfrom. destruct Hitems as (-> & -> & ->).
    destruct Hitems2 as [Hsub2 ->]. destruct Hitems3 as [Hsub3 ->].
    apply bind_inv in Hquery as (attrs & h7 & Hattrs & Hquery).
    assert (Hquery' : query = "SELECT " +:+ attrs +:+ " FROM ("
                              +:+ Str.join "" sub3 +:+ ") AS "
                              +:+ nullStr mainTableAs
                              +:+ Str.join "" (jq_mainQuery joins)
                              +:+ Str.join "" [])
      by (unfold ret in Hquery; congruence).
    clear Hquery.
    exists attrs, f.
    split; [exact (joinVals_any_heap _ _ _ _ _ Hattrs h0)|].
    split; [exact Hf|].
    rewrite Hresult, Hlocked, Hquery', Hsub3, Hsub2.
    rewrite !join_cons. cbn [Str.join String.concat].
    rewrite !append_empty, !append_assoc. reflexivity.
  - (* the union *)
    apply bind_inv in Hfrom as (branches & h6 & Hbranches & Hfrom).
    apply bind_inv in Hfrom as (f & h7 & Hf & Hfrom).
    pose proof (selectFromTableFragment_heap _ _ _ _ _ _ Hf) as ->.
    assert (Hitems : mainQueryItems = [f; Str.join "" (jq_mainQuery joins)])
      by (unfold ret in Hfrom; congruence).
    clear Hfrom.
    destruct Hitems2 as [_ Hmain2]. destruct Hitems3 as [_ Hmain3].
    assert (Hquery' : query = Str.join "" main3)
      by (unfold ret in Hquery; congruence).
    clear Hquery.
    exists branches, h6, f.
    split; [exact Hbranches|]. split.
    + unfold unionSeparator, strOr.
      destruct mainTableAs as [a|]; cbn [nonEmpty] in Hf |- *; [|exact Hf].
      destruct (String.eqb a ""); exact Hf.
    + rewrite Hresult, Hlocked, Hquery', Hmain3, Hmain2, Hitems.
      rewrite !join_cons. cbn [Str.join String.concat].
      rewrite !append_empty, !append_assoc. reflexivity.
Qed.

Lemma groupedBranch_result this options gl model table where_ value
    (h1 h3 : heap) branch :
  groupedBranch this options gl model table where_ value h1 = Ret branch h3 ->
  exists w h2 inner o,
    groupedWhere where_ (gl_on gl) value h1 = Ret w h2
    /\ this_selectQuery this (TATable (TName table))
         (branchOptions options gl w) model h2 = Ret (inner, o) h3
    /\ branch = "(" +:+ Str.stripSemicolon inner +:+ ")".
Proof.
  unfold groupedBranch. intros Hb.
  apply bind_inv in Hb as (w & h2 & Hw & Hb).
  apply bind_inv in Hb as ([inner o] & h4 & Hinner & Hb).
  exists w, h2, inner, o. unfold ret in Hb.
  assert (h4 = h3) by congruence. subst h4.
  repeat split; [assumption..|congruence].
Qed.

Lemma endsWithSemicolon_append s : Str.endsWithSemicolon (s +:+ ";") = true.
Proof.
  induction s as [|c s IH]; [reflexivity|].
  cbn [String.append Str.endsWithSemicolon].
  destruct (s +:+ ";") eqn:Hs; [destruct s; discriminate | exact IH].
Qed.

Lemma dropLast_append s : Str.dropLast (s +:+ ";") = s.
Proof.
  induction s as [|c s IH]; [reflexivity|].
  cbn [String.append Str.dropLast].
  destruct (s +:+ ";") eqn:Hs; [destruct s; discriminate | now rewrite IH].
Qed.

Lemma stripSemicolon_append s : Str.stripSemicolon (s +:+ ";") = s.
Proof.
  unfold Str.stripSemicolon. now rewrite endsWithSemicolon_append, dropLast_append.
Qed.

Lemma groupedWhere_result where_ on value (h h1 : heap) w :
  groupedWhere where_ on value h = Ret w h1 ->
  exists conditions,
    conditionsAt where_ h = Some conditions
    /\ w = JRef (length h)
    /\ h1 = h ++ [Obj.set on value conditions].
Proof.
  unfold groupedWhere. intros Hrun.
  apply bind_inv in Hrun as (copy & h2 & Hcopy & Hrun).
  unfold Heap.alloc in Hrun. injection Hrun as <- <-.
  exists copy.
  assert (Hread : conditionsAt where_ h = Some copy /\ h2 = h).
  { unfold conditionsAt.
    destruct where_ as [w|]; [|unfold ret in Hcopy; now injection Hcopy as <- <-].
    destruct w; try discriminate;
      try (unfold ret in Hcopy; now injection Hcopy as <- <-).
    unfold Heap.read in Hcopy. destruct (h !! l); [|discriminate].
    now injection Hcopy as <- <-. }
  destruct Hread as [Hread ->]. repeat split. exact Hread.
Qed.

Lemma groupedBranches_chain fuel options gl model table where_ values :
  forall (h h' : heap) branches,
  mapM (groupedBranch (generator fuel) options gl model table where_) values h
  = Ret branches h' ->
  unionBranches fuel options gl model table where_ values branches h h'.
Proof.
  induction values as [|value values IH]; intros h h' branches; cbn [mapM].
  - unfold ret. intros [= <- <-]. reflexivity.
  - intros Hrun. apply bind_inv in Hrun as (branch & h1 & Hb & Hrun).
    apply bind_inv in Hrun as (rest & h2 & Hrest & Hrun).
    unfold ret in Hrun. injection Hrun as <- <-.
    apply groupedBranch_result in Hb as (w & h3 & inner & o & Hw & Hinner & ->).
    apply groupedWhere_result in Hw as (conditions & Hconditions & -> & ->).
    fold (selectQuery fuel) in Hinner.
    assert (Hbody : exists body, inner = body +:+ ";").
    { unfold selectQuery in Hinner. destruct fuel as [|fuel]; [discriminate|].
      cbn [generator this_selectQuery] in Hinner.
      apply selectQuery_result in Hinner as (body & ? & ? & ? & -> & _).
      now exists body. }
    destruct Hbody as (body & ->). rewrite stripSemicolon_append.
    cbn [unionBranches]. exists conditions, body, o, h1.
    repeat split; try assumption. exact (IH _ _ _ Hrest).
Qed.

Lemma selectStart_table fuel tableName options model (h h0 : heap)
    mainTableAs table joins st :
  selectStart fuel tableName options model h
  = Ret (mainTableAs, table, joins, st) h0 ->
  quotedAs tableName table.
Proof.
  unfold selectStart, selectPrelude. cbv zeta. intros Hrun.
  apply bind_inv in Hrun as (mainTableAs0 & h1 & _ & Hrun).
  apply bind_inv in Hrun as (table0 & h2 & Htable & Hrun).
  apply bind_inv in Hrun as (mainAttributes & h3 & _ & Hrun).
  apply bind_inv in Hrun as ([joins0 st0] & h4 & _ & Hrun).
  unfold ret in Hrun. injection Hrun as _ <- _ _ _. clear -Htable.
  unfold quotedAs. destruct tableName as [|t|lit|l]; try discriminate.
  - unfold ofOption in Htable. destruct (quoteTable t AsNone); [|discriminate].
    unfold ret in Htable. congruence.
  - apply bind_inv in Htable as (parts & h3 & Hparts & Htable).
    exists parts. split; [|unfold ret in Htable; congruence].
    apply mapM_inv in Hparts.
    eapply Forall2_impl; [exact Hparts|]. cbn beta.
    intros t part (ha & hb & Hpart).
    destruct t as [t0|t0 t1]; unfold ofOption in Hpart;
      destruct (quoteTable _ _); try discriminate;
      unfold ret in Hpart; congruence.
Qed.

Lemma selectStart_where fuel tableName options model (h h0 : heap)
    mainTableAs table joins st :
  subQueryActive options = false ->
  selectStart fuel tableName options model h
  = Ret (mainTableAs, table, joins, st) h0 ->
  js_where st = s_where options.
Proof.
  intros Hsub Hrun.
  pose proof (frames_selectPrelude [] (generator fuel) (generator_pres [] fuel)
                (generator_frames [] fuel) fuel tableName options model
                (or_introl Hsub) h (kept_nil h)) as Hframes.
  unfold selectStart in Hrun. rewrite Hrun in Hframes.
  destruct Hframes as [_ Hwhere]. exact (Hwhere Hsub).
Qed.


End GroupedProperties.



(** C6, at the failing input: the primary key [x] counts as selected
    because the attribute name [xlabel] starts with the letter x, and the
    subquery reads no primary key. *)
Theorem selectQuery_primaryKey_first_letter :
  mentionsKey "x" (JStr "xlabel") [] = Ret true []
  /\ addPrimaryKeys Examples.points [JStr "xlabel"] [] = Ret [JStr "xlabel"] []
  /\ selectQuery (E := TestDialect.env) 6 (TATable (TName "points"))
       (Examples.selectAttributes [JStr "xlabel"]) (Some Examples.points) []
     = Ret ("SELECT [points].* FROM (SELECT [xlabel] FROM [points] AS [points]) AS [points];",
            Examples.selectAttributes [JStr "xlabel"])
           [].
Proof. repeat split; vm_compute; reflexivity. Qed.

(* ================================================================= *)
(** ** Strings without a statement terminator *)

(** [cleanb] on strings, as the function that computes it and back. *)
Ltac expose := change (@cleanb string Clean_string) with cleanS in *.
Ltac hide := change cleanS with (@cleanb string Clean_string) in *.

Lemma cleanS_append a b : cleanb (a +:+ b) = cleanb a && cleanb b.
Proof.
  expose.
  induction a as [|c a IH]; cbn [String.append cleanS]; [reflexivity|].
  now rewrite IH, andb_assoc.
Qed.

Lemma cleanS_count s : cleanb s = true <-> Str.count ";"%char s = 0.
Proof.
  expose.
  induction s as [|c s IH]; cbn [cleanS Str.count]; [easy|].
  rewrite andb_true_iff, IH, Ascii.eqb_sym.
  destruct (Ascii.eqb ";" c); cbn; split; try lia; intros [? ?]; try easy; lia.
Qed.

Lemma forallb_Forall {A} (p : A -> bool) l :
  forallb p l = true <-> Forall (fun a => p a = true) l.
Proof.
  expose.
  rewrite forallb_forall, List.Forall_forall. reflexivity.
Qed.

Lemma clean_list_In {A} `{Clean A} (l : list A) a :
  cleanb l = true -> In a l -> cleanb a = true.
Proof. expose. intros Hl. now apply forallb_forall. Qed.

Lemma clean_cons {A} `{Clean A} (a : A) l :
  cleanb (a :: l) = cleanb a && cleanb l.
Proof. expose. reflexivity. Qed.

Lemma clean_app {A} `{Clean A} (l1 l2 : list A) :
  cleanb (l1 ++ l2) = cleanb l1 && cleanb l2.
Proof. expose. apply forallb_app. Qed.

Lemma clean_join sep l :
  cleanb sep = true -> cleanb l = true -> cleanb (Str.join sep l) = true.
Proof.
  expose.
  intros Hsep. unfold Str.join.
  induction l as [|x l IH]; [reflexivity|]. rewrite clean_cons, andb_true_iff.
  intros [Hx Hl]. cbn [String.concat].
  destruct l as [|y l]; [exact Hx|]. hide.
  rewrite !cleanS_append, Hx, Hsep. now apply IH.
Qed.

Lemma clean_split_go sep skip cur s :
  cleanb cur = true -> cleanb s = true ->
  cleanb (Str.split_go sep skip cur s) = true.
Proof.
  expose.
  revert skip cur. induction s as [|c s IH]; intros skip cur Hcur Hs;
    cbn [Str.split_go].
  - rewrite clean_cons. hide. now rewrite Hcur.
  - cbn [cleanS] in Hs. apply andb_true_iff in Hs as [Hc Hs].
    destruct skip as [|k]; [|now apply IH].
    destruct (String.prefix sep (String c s)).
    + rewrite clean_cons. hide. rewrite Hcur. now apply IH.
    + apply IH; [|assumption]. hide. rewrite cleanS_append, Hcur. cbn. now rewrite Hc.
Qed.

Lemma clean_split sep s : cleanb s = true -> cleanb (Str.split sep s) = true.
Proof. expose. intros Hs. now apply clean_split_go. Qed.

Lemma upper_ascii_clean c :
  Ascii.eqb c ";" = false -> Ascii.eqb (Str.upper_ascii c) ";" = false.
Proof.
  expose.
  destruct c as [[] [] [] [] [] [] [] []]; intros H; try discriminate H;
    vm_compute; reflexivity.
Qed.

Lemma clean_toUpperCase s : cleanb s = true -> cleanb (Str.toUpperCase s) = true.
Proof.
  expose.
  induction s as [|c s IH]; [easy|]. cbn [cleanS Str.toUpperCase].
  rewrite !andb_true_iff, !negb_true_iff. intros [Hc Hs].
  split; [now apply upper_ascii_clean | auto].
Qed.

Lemma clean_substring n m s :
  cleanb s = true -> cleanb (String.substring n m s) = true.
Proof.
  expose.
  revert n m. induction s as [|c s IH]; intros n m Hs.
  - destruct n, m; reflexivity.
  - cbn [cleanS] in Hs. apply andb_true_iff in Hs as [Hc Hs].
    destruct n as [|n]; cbn [String.substring].
    + destruct m as [|m]; [reflexivity|]. cbn [cleanS]. rewrite Hc. now apply IH.
    + now apply IH.
Qed.

Lemma clean_stripDelimiters s :
  cleanb s = true -> cleanb (Str.stripDelimiters s) = true.
Proof. expose. apply clean_substring. Qed.

Lemma clean_get i s c :
  cleanb s = true -> String.get i s = Some c ->
  cleanb (String c EmptyString) = true.
Proof.
  expose.
  revert i. induction s as [|d s IH]; intros i Hs; [destruct i; discriminate|].
  cbn [cleanS] in Hs. apply andb_true_iff in Hs as [Hd Hs].
  destruct i as [|i]; cbn [String.get].
  - intros [= <-]. cbn. now rewrite Hd.
  - now apply IH.
Qed.

Lemma clean_string_of_uint_digits d :
  cleanb (NilEmpty.string_of_uint d) = true.
Proof. expose. induction d; simpl; auto. Qed.

Lemma clean_string_of_uint d : cleanb (NilZero.string_of_uint d) = true.
Proof. destruct d; try reflexivity; apply clean_string_of_uint_digits. Qed.

Lemma clean_string_of_Z n : cleanb (Str.string_of_Z n) = true.
Proof.
  expose.
  unfold Str.string_of_Z, NilZero.string_of_int.
  destruct (Z.to_int n); [|cbn [cleanS]; cbn]; apply clean_string_of_uint.
Qed.

Lemma clean_dropLast s : cleanb s = true -> cleanb (Str.dropLast s) = true.
Proof.
  expose.
  induction s as [|c s IH]; [easy|]. cbn [cleanS Str.dropLast].
  rewrite andb_true_iff. intros [Hc Hs]. destruct s; [reflexivity|].
  cbn [cleanS] in *. rewrite Hc. now apply IH.
Qed.

Lemma clean_strOr a b :
  cleanb a = true -> cleanb b = true -> cleanb (strOr a b) = true.
Proof. expose. destruct a as [s|]; cbn; [destruct (String.eqb s "")|]; auto. Qed.

Lemma clean_nullStr o : cleanb o = true -> cleanb (nullStr o) = true.
Proof. expose. now destruct o. Qed.

Lemma clean_nonEmpty o : cleanb o = true -> cleanb (nonEmpty o) = true.
Proof. expose. destruct o as [s|]; cbn; [destruct (String.eqb s "")|]; auto. Qed.

Lemma clean_orElse {A} `{Clean A} (a b : option A) :
  cleanb a = true -> cleanb b = true -> cleanb (orElse a b) = true.
Proof. expose. now destruct a. Qed.

Lemma clean_nth {A} `{Clean A} i (l : list A) d :
  cleanb l = true -> cleanb d = true -> cleanb (nth i l d) = true.
Proof.
  expose.
  intros Hl Hd. destruct (nth_in_or_default i l d) as [Hin| ->]; [|exact Hd].
  exact (clean_list_In l _ Hl Hin).
Qed.

Lemma clean_last {A} `{Clean A} (l : list A) d :
  cleanb l = true -> cleanb d = true -> cleanb (List.last l d) = true.
Proof.
  expose.
  intros Hl Hd. induction l as [|a l IH]; [exact Hd|].
  rewrite clean_cons in Hl. apply andb_true_iff in Hl as [Ha Hl].
  destruct l; [exact Ha | now apply IH].
Qed.

Lemma clean_removelast {A} `{Clean A} (l : list A) :
  cleanb l = true -> cleanb (removelast l) = true.
Proof.
  expose.
  induction l as [|a l IH]; [easy|]. rewrite clean_cons, andb_true_iff.
  intros [Ha Hl]. cbn [removelast]. destruct l; [reflexivity|].
  rewrite clean_cons, Ha. now apply IH.
Qed.

Lemma clean_firstn {A} `{Clean A} n (l : list A) :
  cleanb l = true -> cleanb (firstn n l) = true.
Proof.
  expose.
  revert n. induction l as [|a l IH]; intros [|n]; try easy.
  rewrite clean_cons, andb_true_iff. intros [Ha Hl]. cbn [firstn].
  rewrite clean_cons, Ha. now apply IH.
Qed.

Lemma clean_hd {A} `{Clean A} (l : list A) d :
  cleanb l = true -> cleanb d = true -> cleanb (hd d l) = true.
Proof.
  expose.
  destruct l; [easy|]. rewrite clean_cons, andb_true_iff. now intros [? ?].
Qed.

Lemma clean_tl {A} `{Clean A} (l : list A) :
  cleanb l = true -> cleanb (tl l) = true.
Proof.
  expose.
  destruct l; [easy|]. rewrite clean_cons, andb_true_iff. now intros [? ?].
Qed.

Lemma clean_map {A B} `{Clean A} `{Clean B} (f : A -> B) (l : list A) :
  (forall a, cleanb a = true -> cleanb (f a) = true) ->
  cleanb l = true -> cleanb (map f l) = true.
Proof.
  expose.
  intros Hf. induction l as [|a l IH]; [easy|]. cbn [map].
  rewrite !clean_cons, !andb_true_iff. intros [Ha Hl]. auto.
Qed.

Lemma clean_filter {A} `{Clean A} (p : A -> bool) (l : list A) :
  cleanb l = true -> cleanb (List.filter p l) = true.
Proof.
  expose.
  induction l as [|a l IH]; [easy|]. rewrite clean_cons, andb_true_iff.
  intros [Ha Hl]. cbn [List.filter]. destruct (p a); [rewrite clean_cons, Ha|]; auto.
Qed.

Lemma clean_assoc {A} `{Clean A} k (l : list (string * A)) :
  cleanb l = true -> cleanb (assoc k l) = true.
Proof.
  expose.
  induction l as [|[k' v] l IH]; [easy|]. rewrite clean_cons, andb_true_iff.
  intros [Hkv Hl]. cbn [assoc]. destruct (String.eqb k k'); [|auto].
  apply andb_true_iff in Hkv as [_ Hv]. exact Hv.
Qed.

(* ================================================================= *)
(** ** Values and stores without a statement terminator *)

(** Induction on values that reaches the elements of an array. *)
Lemma jsval_elements_ind (P : jsval -> Prop) :
  (forall v, (forall items, v = JArr items -> Forall P items) -> P v) ->
  forall v, P v.
Proof.
  intros Hstep. fix IH 1. intros v. apply Hstep.
  destruct v; intros items' Heq; try discriminate Heq.
  injection Heq as <-.
  induction items as [|x items IHitems]; constructor; [apply IH | exact IHitems].
Qed.

Lemma clean_JArr items : cleanb (JArr items) = cleanb items.
Proof. reflexivity. Qed.

Lemma clean_toElement_of_toStr v :
  (forall s, toStr v = Some s -> cleanb s = true) ->
  forall s, toElement v = Some s -> cleanb s = true.
Proof.
  intros Hv s. destruct v; cbn [toElement]; try apply Hv; now intros [= <-].
Qed.

Lemma clean_toStr v s : cleanb v = true -> toStr v = Some s -> cleanb s = true.
Proof.
  revert s. induction v as [v IH] using jsval_elements_ind. intros s Hv.
  destruct v; cbn [toStr]; try (intros [= <-]; try reflexivity; exact Hv);
    try discriminate.
  - destruct b; intros [= <-]; reflexivity.
  - intros [= <-]. apply clean_string_of_Z.
  - specialize (IH items eq_refl). rewrite clean_JArr in Hv. revert s.
    induction IH as [|x items Hx _ IHitems]; intros s; [now intros [= <-]|].
    rewrite clean_cons in Hv. apply andb_true_iff in Hv as [Hcx Hitems].
    assert (Hel : forall e, match x with
                            | JUndefined | JNull => Some ""
                            | _ => toStr x
                            end = Some e -> cleanb e = true).
    { intros e. apply (clean_toElement_of_toStr x); auto. }
    destruct items as [|y items]; [apply Hel|].
    destruct (match x with JUndefined | JNull => Some "" | _ => toStr x end)
      as [a|]; [|discriminate].
    specialize (IHitems Hitems).
    match goal with
    | |- match ?g with _ => _ end = _ -> _ => destruct g as [b|]
    end; [|discriminate].
    intros Hs. assert (Hshape : s = a +:+ "," +:+ b) by congruence.
    rewrite Hshape, !cleanS_append, (Hel a eq_refl), (IHitems b eq_refl).
    reflexivity.
Qed.

Lemma clean_toElement v s :
  cleanb v = true -> toElement v = Some s -> cleanb s = true.
Proof.
  intros Hv. apply clean_toElement_of_toStr. intros s'. now apply clean_toStr.
Qed.

Lemma clean_Obj_get k (o : object) : cleanb o = true -> cleanb (Obj.get k o) = true.
Proof.
  intros Ho. unfold Obj.get. pose proof (clean_assoc k o Ho) as Hk.
  now destruct (assoc k o).
Qed.

Lemma clean_Obj_set k v (o : object) :
  cleanb k = true -> cleanb v = true -> cleanb o = true ->
  cleanb (Obj.set k v o) = true.
Proof.
  intros Hk Hv. induction o as [|[k' v'] o IH]; cbn [Obj.set].
  - intros _. rewrite clean_cons. unfold cleanb at 1, Clean_prod. cbn [fst snd].
    now rewrite Hk, Hv.
  - rewrite clean_cons, andb_true_iff. intros [Hkv Ho].
    destruct (String.eqb k k'); rewrite clean_cons.
    + unfold cleanb at 1, Clean_prod. cbn [fst snd]. now rewrite Hk, Hv.
    + rewrite Hkv. now apply IH.
Qed.

Lemma clean_Obj_del k (o : object) :
  cleanb o = true -> cleanb (Obj.del k o) = true.
Proof.
  induction o as [|[k' v'] o IH]; [easy|]. cbn [Obj.del].
  rewrite clean_cons, andb_true_iff. intros [Hkv Ho].
  destruct (String.eqb k k'); [exact Ho|]. rewrite clean_cons, Hkv. now apply IH.
Qed.

Lemma clean_Obj_keys (o : object) : cleanb o = true -> cleanb (Obj.keys o) = true.
Proof.
  unfold Obj.keys. induction o as [|[k v] o IH]; [easy|]. cbn [map fst].
  rewrite !clean_cons, !andb_true_iff. intros [Hkv Ho].
  apply andb_true_iff in Hkv as [Hk _]. auto.
Qed.

Lemma clean_lookup (h : heap) (l : loc) (o : object) :
  cleanb h = true -> h !! l = Some o -> cleanb o = true.
Proof.
  intros Hh Hl. apply (clean_list_In h o Hh).
  apply list_elem_of_In. eapply list_elem_of_lookup_2. exact Hl.
Qed.

Lemma clean_insert (h : heap) (l : loc) (o : object) :
  cleanb h = true -> cleanb o = true -> cleanb (<[l := o]> h) = true.
Proof.
  revert l. induction h as [|o' h IH]; intros l; [easy|].
  rewrite clean_cons, andb_true_iff. intros [Ho' Hh] Ho.
  destruct l as [|l]; cbn [insert list_insert]; rewrite clean_cons.
  - now rewrite Ho, Hh.
  - rewrite Ho'. now apply IH.
Qed.

(* ================================================================= *)
(** ** Computations that add no statement terminator *)

Lemma clean_pair {A B} `{Clean A} `{Clean B} (a : A) (b : B) :
  cleanb (a, b) = cleanb a && cleanb b.
Proof. reflexivity. Qed.

Lemma clean_Some {A} `{Clean A} (a : A) : cleanb (Some a) = cleanb a.
Proof. reflexivity. Qed.

Lemma clean_JStr s : cleanb (JStr s) = cleanb s.
Proof. reflexivity. Qed.

Lemma clean_JLiteral s : cleanb (JLiteral s) = cleanb s.
Proof. reflexivity. Qed.

Lemma clean_JCustom s : cleanb (JCustom s) = cleanb s.
Proof. reflexivity. Qed.

Lemma clean_JBuffer s : cleanb (JBuffer s) = cleanb s.
Proof. reflexivity. Qed.

Lemma clean_JFn fn args : cleanb (JFn fn args) = cleanb fn && cleanb args.
Proof. reflexivity. Qed.

Lemma clean_JCast val type : cleanb (JCast val type) = cleanb val && cleanb type.
Proof. reflexivity. Qed.

Lemma clean_JCol col : cleanb (JCol col) = cleanb col.
Proof. reflexivity. Qed.

Lemma clean_JWhere a c l :
  cleanb (JWhere a c l) = cleanb a && cleanb c && cleanb l.
Proof. reflexivity. Qed.

Lemma clean_JModelAttr m f n :
  cleanb (JModelAttr m f n) = cleanb m && cleanb f && cleanb n.
Proof. reflexivity. Qed.

Lemma clean_JModel m : cleanb (JModel m) = cleanb m.
Proof. reflexivity. Qed.

Lemma clean_TName n : cleanb (TName n) = cleanb n.
Proof. reflexivity. Qed.

Lemma clean_TObj t : cleanb (TObj t) = cleanb t.
Proof. reflexivity. Qed.

Lemma clean_PLiteral v : cleanb (PLiteral v) = cleanb v.
Proof. reflexivity. Qed.

Lemma clean_PTable t : cleanb (PTable t) = cleanb t.
Proof. reflexivity. Qed.

Lemma clean_TATable t : cleanb (TATable t) = cleanb t.
Proof. reflexivity. Qed.

Lemma clean_TALiteral v : cleanb (TALiteral v) = cleanb v.
Proof. reflexivity. Qed.

Lemma clean_TAList l : cleanb (TAList l) = cleanb l.
Proof. reflexivity. Qed.

Lemma clean_TEOne t : cleanb (TEOne t) = cleanb t.
Proof. reflexivity. Qed.

Lemma clean_TEPair t a : cleanb (TEPair t a) = cleanb t && cleanb a.
Proof. reflexivity. Qed.

Lemma clean_AsName n : cleanb (AsName n) = cleanb n.
Proof. reflexivity. Qed.

Lemma clean_LockLevel l : cleanb (LockLevel l) = cleanb l.
Proof. reflexivity. Qed.

Lemma clean_LockObj l o : cleanb (LockObj l o) = cleanb l && cleanb o.
Proof. reflexivity. Qed.

Lemma clean_Own v : cleanb (Own v) = cleanb v.
Proof. reflexivity. Qed.

Lemma clean_Early r : cleanb (Early r) = cleanb r.
Proof. reflexivity. Qed.

Lemma clean_Compiled c v : cleanb (Compiled c v) = cleanb c && cleanb v.
Proof. reflexivity. Qed.

Lemma clean_mkWalk i t p a d :
  cleanb (mkWalk i t p a d) = cleanb t && cleanb p && cleanb a.
Proof. reflexivity. Qed.

Lemma clean_mkCmp c v l e : cleanb (mkCmp c v l e) = cleanb c && cleanb v.
Proof. reflexivity. Qed.

Lemma clean_mkJoinState m s w :
  cleanb (mkJoinState m s w) = cleanb m && cleanb s && cleanb w.
Proof. reflexivity. Qed.

Lemma clean_mkJoinQueries m s :
  cleanb (mkJoinQueries m s) = cleanb m && cleanb s.
Proof. reflexivity. Qed.

Lemma clean_mkWhereOptions f m t p j :
  cleanb (mkWhereOptions f m t p j) = cleanb f && cleanb m && cleanb p.
Proof. reflexivity. Qed.

Lemma clean_mkSelectOptions a w o g hv l off hm sq ta i ig m gl lk :
  cleanb (mkSelectOptions a w o g hv l off hm sq ta i ig m gl lk)
  = cleanb a && cleanb w && cleanb o && cleanb g && cleanb hv && cleanb l
    && cleanb off && cleanb ta && cleanb i && cleanb m && cleanb gl
    && cleanb lk.
Proof. reflexivity. Qed.

Lemma cleanInclude_unfold (i : Include) :
  cleanb i
  = cleanb (i_association i) && cleanb (i_model i) && cleanb (i_as i)
    && cleanb (i_attributes i) && cleanb (i_where i) && cleanb (i_on i)
    && cleanb (i_through i) && cleanb (i_parent i) && cleanb (i_root i)
    && cleanb (i_include i).
Proof. destruct i as [? ? ? ? ? ? ? ? ? ? ? ? ? [p|] ? [c|]]; reflexivity. Qed.

Create Rewrite HintDb cleanR.

#[export] Hint Rewrite @clean_pair @clean_Some @clean_cons @clean_app
  cleanS_append clean_JStr clean_JLiteral clean_JCustom clean_JBuffer clean_JFn
  clean_JCast clean_JCol clean_JWhere clean_JModelAttr clean_JModel clean_JArr
  clean_TName clean_TObj clean_PLiteral clean_PTable clean_TATable
  clean_TALiteral clean_TAList clean_TEOne clean_TEPair clean_AsName
  clean_LockLevel clean_LockObj clean_Own clean_Early clean_Compiled clean_mkWalk
  clean_mkCmp clean_mkJoinState clean_mkJoinQueries clean_mkWhereOptions
  clean_mkSelectOptions andb_true_iff andb_true_r andb_true_l : cleanR.

Create HintDb clean discriminated.

Lemma clean_append_intro (a b : string) :
  cleanb a = true -> cleanb b = true -> cleanb (a +:+ b) = true.
Proof. intros Ha Hb. now rewrite cleanS_append, Ha, Hb. Qed.

Lemma clean_JStr_intro s : cleanb s = true -> cleanb (JStr s) = true.
Proof. now rewrite clean_JStr. Qed.

Lemma clean_JLiteral_intro s : cleanb s = true -> cleanb (JLiteral s) = true.
Proof. now rewrite clean_JLiteral. Qed.

Lemma clean_JArr_intro (l : list jsval) :
  cleanb l = true -> cleanb (JArr l) = true.
Proof. now rewrite clean_JArr. Qed.

Lemma clean_Some_intro {A} `{Clean A} (a : A) :
  cleanb a = true -> cleanb (Some a) = true.
Proof. now rewrite clean_Some. Qed.

Lemma clean_pair_intro {A B} `{Clean A} `{Clean B} (a : A) (b : B) :
  cleanb a = true -> cleanb b = true -> cleanb (a, b) = true.
Proof. intros Ha Hb. now rewrite clean_pair, Ha, Hb. Qed.

Lemma clean_cons_intro {A} `{Clean A} (a : A) (l : list A) :
  cleanb a = true -> cleanb l = true -> cleanb (a :: l) = true.
Proof. intros Ha Hl. now rewrite clean_cons, Ha, Hl. Qed.

Lemma clean_app_intro {A} `{Clean A} (l1 l2 : list A) :
  cleanb l1 = true -> cleanb l2 = true -> cleanb (l1 ++ l2) = true.
Proof. intros H1 H2. now rewrite clean_app, H1, H2. Qed.

Lemma clean_TName_intro n : cleanb n = true -> cleanb (TName n) = true.
Proof. now rewrite clean_TName. Qed.

Lemma clean_JFn_intro fn (args : list jsval) :
  cleanb fn = true -> cleanb args = true -> cleanb (JFn fn args) = true.
Proof. intros Hf Ha. now rewrite clean_JFn, Hf, Ha. Qed.

Lemma clean_JCast_intro val type :
  cleanb val = true -> cleanb type = true -> cleanb (JCast val type) = true.
Proof. intros Hv Ht. now rewrite clean_JCast, Hv, Ht. Qed.

Lemma clean_JCol_intro col : cleanb col = true -> cleanb (JCol col) = true.
Proof. now rewrite clean_JCol. Qed.

Lemma clean_JWhere_intro a c l :
  cleanb a = true -> cleanb c = true -> cleanb l = true ->
  cleanb (JWhere a c l) = true.
Proof. intros Ha Hc Hl. now rewrite clean_JWhere, Ha, Hc, Hl. Qed.

Lemma clean_JCustom_intro s : cleanb s = true -> cleanb (JCustom s) = true.
Proof. now rewrite clean_JCustom. Qed.

Lemma clean_JBuffer_intro s : cleanb s = true -> cleanb (JBuffer s) = true.
Proof. now rewrite clean_JBuffer. Qed.

Lemma clean_JModelAttr_intro m (f : option string) n :
  cleanb m = true -> cleanb f = true -> cleanb n = true ->
  cleanb (JModelAttr m f n) = true.
Proof. intros Hm Hf Hn. now rewrite clean_JModelAttr, Hm, Hf, Hn. Qed.

Lemma clean_JModel_intro m : cleanb m = true -> cleanb (JModel m) = true.
Proof. now rewrite clean_JModel. Qed.

Lemma clean_TObj_intro t : cleanb t = true -> cleanb (TObj t) = true.
Proof. now rewrite clean_TObj. Qed.

Lemma clean_PLiteral_intro v : cleanb v = true -> cleanb (PLiteral v) = true.
Proof. now rewrite clean_PLiteral. Qed.

Lemma clean_PTable_intro t : cleanb t = true -> cleanb (PTable t) = true.
Proof. now rewrite clean_PTable. Qed.

Lemma clean_TATable_intro t : cleanb t = true -> cleanb (TATable t) = true.
Proof. now rewrite clean_TATable. Qed.

Lemma clean_TALiteral_intro v : cleanb v = true -> cleanb (TALiteral v) = true.
Proof. now rewrite clean_TALiteral. Qed.

Lemma clean_TAList_intro (l : list TableElem) :
  cleanb l = true -> cleanb (TAList l) = true.
Proof. now rewrite clean_TAList. Qed.

Lemma clean_AsName_intro n : cleanb n = true -> cleanb (AsName n) = true.
Proof. now rewrite clean_AsName. Qed.

Lemma clean_mkWhereOptions_intro f m t p j :
  cleanb f = true -> cleanb m = true -> cleanb p = true ->
  cleanb (mkWhereOptions f m t p j) = true.
Proof. intros Hf Hm Hp. now rewrite clean_mkWhereOptions, Hf, Hm, Hp. Qed.

#[export] Hint Resolve clean_JFn_intro clean_JCast_intro clean_JCol_intro
  clean_JWhere_intro clean_JCustom_intro clean_JBuffer_intro
  clean_JModelAttr_intro clean_JModel_intro clean_TObj_intro
  clean_PLiteral_intro clean_PTable_intro clean_TATable_intro
  clean_TALiteral_intro clean_TAList_intro clean_AsName_intro
  clean_mkWhereOptions_intro : clean.

Lemma clean_if {A} `{Clean A} (c : bool) (a b : A) :
  cleanb a = true -> cleanb b = true -> cleanb (if c then a else b) = true.
Proof. now destruct c. Qed.

#[export] Hint Resolve clean_if clean_append_intro clean_JStr_intro
  clean_JLiteral_intro clean_JArr_intro clean_Some_intro clean_pair_intro
  clean_cons_intro clean_app_intro clean_TName_intro : clean.

#[export] Hint Resolve clean_join clean_split clean_toUpperCase
  clean_stripDelimiters clean_substring clean_string_of_Z clean_dropLast
  clean_strOr clean_nullStr clean_nonEmpty clean_nth clean_last
  clean_removelast clean_firstn clean_hd clean_tl clean_filter clean_assoc
  clean_Obj_get clean_Obj_set clean_Obj_del clean_Obj_keys clean_orElse
  : clean.

Lemma clean_DataType_option (o : option DataType) : cleanb o = true.
Proof. now destruct o. Qed.

#[export] Hint Resolve clean_DataType_option : clean.

Lemma clean_map_strings (f : string -> string) (l : list string) :
  (forall a, cleanb a = true -> cleanb (f a) = true) ->
  cleanb l = true -> cleanb (map f l) = true.
Proof. apply clean_map. Qed.

#[export] Hint Resolve clean_map_strings : clean.

#[export] Hint Extern 1 (cleanb _ = true) => reflexivity : clean.

(** The fields of a record without semicolons have none. *)
Ltac field_of inst :=
  let H := fresh in
  intros H; unfold cleanb at 1 in H; unfold inst in H;
  rewrite ?andb_true_iff in H; decompose [and] H; assumption.

Lemma clean_w_tableNames (x : walk) :
  cleanb x = true -> cleanb (w_tableNames x) = true.
Proof. field_of Clean_walk. Qed.

Lemma clean_w_parent (x : walk) :
  cleanb x = true -> cleanb (w_parent x) = true.
Proof. field_of Clean_walk. Qed.

Lemma clean_w_parentAssociation (x : walk) :
  cleanb x = true -> cleanb (w_parentAssociation x) = true.
Proof. field_of Clean_walk. Qed.

Lemma clean_c_comparator (x : cmpState) :
  cleanb x = true -> cleanb (c_comparator x) = true.
Proof. field_of Clean_cmpState. Qed.

Lemma clean_c_value (x : cmpState) :
  cleanb x = true -> cleanb (c_value x) = true.
Proof. field_of Clean_cmpState. Qed.

Lemma clean_js_mainAttributes (x : joinState) :
  cleanb x = true -> cleanb (js_mainAttributes x) = true.
Proof. field_of Clean_joinState. Qed.

Lemma clean_js_subQueryAttributes (x : joinState) :
  cleanb x = true -> cleanb (js_subQueryAttributes x) = true.
Proof. field_of Clean_joinState. Qed.

Lemma clean_js_where (x : joinState) :
  cleanb x = true -> cleanb (js_where x) = true.
Proof. field_of Clean_joinState. Qed.

Lemma clean_jq_mainQuery (x : joinQueries) :
  cleanb x = true -> cleanb (jq_mainQuery x) = true.
Proof. field_of Clean_joinQueries. Qed.

Lemma clean_jq_subQuery (x : joinQueries) :
  cleanb x = true -> cleanb (jq_subQuery x) = true.
Proof. field_of Clean_joinQueries. Qed.

Lemma clean_o_field (x : WhereOptions) :
  cleanb x = true -> cleanb (o_field x) = true.
Proof. field_of Clean_WhereOptions. Qed.

Lemma clean_o_model (x : WhereOptions) :
  cleanb x = true -> cleanb (o_model x) = true.
Proof. field_of Clean_WhereOptions. Qed.

Lemma clean_o_prefix (x : WhereOptions) :
  cleanb x = true -> cleanb (o_prefix x) = true.
Proof. field_of Clean_WhereOptions. Qed.

Lemma clean_s_attributes (x : SelectOptions) :
  cleanb x = true -> cleanb (s_attributes x) = true.
Proof. field_of Clean_SelectOptions. Qed.

Lemma clean_s_where (x : SelectOptions) :
  cleanb x = true -> cleanb (s_where x) = true.
Proof. field_of Clean_SelectOptions. Qed.

Lemma clean_s_order (x : SelectOptions) :
  cleanb x = true -> cleanb (s_order x) = true.
Proof. field_of Clean_SelectOptions. Qed.

Lemma clean_s_group (x : SelectOptions) :
  cleanb x = true -> cleanb (s_group x) = true.
Proof. field_of Clean_SelectOptions. Qed.

Lemma clean_s_having (x : SelectOptions) :
  cleanb x = true -> cleanb (s_having x) = true.
Proof. field_of Clean_SelectOptions. Qed.

Lemma clean_s_limit (x : SelectOptions) :
  cleanb x = true -> cleanb (s_limit x) = true.
Proof. field_of Clean_SelectOptions. Qed.

Lemma clean_s_offset (x : SelectOptions) :
  cleanb x = true -> cleanb (s_offset x) = true.
Proof. field_of Clean_SelectOptions. Qed.

Lemma clean_s_tableAs (x : SelectOptions) :
  cleanb x = true -> cleanb (s_tableAs x) = true.
Proof. field_of Clean_SelectOptions. Qed.

Lemma clean_s_include (x : SelectOptions) :
  cleanb x = true -> cleanb (s_include x) = true.
Proof. field_of Clean_SelectOptions. Qed.

Lemma clean_s_model (x : SelectOptions) :
  cleanb x = true -> cleanb (s_model x) = true.
Proof. field_of Clean_SelectOptions. Qed.

Lemma clean_s_groupedLimit (x : SelectOptions) :
  cleanb x = true -> cleanb (s_groupedLimit x) = true.
Proof. field_of Clean_SelectOptions. Qed.

Lemma clean_s_lock (x : SelectOptions) :
  cleanb x = true -> cleanb (s_lock x) = true.
Proof. field_of Clean_SelectOptions. Qed.

Lemma clean_m_name (x : ModelMeta) :
  cleanb x = true -> cleanb (m_name x) = true.
Proof. field_of Clean_ModelMeta. Qed.

Lemma clean_m_tableName (x : ModelMeta) :
  cleanb x = true -> cleanb (m_tableName x) = true.
Proof. field_of Clean_ModelMeta. Qed.

Lemma clean_m_getTableName (x : ModelMeta) :
  cleanb x = true -> cleanb (m_getTableName x) = true.
Proof. field_of Clean_ModelMeta. Qed.

Lemma clean_m_primaryKeyAttributes (x : ModelMeta) :
  cleanb x = true -> cleanb (m_primaryKeyAttributes x) = true.
Proof. field_of Clean_ModelMeta. Qed.

Lemma clean_m_primaryKeyAttribute (x : ModelMeta) :
  cleanb x = true -> cleanb (m_primaryKeyAttribute x) = true.
Proof. field_of Clean_ModelMeta. Qed.

Lemma clean_m_primaryKeyField (x : ModelMeta) :
  cleanb x = true -> cleanb (m_primaryKeyField x) = true.
Proof. field_of Clean_ModelMeta. Qed.

Lemma clean_m_primaryKeys (x : ModelMeta) :
  cleanb x = true -> cleanb (m_primaryKeys x) = true.
Proof. field_of Clean_ModelMeta. Qed.

Lemma clean_m_rawAttributes (x : ModelMeta) :
  cleanb x = true -> cleanb (m_rawAttributes x) = true.
Proof. field_of Clean_ModelMeta. Qed.

Lemma clean_m_fieldRawAttributesMap (x : ModelMeta) :
  cleanb x = true -> cleanb (m_fieldRawAttributesMap x) = true.
Proof. field_of Clean_ModelMeta. Qed.

Lemma clean_a_field (x : Attribute) :
  cleanb x = true -> cleanb (a_field x) = true.
Proof. field_of Clean_Attribute. Qed.

Lemma clean_as_source (x : Association) :
  cleanb x = true -> cleanb (as_source x) = true.
Proof. field_of Clean_Association. Qed.

Lemma clean_as_target (x : Association) :
  cleanb x = true -> cleanb (as_target x) = true.
Proof. field_of Clean_Association. Qed.

Lemma clean_as_as (x : Association) :
  cleanb x = true -> cleanb (as_as x) = true.
Proof. field_of Clean_Association. Qed.

Lemma clean_as_identifier (x : Association) :
  cleanb x = true -> cleanb (as_identifier x) = true.
Proof. field_of Clean_Association. Qed.

Lemma clean_as_identifierField (x : Association) :
  cleanb x = true -> cleanb (as_identifierField x) = true.
Proof. field_of Clean_Association. Qed.

Lemma clean_as_foreignIdentifierField (x : Association) :
  cleanb x = true -> cleanb (as_foreignIdentifierField x) = true.
Proof. field_of Clean_Association. Qed.

Lemma clean_as_targetIdentifier (x : Association) :
  cleanb x = true -> cleanb (as_targetIdentifier x) = true.
Proof. field_of Clean_Association. Qed.

Lemma clean_as_through (x : Association) :
  cleanb x = true -> cleanb (as_through x) = true.
Proof. field_of Clean_Association. Qed.

Lemma clean_th_model (x : Through) :
  cleanb x = true -> cleanb (th_model x) = true.
Proof. field_of Clean_Through. Qed.

Lemma clean_th_as (x : Through) :
  cleanb x = true -> cleanb (th_as x) = true.
Proof. field_of Clean_Through. Qed.

Lemma clean_th_where (x : Through) :
  cleanb x = true -> cleanb (th_where x) = true.
Proof. field_of Clean_Through. Qed.

Lemma clean_th_attributes (x : Through) :
  cleanb x = true -> cleanb (th_attributes x) = true.
Proof. field_of Clean_Through. Qed.

Lemma clean_r_model (x : RootParent) :
  cleanb x = true -> cleanb (r_model x) = true.
Proof. field_of Clean_RootParent. Qed.

Lemma clean_r_as (x : RootParent) :
  cleanb x = true -> cleanb (r_as x) = true.
Proof. field_of Clean_RootParent. Qed.

Lemma clean_gl_on (x : GroupedLimit) :
  cleanb x = true -> cleanb (gl_on x) = true.
Proof. field_of Clean_GroupedLimit. Qed.

Lemma clean_gl_values (x : GroupedLimit) :
  cleanb x = true -> cleanb (gl_values x) = true.
Proof. field_of Clean_GroupedLimit. Qed.

Lemma clean_gl_limit (x : GroupedLimit) :
  cleanb x = true -> cleanb (gl_limit x) = true.
Proof. field_of Clean_GroupedLimit. Qed.

Lemma clean_t_tableName (x : TableObj) :
  cleanb x = true -> cleanb (t_tableName x) = true.
Proof. field_of Clean_TableObj. Qed.

Lemma clean_t_schema (x : TableObj) :
  cleanb x = true -> cleanb (t_schema x) = true.
Proof. field_of Clean_TableObj. Qed.

Lemma clean_t_delimiter (x : TableObj) :
  cleanb x = true -> cleanb (t_delimiter x) = true.
Proof. field_of Clean_TableObj. Qed.

Lemma clean_t_as (x : TableObj) :
  cleanb x = true -> cleanb (t_as x) = true.
Proof. field_of Clean_TableObj. Qed.

Lemma clean_t_name (x : TableObj) :
  cleanb x = true -> cleanb (t_name x) = true.
Proof. field_of Clean_TableObj. Qed.

Lemma clean_i_association (x : Include) :
  cleanb x = true -> cleanb (i_association x) = true.
Proof.
  rewrite cleanInclude_unfold, ?andb_true_iff. intros H.
  decompose [and] H; assumption.
Qed.

Lemma clean_i_model (x : Include) :
  cleanb x = true -> cleanb (i_model x) = true.
Proof.
  rewrite cleanInclude_unfold, ?andb_true_iff. intros H.
  decompose [and] H; assumption.
Qed.

Lemma clean_i_as (x : Include) :
  cleanb x = true -> cleanb (i_as x) = true.
Proof.
  rewrite cleanInclude_unfold, ?andb_true_iff. intros H.
  decompose [and] H; assumption.
Qed.

Lemma clean_i_attributes (x : Include) :
  cleanb x = true -> cleanb (i_attributes x) = true.
Proof.
  rewrite cleanInclude_unfold, ?andb_true_iff. intros H.
  decompose [and] H; assumption.
Qed.

Lemma clean_i_where (x : Include) :
  cleanb x = true -> cleanb (i_where x) = true.
Proof.
  rewrite cleanInclude_unfold, ?andb_true_iff. intros H.
  decompose [and] H; assumption.
Qed.

Lemma clean_i_on (x : Include) :
  cleanb x = true -> cleanb (i_on x) = true.
Proof.
  rewrite cleanInclude_unfold, ?andb_true_iff. intros H.
  decompose [and] H; assumption.
Qed.

Lemma clean_i_through (x : Include) :
  cleanb x = true -> cleanb (i_through x) = true.
Proof.
  rewrite cleanInclude_unfold, ?andb_true_iff. intros H.
  decompose [and] H; assumption.
Qed.

Lemma clean_i_parent (x : Include) :
  cleanb x = true -> cleanb (i_parent x) = true.
Proof.
  rewrite cleanInclude_unfold, ?andb_true_iff. intros H.
  decompose [and] H; assumption.
Qed.

Lemma clean_i_root (x : Include) :
  cleanb x = true -> cleanb (i_root x) = true.
Proof.
  rewrite cleanInclude_unfold, ?andb_true_iff. intros H.
  decompose [and] H; assumption.
Qed.

Lemma clean_i_include (x : Include) :
  cleanb x = true -> cleanb (i_include x) = true.
Proof.
  rewrite cleanInclude_unfold, ?andb_true_iff. intros H.
  decompose [and] H; assumption.
Qed.

Lemma clean_fst {A B} `{Clean A} `{Clean B} (p : A * B) :
  cleanb p = true -> cleanb (fst p) = true.
Proof. destruct p. rewrite clean_pair, andb_true_iff. now intros [? ?]. Qed.

Lemma clean_snd {A B} `{Clean A} `{Clean B} (p : A * B) :
  cleanb p = true -> cleanb (snd p) = true.
Proof. destruct p. rewrite clean_pair, andb_true_iff. now intros [? ?]. Qed.

#[export] Hint Resolve clean_w_tableNames clean_w_parent
  clean_w_parentAssociation clean_c_comparator clean_c_value
  clean_js_mainAttributes clean_js_subQueryAttributes clean_js_where
  clean_jq_mainQuery clean_jq_subQuery clean_o_field clean_o_model
  clean_o_prefix clean_s_attributes clean_s_where clean_s_order
  clean_s_group clean_s_having clean_s_limit clean_s_offset clean_s_tableAs
  clean_s_include clean_s_model clean_s_groupedLimit clean_s_lock
  clean_m_name clean_m_tableName clean_m_getTableName
  clean_m_primaryKeyAttributes clean_m_primaryKeyAttribute
  clean_m_primaryKeyField clean_m_primaryKeys clean_m_rawAttributes
  clean_m_fieldRawAttributesMap clean_a_field clean_as_source
  clean_as_target clean_as_as clean_as_identifier clean_as_identifierField
  clean_as_foreignIdentifierField clean_as_targetIdentifier clean_as_through
  clean_th_model clean_th_as clean_th_where clean_th_attributes
  clean_r_model clean_r_as clean_gl_on clean_gl_values clean_gl_limit
  clean_t_tableName clean_t_schema clean_t_delimiter clean_t_as clean_t_name
  clean_i_association clean_i_model clean_i_as clean_i_attributes
  clean_i_where clean_i_on clean_i_through clean_i_parent clean_i_root
  clean_i_include clean_fst clean_snd : clean.

(** Hypotheses on constructed values, taken apart. *)
Ltac norm_hyp :=
  match goal with
  | H : _ /\ _ |- _ => destruct H
  | H : _ && _ = true |- _ => apply andb_true_iff in H
  | H : @cleanb _ _ (?a, ?b) = true |- _ =>
      change (cleanb a && cleanb b = true) in H
  | H : @cleanb (prod _ _) _ ?p = true |- _ =>
      is_var p; destruct p; cbn [fst snd] in *
  | H : @cleanb _ _ (Some ?a) = true |- _ => change (cleanb a = true) in H
  | H : @cleanb _ _ (?a :: ?l) = true |- _ =>
      change (cleanb a && cleanb l = true) in H
  | H : cleanb (JStr ?s) = true |- _ => change (cleanb s = true) in H
  | H : cleanb (JLiteral ?s) = true |- _ => change (cleanb s = true) in H
  | H : cleanb (JCustom ?s) = true |- _ => change (cleanb s = true) in H
  | H : cleanb (JBuffer ?s) = true |- _ => change (cleanb s = true) in H
  | H : cleanb (JCol ?s) = true |- _ => change (cleanb s = true) in H
  | H : cleanb (JModel ?s) = true |- _ => change (cleanb s = true) in H
  | H : cleanb (JArr ?s) = true |- _ => change (cleanb s = true) in H
  | H : cleanb (JFn ?f ?a) = true |- _ =>
      change (cleanb f && cleanb a = true) in H
  | H : cleanb (JCast ?v ?t) = true |- _ =>
      change (cleanb v && cleanb t = true) in H
  | H : cleanb (JWhere ?a ?c ?l) = true |- _ =>
      change (cleanb a && cleanb c && cleanb l = true) in H
  | H : cleanb (JModelAttr ?m ?f ?n) = true |- _ =>
      change (cleanb m && cleanb f && cleanb n = true) in H
  | H : cleanb (TName ?s) = true |- _ => change (cleanb s = true) in H
  | H : cleanb (TObj ?s) = true |- _ => change (cleanb s = true) in H
  | H : cleanb (PLiteral ?s) = true |- _ => change (cleanb s = true) in H
  | H : cleanb (PTable ?s) = true |- _ => change (cleanb s = true) in H
  | H : cleanb (TATable ?s) = true |- _ => change (cleanb s = true) in H
  | H : cleanb (TALiteral ?s) = true |- _ => change (cleanb s = true) in H
  | H : cleanb (TAList ?s) = true |- _ => change (cleanb s = true) in H
  | H : cleanb (TEOne ?s) = true |- _ => change (cleanb s = true) in H
  | H : cleanb (TEPair ?t ?a) = true |- _ =>
      change (cleanb t && cleanb a = true) in H
  | H : cleanb (AsName ?s) = true |- _ => change (cleanb s = true) in H
  | H : cleanb (LockLevel ?s) = true |- _ => change (cleanb s = true) in H
  | H : cleanb (LockObj ?l ?o) = true |- _ =>
      change (cleanb l && cleanb o = true) in H
  | H : cleanb (Own ?s) = true |- _ => change (cleanb s = true) in H
  | H : cleanb (Early ?s) = true |- _ => change (cleanb s = true) in H
  | H : cleanb (Compiled ?c ?v) = true |- _ =>
      change (cleanb c && cleanb v = true) in H
  end.

Ltac norm_hyps := repeat norm_hyp.

(** Case analysis on a scrutinee, after recording that it is clean when
    that is plain. *)
Ltac destruct_clean x :=
  lazymatch x with
  | match ?y with _ => _ end => destruct_clean y
  | _ =>
      tryif is_var x then idtac
      else
        lazymatch type of x with
        | bool => idtac
        | nat => idtac
        | _ =>
            try (let H := fresh "Hc" in
                 assert (H : cleanb x = true)
                   by (solve [auto 15 with clean]))
        end;
      destruct x; norm_hyps
  end.

(** Side conditions [cleanb _ = true]. *)
Ltac cln :=
  intros; norm_hyps;
  repeat match goal with
         | |- context [match ?x with _ => _ end] => destruct_clean x
         end;
  autorewrite with cleanR;
  repeat match goal with
         | |- _ /\ _ => split
         | |- True => exact I
         end;
  auto 15 with clean.

Lemma cl_ret {A} `{Clean A} (a : A) : cleanb a = true -> cl (ret a).
Proof. intros Ha h Hh. now split. Qed.

Lemma cl_throw {A} `{Clean A} e : cl (@throw A e).
Proof. intros h Hh. exact I. Qed.

Lemma cl_stuck {A} `{Clean A} : cl (@stuck A).
Proof. intros h Hh. exact I. Qed.

Lemma cl_outOfFuel {A} `{Clean A} : cl (@outOfFuel A).
Proof. intros h Hh. exact I. Qed.

Lemma cl_bind {A B} `{Clean A} `{Clean B} (m : M A) (k : A -> M B) :
  cl m -> (forall a, cleanb a = true -> cl (k a)) -> cl (bind m k).
Proof.
  intros Hm Hk h Hh. unfold bind. specialize (Hm h Hh).
  destruct (m h) as [a h1|e h1| |]; auto. destruct Hm as [Hh1 Ha].
  now apply Hk.
Qed.

Lemma cl_ofOption {A} `{Clean A} (o : option A) :
  cleanb o = true -> cl (ofOption o).
Proof. destruct o; intros Ho; [now apply cl_ret | apply cl_stuck]. Qed.

Lemma cl_observe {A} `{Clean A} (f : heap -> A) :
  (forall h : heap, cleanb h = true -> cleanb (f h) = true) ->
  cl (fun h => Ret (f h) h).
Proof. intros Hf h Hh. split; auto. Qed.

Lemma cl_mapM {A B} `{Clean A} `{Clean B} (f : A -> M B) (l : list A) :
  cleanb l = true -> (forall a, cleanb a = true -> cl (f a)) -> cl (mapM f l).
Proof.
  intros Hl Hf. induction l as [|a l IH]; cbn [mapM]; [now apply cl_ret|].
  rewrite clean_cons in Hl. apply andb_true_iff in Hl as [Ha Hl].
  apply cl_bind; [now apply Hf|]. intros b Hb.
  apply cl_bind; [now apply IH|]. intros bs Hbs. apply cl_ret.
  now rewrite clean_cons, Hb.
Qed.

Lemma cl_foldM {A S} `{Clean A} `{Clean S} (f : S -> A -> M S) s (l : list A) :
  cleanb s = true -> cleanb l = true ->
  (forall s a, cleanb s = true -> cleanb a = true -> cl (f s a)) ->
  cl (foldM f s l).
Proof.
  intros Hs Hl Hf. revert s Hs.
  induction l as [|a l IH]; intros s Hs; cbn [foldM]; [now apply cl_ret|].
  rewrite clean_cons in Hl. apply andb_true_iff in Hl as [Ha Hl].
  apply cl_bind; [now apply Hf|]. intros s' Hs'. now apply IH.
Qed.

Lemma cl_filterM {A} `{Clean A} (p : A -> M bool) (l : list A) :
  cleanb l = true -> (forall a, cleanb a = true -> cl (p a)) ->
  cl (filterM p l).
Proof.
  intros Hl Hp. induction l as [|a l IH]; cbn [filterM]; [now apply cl_ret|].
  rewrite clean_cons in Hl. apply andb_true_iff in Hl as [Ha Hl].
  apply cl_bind; [now apply Hp|]. intros b _.
  apply cl_bind; [now apply IH|]. intros bs Hbs. apply cl_ret.
  destruct b; [now rewrite clean_cons, Ha | exact Hbs].
Qed.

Lemma cl_findM {A} `{Clean A} (p : A -> M bool) (l : list A) :
  cleanb l = true -> (forall a, cleanb a = true -> cl (p a)) ->
  cl (findM p l).
Proof.
  intros Hl Hp. induction l as [|a l IH]; cbn [findM]; [now apply cl_ret|].
  rewrite clean_cons in Hl. apply andb_true_iff in Hl as [Ha Hl].
  apply cl_bind; [now apply Hp|]. intros b _.
  destruct b; [now apply cl_ret | now apply IH].
Qed.

Lemma cl_read l : cl (Heap.read l).
Proof.
  intros h Hh. unfold Heap.read. destruct (h !! l) as [o|] eqn:Hl; [|exact I].
  split; [exact Hh | exact (clean_lookup h l o Hh Hl)].
Qed.

Lemma cl_write l (o : object) : cleanb o = true -> cl (Heap.write l o).
Proof.
  intros Ho h Hh. unfold Heap.write. destruct (h !! l); [|exact I].
  split; [now apply clean_insert | reflexivity].
Qed.

Lemma cl_alloc (o : object) : cleanb o = true -> cl (Heap.alloc o).
Proof.
  intros Ho h Hh. unfold Heap.alloc. split; [|reflexivity].
  rewrite clean_app, Hh. cbn. now rewrite Ho.
Qed.

Lemma cl_prop v k : cl (Heap.prop v k).
Proof.
  destruct v; cbn [Heap.prop]; try now apply cl_ret.
  apply cl_bind; [apply cl_read|]. intros o Ho. apply cl_ret.
  now apply clean_Obj_get.
Qed.

Lemma cl_setProp l k v :
  cleanb k = true -> cleanb v = true -> cl (Heap.setProp l k v).
Proof.
  intros Hk Hv. unfold Heap.setProp. apply cl_bind; [apply cl_read|].
  intros o Ho. apply cl_write. now apply clean_Obj_set.
Qed.

Lemma cl_delProp l k : cl (Heap.delProp l k).
Proof.
  unfold Heap.delProp. apply cl_bind; [apply cl_read|].
  intros o Ho. apply cl_write. now apply clean_Obj_del.
Qed.

Lemma cl_forOwn {S} `{Clean S} l (f : S -> jsval -> string -> M S) s :
  cleanb s = true ->
  (forall s v k, cleanb s = true -> cleanb v = true -> cleanb k = true ->
                 cl (f s v k)) ->
  cl (forOwn l f s).
Proof.
  intros Hs Hf. unfold forOwn. apply cl_bind; [apply cl_read|]. intros o Ho.
  apply cl_foldM; [assumption | now apply clean_Obj_keys |].
  intros s' k Hs' Hk. apply cl_bind; [apply cl_read|]. intros o' Ho'.
  apply Hf; [assumption | now apply clean_Obj_get | assumption].
Qed.

Lemma cl_str v : cleanb v = true -> cl (str v).
Proof.
  intros Hv h Hh. unfold str, ofOption. destruct (toStr v) as [s|] eqn:Hs;
    [|exact I].
  split; [exact Hh | exact (clean_toStr v s Hv Hs)].
Qed.

Lemma cl_joinVals sep (l : list jsval) :
  cleanb sep = true -> cleanb l = true -> cl (joinVals sep l).
Proof.
  intros Hsep Hl. unfold joinVals. apply cl_bind.
  - apply cl_mapM; [assumption|]. intros v Hv h Hh. unfold ofOption.
    destruct (toElement v) as [s|] eqn:Hs; [|exact I].
    split; [exact Hh | exact (clean_toElement v s Hv Hs)].
  - intros parts Hparts. apply cl_ret. now apply clean_join.
Qed.

Lemma cl_isSequelizeMethod v : cl (isSequelizeMethod v).
Proof.
  destruct v; cbn [isSequelizeMethod]; try now apply cl_ret.
  apply cl_bind; [apply cl_prop|]. intros p _. now apply cl_ret.
Qed.

Lemma cl_hasLength v : cl (hasLength v).
Proof.
  destruct v; cbn [hasLength]; try now apply cl_ret.
  apply cl_bind; [apply cl_prop|]. intros p _. now apply cl_ret.
Qed.

Lemma cl_sizeOf v : cl (sizeOf v).
Proof.
  destruct v; cbn [sizeOf]; try now apply cl_ret.
  apply cl_bind; [apply cl_read|]. intros p _.
  destruct (Obj.get "length" p); try now apply cl_ret.
  destruct (_ && _); now apply cl_ret.
Qed.

Lemma cl_keyCount v : cl (keyCount v).
Proof.
  destruct v; cbn [keyCount]; try now apply cl_ret.
  apply cl_bind; [apply cl_read|]. intros p _. now apply cl_ret.
Qed.

Create HintDb cl discriminated.

#[export] Hint Resolve cl_throw cl_stuck cl_outOfFuel cl_read cl_prop
  cl_delProp cl_isSequelizeMethod cl_hasLength cl_sizeOf cl_keyCount : cl.

(** One step of a syntax-directed proof of [cl]; the side conditions go
    to [cln]. *)
Ltac cl_step :=
  cbv beta iota zeta;
  lazymatch goal with
  | |- cl (bind _ _) => apply cl_bind; [ | intros ? ?; norm_hyps ]
  | |- cl (ret _) => apply cl_ret; cln
  | |- cl (ofOption _) => apply cl_ofOption; cln
  | |- cl (mapM _ _) => apply cl_mapM; [ cln | intros ? ?; norm_hyps ]
  | |- cl (foldM _ _ _) =>
      apply cl_foldM; [ cln | cln | intros ? ? ? ?; norm_hyps ]
  | |- cl (filterM _ _) => apply cl_filterM; [ cln | intros ? ?; norm_hyps ]
  | |- cl (findM _ _) => apply cl_findM; [ cln | intros ? ?; norm_hyps ]
  | |- cl (forOwn _ _ _) =>
      apply cl_forOwn; [ cln | intros ? ? ? ? ? ?; norm_hyps ]
  | |- cl (Heap.alloc _) => apply cl_alloc; cln
  | |- cl (Heap.write _ _) => apply cl_write; cln
  | |- cl (Heap.setProp _ _ _) => apply cl_setProp; cln
  | |- cl (str _) => apply cl_str; cln
  | |- cl (joinVals _ _) => apply cl_joinVals; cln
  | |- cl (match ?x with _ => _ end) => destruct_clean x
  | |- cl (fun h => Ret _ h) => apply cl_observe; cln
  | |- _ => solve [auto 15 with cl clean]
  end.

Ltac cl_auto := repeat cl_step.

(* ================================================================= *)
(** ** The generator adds no statement terminator *)

Section CleanMethods.

Context {E : Env}.
Hypothesis HE : CleanEnv E.

Lemma clean_quoteIdentifier s force :
  cleanb s = true -> cleanb (quoteIdentifier s force) = true.
Proof. apply ce_quoteIdentifier, HE. Qed.

Lemma clean_getAssociation parent model as_ :
  cleanb parent = true -> cleanb model = true -> cleanb as_ = true ->
  cleanb (getAssociation parent model as_) = true.
Proof. apply ce_getAssociation, HE. Qed.

Lemma clean_sqlEscape (h : heap) v :
  cleanb h = true -> cleanb v = true -> cleanb (sqlEscape h v) = true.
Proof. apply ce_sqlEscape, HE. Qed.

Lemma clean_utilsFormat (h : heap) items :
  cleanb h = true -> cleanb items = true ->
  cleanb (utilsFormat h items) = true.
Proof. apply ce_utilsFormat, HE. Qed.

Lemma clean_upper s : cleanb s = true -> cleanb (toUpperCase s) = true.
Proof. apply ce_toUpperCase, HE. Qed.

#[local] Hint Resolve clean_quoteIdentifier clean_getAssociation
  clean_sqlEscape clean_utilsFormat clean_upper : clean.

Lemma clean_quoteTable param as_ :
  cleanb param = true -> cleanb as_ = true ->
  cleanb (quoteTable param as_) = true.
Proof.
  intros Hp Ha. unfold quoteTable. cln.
Qed.

Lemma clean_quoteIdentifiers s force :
  cleanb s = true -> cleanb (quoteIdentifiers s force) = true.
Proof.
  intros Hs. unfold quoteIdentifiers. destruct (Str.contains "." s); cln.
Qed.

#[local] Hint Resolve clean_quoteTable clean_quoteIdentifiers : clean.

Variable this : QueryGenerator.
Hypothesis Hthis : clGen this.

(** Calls through the method table. *)
Ltac cl_this :=
  lazymatch goal with
  | |- cl (this_quote _ _ _ _) => apply (cg_quote _ Hthis); cln
  | |- cl (this_escape _ _ _ _) => apply (cg_escape _ Hthis); cln
  | |- cl (this_handleSequelizeMethod _ _ _ _ _) =>
      apply (cg_handleSequelizeMethod _ Hthis); cln
  | |- cl (this_whereItemsQuery _ _ _ _) =>
      apply (cg_whereItemsQuery _ Hthis); cln
  | |- cl (this_whereItemQuery _ _ _ _) =>
      apply (cg_whereItemQuery _ Hthis); cln
  | |- cl (this_getWhereConditions _ _ _ _ _) =>
      apply (cg_getWhereConditions _ Hthis); cln
  end.

Ltac cl_go := repeat first [cl_this | cl_step].

Lemma cl_keyName key : cleanb key = true -> cl (keyName key).
Proof. intros Hk. unfold keyName. cl_go. Qed.

Lemma cl_isMethodOrRaise what v : cl (isMethodOrRaise what v).
Proof. unfold isMethodOrRaise. cl_go. Qed.

#[local] Hint Resolve cl_keyName cl_isMethodOrRaise : cl.

Lemma cl_quoteStep w item :
  cleanb w = true -> cleanb item = true -> cl (quoteStep w item).
Proof. intros Hw Hi. unfold quoteStep. cl_go. Qed.

#[local] Hint Resolve cl_quoteStep : cl.

Lemma cl_quote obj parent force :
  cleanb obj = true -> cleanb parent = true ->
  cl (quote_ this obj parent force).
Proof. intros Ho Hp. unfold quote_. cl_go. Qed.

Lemma cl_check (validate : heap -> jsval -> EscapeOptions -> option string)
    v options :
  cl (fun h => match validate h v options with
               | Some msg => Throw (ValidationError msg) h
               | None => Ret tt h
               end).
Proof. intros h Hh. destruct (validate h v options); [exact I | now split]. Qed.

Lemma cl_scalar v :
  cleanb v = true -> cl (fun h : heap => Ret (JStr (sqlEscape h v)) h).
Proof. intros Hv. apply cl_observe. cln. Qed.

#[local] Hint Resolve cl_check cl_scalar : cl.

Lemma cl_stringify ty value :
  cleanb value = true ->
  cl (match dtStringify ty with
      | Some stringify =>
          let* s := (fun h => Ret (stringify h value) h) in
          if dtEscapeFalse ty then ret (JStr s)
          else (fun h : heap => Ret (JStr (sqlEscape h (JStr s))) h)
      | None => fun h : heap => Ret (JStr (sqlEscape h value)) h
      end).
Proof.
  intros Hv. destruct (dtStringify ty) as [stringify|] eqn:Hty; [|cl_go].
  apply cl_bind.
  - apply cl_observe. intros h Hh. exact (ce_dtStringify E HE ty _ h value Hty Hh Hv).
  - intros s Hs. cl_go.
Qed.

Lemma cl_escape value field options :
  cleanb value = true -> cl (escape_ this value field options).
Proof.
  intros Hv. unfold escape_. cbv zeta.
  destruct value; try solve [cl_go];
    (apply cl_bind; [cl_go|]; intros isMethod _; destruct isMethod; [cl_go|];
     destruct field as [[f [ty|] ai]|]; try solve [cl_go];
     (apply cl_bind; [cl_go|]); intros _ _; now apply cl_stringify).
Qed.

Lemma cl_join2 a b sep :
  cleanb a = true -> cleanb b = true -> cleanb sep = true ->
  cl (join2 a b sep).
Proof. intros Ha Hb Hs. unfold join2. cl_go. Qed.

#[local] Hint Resolve cl_join2 : cl.

Lemma cl_handleSequelizeMethod smth tableName factory prepend :
  cleanb smth = true -> cleanb tableName = true -> cleanb factory = true ->
  cl (handleSequelizeMethod_ this smth tableName factory prepend).
Proof. intros Hs Ht Hf. unfold handleSequelizeMethod_. cl_go. Qed.

Lemma clean_aliasMap k : cleanb (lookupTable aliasMap k) = true.
Proof.
  unfold lookupTable. destruct (aliasMap k) as [c|] eqn:Hk;
    [|now destruct (existsb _ _)].
  apply assoc_In in Hk. rewrite clean_Own.
  assert (Hall : Forall (fun e => cleanb (snd e) = true) aliasTable)
    by (repeat constructor).
  rewrite List.Forall_forall in Hall. exact (Hall _ Hk).
Qed.

Lemma clean_comparatorMap k : cleanb (lookupTable comparatorMap k) = true.
Proof.
  unfold lookupTable. destruct (comparatorMap k) as [c|] eqn:Hk;
    [|now destruct (existsb _ _)].
  rewrite clean_Own. revert Hk. unfold comparatorMap.
  repeat match goal with
         | |- (if ?b then _ else _) = _ -> _ =>
             destruct b; [intros [= <-]; reflexivity|]
         end.
  discriminate.
Qed.

#[local] Hint Resolve clean_aliasMap clean_comparatorMap : clean.

Lemma cl_whereQuery where_ options :
  cleanb where_ = true -> cleanb options = true ->
  cl (whereQuery_ this where_ options).
Proof. intros Hw Ho. unfold whereQuery_. cl_go. Qed.

Lemma cl_isEmptyWhere where_ : cl (isEmptyWhere where_).
Proof. unfold isEmptyWhere. cl_go. Qed.

Lemma cl_conjoin binding items :
  cleanb binding = true -> cleanb items = true -> cl (conjoin binding items).
Proof. intros Hb Hi. unfold conjoin. cl_go. Qed.

Lemma clean_normaliseBinding binding :
  cleanb binding = true -> cleanb (normaliseBinding binding) = true.
Proof. intros Hb. unfold normaliseBinding. cln. Qed.

#[local] Hint Resolve cl_isEmptyWhere cl_conjoin : cl.
#[local] Hint Resolve clean_normaliseBinding : clean.

Lemma cl_whereItemsQuery where_ options binding :
  cleanb where_ = true -> cleanb options = true -> cleanb binding = true ->
  cl (whereItemsQuery_ this where_ options binding).
Proof. intros Hw Ho Hb. unfold whereItemsQuery_. cl_go. Qed.

Lemma cl_asArray what v : cleanb v = true -> cl (asArray what v).
Proof. intros Hv. unfold asArray. cl_go. Qed.

Lemma clean_resolveField key options :
  cleanb options = true -> cleanb (resolveField key options) = true.
Proof. intros Ho. unfold resolveField. cln. Qed.

Lemma clean_jsonPathTarget key options :
  cleanb key = true -> cleanb options = true ->
  cleanb (jsonPathTarget key options) = true.
Proof.
  intros Hk Ho. unfold jsonPathTarget. cln.
Qed.

Lemma cl_dottieSet path tmp :
  cleanb path = true -> cleanb tmp = true -> cl (dottieSet path tmp).
Proof.
  intros Hp Ht. induction path as [|p path IH]; cbn [dottieSet]; [cl_go|].
  norm_hyps. destruct path; [cl_go|]. apply cl_bind; [apply IH; cln|].
  intros inner Hinner. cl_go.
Qed.

Lemma cl_aliasKey key : cleanb key = true -> cl (aliasKey key).
Proof. intros Hk. unfold aliasKey. cl_go. Qed.

Lemma cl_rewriteAliases l : cl (rewriteAliases l).
Proof. unfold rewriteAliases. cl_go. Qed.

#[local] Hint Resolve cl_asArray cl_dottieSet cl_aliasKey cl_rewriteAliases : cl.
#[local] Hint Resolve clean_resolveField clean_jsonPathTarget : clean.

Lemma cl_combinator key value options :
  cleanb value = true -> cleanb options = true ->
  cl (combinator this key value options).
Proof. intros Hv Ho. unfold combinator. cl_go. Qed.

Lemma cl_distribute key por pand options :
  cleanb key = true -> cleanb por = true -> cleanb pand = true ->
  cleanb options = true ->
  cl (distribute this key por pand options).
Proof. intros Hk Hp Ha Ho. unfold distribute. cl_go. Qed.

Lemma cl_withPrefix options key :
  cleanb options = true -> cleanb key = true ->
  cl (withPrefix this options key).
Proof. intros Ho Hk. unfold withPrefix. cl_go. Qed.

#[local] Hint Resolve cl_combinator cl_distribute cl_withPrefix : cl.

Lemma clean_castKey baseKey cast item :
  cleanb baseKey = true -> cleanb cast = true ->
  cleanb (castKey baseKey cast item) = true.
Proof. intros Hb Hc. unfold castKey. cln. Qed.

#[local] Hint Resolve clean_castKey : clean.

Lemma cl_traverse depth key options item path items :
  cleanb key = true -> cleanb options = true -> cleanb item = true ->
  cleanb path = true -> cleanb items = true ->
  cl (traverse this depth key options item path items).
Proof.
  revert key options item path items.
  induction depth as [|depth IH]; intros key options item path items
    Hk Ho Hi Hp His; cbn [traverse]; [apply cl_outOfFuel|].
  cl_go.
Qed.

#[local] Hint Resolve cl_traverse : cl.

Lemma cl_jsonBranch depth key l options :
  cleanb key = true -> cleanb options = true ->
  cl (jsonBranch this depth key l options).
Proof. intros Hk Ho. unfold jsonBranch. cl_go. Qed.

Lemma cl_multiKey key l options :
  cleanb key = true -> cleanb options = true ->
  cl (multiKey this key l options).
Proof. intros Hk Ho. unfold multiKey. cl_go. Qed.

Lemma cl_normaliseIn value fieldType :
  cleanb value = true -> cl (normaliseIn value fieldType).
Proof. intros Hv. unfold normaliseIn. cl_go. Qed.

Lemma cl_escapeAll items : cleanb items = true -> cl (escapeAll this items).
Proof. intros Hi. unfold escapeAll. cl_go. Qed.

Lemma cl_comparatorStep st item key :
  cleanb st = true -> cleanb item = true ->
  cl (comparatorStep this st item key).
Proof. intros Hs Hi. unfold comparatorStep. cl_go. Qed.

#[local] Hint Resolve cl_jsonBranch cl_multiKey cl_normaliseIn cl_escapeAll
  cl_comparatorStep : cl.

Lemma cl_setupValue value field fieldType :
  cleanb value = true -> cl (setupValue this value field fieldType).
Proof. intros Hv. unfold setupValue. cl_go. Qed.

Lemma cl_emitKey key options :
  cleanb key = true -> cleanb options = true -> cl (emitKey this key options).
Proof. intros Hk Ho. unfold emitKey. cl_go. Qed.

#[local] Hint Resolve cl_setupValue cl_emitKey : cl.

Lemma cl_compileLeaf key value field fieldType options :
  cleanb key = true -> cleanb value = true -> cleanb options = true ->
  cl (compileLeaf this key value field fieldType options).
Proof. intros Hk Hv Ho. unfold compileLeaf. cl_go. Qed.

#[local] Hint Resolve cl_compileLeaf : cl.

Lemma cl_compileValue depth key value field fieldType options :
  cleanb key = true -> cleanb value = true -> cleanb options = true ->
  cl (compileValue this depth key value field fieldType options).
Proof. intros Hk Hv Ho. unfold compileValue. cl_go. Qed.

#[local] Hint Resolve cl_compileValue : cl.

Lemma cl_dispatch depth key value field fieldType options :
  cleanb key = true -> cleanb value = true -> cleanb options = true ->
  cl (dispatch this depth key value field fieldType options).
Proof. intros Hk Hv Ho. unfold dispatch. cl_go. Qed.

#[local] Hint Resolve cl_dispatch : cl.

Lemma cl_whereItemQuery depth key value options :
  cleanb key = true -> cleanb value = true -> cleanb options = true ->
  cl (whereItemQuery_ this depth key value options).
Proof. intros Hk Hv Ho. unfold whereItemQuery_. cl_go. Qed.

Lemma cl_getWhereConditions smth tableName factory prepend :
  cleanb smth = true -> cleanb tableName = true -> cleanb factory = true ->
  cl (getWhereConditions_ this smth tableName factory prepend).
Proof. intros Hs Ht Hf. unfold getWhereConditions_. cl_go. Qed.

End CleanMethods.

(* ================================================================= *)
(** ** [selectQuery] adds one statement terminator *)

Lemma clSelect_ret body o :
  cleanb body = true -> clSelect (ret (body +:+ ";", o)).
Proof. intros Hb h Hh. split; [exact Hh | now exists body]. Qed.

Lemma clSelect_bind {A} `{Clean A} (m : M A) k :
  cl m -> (forall a, cleanb a = true -> clSelect (k a)) -> clSelect (bind m k).
Proof.
  intros Hm Hk h Hh. unfold bind. specialize (Hm h Hh).
  destruct (m h) as [a h1|e h1| |]; auto. destruct Hm as [Hh1 Ha].
  now apply Hk.
Qed.

Lemma clSelect_outOfFuel : clSelect outOfFuel.
Proof. intros h Hh. exact I. Qed.

Lemma clSelect_stuck : clSelect stuck.
Proof. intros h Hh. exact I. Qed.

Lemma clSelect_throw e : clSelect (throw e).
Proof. intros h Hh. exact I. Qed.

(** The statement of a nested [selectQuery], as it is spliced in. *)
Lemma cl_bind_select {B} `{Clean B} m (k : string * SelectOptions -> M B) :
  clSelect m ->
  (forall q o, cleanb (Str.stripSemicolon q) = true -> cl (k (q, o))) ->
  cl (bind m k).
Proof.
  intros Hm Hk h Hh. unfold bind. specialize (Hm h Hh).
  destruct (m h) as [[q o] h1|e h1| |]; auto.
  destruct Hm as [Hh1 (body & -> & Hbody)].
  apply Hk; [|exact Hh1]. now rewrite stripSemicolon_append.
Qed.

Lemma clean_mkJoinState_intro m s w :
  cleanb m = true -> cleanb s = true -> cleanb w = true ->
  cleanb (mkJoinState m s w) = true.
Proof. intros Hm Hs Hw. now rewrite clean_mkJoinState, Hm, Hs, Hw. Qed.

Lemma clean_mkJoinQueries_intro m s :
  cleanb m = true -> cleanb s = true -> cleanb (mkJoinQueries m s) = true.
Proof. intros Hm Hs. now rewrite clean_mkJoinQueries, Hm, Hs. Qed.

Lemma clean_mkSelectOptions_intro a w o g hv l off hm sq ta i ig m gl lk :
  cleanb a = true -> cleanb w = true -> cleanb o = true -> cleanb g = true ->
  cleanb hv = true -> cleanb l = true -> cleanb off = true ->
  cleanb ta = true -> cleanb i = true -> cleanb m = true ->
  cleanb gl = true -> cleanb lk = true ->
  cleanb (mkSelectOptions a w o g hv l off hm sq ta i ig m gl lk) = true.
Proof.
  intros Ha Hw Ho Hg Hhv Hl Hoff Hta Hi Hm Hgl Hlk.
  now rewrite clean_mkSelectOptions, Ha, Hw, Ho, Hg, Hhv, Hl, Hoff, Hta, Hi,
    Hm, Hgl, Hlk.
Qed.

#[export] Hint Resolve clean_mkJoinState_intro clean_mkJoinQueries_intro
  clean_mkSelectOptions_intro : clean.

Section CleanSelect.

Context {E : Env}.
Hypothesis HE : CleanEnv E.

Variable this : QueryGenerator.
Hypothesis Hthis : clGen this.

#[local] Hint Resolve clean_quoteIdentifier clean_getAssociation clean_upper
  clean_sqlEscape clean_utilsFormat clean_quoteTable clean_quoteIdentifiers
  clean_normaliseBinding : clean.
#[local] Hint Resolve cl_keyName cl_isMethodOrRaise cl_join2 : cl.

Lemma clean_validateIncludedElements model association :
  cleanb model = true -> cleanb association = true ->
  cleanb (validateIncludedElements model association) = true.
Proof. apply ce_validateIncludedElements, HE. Qed.

Lemma clean_forShare : cleanb (forShare supports) = true.
Proof. apply ce_forShare, HE. Qed.

#[local] Hint Resolve clean_validateIncludedElements clean_forShare : clean.

(** Calls through the method table. *)
Ltac cl_this :=
  lazymatch goal with
  | |- cl (bind (this_selectQuery _ _ _ _) _) =>
      apply cl_bind_select;
      [ apply (cg_selectQuery _ Hthis); cln | intros ? ? ?; norm_hyps ]
  | |- cl (this_quote _ _ _ _) => apply (cg_quote _ Hthis); cln
  | |- cl (this_escape _ _ _ _) => apply (cg_escape _ Hthis); cln
  | |- cl (this_handleSequelizeMethod _ _ _ _ _) =>
      apply (cg_handleSequelizeMethod _ Hthis); cln
  | |- cl (this_whereItemsQuery _ _ _ _) =>
      apply (cg_whereItemsQuery _ Hthis); cln
  | |- cl (this_whereItemQuery _ _ _ _) =>
      apply (cg_whereItemQuery _ Hthis); cln
  | |- cl (this_getWhereConditions _ _ _ _ _) =>
      apply (cg_getWhereConditions _ Hthis); cln
  end.

Ltac cl_go := repeat first [cl_this | cl_step].

(** Computations that end in a call of [selectQuery]. *)
Ltac cls_step :=
  cbv beta iota zeta;
  lazymatch goal with
  | |- clSelect (bind _ _) => apply clSelect_bind; [ | intros ? ?; norm_hyps ]
  | |- clSelect (this_selectQuery _ _ _ _) =>
      apply (cg_selectQuery _ Hthis); cln
  | |- clSelect (match ?x with _ => _ end) => destruct_clean x
  | |- clSelect (ret (_ +:+ ";", _)) => apply clSelect_ret; cln
  | |- clSelect outOfFuel => apply clSelect_outOfFuel
  | |- clSelect stuck => apply clSelect_stuck
  | |- clSelect (throw _) => apply clSelect_throw
  | |- cl _ => first [cl_this | cl_step]
  end.

Ltac cls_go := repeat cls_step.

Lemma cl_validateOrder order : cl (validateOrder order).
Proof. unfold validateOrder. cl_go. Qed.

Lemma cl_hasModelProp v : cl (hasModelProp v).
Proof. unfold hasModelProp. cl_go. Qed.

#[local] Hint Resolve cl_validateOrder cl_hasModelProp : cl.

Lemma cl_checkDirection t : cl (checkDirection t).
Proof. unfold checkDirection. cl_go. Qed.

#[local] Hint Resolve cl_checkDirection : cl.

Lemma cl_orderStep model subQuery acc t :
  cleanb model = true -> cleanb acc = true -> cleanb t = true ->
  cl (orderStep this model subQuery acc t).
Proof. intros Hm Ha Ht. unfold orderStep. cl_go. Qed.

#[local] Hint Resolve cl_orderStep : cl.

Lemma cl_getQueryOrders order model subQuery :
  cleanb order = true -> cleanb model = true ->
  cl (getQueryOrders_ this order model subQuery).
Proof. intros Ho Hm. unfold getQueryOrders_. cl_go. Qed.

Lemma cl_addLimitAndOffset limit offset :
  cleanb limit = true -> cleanb offset = true ->
  cl (addLimitAndOffset_ this limit offset).
Proof. intros Hl Ho. unfold addLimitAndOffset_. cl_go. Qed.

Lemma cl_selectFromTableFragment attributes tables mainTableAs :
  cleanb attributes = true -> cleanb tables = true ->
  cleanb mainTableAs = true ->
  cl (selectFromTableFragment attributes tables mainTableAs).
Proof. intros Ha Ht Hm. unfold selectFromTableFragment. cl_go. Qed.

#[local] Hint Resolve cl_getQueryOrders cl_addLimitAndOffset
  cl_selectFromTableFragment : cl.

Lemma clean_parentAssociation i :
  cleanb i = true -> cleanb (parentAssociation i) = true.
Proof. intros Hi. unfold parentAssociation. cln. Qed.

Lemma clean_parentModel i : cleanb i = true -> cleanb (parentModel i) = true.
Proof. intros Hi. unfold parentModel. cln. Qed.

Lemma clean_parentAs i : cleanb i = true -> cleanb (parentAs i) = true.
Proof. intros Hi. unfold parentAs. cln. Qed.

#[local] Hint Resolve clean_parentAssociation clean_parentModel
  clean_parentAs : clean.

Lemma cl_parentIsTop include model : cl (parentIsTop include model).
Proof. unfold parentIsTop. cl_go. Qed.

Lemma clean_ancestorAliases i :
  cleanb i = true -> cleanb (ancestorAliases i) = true.
Proof.
  revert i. fix IH 1. intros i Hi.
  destruct i as [a m n r sq sqf sep ps at_ w on_ or_ th [p|] rt ch];
    [|reflexivity].
  cbn [ancestorAliases i_parent i_as].
  assert (Hp : cleanb p = true)
    by exact (clean_i_parent _ Hi).
  rewrite clean_app, (IH p Hp). cbn.
  now rewrite (clean_i_as p Hp).
Qed.

Lemma cl_fieldOf m name : cleanb m = true -> cl (fieldOf m name).
Proof. intros Hm. unfold fieldOf. cl_go. Qed.

Lemma cl_parentName include : cleanb include = true -> cl (parentName include).
Proof. intros Hi. unfold parentName. cl_go. Qed.

#[local] Hint Resolve cl_parentIsTop cl_fieldOf cl_parentName : cl.
#[local] Hint Resolve clean_ancestorAliases : clean.

Lemma cl_joinIncludeQuery model subQuery include groupedLimit :
  cleanb include = true ->
  cl (joinIncludeQuery_ this model subQuery include groupedLimit).
Proof. intros Hi. unfold joinIncludeQuery_. cl_go. Qed.

#[local] Hint Resolve cl_joinIncludeQuery : cl.

Lemma clean_setInclude i children :
  cleanb i = true -> cleanb children = true ->
  cleanb (setInclude i children) = true.
Proof.
  intros Hi Hc. rewrite cleanInclude_unfold. unfold setInclude.
  cbn [i_association i_model i_as i_attributes i_where i_on i_through
       i_parent i_root i_include].
  rewrite Hc, (clean_i_association _ Hi), (clean_i_model _ Hi),
    (clean_i_as _ Hi), (clean_i_attributes _ Hi), (clean_i_where _ Hi),
    (clean_i_on _ Hi), (clean_i_through _ Hi), (clean_i_parent _ Hi),
    (clean_i_root _ Hi).
  reflexivity.
Qed.

Lemma clean_topIncludeOf child nested :
  cleanb child = true -> cleanb nested = true ->
  cleanb (topIncludeOf child nested) = true.
Proof.
  revert child nested. fix IH 1. intros child nested Hc Hn.
  pose proof (clean_setInclude child (Some nested) Hc Hn) as Hcopy.
  pose proof (clean_i_parent _ Hc) as Hp.
  destruct child as [a m n r sq sqf sep ps at_ w on_ or_ th [p|] rt ch];
    cbn [topIncludeOf i_parent] in *; [|exact Hcopy].
  apply IH; [exact Hp|]. rewrite clean_cons, Hcopy. reflexivity.
Qed.

#[local] Hint Resolve clean_setInclude clean_topIncludeOf : clean.

Lemma cl_includeAttribute as_ attr :
  cleanb as_ = true -> cleanb attr = true -> cl (includeAttribute this as_ attr).
Proof. intros Ha Ht. unfold includeAttribute. cl_go. Qed.

Lemma cl_ensureWhere where_ : cleanb where_ = true -> cl (ensureWhere where_).
Proof. intros Hw. unfold ensureWhere. cl_go. Qed.

#[local] Hint Resolve cl_includeAttribute cl_ensureWhere : cl.

Lemma cl_throughSubQuery include :
  cleanb include = true -> cl (throughSubQuery this include).
Proof.
  intros Hi. unfold throughSubQuery.
  do 2 (apply cl_bind; [cl_go | intros ? ?; norm_hyps]).
  apply cl_bind_select; [cls_go | intros ? ? ?; cl_go].
Qed.

#[local] Hint Resolve cl_throughSubQuery : cl.

Lemma cl_generateJoinQueries depth :
  forall tableName mainTableAs subQuery mainModel options include parentTable st,
  cleanb tableName = true -> cleanb mainTableAs = true ->
  cleanb mainModel = true -> cleanb options = true ->
  cleanb include = true -> cleanb parentTable = true -> cleanb st = true ->
  cl (generateJoinQueries this depth tableName mainTableAs subQuery mainModel
        options include parentTable st).
Proof.
  induction depth as [|depth IH];
    intros tableName mainTableAs subQuery mainModel options include
      parentTable st Ht Ha Hm Ho Hi Hp Hs;
    cbn [generateJoinQueries]; [apply cl_outOfFuel|].
  cl_go.
Qed.

#[local] Hint Resolve cl_generateJoinQueries : cl.

Lemma cl_index attr i : cleanb attr = true -> cl (index attr i).
Proof.
  intros Ha. unfold index.
  destruct attr; norm_hyps; try solve [cl_go].
  apply cl_ret. destruct (String.get i s) eqn:Hg; [|reflexivity].
  exact (clean_get _ _ _ Ha Hg).
Qed.

#[local] Hint Resolve cl_index : cl.

Lemma cl_mentionsKey keyAtt attr :
  cleanb attr = true -> cl (mentionsKey keyAtt attr).
Proof. intros Ha. unfold mentionsKey. cl_go. Qed.

#[local] Hint Resolve cl_mentionsKey : cl.

Lemma cl_addPrimaryKey model mainAttributes keyAtt :
  cleanb model = true -> cleanb mainAttributes = true ->
  cleanb keyAtt = true -> cl (addPrimaryKey model mainAttributes keyAtt).
Proof. intros Hm Ha Hk. unfold addPrimaryKey. cl_go. Qed.

#[local] Hint Resolve cl_addPrimaryKey : cl.

Lemma cl_addPrimaryKeys model mainAttributes :
  cleanb model = true -> cleanb mainAttributes = true ->
  cl (addPrimaryKeys model mainAttributes).
Proof. intros Hm Ha. unfold addPrimaryKeys. cl_go. Qed.

Lemma cl_escapeAttribute hasInclude mainTableAs attr :
  cleanb mainTableAs = true -> cleanb attr = true ->
  cl (escapeAttribute this hasInclude mainTableAs attr).
Proof. intros Hm Ha. unfold escapeAttribute. cl_go. Qed.

Lemma cl_groupedWhere where_ on value :
  cleanb where_ = true -> cleanb on = true -> cleanb value = true ->
  cl (groupedWhere where_ on value).
Proof. intros Hw Ho Hv. unfold groupedWhere. cl_go. Qed.

#[local] Hint Resolve cl_addPrimaryKeys cl_escapeAttribute cl_groupedWhere : cl.

Lemma clean_branchOptions options gl where_ :
  cleanb options = true -> cleanb gl = true -> cleanb where_ = true ->
  cleanb (branchOptions options gl where_) = true.
Proof. intros Ho Hg Hw. unfold branchOptions. cln. Qed.

#[local] Hint Resolve clean_branchOptions : clean.

Lemma cl_groupedBranch options gl model table where_ value :
  cleanb options = true -> cleanb gl = true -> cleanb model = true ->
  cleanb table = true -> cleanb where_ = true -> cleanb value = true ->
  cl (groupedBranch this options gl model table where_ value).
Proof. intros Ho Hg Hm Ht Hw Hv. unfold groupedBranch. cl_go. Qed.

#[local] Hint Resolve cl_groupedBranch : cl.

Lemma cl_selectPrelude depth tableName options model :
  cleanb tableName = true -> cleanb options = true -> cleanb model = true ->
  cl (selectPrelude this depth tableName options model).
Proof. intros Ht Ho Hm. unfold selectPrelude. cl_go. Qed.

#[local] Hint Resolve cl_selectPrelude : cl.

Lemma clSelect_selectQuery depth tableName options model :
  cleanb tableName = true -> cleanb options = true -> cleanb model = true ->
  clSelect (selectQuery_ this depth tableName options model).
Proof.
  intros Ht Ho Hm. unfold selectQuery_. cls_go.
  apply cl_selectFromTableFragment; cln.
Qed.

End CleanSelect.

(** Every level of the method table keeps semicolons out. *)
Lemma generator_clean `{E : Env} (HE : CleanEnv E) (fuel : nat) :
  clGen (generator fuel).
Proof.
  induction fuel as [|fuel IH]; cbn [generator].
  - constructor; intros; cbn; first [apply cl_outOfFuel | apply clSelect_outOfFuel].
  - constructor; cbn [this_quote this_escape this_handleSequelizeMethod
      this_whereItemsQuery this_whereItemQuery this_getWhereConditions
      this_selectQuery]; intros.
    + now apply cl_quote.
    + now apply cl_escape.
    + now apply cl_handleSequelizeMethod.
    + now apply cl_whereItemsQuery.
    + now apply cl_whereItemQuery.
    + now apply cl_getWhereConditions.
    + now apply clSelect_selectQuery.
Qed.

(** The test dialect writes no semicolon of its own. *)
Lemma clean_unbracket s : cleanb s = true -> cleanb (TestDialect.unbracket s) = true.
Proof.
  expose. induction s as [|c s IH]; cbn [cleanS TestDialect.unbracket]; [easy|].
  intros [Hc Hs]%andb_true_iff.
  destruct (Ascii.eqb c "[" || Ascii.eqb c "]"); [auto|].
  cbn [cleanS]. now rewrite Hc, IH.
Qed.

Lemma clean_escape_val v : cleanb v = true -> cleanb (TestDialect.escape_val v) = true.
Proof.
  induction v as [v IH] using jsval_elements_ind. intros Hv.
  destruct v; try reflexivity.
  - now destruct b.
  - apply clean_string_of_Z.
  - cbn [TestDialect.escape_val]. change (cleanb s = true) in Hv.
    rewrite !cleanS_append, Hv. reflexivity.
  - specialize (IH items eq_refl). rewrite clean_JArr in Hv.
    cbn [TestDialect.escape_val].
    induction items as [|x items IHitems]; [reflexivity|].
    rewrite clean_cons in Hv. apply andb_true_iff in Hv as [Hx Hitems].
    inversion IH as [|? ? Hx' Hitems']; subst.
    destruct items as [|y items]; [now apply Hx'|].
    rewrite !cleanS_append, (Hx' Hx). cbn [andb].
    rewrite (IHitems Hitems' Hitems). reflexivity.
Qed.

Lemma TestDialect_clean associations :
  (forall parent model as_, cleanb (associations parent model as_) = true) ->
  CleanEnv (TestDialect.envWith associations).
Proof.
  intros Hassoc. constructor; cbn.
  - intros s force Hs. unfold TestDialect.quote_id.
    rewrite !cleanS_append, (clean_unbracket s Hs). reflexivity.
  - intros h v _ Hv. now apply clean_escape_val.
  - discriminate.
  - reflexivity.
  - intros. apply Hassoc.
  - reflexivity.
  - reflexivity.
  - apply clean_toUpperCase.
Qed.

(** C8: a statement that [selectQuery] returns is a text followed by
    one [;], and that text holds no semicolon whenever the inputs hold
    none (the store of condition objects, the table, the options and the
    model) and the quoting and escaping of the dialect add none.  The
    statements of the nested calls (grouped-limit branches, the
    sub-selects of required includes) thus reach the result without
    their terminators. *)
Theorem selectQuery_one_terminator `{E : Env} (fuel : nat)
    (tableName : TableArg) (options : SelectOptions)
    (model : option ModelMeta) (h : heap)
    (q : string) (options' : SelectOptions) (h' : heap) :
  selectQuery fuel tableName options model h = Ret (q, options') h' ->
  exists body,
    q = body +:+ ";"
    /\ (CleanEnv E -> cleanb h = true -> cleanb tableName = true ->
        cleanb options = true -> cleanb model = true ->
        Str.count ";" body = 0).
Proof.
  intros Hrun. unfold selectQuery in Hrun.
  destruct fuel as [|fuel]; [discriminate Hrun|].
  pose proof Hrun as Hshape. cbn [generator this_selectQuery] in Hshape.
  apply selectQuery_result in Hshape as (body & _ & _ & _ & -> & _).
  exists body. split; [reflexivity|].
  intros HE Hh Ht Ho Hm.
  pose proof (cg_selectQuery _ (generator_clean HE (S fuel)) tableName options
                model Ht Ho Hm h Hh) as Hsel.
  rewrite Hrun in Hsel. destruct Hsel as [_ (body' & Heq & Hbody)].
  apply (f_equal Str.stripSemicolon) in Heq.
  rewrite !stripSemicolon_append in Heq. subst body'.
  now apply cleanS_count.
Qed.

Lemma selectQuery_one_terminator_witness :
  exists body,
    "SELECT [posts].* FROM ((SELECT [name] FROM [posts] AS [posts] WHERE [posts].[active] = true AND [posts].[userId] = 1 LIMIT 3) UNION ALL (SELECT [name] FROM [posts] AS [posts] WHERE [posts].[active] = true AND [posts].[userId] = 2 LIMIT 3)) AS [posts];"
    = body +:+ ";" /\ Str.count ";" body = 0.
Proof.
  destruct (selectQuery_one_terminator (E := TestDialect.env)
              7 (TATable (TName "posts")) (Examples.selectGrouped false)
              (Some Examples.posts) Examples.activeOnly
              "SELECT [posts].* FROM ((SELECT [name] FROM [posts] AS [posts] WHERE [posts].[active] = true AND [posts].[userId] = 1 LIMIT 3) UNION ALL (SELECT [name] FROM [posts] AS [posts] WHERE [posts].[active] = true AND [posts].[userId] = 2 LIMIT 3)) AS [posts];"
              (Examples.selectGrouped false)
              [[("active", JBool true)];
               [("active", JBool true); ("userId", JNum 1)];
               [("active", JBool true); ("userId", JNum 2)]])
    as (body & Hq & Hcount); [vm_compute; reflexivity|].
  exists body. split; [exact Hq|].
  apply Hcount; try reflexivity.
  apply (TestDialect_clean (fun _ _ _ => None)). reflexivity.
Defined.

(* ================================================================= *)
(** ** Dotted identifiers *)

Lemma contains_dot_cons c s :
  Str.contains "." (String c s) = Ascii.eqb c "." || Str.contains "." s.
Proof.
  unfold Str.contains, Str.indexOf. cbn [String.index String.prefix].
  destruct (ascii_dec "." c) as [<-|Hne].
  - cbn. now destruct s.
  - assert (Ascii.eqb c "." = false) as ->
      by (apply Ascii.eqb_neq; congruence).
    cbn [orb]. now destruct (String.index 0 "." s).
Qed.

Lemma contains_dot_app a b :
  Str.contains "." (a +:+ b) = Str.contains "." a || Str.contains "." b.
Proof.
  induction a as [|c a IH]; [reflexivity|].
  cbn [append]. rewrite !contains_dot_cons, IH. now rewrite orb_assoc.
Qed.

Lemma split_go_nonempty sep skip cur s : Str.split_go sep skip cur s <> [].
Proof.
  revert skip cur. induction s as [|c s IH]; intros skip cur; cbn [Str.split_go].
  - discriminate.
  - destruct skip; [|apply IH]. destruct (String.prefix sep (String c s)); [discriminate|apply IH].
Qed.

Lemma prefix_dot c s : String.prefix "." (String c s) = Ascii.eqb c ".".
Proof.
  cbn [String.prefix]. destruct (ascii_dec "." c) as [<-|Hne].
  - now destruct s.
  - symmetry. apply Ascii.eqb_neq. congruence.
Qed.

Lemma join_cons_nonempty sep x l :
  l <> [] -> Str.join sep (x :: l) = x +:+ sep +:+ Str.join sep l.
Proof. destruct l; [congruence|reflexivity]. Qed.

(** Splitting at the dots and joining with dots gives the text back. *)
Lemma join_split_go cur s :
  Str.join "." (Str.split_go "." 0 cur s) = cur +:+ s.
Proof.
  revert cur. induction s as [|c s IH]; intros cur; cbn [Str.split_go].
  - cbn. now rewrite append_empty.
  - rewrite prefix_dot. destruct (Ascii.eqb c ".") eqn:Hc.
    + apply Ascii.eqb_eq in Hc as ->. cbn [String.length Nat.sub].
      rewrite join_cons_nonempty by apply split_go_nonempty.
      now rewrite IH.
    + rewrite IH, append_assoc. reflexivity.
Qed.

Lemma split_go_no_dot cur s :
  Str.contains "." cur = false ->
  Forall (fun part => Str.contains "." part = false) (Str.split_go "." 0 cur s).
Proof.
  revert cur. induction s as [|c s IH]; intros cur Hcur; cbn [Str.split_go].
  - now constructor.
  - rewrite prefix_dot. destruct (Ascii.eqb c ".") eqn:Hc.
    + constructor; [exact Hcur|]. now apply IH.
    + apply IH. rewrite contains_dot_app, Hcur, contains_dot_cons, Hc.
      reflexivity.
Qed.

Lemma split_go_single cur s :
  (exists part, Str.split_go "." 0 cur s = [part]) ->
  Str.contains "." s = false.
Proof.
  revert cur. induction s as [|c s IH]; intros cur [part Hp]; [reflexivity|].
  cbn [Str.split_go] in Hp. rewrite prefix_dot in Hp.
  rewrite contains_dot_cons. destruct (Ascii.eqb c ".") eqn:Hc.
  - injection Hp as _ Hp. now apply split_go_nonempty in Hp.
  - cbn [orb]. apply (IH (cur +:+ String c "")). now exists part.
Qed.

Lemma join_removelast_last (l : list string) :
  (2 <= length l)%nat ->
  Str.join "." l = Str.join "." (removelast l) +:+ "." +:+ List.last l "".
Proof.
  induction l as [|x l IH]; cbn [length]; [lia|]. intros Hlen.
  destruct l as [|y l]; [cbn [length] in Hlen; lia|].
  destruct l as [|z l].
  - reflexivity.
  - change (removelast (x :: y :: z :: l)) with (x :: removelast (y :: z :: l)).
    change (List.last (x :: y :: z :: l) "") with (List.last (y :: z :: l) "").
    rewrite (join_cons_nonempty "." x (y :: z :: l)) by discriminate.
    rewrite IH by (cbn [length]; lia).
    rewrite (join_cons_nonempty "." x (removelast (y :: z :: l)))
      by (cbn; discriminate).
    now rewrite !append_assoc.
Qed.

(** X1: an identifier that holds a dot is quoted in two parts, cut at
    its last dot: what precedes the last dot is quoted as one identifier,
    dots included, and what follows it as another.  The [force] argument
    is not handed on: both parts are quoted without it, whatever it
    is. *)
Theorem quoteIdentifiers_last_dot `{E : Env} (identifiers : string)
    (force : bool) :
  Str.contains "." identifiers = true ->
  exists qualifier name,
    identifiers = qualifier +:+ "." +:+ name
    /\ Str.contains "." name = false
    /\ quoteIdentifiers identifiers force
       = quoteIdentifier qualifier false +:+ "." +:+ quoteIdentifier name false.
Proof.
  intros Hdot. unfold quoteIdentifiers. rewrite Hdot.
  set (parts := Str.split "." identifiers).
  exists (Str.join "." (removelast parts)), (List.last parts "").
  assert (Hlen : (2 <= length parts)%nat).
  { destruct parts as [|x [|y l]] eqn:Hp; cbn [length]; try lia.
    - now apply split_go_nonempty in Hp.
    - assert (Str.contains "." identifiers = false) as Hn
        by (apply (split_go_single ""); now exists x).
      congruence. }
  split; [|split; [|reflexivity]].
  - rewrite <- join_removelast_last by exact Hlen.
    unfold parts, Str.split. now rewrite join_split_go.
  - pose proof (split_go_no_dot "" identifiers eq_refl) as Hall.
    fold (Str.split "." identifiers) in Hall. fold parts in Hall.
    rewrite List.Forall_forall in Hall. apply Hall.
    assert (Hne : parts <> []) by (intros Heq; rewrite Heq in Hlen; cbn in Hlen; lia).
    rewrite (app_removelast_last "" Hne) at 2.
    apply in_or_app. right. now left.
Qed.

Lemma quoteIdentifiers_last_dot_witness :
  exists qualifier name,
    "public.users.id" = qualifier +:+ "." +:+ name
    /\ Str.contains "." name = false
    /\ quoteIdentifiers (E := TestDialect.env) "public.users.id" true
       = quoteIdentifier (Env := TestDialect.env) qualifier false
           +:+ "." +:+ quoteIdentifier (Env := TestDialect.env) name false.
Proof.
  apply (quoteIdentifiers_last_dot (E := TestDialect.env) "public.users.id" true).
  reflexivity.
Defined.

(* ================================================================= *)
(** ** LIMIT and OFFSET *)

Lemma notNullish_absent v : notNullish v = false <-> absent v.
Proof.
  unfold absent. destruct v; cbn; split; try discriminate; auto;
    intros [?|?]; discriminate.
Qed.

(** X2: the LIMIT fragment is empty exactly when both the limit and the
    offset are [null] or [undefined]; any other limit, [0] included,
    gives a fragment that starts with [ LIMIT ], and an offset without a
    limit is given the limit 10000000000000. *)
Theorem addLimitAndOffset_fragment `{E : Env} (fuel : nat)
    (limit offset : jsval) (h h' : heap) (fragment : string) :
  addLimitAndOffset fuel limit offset h = Ret fragment h' ->
  (absent limit /\ absent offset -> fragment = "")
  /\ (~ (absent limit /\ absent offset) ->
      exists rest, fragment = " LIMIT " +:+ rest)
  /\ (absent limit -> ~ absent offset ->
      exists os, fragment = " LIMIT " +:+ os +:+ ", 10000000000000").
Proof.
  unfold addLimitAndOffset, addLimitAndOffset_. intros Hrun.
  rewrite <- !notNullish_absent.
  destruct (notNullish offset) eqn:Ho, (notNullish limit) eqn:Hl;
    cbn [andb negb] in Hrun;
    repeat match type of Hrun with
           | bind _ _ _ = Ret _ _ =>
               let a := fresh "a" in
               let h1 := fresh "h" in
               apply bind_inv in Hrun as (a & h1 & _ & Hrun)
           end;
    unfold ret in Hrun;
    apply (f_equal (fun o => match o with Ret a _ => a | _ => "" end)) in Hrun;
    cbv beta iota in Hrun; subst fragment;
    (split; [|split]).
  all: try solve [intros [? ?]; discriminate].
  all: try solve [intros; discriminate].
  all: try solve [intros; eexists; reflexivity].
  all: try solve [intros H; exfalso; apply H; now split].
  all: try solve [intros; congruence].
  all: try solve [intros _ H; exfalso; now apply H].
Qed.

Lemma addLimitAndOffset_fragment_witness :
  (absent (JNum 0) /\ absent JUndefined -> " LIMIT 0" = "")
  /\ (~ (absent (JNum 0) /\ absent JUndefined) ->
      exists rest, " LIMIT 0" = " LIMIT " +:+ rest)
  /\ (absent (JNum 0) -> ~ absent JUndefined ->
      exists os, " LIMIT 0" = " LIMIT " +:+ os +:+ ", 10000000000000").
Proof.
  apply (addLimitAndOffset_fragment (E := TestDialect.env) 2 (JNum 0)
           JUndefined [] []).
  reflexivity.
Defined.

(* ================================================================= *)
(** ** Conditions *)

(** X3: the WHERE clause compiled from a condition holds no semicolon
    when the store of condition objects, the condition and the options
    hold none and the quoting and escaping of the dialect add none. *)
Theorem whereQuery_no_terminator `{E : Env} (fuel : nat) (where_ : jsval)
    (options : WhereOptions) (h h' : heap) (q : string) :
  CleanEnv E -> cleanb h = true -> cleanb where_ = true ->
  cleanb options = true ->
  whereQuery fuel where_ options h = Ret q h' ->
  Str.count ";" q = 0.
Proof.
  intros HE Hh Hw Ho Hrun.
  pose proof (cl_whereQuery (generator fuel) (generator_clean HE fuel)
                where_ options Hw Ho h Hh) as Hcl.
  unfold whereQuery in Hrun. rewrite Hrun in Hcl.
  apply cleanS_count. apply Hcl.
Qed.

Lemma whereQuery_no_terminator_witness :
  Str.count ";" "WHERE ([name] = 'a' OR [name] = 'b') AND [age] > 18" = 0.
Proof.
  apply (whereQuery_no_terminator (E := TestDialect.env) 6 (JRef 0) noOptions
           [ [("$or", JArr [JRef 1; JRef 2]); ("age", JRef 3)];
             [("name", JStr "a")]; [("name", JStr "b")]; [("$gt", JNum 18)] ]
           [ [("$or", JArr [JRef 1; JRef 2]); ("age", JRef 3)];
             [("name", JStr "a")]; [("name", JStr "b")]; [("$gt", JNum 18)] ]);
    try reflexivity.
  apply (TestDialect_clean (fun _ _ _ => None)). reflexivity.
Defined.

(** X4: a condition given as a string is never compiled: [whereQuery],
    [whereItemsQuery] and [getWhereConditions] raise the error of the
    removed raw-where support, the empty string included, and leave the
    store as it was. *)
Theorem raw_string_where_rejected `{E : Env} (fuel : nat) (s : string)
    (options : WhereOptions) (binding : option string) (tableName : TableArg)
    (factory : option ModelMeta) (prepend : option bool) (h : heap) :
  whereItemsQuery (S fuel) (JStr s) options binding h = Throw RawWhereRemoved h
  /\ whereQuery (S fuel) (JStr s) options h = Throw RawWhereRemoved h
  /\ getWhereConditions (S (S fuel)) (JStr s) tableName factory prepend h
     = Throw RawWhereRemoved h.
Proof. repeat split; try reflexivity. now destruct s. Qed.

(** X5: [getWhereConditions] falls back to [1=1] for an empty array and
    for a value that is no condition at all ([undefined], a boolean),
    but hands on the empty text for [null] and for an object without
    keys. *)
Theorem getWhereConditions_fallback `{E : Env} (fuel : nat)
    (tableName : TableArg) (factory : option ModelMeta)
    (prepend : option bool) (h : heap) (l : loc) (b : bool) :
  h !! l = Some [] ->
  getWhereConditions (S (S fuel)) (JArr []) tableName factory prepend h
  = Ret (JStr "1=1") h
  /\ getWhereConditions (S (S fuel)) JUndefined tableName factory prepend h
     = Ret (JStr "1=1") h
  /\ getWhereConditions (S (S fuel)) (JBool b) tableName factory prepend h
     = Ret (JStr "1=1") h
  /\ getWhereConditions (S (S fuel)) JNull tableName factory prepend h
     = Ret (JStr "") h
  /\ getWhereConditions (S (S fuel)) (JRef l) tableName factory prepend h
     = Ret (JStr "") h.
Proof.
  intros Hl. repeat split; try reflexivity.
  - now destruct b.
  - unfold getWhereConditions. cbn [generator this_getWhereConditions].
    unfold getWhereConditions_. cbn [truthy isSequelizeMethod].
    cbv [bind Heap.prop Heap.read ret]. rewrite Hl. cbn [Obj.get assoc truthy].
    cbn [this_whereItemsQuery]. unfold whereItemsQuery_, isEmptyWhere.
    cbv [bind Heap.read ret]. now rewrite Hl.
Qed.

Lemma getWhereConditions_fallback_witness :
  getWhereConditions (E := TestDialect.env) 2 (JArr []) TAUndefined None None [[]]
  = Ret (JStr "1=1") [[]]
  /\ getWhereConditions (E := TestDialect.env) 2 JUndefined TAUndefined None None [[]]
     = Ret (JStr "1=1") [[]]
  /\ getWhereConditions (E := TestDialect.env) 2 (JBool true) TAUndefined None None [[]]
     = Ret (JStr "1=1") [[]]
  /\ getWhereConditions (E := TestDialect.env) 2 JNull TAUndefined None None [[]]
     = Ret (JStr "") [[]]
  /\ getWhereConditions (E := TestDialect.env) 2 (JRef 0) TAUndefined None None [[]]
     = Ret (JStr "") [[]].
Proof.
  apply (getWhereConditions_fallback (E := TestDialect.env) 0 TAUndefined None
           None [[]] 0 true).
  reflexivity.
Defined.

(** X24: the text of a Literal is never escaped or quoted: [escape],
    [quote], [handleSequelizeMethod] and, for a non-empty text,
    [getWhereConditions] give it back as it is, for any field, model
    and table. *)
Theorem literal_verbatim `{E : Env} (fuel : nat) (val : string)
    (field : option Attribute) (options : EscapeOptions)
    (model : option ModelMeta) (force : bool) (tableName : TableArg)
    (prepend : option bool) (h : heap) :
  escape (S (S fuel)) (JLiteral val) field options h = Ret (JStr val) h
  /\ quote (S (S fuel)) (JLiteral val) model force h = Ret (JStr val) h
  /\ handleSequelizeMethod (S fuel) (JLiteral val) tableName model prepend h
     = Ret (JStr val) h
  /\ (val <> "" ->
      getWhereConditions (S (S fuel)) (JLiteral val) tableName model prepend h
      = Ret (JStr val) h).
Proof.
  repeat split; try reflexivity.
  intros Hval. unfold getWhereConditions.
  cbn [generator this_getWhereConditions]. unfold getWhereConditions_.
  cbn [truthy isSequelizeMethod]. cbv [bind ret].
  cbn [generator this_handleSequelizeMethod handleSequelizeMethod_].
  cbv [ret]. cbn [truthy]. apply String.eqb_neq in Hval. now rewrite Hval.
Qed.

(* ================================================================= *)
(** ** ORDER BY *)

Lemma orderStep_lengths `{E : Env} this model subQuery acc t (h h' : heap) acc' :
  orderStep this model subQuery acc t h = Ret acc' h' ->
  length (fst acc') = S (length (fst acc))
  /\ (length (snd acc') <= S (length (snd acc)))%nat
  /\ (subQuery = false -> snd acc' = snd acc).
Proof.
  unfold orderStep. intros Hrun.
  apply bind_inv in Hrun as (u & h1 & _ & Hrun).
  apply bind_inv in Hrun as (toSub & h2 & HtoSub & Hrun).
  apply bind_inv in Hrun as (sub & h3 & Hsub & Hrun).
  apply bind_inv in Hrun as (q & h4 & _ & Hrun).
  unfold ret in Hrun. injection Hrun as <- _. cbn [fst snd].
  rewrite length_app. cbn [length]. split; [lia|].
  destruct toSub.
  - apply bind_inv in Hsub as (q' & h5 & _ & Hsub).
    unfold ret in Hsub. injection Hsub as <- _.
    rewrite length_app. cbn [length]. split; [lia|].
    intros ->. cbn [andb] in HtoSub. unfold ret in HtoSub. discriminate.
  - unfold ret in Hsub. injection Hsub as <- _. split; [lia|reflexivity].
Qed.

(** X6: an [order] given as an array puts one entry per element into the
    ordering of the main query; the ordering of the subquery takes some
    of them, and none when no subquery is built. *)
Theorem getQueryOrders_counts `{E : Env} (fuel : nat) (ts : list jsval)
    (model : option ModelMeta) (subQuery : bool) (h h' : heap)
    (mainQueryOrder subQueryOrder : list jsval) :
  getQueryOrders fuel (JArr ts) model subQuery h
  = Ret (mainQueryOrder, subQueryOrder) h' ->
  length mainQueryOrder = length ts
  /\ (length subQueryOrder <= length ts)%nat
  /\ (subQuery = false -> subQueryOrder = []).
Proof.
  unfold getQueryOrders, getQueryOrders_.
  set (this := generator fuel).
  enough (Hgen : forall acc acc' (h h' : heap),
             foldM (orderStep this model subQuery) acc ts h = Ret acc' h' ->
             length (fst acc') = length (fst acc) + length ts
             /\ (length (snd acc') <= length (snd acc) + length ts)%nat
             /\ (subQuery = false -> snd acc' = snd acc)).
  { intros Hrun. apply Hgen in Hrun. cbn [fst snd length] in Hrun.
    destruct Hrun as (Hm & Hs & Hn). repeat split; auto. }
  induction ts as [|t ts IH]; intros acc acc' h0 h1; cbn [foldM].
  - unfold ret. intros [= <- _]. cbn [length]. repeat split; auto; lia.
  - intros Hrun. apply bind_inv in Hrun as (acc1 & h2 & Hstep & Hrun).
    apply orderStep_lengths in Hstep as (Hm1 & Hs1 & Hn1).
    apply IH in Hrun as (Hm & Hs & Hn). cbn [length].
    repeat split; [lia | lia |].
    intros Hsq. now rewrite (Hn Hsq), (Hn1 Hsq).
Qed.

Lemma getQueryOrders_counts_witness :
  length [JStr "[User].[name] DESC"; JStr "[User].[id]"]
  = length [JArr [JStr "name"; JStr "DESC"]; JArr [JStr "id"]]
  /\ (length (@nil jsval)
      <= length [JArr [JStr "name"; JStr "DESC"]; JArr [JStr "id"]])%nat
  /\ (false = false -> @nil jsval = []).
Proof.
  apply (getQueryOrders_counts (E := TestDialect.env) 3
           [JArr [JStr "name"; JStr "DESC"]; JArr [JStr "id"]]
           (Some Examples.users) false [] []).
  reflexivity.
Defined.

(** X7: an [order] given as a string reaches the statement as it is: it
    is taken as literal text, neither quoted nor checked against the
    directions. *)
Theorem getQueryOrders_string_verbatim `{E : Env} (fuel : nat) (s : string)
    (model : option ModelMeta) (subQuery : bool) (h : heap) :
  getQueryOrders (S (S fuel)) (JStr s) model subQuery h
  = Ret ([JStr s], []) h.
Proof. reflexivity. Qed.

(* ================================================================= *)
(** ** Statements that change rows *)

Section MutationProperties.

Context {E : Env}.

Lemma update_values_skipped fuel map_ (entries : object) :
  Forall (fun entry =>
            isAutoIncrement map_ (fst entry)
            && negb (ai_update (autoIncrement supports)) = true) entries ->
  forall (values values' : list string) (h h' : heap),
  foldM (fun values (entry : string * jsval) =>
           if isAutoIncrement map_ (fst entry)
              && negb (ai_update (autoIncrement supports))
           then ret values
           else
             let* v := escape fuel (snd entry) (assoc (fst entry) map_)
                         (mkEscapeOptions false false (Some "UPDATE")) in
             let* vs := str v in
             ret (values ++ [quoteIdentifier (fst entry) false +:+ "=" +:+ vs]))
        values entries h = Ret values' h' ->
  values' = values.
Proof.
  induction 1 as [|entry entries Hentry _ IH]; intros values values' h h';
    cbn [foldM].
  - unfold ret. now intros [= <- _].
  - rewrite Hentry. unfold bind at 1, ret at 1. apply IH.
Qed.

(** X8: [updateQuery] returns the empty text, and no statement, when
    it is left with no column to set: the value hash is empty, or every
    key of it is an auto-increment column and the dialect does not
    update those. *)
Theorem updateQuery_nothing_to_set (fuel : nat) (tableName : TableRef)
    (attrValueHash : object) (where_ : jsval) (options : UpdateOptions)
    (attributes : option (list (string * Attribute)))
    (h h' : heap) (q : string) (options' : UpdateOptions) :
  Forall (fun entry =>
            isAutoIncrement
              (match attributes with
               | Some attrs => modelAttributeMap attrs
               | None => []
               end) (fst entry)
            && negb (ai_update (autoIncrement supports)) = true)
    (removeNullValuesFromHash attrValueHash
       (match uo_omitNull options with Some b => b | None => omitNull end)
       (uo_allowNull options)) ->
  updateQuery fuel tableName attrValueHash where_ options attributes h
  = Ret (q, options') h' ->
  q = "".
Proof.
  intros Hall Hrun. unfold updateQuery in Hrun.
  apply bind_inv in Hrun as (query & h1 & _ & Hrun).
  apply bind_inv in Hrun as ([[[query' outputFragment] tmpTable] mapToModel] & h2 & _ & Hrun).
  apply bind_inv in Hrun as (values & h3 & Hvalues & Hrun).
  apply bind_inv in Hrun as (qTable & h4 & _ & Hrun).
  apply bind_inv in Hrun as (w & h5 & _ & Hrun).
  apply (update_values_skipped _ _ _ Hall) in Hvalues. subst values.
  unfold ret in Hrun. congruence.
Qed.

Lemma length_removelast_snoc {A} (l : list A) (a : A) :
  removelast (l ++ [a]) = l.
Proof. apply removelast_last. Qed.

Lemma insertStep_balanced fuel map_ row entry (h h' : heap) row' :
  insertStep fuel map_ row entry h = Ret row' h' ->
  length (ir_fields row) = length (ir_values row) ->
  length (ir_fields row') = length (ir_values row').
Proof.
  unfold insertStep. intros Hrun Hlen.
  repeat match type of Hrun with
         | (if ?c then _ else _) _ = Ret _ _ => destruct c
         | bind _ _ _ = Ret _ _ =>
             let v := fresh "v" in
             let h1 := fresh "h" in
             apply bind_inv in Hrun as (v & h1 & _ & Hrun)
         end;
    unfold ret in Hrun; injection Hrun as <- _;
    cbn [ir_fields ir_values];
    rewrite ?length_removelast_snoc, ?length_app; cbn [length]; lia.
Qed.

(** X9: the loop of [insertQuery] over the value hash keeps the column
    list and the value list of the statement at the same length: a
    column is dropped again exactly when no value is written for it. *)
Theorem insertQuery_columns_match_values (fuel : nat)
    (map_ : list (string * Attribute)) (valueHash : object)
    (h h' : heap) (row : insertRow) :
  foldM (insertStep fuel map_) (mkInsertRow [] [] false) valueHash h
  = Ret row h' ->
  length (ir_fields row) = length (ir_values row).
Proof.
  enough (Hgen : forall row0 (h0 : heap),
             length (ir_fields row0) = length (ir_values row0) ->
             foldM (insertStep fuel map_) row0 valueHash h0 = Ret row h' ->
             length (ir_fields row) = length (ir_values row))
    by (apply Hgen; reflexivity).
  induction valueHash as [|entry valueHash IH]; intros row0 h0 Hlen; cbn [foldM].
  - unfold ret. intros [= <- _]. exact Hlen.
  - intros Hrun. apply bind_inv in Hrun as (row1 & h1 & Hstep & Hrun).
    apply (IH row1 h1); [|exact Hrun].
    exact (insertStep_balanced _ _ _ _ _ _ _ Hstep Hlen).
Qed.

(** X10: with no column to insert, [insertQuery] falls back to the
    form without a column list: [DEFAULT VALUES] where the dialect has
    it, else [VALUES ()] where the dialect has that, else no value part
    at all. *)
Theorem insertQuery_without_columns (fuel : nat) (table : TableRef)
    (valueHash : object) (modelAttributes : option (list (string * Attribute)))
    (hasTrigger : bool) (h : heap) (qTable : string) :
  removeNullValuesFromHash valueHash omitNull [] = [] ->
  quoteTable table AsNone = Some qTable ->
  insertQuery fuel table valueHash modelAttributes
    (mkInsertOptions false hasTrigger None None false) h
  = Ret ("INSERT INTO " +:+ qTable
           +:+ (if DEFAULT_VALUES supports then " DEFAULT VALUES"
                else if VALUES_EMPTY supports then " VALUES ()" else "")
           +:+ ";",
         mkInsertOptions false hasTrigger None None false) h.
Proof.
  intros Hempty Htable. unfold insertQuery, insertTemplates.
  cbn [io_returning io_hasTrigger io_exception io_onDuplicate io_ignore
       nonEmpty isSome andb].
  rewrite Hempty, Htable, andb_false_r.
  destruct (returnValues supports), (ON_DUPLICATE_KEY supports),
    (DEFAULT_VALUES supports), (VALUES_EMPTY supports);
    cbv [bind ret foldM joinVals mapM ofOption Str.join String.concat
         ir_fields ir_values ir_identityWrapperRequired andb String.eqb];
    unfold render; cbn [app map assoc String.eqb Ascii.eqb Bool.eqb];
    rewrite ?concat_cons; cbn [String.concat];
    rewrite ?append_empty; reflexivity.
Qed.

End MutationProperties.

Lemma updateQuery_nothing_to_set_witness : "" = "".
Proof.
  apply (updateQuery_nothing_to_set (E := IdentityDialect.env) 3
           (TName "users") [("id", JNum 7)] (JRef 0) Examples.plainUpdate
           (Some Examples.serialId) [[("id", JNum 7)]] [[("id", JNum 7)]] ""
           (mkUpdateOptions JUndefined false false (Some false) [] false)).
  - repeat constructor.
  - reflexivity.
Defined.

Lemma insertQuery_columns_match_values_witness :
  length ["[name]"] = length [JStr "'x'"].
Proof.
  apply (insertQuery_columns_match_values (E := IdentityDialect.env) 2
           (modelAttributeMap Examples.serialId)
           [("id", JNull); ("name", JStr "x")] [] []
           (mkInsertRow ["[name]"] [JStr "'x'"] false)).
  reflexivity.
Defined.

Lemma insertQuery_without_columns_witness :
  insertQuery (E := TestDialect.env) 1 (TName "users") [] None
    (mkInsertOptions false false None None false) []
  = Ret ("INSERT INTO [users] DEFAULT VALUES;",
         mkInsertOptions false false None None false) [].
Proof.
  apply (insertQuery_without_columns (E := TestDialect.env) 1 (TName "users")
           [] None false [] "[users]"); reflexivity.
Defined.

(* ================================================================= *)
(** ** Tables and schemas *)

Lemma strOr_nonempty a b : b <> "" -> strOr a b <> "".
Proof.
  intros Hb. unfold strOr. destruct a as [s|]; [|exact Hb].
  destruct (String.eqb s "") eqn:Hs; [exact Hb|]. now apply String.eqb_neq.
Qed.

(** X13: the details extracted from a table never have an empty schema
    or delimiter ([public] and [.] stand in), and the schema of a table
    object goes before the one of the options. *)
Theorem extractTableDetails_defaults (tableName : option TableRef)
    (schema delimiter : option string) :
  td_schema (extractTableDetails tableName schema delimiter) <> ""
  /\ td_delimiter (extractTableDetails tableName schema delimiter) <> ""
  /\ (forall t own,
        tableName = Some (TObj t) -> nonEmpty (t_schema t) = Some own ->
        td_schema (extractTableDetails tableName schema delimiter) = own)
  /\ (nonEmpty schema = None ->
      (forall t, tableName = Some (TObj t) -> nonEmpty (t_schema t) = None) ->
      td_schema (extractTableDetails tableName schema delimiter) = "public").
Proof.
  repeat split.
  - destruct tableName as [[n|t]|]; cbn; repeat apply strOr_nonempty; discriminate.
  - destruct tableName as [[n|t]|]; cbn; repeat apply strOr_nonempty; discriminate.
  - intros t own -> Hown. cbn. unfold strOr, nonEmpty in *.
    destruct (t_schema t) as [s|]; [|discriminate].
    destruct (String.eqb s ""); [discriminate|]. congruence.
  - intros Hschema Hown.
    assert (Hs : strOr schema "public" = "public").
    { unfold strOr, nonEmpty in *. destruct schema as [s|]; [|reflexivity].
      destruct (String.eqb s ""); [reflexivity|discriminate]. }
    destruct tableName as [[n|t]|]; cbn; rewrite ?Hs; try reflexivity.
    specialize (Hown t eq_refl). unfold strOr, nonEmpty in *.
    destruct (t_schema t) as [s|]; [|reflexivity].
    destruct (String.eqb s ""); [reflexivity|discriminate].
Qed.

(** X14: [describeTableQuery] describes the bare quoted table when no
    schema is given; with a schema, a dialect with schemas gets the
    quoted schema, a dot and the quoted table, and any other dialect one
    identifier made of the schema, the delimiter ([.] unless given) and
    the table. *)
Theorem describeTableQuery_schema `{E : Env} (tableName : string)
    (schema schemaDelimiter : option string) :
  tableName <> "" ->
  describeTableQuery tableName schema schemaDelimiter
  = Some ("DESCRIBE "
            +:+ match nonEmpty schema with
                | None => quoteIdentifier tableName false
                | Some s =>
                    if schemas supports
                    then quoteIdentifier s false +:+ "."
                           +:+ quoteIdentifier tableName false
                    else quoteIdentifier
                           (s +:+ strOr schemaDelimiter "." +:+ tableName) false
                end
            +:+ ";").
Proof.
  intros Hname. apply String.eqb_neq in Hname.
  unfold describeTableQuery, addSchema.
  cbn [sp_schema sp_tableName sp_schemaDelimiter sp_name].
  rewrite Hname. unfold nonEmpty.
  destruct schema as [s|]; [|reflexivity].
  destruct (String.eqb s "") eqn:Hs; [reflexivity|].
  unfold quoteTable. cbn [t_schema t_tableName t_delimiter]. rewrite Hs.
  destruct (schemas supports).
  - now rewrite !append_assoc.
  - assert (Hd : strOr (Some (strOr schemaDelimiter ".")) "."
                 = strOr schemaDelimiter ".").
    { unfold strOr. destruct schemaDelimiter as [d|]; [|reflexivity].
      destruct (String.eqb d "") eqn:Hd'; [reflexivity|]. now rewrite Hd'. }
    now rewrite Hd, !append_assoc.
Qed.

Lemma describeTableQuery_schema_witness :
  describeTableQuery (E := TestDialect.env) "users" (Some "archive") None
  = Some "DESCRIBE [archive.users];".
Proof.
  apply (describeTableQuery_schema (E := TestDialect.env) "users"
           (Some "archive") None).
  discriminate.
Defined.

Ltac some_eq Hq :=
  match type of Hq with
  | Some ?x = Some ?q =>
      let Hshape := fresh "Hshape" in
      assert (Hshape : q = x) by congruence;
      rewrite Hshape; clear Hq Hshape
  end.

(** X26: the statements for tables and transactions end with one [;]
    and hold no other semicolon when the table references and the name
    of the transaction hold none and the quoting of the dialect adds
    none. *)
Theorem table_statements_one_terminator `{E : Env} (before after : TableRef)
    (tableName : string) (schema schemaDelimiter : option string)
    (transaction : Transaction) (q : string) :
  CleanEnv E ->
  cleanb before = true -> cleanb after = true -> cleanb tableName = true ->
  cleanb schema = true -> cleanb schemaDelimiter = true ->
  cleanb (tx_name transaction) = true ->
  dropTableQuery before = Some q
  \/ dropSchema before = Some q
  \/ renameTableQuery before after = Some q
  \/ describeTableQuery tableName schema schemaDelimiter = Some q
  \/ startTransactionQuery transaction = q
  \/ commitTransactionQuery transaction = Some q
  \/ rollbackTransactionQuery transaction = q ->
  exists body, q = body +:+ ";" /\ Str.count ";" body = 0.
Proof.
  intros HE Hb Ha Hn Hs Hd Ht Hq.
  pose proof (clean_quoteTable HE before AsNone Hb eq_refl) as Hqb.
  pose proof (clean_quoteTable HE after AsNone Ha eq_refl) as Hqa.
  pose proof (clean_quoteIdentifier HE (tx_name transaction) true Ht) as Hqt.
  assert (Hbody : forall body, cleanb body = true ->
                    exists body', body +:+ ";" = body' +:+ ";"
                                  /\ Str.count ";" body' = 0)
    by (intros body Hbody; exists body; split; [reflexivity | now apply cleanS_count]).
  destruct Hq as [Hq|[Hq|[Hq|[Hq|[Hq|[Hq|Hq]]]]]].
  - unfold dropTableQuery in Hq.
    destruct (quoteTable before AsNone) as [t|]; [|discriminate].
    some_eq Hq. rewrite <- append_assoc. apply Hbody.
    norm_hyps. rewrite cleanS_append. now rewrite Hqb.
  - unfold dropSchema, dropTableQuery in Hq.
    destruct (quoteTable before AsNone) as [t|]; [|discriminate].
    some_eq Hq. rewrite <- append_assoc. apply Hbody.
    norm_hyps. rewrite cleanS_append. now rewrite Hqb.
  - unfold renameTableQuery in Hq.
    destruct (quoteTable before AsNone) as [b|]; [|discriminate].
    destruct (quoteTable after AsNone) as [a|]; [|discriminate].
    some_eq Hq. rewrite <- !append_assoc. apply Hbody.
    norm_hyps. rewrite !cleanS_append. now rewrite Hqb, Hqa.
  - unfold describeTableQuery in Hq.
    destruct (addSchema _) as [param|] eqn:Hparam; [|discriminate].
    assert (Hp : cleanb param = true).
    { unfold addSchema in Hparam.
      cbn [sp_schema sp_tableName sp_schemaDelimiter sp_name] in Hparam.
      pose proof (clean_nonEmpty schema Hs) as Hns.
      destruct (nonEmpty schema) as [s|];
        destruct (String.eqb tableName ""); try discriminate;
        injection Hparam as <-; try reflexivity; try exact Hn.
      change (cleanb (Some s)) with (cleanb s) in Hns.
      pose proof (clean_strOr schemaDelimiter "." Hd eq_refl) as Hdel.
      rewrite clean_TObj. unfold cleanb at 1. unfold Clean_TableObj.
      cbn [t_tableName t_schema t_delimiter t_as t_name].
      change (cleanb (Some s)) with (cleanb s).
      change (cleanb (Some (strOr schemaDelimiter ".")))
        with (cleanb (strOr schemaDelimiter ".")).
      now rewrite Hn, Hns, Hdel. }
    pose proof (clean_quoteTable HE param AsNone Hp eq_refl) as Hqp.
    destruct (quoteTable param AsNone) as [t|]; [|discriminate].
    some_eq Hq. rewrite <- append_assoc. apply Hbody.
    norm_hyps. rewrite cleanS_append. now rewrite Hqp.
  - subst q. unfold startTransactionQuery.
    destruct (tx_parent transaction).
    + rewrite <- append_assoc. apply Hbody. rewrite cleanS_append. now rewrite Hqt.
    + exists "START TRANSACTION". now split.
  - unfold commitTransactionQuery in Hq.
    destruct (tx_parent transaction); [discriminate|].
    some_eq Hq. exists "COMMIT". now split.
  - subst q. unfold rollbackTransactionQuery.
    destruct (tx_parent transaction).
    + rewrite <- append_assoc. apply Hbody. rewrite cleanS_append. now rewrite Hqt.
    + exists "ROLLBACK". now split.
Qed.

Lemma table_statements_one_terminator_witness :
  exists body,
    "ALTER TABLE [users] RENAME TO [archive.people];" = body +:+ ";"
    /\ Str.count ";" body = 0.
Proof.
  apply (table_statements_one_terminator (E := TestDialect.env)
           (TName "users")
           (TObj (mkTableObj "people" (Some "archive") None None None))
           "users" None None (mkTransaction None "t1")
           "ALTER TABLE [users] RENAME TO [archive.people];");
    try reflexivity.
  - apply (TestDialect_clean (fun _ _ _ => None)). reflexivity.
  - right. right. left. reflexivity.
Defined.

(* ================================================================= *)
(** ** Inserting many rows *)

Lemma existsb_eqb_In key (l : list string) :
  existsb (String.eqb key) l = true <-> List.In key l.
Proof.
  rewrite existsb_exists. split.
  - intros (x & Hx & Heq). apply String.eqb_eq in Heq. now subst.
  - intros Hin. exists key. split; [exact Hin | apply String.eqb_refl].
Qed.

Lemma NoDup_snoc (l : list string) key :
  List.NoDup l -> ~ List.In key l -> List.NoDup (l ++ [key]).
Proof.
  intros Hnd Hnin. induction Hnd as [|x l Hx Hnd IH]; cbn.
  - constructor; [intros []|constructor].
  - constructor.
    + rewrite in_app_iff. intros [Hin|[ -> |[]]]; [now apply Hx|].
      apply Hnin. now left.
    + apply IH. intros Hin. apply Hnin. now right.
Qed.

Section BulkProperties.

Context {E : Env}.
Variable bulkCaps : BulkCaps.
Variable rawAttributes : list (string * Attribute).

Lemma collectKeys_spec (keys : list string) : forall acc,
  List.NoDup (fst acc) ->
  let acc' := fold_left (collectKey rawAttributes) keys acc in
  List.NoDup (fst acc')
  /\ (forall key, List.In key (fst acc')
                  <-> List.In key (fst acc) \/ List.In key keys)
  /\ (forall key, List.In key (snd acc')
                  <-> List.In key (snd acc)
                      \/ (List.In key keys
                          /\ isAutoIncrement rawAttributes key = true)).
Proof.
  induction keys as [|k keys IH]; intros acc Hnd; cbn [fold_left].
  - repeat split; auto; cbn [List.In]; tauto.
  - specialize (IH (collectKey rawAttributes acc k)).
    assert (Hfst : List.NoDup (fst (collectKey rawAttributes acc k))
                   /\ forall key, List.In key (fst (collectKey rawAttributes acc k))
                                  <-> List.In key (fst acc) \/ key = k).
    { unfold collectKey. cbn [fst].
      destruct (existsb (String.eqb k) (fst acc)) eqn:Hex.
      - apply existsb_eqb_In in Hex. split; [exact Hnd|].
        intros key. split; [auto|]. intros [?| ->]; assumption.
      - split.
        + apply NoDup_snoc; [exact Hnd|]. intros Hin.
          apply existsb_eqb_In in Hin. congruence.
        + intros key. rewrite in_app_iff. cbn [List.In]. intuition. }
    assert (Hsnd : forall key, List.In key (snd (collectKey rawAttributes acc k))
                               <-> List.In key (snd acc)
                                   \/ (key = k
                                       /\ isAutoIncrement rawAttributes key = true)).
    { unfold collectKey. cbn [snd]. intros key.
      destruct (isAutoIncrement rawAttributes k) eqn:Hk.
      - rewrite in_app_iff. cbn [List.In]. split.
        + intros [?|[ <- |[]]]; [now left | right; now split].
        + intros [?|[ -> _]]; [now left | right; now left].
      - split; [auto|]. intros [?|[ -> Hauto]]; [assumption|congruence]. }
    destruct Hfst as [Hnd1 Hfst].
    destruct (IH Hnd1) as (Hnd2 & Hcols & Hserials).
    split; [exact Hnd2|]. split.
    + intros key. rewrite Hcols, Hfst. cbn [List.In]. intuition.
    + intros key. rewrite Hserials, Hsnd. cbn [List.In]. intuition.
Qed.

Lemma collectRows_spec (rows : list object) : forall acc,
  List.NoDup (fst acc) ->
  let acc' :=
    fold_left (fun acc attrValueHash =>
                 fold_left (collectKey rawAttributes) (Obj.keys attrValueHash) acc)
              rows acc in
  List.NoDup (fst acc')
  /\ (forall key, List.In key (fst acc')
                  <-> List.In key (fst acc)
                      \/ exists row, List.In row rows /\ List.In key (Obj.keys row))
  /\ (forall key, List.In key (snd acc')
                  <-> List.In key (snd acc)
                      \/ ((exists row, List.In row rows
                                       /\ List.In key (Obj.keys row))
                          /\ isAutoIncrement rawAttributes key = true)).
Proof.
  induction rows as [|row rows IH]; intros acc Hnd; cbn [fold_left].
  - repeat split; auto; cbn [List.In]; firstorder.
  - destruct (collectKeys_spec (Obj.keys row) acc Hnd) as (Hnd1 & Hc1 & Hs1).
    destruct (IH _ Hnd1) as (Hnd2 & Hc2 & Hs2).
    split; [exact Hnd2|]. split.
    + intros key. rewrite Hc2, Hc1. cbn [List.In]. split.
      * intros [[?|?]|(r & Hr & Hk)]; [now left | right; exists row; auto |
                                       right; exists r; auto].
      * intros [?|(r & [ <- |Hr] & Hk)]; [left; now left | left; now right |
                                        right; exists r; auto].
    + intros key. rewrite Hs2, Hs1. cbn [List.In]. split.
      * intros [[?|[? ?]]|[(r & Hr & Hk) ?]];
          [now left | right; split; [exists row; auto | assumption] |
           right; split; [exists r; auto | assumption]].
      * intros [?|[(r & [ <- |Hr] & Hk) ?]];
          [left; now left | left; right; now split |
           right; split; [exists r; auto | assumption]].
Qed.

(** X15: the column list of [bulkInsertQuery] holds every key of every
    row, each once, and nothing else. *)
Theorem bulkInsertQuery_columns (attrValueHashes : list object) :
  List.NoDup (fst (collectAttributes rawAttributes attrValueHashes))
  /\ forall key,
       List.In key (fst (collectAttributes rawAttributes attrValueHashes))
       <-> exists row, List.In row attrValueHashes
                       /\ List.In key (Obj.keys row).
Proof.
  unfold collectAttributes.
  destruct (collectRows_spec attrValueHashes ([], [])) as (Hnd & Hcols & _);
    [constructor|].
  split; [exact Hnd|]. intros key. rewrite Hcols. cbn [fst List.In]. tauto.
Qed.

Lemma mapM_length {A B} (f : A -> M B) l : forall (h h' : heap) bs,
  mapM f l h = Ret bs h' -> length bs = length l.
Proof.
  induction l as [|a l IH]; intros h h' bs; cbn [mapM].
  - unfold ret. now intros [= <- _].
  - intros Hrun. apply bind_inv in Hrun as (b & h1 & _ & Hrun).
    apply bind_inv in Hrun as (bs' & h2 & Hrest & Hrun).
    unfold ret in Hrun. injection Hrun as <- _. cbn [length].
    now rewrite (IH _ _ _ Hrest).
Qed.

Lemma mapM_ofOption_inv {A B} (f : A -> option B) l :
  forall (h h' : heap) bs,
  mapM (fun a => ofOption (f a)) l h = Ret bs h' ->
  h' = h /\ Forall2 (fun a b => f a = Some b) l bs.
Proof.
  induction l as [|a l IH]; intros h h' bs; cbn [mapM].
  - unfold ret. intros [= <- <-]. split; [reflexivity|constructor].
  - intros Hrun. apply bind_inv in Hrun as (b & h1 & Hb & Hrun).
    apply bind_inv in Hrun as (bs' & h2 & Hrest & Hrun).
    unfold ret in Hrun. injection Hrun as <- <-.
    unfold ofOption in Hb. destruct (f a) as [b'|] eqn:Hfa; [|discriminate].
    unfold ret in Hb. injection Hb as <- <-.
    destruct (IH _ _ _ Hrest) as [-> Hall].
    split; [reflexivity|]. constructor; [exact Hfa|exact Hall].
Qed.

Lemma bulkTuple_result fuel allAttributes serials row (h h' : heap) tuple :
  bulkTuple bulkCaps fuel rawAttributes allAttributes serials row h
  = Ret tuple h' ->
  exists values parts,
    bulkValues bulkCaps fuel rawAttributes allAttributes serials row h
    = Ret values h'
    /\ length values = length allAttributes
    /\ Forall2 (fun v part => toElement v = Some part) values parts
    /\ tuple = "(" +:+ Str.join "," parts +:+ ")".
Proof.
  unfold bulkTuple, joinVals. intros Hrun.
  apply bind_inv in Hrun as (values & h1 & Hvalues & Hrun).
  apply bind_inv in Hrun as (s & h2 & Hs & Hrun).
  apply bind_inv in Hs as (parts & h3 & Hparts & Hs).
  apply mapM_ofOption_inv in Hparts as [-> Hparts].
  unfold ret in Hs, Hrun. injection Hs as <- <-. injection Hrun as <- <-.
  exists values, parts. split; [exact Hvalues|].
  split; [exact (mapM_length _ _ _ _ _ Hvalues)|].
  split; [exact Hparts|reflexivity].
Qed.

Lemma bulkTuples_result fuel allAttributes serials (rows : list object) :
  forall (h h' : heap) tuples,
  mapM (bulkTuple bulkCaps fuel rawAttributes allAttributes serials) rows h
  = Ret tuples h' ->
  tuplesOf bulkCaps fuel rawAttributes allAttributes serials rows tuples h h'.
Proof.
  induction rows as [|row rows IH]; intros h h1 tuples; cbn [mapM].
  - unfold ret. intros [= <- <-]. reflexivity.
  - intros Hrun. apply bind_inv in Hrun as (tuple & h2 & Htuple & Hrun).
    apply bind_inv in Hrun as (rest & h3 & Hrest & Hrun).
    unfold ret in Hrun. injection Hrun as <- <-.
    apply bulkTuple_result in Htuple
      as (values & parts & Hvalues & Hlen & Hparts & ->).
    cbn [tuplesOf]. exists values, parts, h2.
    repeat split; try assumption. exact (IH _ _ _ Hrest).
Qed.

(** X16: the statement of [bulkInsertQuery] names the quoted columns
    once and has one tuple for each row, in the order of the rows.  The
    tuple of a row is the parenthesised, comma-separated list of the
    values computed for that row ([bulkValues]: for each column the
    escaped value of the row, or the unescaped value or [DEFAULT] for a
    serial column), one value for each column of the column list, a row
    without the key of a column included; the store left by one row is
    the store the next row starts from, and the store left by the last
    row is the store the call returns. *)
Theorem bulkInsertQuery_rectangular (fuel : nat) (tableName : TableRef)
    (attrValueHashes : list object) (options : BulkInsertOptions)
    (h h' : heap) (q : string) :
  bulkInsertQuery bulkCaps fuel tableName attrValueHashes options
    rawAttributes h = Ret q h' ->
  exists table tuples tail,
    quoteTable tableName AsNone = Some table
    /\ q = "INSERT"
           +:+ (if bo_ignoreDuplicates options
                then ignoreDuplicates bulkCaps else "")
           +:+ " INTO " +:+ table +:+ " ("
           +:+ Str.join ","
                 (map (fun attr => quoteIdentifier attr false)
                      (fst (collectAttributes rawAttributes attrValueHashes)))
           +:+ ") VALUES " +:+ Str.join "," tuples +:+ tail +:+ ";"
    /\ tuplesOf bulkCaps fuel rawAttributes
         (fst (collectAttributes rawAttributes attrValueHashes))
         (snd (collectAttributes rawAttributes attrValueHashes))
         attrValueHashes tuples h h'.
Proof.
  unfold bulkInsertQuery.
  destruct (collectAttributes rawAttributes attrValueHashes)
    as [allAttributes serials] eqn:Hcollect.
  intros Hrun.
  apply bind_inv in Hrun as (tuples & h1 & Htuples & Hrun).
  apply bind_inv in Hrun as (table & h2 & Htable & Hrun).
  unfold ofOption in Htable.
  destruct (quoteTable tableName AsNone) as [t|] eqn:Hq; [|discriminate].
  unfold ret in Htable, Hrun. injection Htable as <- <-.
  injection Hrun as <- <-.
  exists t, tuples.
  eexists. split; [|split].
  - reflexivity.
  - cbn [fst]. do 7 f_equal. rewrite append_assoc. reflexivity.
  - cbn [fst snd]. exact (bulkTuples_result _ _ _ _ _ _ _ Htuples).
Qed.

(** X17: under [bulkDefault], a column that is an auto-increment column
    of the model never goes through [escape]: a falsy value, a missing
    one included, is written as [DEFAULT], and any other value is put
    into the tuple as it is, unescaped. *)
Theorem bulkInsertQuery_serial_unescaped (fuel : nat)
    (attrValueHashes : list object) (attrValueHash : object) (key : string)
    (h : heap) :
  bulkDefault bulkCaps = true ->
  isAutoIncrement rawAttributes key = true ->
  (exists row, List.In row attrValueHashes /\ List.In key (Obj.keys row)) ->
  bulkValue bulkCaps fuel rawAttributes
    (snd (collectAttributes rawAttributes attrValueHashes)) attrValueHash key h
  = Ret (if truthy (Obj.get key attrValueHash)
         then Obj.get key attrValueHash else JStr "DEFAULT") h.
Proof.
  intros Hcaps Hauto Hrow. unfold bulkValue. rewrite Hcaps. cbn [andb].
  assert (Hin : List.In key (snd (collectAttributes rawAttributes attrValueHashes))).
  { unfold collectAttributes.
    destruct (collectRows_spec attrValueHashes ([], [])) as (_ & _ & Hserials);
      [constructor|].
    apply Hserials. right. now split. }
  apply existsb_eqb_In in Hin. now rewrite Hin.
Qed.

(** X18: [bulkInsertQuery] ends the statement with [RETURNING *] whenever
    rows are asked back and the dialect has any entry for returned
    values, also one that returns rows through OUTPUT only. *)
Theorem bulkInsertQuery_returning (fuel : nat) (tableName : TableRef)
    (attrValueHashes : list object) (options : BulkInsertOptions)
    (h h' : heap) (q : string) (rv : ReturnValues) :
  returnValues supports = Some rv ->
  bo_returning options = true ->
  bulkInsertQuery bulkCaps fuel tableName attrValueHashes options
    rawAttributes h = Ret q h' ->
  exists body, q = body +:+ " RETURNING *;".
Proof.
  intros Hrv Hret. unfold bulkInsertQuery.
  destruct (collectAttributes rawAttributes attrValueHashes)
    as [allAttributes serials].
  intros Hrun.
  apply bind_inv in Hrun as (tuples & h1 & _ & Hrun).
  apply bind_inv in Hrun as (table & h2 & _ & Hrun).
  rewrite Hrv, Hret in Hrun. cbn [isSome andb] in Hrun.
  unfold ret in Hrun.
  apply (f_equal (fun o => match o with Ret a _ => a | _ => "" end)) in Hrun.
  cbv beta iota in Hrun. subst q.
  eexists.
  change (" RETURNING *;") with (" RETURNING *" +:+ ";").
  rewrite <- !append_assoc. reflexivity.
Qed.

(** X19: for an empty list of rows [bulkInsertQuery] still writes a
    statement, with an empty column list and no tuple. *)
Theorem bulkInsertQuery_no_rows (fuel : nat) (tableName : TableRef)
    (rawAttributes0 : list (string * Attribute)) (h : heap) (table : string) :
  quoteTable tableName AsNone = Some table ->
  bulkInsertQuery bulkCaps fuel tableName [] (mkBulkInsertOptions false None false)
    rawAttributes0 h
  = Ret ("INSERT INTO " +:+ table +:+ " () VALUES ;") h.
Proof.
  intros Htable. unfold bulkInsertQuery. cbn [collectAttributes fold_left mapM].
  cbv [bind ret ofOption]. rewrite Htable.
  cbn [bo_ignoreDuplicates bo_updateOnDuplicate bo_returning map Str.join
       String.concat].
  rewrite andb_false_r.
  destruct (updateOnDuplicate bulkCaps); reflexivity.
Qed.

End BulkProperties.

Lemma bulkInsertQuery_rectangular_witness :
  exists table tuples tail,
    quoteTable (E := TestDialect.env) (TName "users") AsNone = Some table
    /\ "INSERT INTO [users] ([id],[name],[age]) VALUES (DEFAULT,'a',NULL),(7,'b',3);"
       = "INSERT" +:+ "" +:+ " INTO " +:+ table +:+ " ("
           +:+ Str.join ","
                 (map (fun attr => quoteIdentifier (Env := TestDialect.env) attr false)
                      (fst (collectAttributes Examples.serialId
                              MoreExamples.twoRows)))
           +:+ ") VALUES " +:+ Str.join "," tuples +:+ tail +:+ ";"
    /\ tuplesOf (E := TestDialect.env) MoreExamples.defaultingBulk 2
         Examples.serialId
         (fst (collectAttributes Examples.serialId MoreExamples.twoRows))
         (snd (collectAttributes Examples.serialId MoreExamples.twoRows))
         MoreExamples.twoRows tuples [] [].
Proof.
  apply (bulkInsertQuery_rectangular (E := TestDialect.env)
           MoreExamples.defaultingBulk Examples.serialId 2 (TName "users")
           MoreExamples.twoRows MoreExamples.plainBulk [] []).
  reflexivity.
Defined.

Lemma bulkInsertQuery_serial_unescaped_witness :
  bulkValue (E := TestDialect.env) MoreExamples.defaultingBulk 2
    Examples.serialId
    (snd (collectAttributes Examples.serialId MoreExamples.twoRows))
    [("name", JStr "b"); ("age", JNum 3); ("id", JStr "7")] "id" []
  = Ret (JStr "7") [].
Proof.
  apply (bulkInsertQuery_serial_unescaped (E := TestDialect.env)
           MoreExamples.defaultingBulk Examples.serialId 2 MoreExamples.twoRows
           [("name", JStr "b"); ("age", JNum 3); ("id", JStr "7")] "id" []).
  - reflexivity.
  - reflexivity.
  - exists [("id", JNull); ("name", JStr "a")]. split; left; reflexivity.
Defined.

Lemma bulkInsertQuery_returning_witness :
  exists body,
    "INSERT INTO [users] ([id],[name],[age]) VALUES (NULL,'a',NULL),('7','b',3) RETURNING *;"
    = body +:+ " RETURNING *;".
Proof.
  apply (bulkInsertQuery_returning (E := IdentityDialect.env)
           MoreExamples.ignoringBulk Examples.serialId 2 (TName "users")
           MoreExamples.twoRows (mkBulkInsertOptions false None true) [] [] _
           (mkReturnValues false true)); reflexivity.
Defined.

Lemma bulkInsertQuery_no_rows_witness :
  bulkInsertQuery (E := TestDialect.env) MoreExamples.ignoringBulk 2
    (TName "users") [] (mkBulkInsertOptions false None false)
    Examples.serialId []
  = Ret "INSERT INTO [users] () VALUES ;" [].
Proof.
  apply (bulkInsertQuery_no_rows (E := TestDialect.env)
           MoreExamples.ignoringBulk 2 (TName "users") Examples.serialId []
           "[users]").
  reflexivity.
Defined.

(* ================================================================= *)
(** ** Indexes *)

Section IndexProperties.

Context {E : Env}.
Variable indexEnv : IndexEnv.

Lemma fieldsSql_names fuel (names : list string) rest (h : heap) :
  fieldsSql indexEnv fuel (map FName names ++ rest) h
  = match fieldsSql indexEnv fuel rest h with
    | Ret (inl (sqls, fields)) h' =>
        Ret (inl (map (fun n => JStr (quoteIdentifier n false)) names ++ sqls,
                  map FName names ++ fields)) h'
    | other => other
    end.
Proof.
  induction names as [|n names IH]; cbn [map app].
  - destruct (fieldsSql indexEnv fuel rest h) as [[[sqls fields]|f] h'|e h'| |];
      reflexivity.
  - cbn [fieldsSql fieldSql]. unfold bind at 1, ret at 1. unfold bind at 1.
    rewrite IH.
    destruct (fieldsSql indexEnv fuel rest h) as [[[sqls fields]|f] h'|e h'| |];
      reflexivity.
Qed.

(** X20: a field object with neither [attribute] nor [name] makes
    [addIndexQuery] raise the error that names the field, whatever the
    options are, once the fields before it, here column names, are
    compiled; the store is left as it was. *)
Theorem addIndexQuery_field_without_name (fuel : nat) (tableName : TableRef)
    (names : list string) (f : IndexFieldObj) (rest : list IndexField)
    (options : option IndexOptions) (rawTablename : option string) (h : heap) :
  nonEmpty (f_attribute f) = None ->
  nonEmpty (f_name f) = None ->
  addIndexQuery indexEnv fuel tableName
    (inl (map FName names ++ FObj f :: rest)) options rawTablename h
  = Ret (FieldWithoutName f) h.
Proof.
  intros Hattr Hname. unfold addIndexQuery.
  set (o := match options with Some o => o | None => noIndexOptions end).
  assert (Hfields : forall o', x_fields (setFields o' (Some (map FName names ++ FObj f :: rest)))
                               = Some (map FName names ++ FObj f :: rest))
    by reflexivity.
  assert (Hkeep : forall (o' : IndexOptions) (fields : option (list IndexField)),
             x_fields o' = fields ->
             x_fields (match nonEmpty (x_indexName o') with
                       | Some n => setName o' (Some n)
                       | None => o'
                       end) = fields)
    by (intros o' fields Ho'; now destruct (nonEmpty (x_indexName o'))).
  assert (Hkeep2 : forall (o' : IndexOptions) (fields : option (list IndexField)),
             x_fields o' = fields ->
             x_fields (match nonEmpty (x_indicesType o') with
                       | Some t => setType o' (Some t)
                       | None => o'
                       end) = fields)
    by (intros o' fields Ho'; now destruct (nonEmpty (x_indicesType o'))).
  assert (Hkeep3 : forall (o' : IndexOptions) (fields : option (list IndexField)),
             x_fields o' = fields ->
             x_fields (match orElse (nonEmpty (x_indexType o'))
                                    (nonEmpty (x_method o')) with
                       | Some u => setUsing o' (Some u)
                       | None => o'
                       end) = fields)
    by (intros o' fields Ho';
        now destruct (orElse (nonEmpty (x_indexType o')) (nonEmpty (x_method o')))).
  cbv zeta.
  rewrite (Hkeep3 _ _ (Hkeep2 _ _ (Hkeep _ _ (Hfields o)))).
  unfold bind at 1, ret at 1. unfold bind at 1.
  rewrite fieldsSql_names. cbn [fieldsSql fieldSql].
  rewrite Hattr, Hname. reflexivity.
Qed.

Ltac index_fields :=
  cbn [x_fields x_name x_indexName x_type x_indicesType x_using x_indexType
       x_method x_prefix x_unique x_concurrently x_operator x_parser x_where
       setName setType setUsing].

(** X21: the legacy spellings of the index options go before the
    current ones: with a non-empty [indexName] the value of [name] is
    never read, with a non-empty [indicesType] the value of [type] is
    never read, and with a non-empty [indexType] or [method] the value
    of [using] is never read. *)
Theorem addIndexQuery_legacy_spellings (fuel : nat) (tableName : TableRef)
    (options : IndexOptions) (rawTablename : option string) (h : heap) :
  (nonEmpty (x_indexName options) <> None ->
   forall name,
     addIndexQuery indexEnv fuel tableName (inr options) None rawTablename h
     = addIndexQuery indexEnv fuel tableName (inr (setName options name))
         None rawTablename h)
  /\ (nonEmpty (x_indicesType options) <> None ->
      forall type,
        addIndexQuery indexEnv fuel tableName (inr options) None rawTablename h
        = addIndexQuery indexEnv fuel tableName (inr (setType options type))
            None rawTablename h)
  /\ (orElse (nonEmpty (x_indexType options)) (nonEmpty (x_method options))
      <> None ->
      forall method,
        addIndexQuery indexEnv fuel tableName (inr options) None rawTablename h
        = addIndexQuery indexEnv fuel tableName (inr (setUsing options method))
            None rawTablename h).
Proof.
  destruct options as [fields name indexName type indicesType using_ indexType
                         method prefix unique concurrently operator parser w].
  unfold addIndexQuery. cbv zeta. index_fields.
  repeat split; intros Hlegacy new.
  - destruct (nonEmpty indexName) eqn:Hn; [|congruence]. index_fields.
    destruct (nonEmpty indicesType) eqn:Ht; index_fields;
      destruct (orElse (nonEmpty indexType) (nonEmpty method)) eqn:Hu;
      index_fields; reflexivity.
  - destruct (nonEmpty indicesType) eqn:Ht; [|congruence].
    destruct (nonEmpty indexName) eqn:Hn; index_fields; rewrite ?Ht;
      index_fields;
      destruct (orElse (nonEmpty indexType) (nonEmpty method)) eqn:Hu;
      index_fields; reflexivity.
  - destruct (orElse (nonEmpty indexType) (nonEmpty method)) eqn:Hu;
      [|congruence].
    destruct (nonEmpty indexName) eqn:Hn; index_fields;
      destruct (nonEmpty indicesType) eqn:Ht; index_fields; rewrite ?Hu;
      index_fields; reflexivity.
Qed.

Lemma nameIndex_named rawTablename index_ name (h : heap) :
  x_name index_ = Some name -> nameIndex indexEnv rawTablename index_ h = Ret index_ h.
Proof. intros Hname. unfold nameIndex. now rewrite Hname. Qed.

Lemma nameIndex_names rawTablename index_ (h h' : heap) index' :
  nameIndex indexEnv rawTablename index_ h = Ret index' h' ->
  h' = h
  /\ (exists name, x_name index' = Some name)
  /\ (forall name, x_name index_ = Some name -> index' = index_).
Proof.
  unfold nameIndex. destruct (x_name index_) as [name|] eqn:Hname.
  - unfold ret. intros [= <- <-]. repeat split; eauto.
  - intros Hrun. apply bind_inv in Hrun as (fields & h1 & Hfields & Hrun).
    apply bind_inv in Hrun as (names & h2 & Hnames & Hrun).
    unfold ret in Hrun. injection Hrun as <- <-.
    assert (h1 = h) as ->.
    { destruct (x_fields index_); [|discriminate].
      unfold ret in Hfields. congruence. }
    assert (h2 = h) as ->.
    { clear -Hnames. revert h names Hnames.
      induction fields as [|f fields IH]; intros h names; cbn [mapM].
      - unfold ret. now intros [= _ <-].
      - intros Hrun. apply bind_inv in Hrun as (n & h1 & Hn & Hrun).
        apply bind_inv in Hrun as (ns & h3 & Hns & Hrun).
        unfold ret in Hrun. injection Hrun as _ <-.
        apply IH in Hns as ->.
        destruct f as [s|[]|o]; cbn in Hn; unfold ret, stuck in Hn; congruence. }
    repeat split; [eexists; reflexivity | discriminate].
Qed.

(** X22: [nameIndexes] gives every index a name and leaves an index
    that has one as it was, so that naming a second time, for whatever
    table, changes nothing; the store is not touched. *)
Theorem nameIndexes_idempotent (indexes indexes' : list IndexOptions)
    (rawTablename other : string) (h h' : heap) :
  nameIndexes indexEnv indexes rawTablename h = Ret indexes' h' ->
  h' = h
  /\ Forall2 (fun index_ index' =>
                (exists name, x_name index' = Some name)
                /\ (forall name, x_name index_ = Some name -> index' = index_))
             indexes indexes'
  /\ nameIndexes indexEnv indexes' other h = Ret indexes' h.
Proof.
  unfold nameIndexes. revert indexes' h h'.
  induction indexes as [|index_ indexes IH]; intros indexes' h h'; cbn [mapM].
  - unfold ret. intros [= <- <-]. repeat split; constructor.
  - intros Hrun. apply bind_inv in Hrun as (index' & h1 & Hindex & Hrun).
    apply bind_inv in Hrun as (rest & h2 & Hrest & Hrun).
    unfold ret in Hrun. injection Hrun as <- <-.
    apply nameIndex_names in Hindex as (-> & (name & Hname) & Hkeep).
    apply IH in Hrest as (-> & Hall & Hagain).
    split; [reflexivity|]. split.
    + constructor; [|exact Hall]. split; [now exists name | exact Hkeep].
    + cbn [mapM]. unfold bind at 1.
      rewrite (nameIndex_named _ _ _ _ Hname). unfold bind at 1.
      now rewrite Hagain.
Qed.

Lemma normalisePrefix_chars (prefix : string) :
  Forall (fun c => c <> "."%char /\ c <> "'"%char /\ c <> ascii_of_nat 34)
         (list_ascii_of_string (normalisePrefix prefix)).
Proof.
  unfold normalisePrefix. rewrite list_ascii_of_string_of_list_ascii.
  apply List.Forall_forall. intros c Hc. apply filter_In in Hc as [Hin Hkeep].
  apply negb_true_iff, orb_false_iff in Hkeep as [Hd Hs].
  apply Ascii.eqb_neq in Hd, Hs. repeat split; auto.
  apply in_map_iff in Hin as (d & Hd' & _).
  destruct (Ascii.eqb d ".") eqn:Hdot; [subst c; discriminate|].
  subst c. now apply Ascii.eqb_neq.
Qed.

(** X23: the prefix from which [addIndexQuery] builds the name of an
    index holds no dot and no single or double quote, and a prefix
    without such characters is taken as it is. *)
Theorem normalisePrefix_spec (prefix : string) :
  Forall (fun c => c <> "."%char /\ c <> "'"%char /\ c <> ascii_of_nat 34)
         (list_ascii_of_string (normalisePrefix prefix))
  /\ (Forall (fun c => c <> "."%char /\ c <> "'"%char /\ c <> ascii_of_nat 34)
             (list_ascii_of_string prefix) ->
      normalisePrefix prefix = prefix).
Proof.
  split; [apply normalisePrefix_chars|].
  intros Hclean. unfold normalisePrefix.
  rewrite <- (string_of_list_ascii_of_string prefix) at 2. f_equal.
  induction (list_ascii_of_string prefix) as [|c l IH]; [reflexivity|].
  inversion Hclean as [|? ? (Hdot & Hs & Hd) Hrest]; subst.
  cbn [map List.filter].
  apply Ascii.eqb_neq in Hdot, Hs, Hd. rewrite Hdot, Hd, Hs. cbn [orb negb].
  now rewrite IH.
Qed.

Lemma compact_In (ind : list (option string)) token :
  token <> "" -> List.In (Some token) ind -> List.In token (compact ind).
Proof.
  intros Hne Hin. unfold compact. apply in_flat_map. exists (Some token).
  split; [exact Hin|]. cbn [nonEmpty]. apply String.eqb_neq in Hne.
  rewrite Hne. now left.
Qed.

Lemma join_head (head : string) (tokens : list string) :
  tokens <> [] ->
  exists rest, Str.join " " (head :: tokens) = head +:+ " " +:+ rest.
Proof. intros Hne. exists (Str.join " " tokens). now apply join_cons_nonempty. Qed.

(** X25: the statement of [addIndexQuery] starts with [ALTER TABLE] for
    a dialect that adds indexes through ALTER and with [CREATE] for any
    other, each followed by a blank. *)
Theorem addIndexQuery_statement_head (fuel : nat) (tableName : TableRef)
    (attributes : list IndexField + IndexOptions)
    (options : option IndexOptions) (rawTablename : option string)
    (h h' : heap) (sql : string) :
  addIndexQuery indexEnv fuel tableName attributes options rawTablename h
  = Ret (IndexSql sql) h' ->
  exists rest,
    sql = (if indexViaAlter indexEnv then "ALTER TABLE" else "CREATE")
            +:+ " " +:+ rest.
Proof.
  unfold addIndexQuery. cbv zeta. intros Hrun.
  apply bind_inv in Hrun as (fields & h1 & _ & Hrun).
  apply bind_inv in Hrun as (compiled & h2 & _ & Hrun).
  destruct compiled as [[sqls fields']|f]; [|unfold ret in Hrun; discriminate].
  apply bind_inv in Hrun as (options1 & h3 & _ & Hrun).
  apply bind_inv in Hrun as (options2 & h4 & _ & Hrun).
  apply bind_inv in Hrun as (table & h5 & _ & Hrun).
  apply bind_inv in Hrun as (name & h6 & _ & Hrun).
  apply bind_inv in Hrun as (joined & h7 & _ & Hrun).
  apply bind_inv in Hrun as (where_ & h8 & _ & Hrun).
  unfold ret in Hrun. injection Hrun as <- _.
  assert (Hcons : forall token ind,
             token <> "" -> compact (Some token :: ind) = token :: compact ind).
  { intros token ind Hne. unfold compact. cbn [flat_map nonEmpty].
    apply String.eqb_neq in Hne. now rewrite Hne. }
  assert (Hnonempty : forall token ind,
             token <> "" -> List.In (Some token) ind -> compact ind <> []).
  { intros token ind Hne Hin Heq.
    pose proof (compact_In ind token Hne Hin) as Hc. now rewrite Heq in Hc. }
  destruct (indexViaAlter indexEnv); cbn [app]; rewrite Hcons by discriminate;
    apply join_head.
  - apply (Hnonempty "ADD"); [discriminate | cbn; auto].
  - apply (Hnonempty "INDEX"); [discriminate | cbn; auto].
Qed.

End IndexProperties.

Lemma addIndexQuery_field_without_name_witness :
  addIndexQuery (E := TestDialect.env) MoreExamples.indexEnv 3 (TName "users")
    (inl (map FName ["name"] ++ FObj MoreExamples.nameless :: [FName "x"]))
    None (Some "users") []
  = Ret (FieldWithoutName MoreExamples.nameless) [].
Proof.
  apply (addIndexQuery_field_without_name (E := TestDialect.env)
           MoreExamples.indexEnv 3 (TName "users") ["name"]
           MoreExamples.nameless [FName "x"] None (Some "users") []);
    reflexivity.
Defined.

Lemma nameIndexes_idempotent_witness :
  [] = @nil object
  /\ Forall2 (fun index_ index' =>
                (exists name, x_name index' = Some name)
                /\ (forall name, x_name index_ = Some name -> index' = index_))
             [setFields noIndexOptions (Some [FName "name"; FObj MoreExamples.byEmail])]
             [setName
                (setFields noIndexOptions
                   (Some [FName "name"; FObj MoreExamples.byEmail]))
                (Some "users_name_email")]
  /\ nameIndexes MoreExamples.indexEnv
       [setName
          (setFields noIndexOptions
             (Some [FName "name"; FObj MoreExamples.byEmail]))
          (Some "users_name_email")] "posts" []
     = Ret [setName
              (setFields noIndexOptions
                 (Some [FName "name"; FObj MoreExamples.byEmail]))
              (Some "users_name_email")] [].
Proof.
  apply (nameIndexes_idempotent MoreExamples.indexEnv
           [setFields noIndexOptions (Some [FName "name"; FObj MoreExamples.byEmail])]
           _ "users" "posts" [] []).
  reflexivity.
Defined.

Lemma addIndexQuery_statement_head_witness :
  exists rest,
    "ALTER TABLE [users] CONCURRENTLY ADD UNIQUE INDEX [by_mail] USING btree ([name], [email] DESC) WHERE [active] = true"
    = "ALTER TABLE" +:+ " " +:+ rest.
Proof.
  apply (addIndexQuery_statement_head (E := TestDialect.env)
           MoreExamples.alteringEnv 3 (TName "users")
           (inl [FName "name"; FObj MoreExamples.byEmail])
           (Some (mkIndexOptions None (Some "old") (Some "by_mail")
                    (Some "unique") None None (Some "btree") None None false
                    true None None (JRef 0)))
           None [[("active", JBool true)]] [[("active", JBool true)]]).
  reflexivity.
Defined.
